(* ===== verification/_CoqProject ===== *)
-Q . S2P
Prelude.v
OrdContainers.v
Endian.v
StringPiece.v
Buffer.v
HttpRequest.v
HttpContext.v
Channel.v
Poller.v
EPollPoller.v
PollPoller.v
Format.v
Timestamp.v
TimerQueue.v
ZeroCopier.v
TcpConnection.v
Reactor.v
HttpResponse.v
HttpServer.v
HttpConnection.v
Date.v
Timezone.v
Connector.v
LogStream.v
LogLine.v
AsyncLogging.v
Deques.v
ReactorThreadPool.v
Acceptor.v
TcpServer.v
InetAddress.v
TcpClient.v
LogFile.v
Mutex.v
Threads.v
TaskDeque.v
ConnView.v
ConnServer.v
ConnClient.v
ProcessInfo.v
ZlibStream.v
ThreadState.v
Statics.v
WeakCallback.v
ReactorTimers.v
DefaultPoller.v
Socket.v
ThreadLife.v
LogPath.v
HttpService.v
EchoServer.v
FileServer.v
LogOutput.v
Descriptors.v
