(* ===== verification/Prelude.v ===== *)
(** * A verification of flute

    flute is a C++11 library for TCP servers and clients in the style of
    muduo: one event loop ("reactor") per thread, non-blocking sockets, timers,
    buffers, a small HTTP server on top, and an asynchronous logger beside it.
    This library models the code under [flute/common] and [flute/net] by
    executable definitions and proves what makes each part correct.

    ** How the parts of the program work together

    A [Reactor] owns a [Poller] (epoll or poll), a [TimerQueue] and an eventfd.
    Its loop polls, lets every active [Channel] call back, and runs the tasks
    that were queued.  [Acceptor], [Connector] and [TcpConnection] own a
    [Channel] each.  [TcpServer] takes sockets from its [Acceptor], gives each
    to a reactor of its [ReactorThreadPool] and keeps the [TcpConnection]s in a
    map; [TcpClient] takes its socket from a [Connector].  A connection reads
    into and writes from a [Buffer], and sends files through a [ZeroCopier].
    [HttpServer] parses the input buffer with an [HttpContext] into an
    [HttpRequest] and prints an [HttpResponse] into the output buffer.  A log
    statement is a [LogLine] that formats into a [LogStream]; its text goes to
    [AsyncLogging], whose thread writes it to a [LogFile].

    ** How the code is modelled

    A call ends in an [outcome] ([Prelude]): [Ok] with the result and the new
    state, or [Fail] with the way in which it does not return: a failed
    [assert], an access outside an object or through a null pointer, signed
    overflow, a read of an indeterminate value, an exception, or the end of
    the process after a fatal log line.  [assert] is modelled as in a build
    without NDEBUG (the default build type, Release, defines it).  Integers are
    [Z] with the wrap-around of their width written out ([u64], [s32], ...);
    text is a list of bytes; a container is a list, or a finite map where the
    order does not matter.  Objects that are shared (channels, timers,
    connections) live in a map from addresses, so that a destroyed object can
    be found missing.  Threads are step functions or step relations cut where
    other threads can interleave, and the theorems quantify over all sequences
    of steps.  Code that is not part of the repository is a parameter: the
    kernel's epoll and the interface of pollers are classes with laws
    ([Poller], [EPollPoller]); inet_ntop/inet_pton are a class with the laws of
    their manual page ([InetAddress]); deflate is a class with the contract of
    its manual ([ZlibStream]); gmtime_r, timegm, strerror_r and the
    allocator are arguments; what a system call answers is an argument of the
    step that makes it.

    ** The files

    - [Prelude]: outcomes, machine integers, bytes, slices of lists, tactics.
    - [OrdContainers]: std::set and std::map as sorted lists.
    - [Format]: printf of integers, snprintf.
    - [Endian] (net/Endian.h), [StringPiece] (common/StringPiece.h).
    - [Buffer] (net/Buffer.{h,cc}): the vector with its two indices.  It
      refines a byte queue with head room; integers survive a round trip
      through network order; reading from a descriptor appends what came.
    - [HttpRequest], [HttpContext] (net/http): the incremental parser.  It
      terminates in every context, with the one case in which it fails an
      assertion, parses back what a client prints, and what a rejected line
      does to the calls that follow.
    - [Channel] (net/Channel.{h,cc}): events and callbacks, in order.
    - [Poller]: the interface of pollers as a class, with the operations of a
      channel that go through the reactor; [EPollPoller] and [PollPoller]
      (net/poller) are the instances.  The kernel watches what the channels
      want in every reachable state, and changing, removing, destroying and
      polling the channels then fails only when the kernel refuses.
    - [Timestamp] (common/Timestamp.{h,cc}), with doubles in IEEE binary64.
    - [TimerQueue] (net/Timer, TimerId, TimerQueue): the two timer sets agree
      and the timerfd is armed for the earliest timer, with callbacks that add
      and cancel timers; what expires; a cancelled timer is gone, whether it
      is cancelled in a callback or outside.
    - [ZeroCopier] (common/ZeroCopier.{h,cc}): sending a file in chunks.  What
      sendfile, mmap, read and write transfer is computed from the file, the
      length they are asked for and a number that the kernel chooses; the
      settings of the class are a record that user code changes.
    - [TcpConnection] (net/TcpConnection.{h,cc}): the connection state machine
      with its channel, buffers, file transfer, tasks and timers.  The
      invariants are proved for two kinds of histories: with events in the
      states that the code expects ([event_ok], [reachable]), and with events
      at any time ([any_event], [late_reachable]), as when a timer closes a
      connection whose events the same poll reported.  In the first no event
      aborts, in the second exactly those of [conn_aborts] do; the bytes on the
      wire are those accepted; the user sees up, messages, down, close, and
      after that only messages of late events.
    - [Reactor] (net/Reactor.{h,cc}): the loop with its task queue: no lost
      wake-up except for tasks that the loop thread queues outside of [loop()],
      tasks run once and in order, no dangling channel in a dispatch.
    - [ReactorTimers]: the reactor with its timer queue.  Timers that any thread
      adds or removes reach the queue through tasks; none is lost or leaks while
      the reactor lives; construction and destruction with their channels.
    - [DefaultPoller] (net/poller/DefaultPoller.cc): the choice of the poller
      satisfies the interface of pollers, so the theorems hold for either.
    - [HttpResponse], [HttpServer] (net/http): what is answered;
      [HttpConnection]: a server on a connection, from the bytes that arrive in
      pieces to the response that the connection accepts; [HttpService]: the
      server on all connections of a [TcpServer], from its constructor and
      [start] to the contexts of its connections, which do not interfere.
    - [EchoServer] (net/tests/echo.{h,cc}): a program of callbacks.  What a
      connection receives, it sends back, byte for byte.  [FileServer]
      (net/http/tests/HttpServer_test.cc): the response callback that serves
      files, and the bytes a client gets for them.
    - [Date], [Timezone] (common): the Gregorian calendar, UTC conversion, zone
      files and the offset in force.
    - [Connector] (net/Connector.{h,cc}): attempts, retries with back-off;
      [TcpClient] (net/TcpClient.{h,cc}) on top of it.  Both are used in any
      way ([kev_any], [cev_any]), with the calls that abort named exactly
      ([connector_aborts], [client_aborts]), and with discipline ([kev_ok],
      [cev_ok]), when nothing aborts.
    - [Acceptor] (net/Acceptor.{h,cc}), [ReactorThreadPool]
      (net/ReactorThreadPool.{h,cc}, common/Atomic.h), and [TcpServer]
      (net/TcpServer.{h,cc}) on top of the pool: the connections of a server
      and the tasks it posts to the reactors.
    - [ConnView], [ConnServer], [ConnClient]: a [TcpConnection] as its server
      or client owns it.  Each of its events is a move of the owner's model,
      and the owner's [connect_destroyed] succeeds.
    - [InetAddress] (net/InetAddress.{h,cc}, net/SocketsOps.cc): addresses as
      the bytes of their structures, also those that the kernel writes, and
      their text.  A text has at most 51
      characters, which is what [TcpServer] needs for distinct names.
    - [LogStream] (common/Digital.h, FixedBuffer.h, LogStream.{h,cc}),
      [LogLine] (common/LogLine.{h,cc}), [AsyncLogging]
      (common/AsyncLogging.{h,cc}), [LogFile] (common/FileUtil.{h,cc},
      LogFile.{h,cc}): the parts of the log; [LogOutput]: the output functions,
      with standard output as the default, for a program of log statements;
      [LogPath]: the path of a line from the stream through the buffers to the
      files.  The calls of the backend thread on its file are those of rounds
      (a notice, at most two buffers, a flush) that account for every line;
      opening a file may fail, and then an assertion does.
    - [ZlibStream] (net/ZlibStream.h): strings written to the compressing stream
      come out again when its output is inflated.
    - [Socket] (net/Socket.{h,cc}): a descriptor and its options; [Descriptors]:
      all descriptors that the library holds, who closes them, what a
      [ZeroCopier] without a file and a copied [Socket] do to this, and the
      calls of [socket_ops] that forward to the kernel.
    - [Statics] (common/Singleton.h, ThreadLocal.h, ThreadLocalSingleton.h):
      objects made on first use, one per process or one per thread.
    - [WeakCallback] (common/WeakCallback.h): calling an object that may be gone.
    - [ProcessInfo] (common/ProcessInfo.{h,cc}): the name, threads and files of
      the process, from what the system answers.
    - [Mutex] (common/Mutex.h, Condition.{h,cc}): mutual exclusion and the
      record of the holder, at the level of single pthread calls.  It justifies
      that the following files let a critical section be one step.
    - [Deques] (common/BoundedBlockingDeque.h) and [TaskDeque]
      (common/TaskDeque.{h,cc}): monitors of any number of threads; the
      capacity of the first may change at any time.
    - [Threads] (common/Thread.{h,cc}, CountdownLatch.h,
      net/ReactorThread.{h,cc}): starting and stopping a reactor thread, also
      while others make its reactor quit;
      [ThreadLife]: how long the object and the characters of its name must
      live; [ThreadState] (common/CurrentThread.{h,cc}, Exception.{h,cc}): the
      cached thread id, names, stack traces and exceptions.

    Where a component promises something to another, the promise is a class:
    [PollerOps] and [PollerLaws] for pollers (used by [Reactor],
    [TcpConnection], [Connector], [Acceptor], [TcpClient]), [HostEndian] for
    byte order, [CurrentThread] for the thread a call runs in.  [TcpServer] and
    [TcpClient] keep of a connection only its name, state and pending tasks;
    [ConnServer] and [ConnClient] prove that a [TcpConnection] with all its
    parts refines this view.

    ** Bounds and fuel

    The parser's loop has the fuel [parse_fuel], which a theorem shows to be
    enough for every buffer.  integer_to_string has 20 digits for 64-bit
    numbers and hex_to_string 16; [append_loop] has one more than the length of
    the line, and [read_loop] one more than the length of the file, and both are
    shown not to run out; the loops around deflate have fuel for the input and the
    bound of the output, which every call brings down.  Times are bounded where a four-digit year is printed
    (below 2^37 seconds), dates to years -4367 to 950000, the number of
    connections of a server or client to 2^31 (the counter is an int), and
    buffers to half the address space.

    ** What the theorems do not cover

    Not modelled: [BlockingDeque] (it calls a member std::deque does not have
    and cannot be instantiated), [ZlibInputStream] (declared without code), the
    casts and macros of types.h and SocketsOps.cc, the annotations of Mutex.h
    (all without effect at run time), the programs under common/tests and the
    [main] functions of the two servers, and FlameGraph (third-party scripts).
    The callbacks a user installs are sequences of calls.  Time does not pass by
    itself: a timed wait, as in [AsyncLogging], is one that may end at any
    moment.  Memory ordering is sequentially consistent.  Constructors and
    destructors of the objects in [Statics] do not call back.  Besides these,
    class declarations, plain getters, setters of members that only user code
    reads (the context of a [Reactor]), forwards to the system such as getpid,
    and the texts of log statements have no definition. *)

From Stdlib Require Export ZArith Lia Ascii String.
From stdpp Require Export base tactics numbers list gmap strings.

#[global] Open Scope Z_scope.

Declare Scope flute_scope.
Delimit Scope flute_scope with flute.

(** * Outcomes: how a C++ call ends *)

(** The ways in which a call of the library does not return.  [FFuel] is not
    a behaviour of the program: it is what a fuelled loop of the model returns
    when its fuel is spent, and every loop has a theorem that it is not
    returned for the stated fuel. *)
Inductive fault : Type :=
| FAssert   (* assert(...) failed: abort() *)
| FBounds   (* access outside an object: undefined behaviour *)
| FNull     (* null pointer dereferenced: undefined behaviour *)
| FOverflow (* signed overflow or unrepresentable conversion: undefined behaviour *)
| FThrow    (* a C++ exception leaves the call *)
| FFatal    (* LOG_FATAL / LOG_SYSFATAL: flush and abort() *)
| FUninit   (* an indeterminate value was read: undefined behaviour *)
| FFuel.

#[global] Instance fault_eq_dec : EqDecision fault.
Proof. solve_decision. Defined.

Inductive outcome (A : Type) : Type :=
| Ok (a : A)
| Fail (f : fault).
Arguments Ok {A} a.
Arguments Fail {A} f.

#[global] Instance outcome_eq_dec `{EqDecision A} : EqDecision (outcome A).
Proof. solve_decision. Defined.

#[global] Instance outcome_ret : MRet outcome := fun A a => Ok a.
#[global] Instance outcome_bind : MBind outcome := fun A B k m =>
  match m with Ok a => k a | Fail f => Fail f end.

(** [assert(b)] of a build without [NDEBUG]. *)
Definition assert_ (b : bool) : outcome unit := if b then Ok tt else Fail FAssert.

(** A condition whose violation is the fault [f]. *)
Definition require (f : fault) (b : bool) : outcome unit := if b then Ok tt else Fail f.

(** A checked read through an [option]. *)
Definition of_option {A} (f : fault) (o : option A) : outcome A :=
  match o with Some a => Ok a | None => Fail f end.

(** The call returns, with a value in [P]. *)
Definition returns {A} (P : A -> Prop) (m : outcome A) : Prop :=
  match m with Ok a => P a | Fail _ => False end.

(** When the call returns, its value is in [P]. *)
Definition returning {A} (P : A -> Prop) (m : outcome A) : Prop :=
  match m with Ok a => P a | Fail _ => True end.

(** The call returns in [Q], or the process ran out of memory ([FThrow]), or
    the kernel refused a registration or a resource ([FFatal]). *)
Definition fine {A} (Q : A -> Prop) (m : outcome A) : Prop :=
  match m with Ok a => Q a | Fail f => f = FFatal \/ f = FThrow end.

Lemma fine_bind {A B} (Q : A -> Prop) (R : B -> Prop) m (k : A -> outcome B) :
  fine Q m -> (forall a, Q a -> fine R (k a)) -> fine R (m ≫= k).
Proof. destruct m; simpl; auto. Qed.

Lemma fine_mono {A} (Q R : A -> Prop) m : (forall a, Q a -> R a) -> fine Q m -> fine R m.
Proof. destruct m; simpl; auto. Qed.

Lemma bind_ok {A B} (a : A) (k : A -> outcome B) : (Ok a ≫= k) = k a.
Proof. reflexivity. Qed.

Lemma bind_fail {A B} f (k : A -> outcome B) : (Fail f ≫= k) = Fail f.
Proof. reflexivity. Qed.

Lemma bind_ok_inv {A B} (m : outcome A) (k : A -> outcome B) b :
  (m ≫= k) = Ok b -> exists a, m = Ok a /\ k a = Ok b.
Proof. destruct m; simpl; [eauto | discriminate]. Qed.

Lemma assert_true b : b = true -> assert_ b = Ok tt.
Proof. by intros ->. Qed.

Lemma assert_ok_inv b u : assert_ b = Ok u -> b = true.
Proof. by destruct b. Qed.

Lemma require_true f b : b = true -> require f b = Ok tt.
Proof. by intros ->. Qed.

Lemma require_ok_inv f b u : require f b = Ok u -> b = true.
Proof. by destruct b. Qed.

Lemma returns_ok {A} (P : A -> Prop) m : returns P m -> exists a, m = Ok a /\ P a.
Proof. destruct m; simpl; [eauto | done]. Qed.

Lemma returns_bind {A B} (P : A -> Prop) (Q : B -> Prop) m (k : A -> outcome B) :
  returns P m -> (forall a, P a -> returns Q (k a)) -> returns Q (m ≫= k).
Proof. destruct m; simpl; auto. Qed.

Lemma returns_mono {A} (P Q : A -> Prop) m :
  (forall a, P a -> Q a) -> returns P m -> returns Q m.
Proof. destruct m; simpl; auto. Qed.

#[global] Instance returns_proper {A} :
  Proper (pointwise_relation A impl ==> eq ==> impl) (@returns A).
Proof. intros P Q HPQ m _ <- Hm. eapply returns_mono; eauto. Qed.

(** * Machine integers

    A [w]-bit unsigned value is a [Z] in [0, 2^w), a signed one a [Z] in
    [-2^(w-1), 2^(w-1)).  [uw] and [sw] are the conversions of C++, modulo
    [2^w]. *)
Definition uw (w z : Z) : Z := z mod 2 ^ w.
Definition sw (w z : Z) : Z := (z + 2 ^ (w - 1)) mod 2 ^ w - 2 ^ (w - 1).

Abbreviation u8 := (uw 8).
Abbreviation u16 := (uw 16).
Abbreviation u32 := (uw 32).
Abbreviation u64 := (uw 64).
Abbreviation s8 := (sw 8).
Abbreviation s16 := (sw 16).
Abbreviation s32 := (sw 32).
Abbreviation s64 := (sw 64).

Definition in_uw (w z : Z) : Prop := 0 <= z < 2 ^ w.
Definition in_sw (w z : Z) : Prop := - 2 ^ (w - 1) <= z < 2 ^ (w - 1).

(** The largest [ptrdiff_t], which is [std::vector<char>::max_size()]. *)
Definition PTRDIFF_MAX : Z := 2 ^ 63 - 1.

Lemma uw_small w z : in_uw w z -> uw w z = z.
Proof. apply Z.mod_small. Qed.

Lemma uw_range w z : 0 <= w -> in_uw w (uw w z).
Proof. intros. apply Z.mod_pos_bound. lia. Qed.

Lemma sw_small w z : 0 < w -> in_sw w z -> sw w z = z.
Proof.
  intros Hw [??]. unfold sw.
  assert (2 ^ w = 2 * 2 ^ (w - 1)) by (rewrite <- Z.pow_succ_r by lia; f_equal; lia).
  rewrite Z.mod_small; lia.
Qed.

Lemma sw_range w z : 0 < w -> in_sw w (sw w z).
Proof.
  intros Hw. unfold sw, in_sw.
  assert (2 ^ w = 2 * 2 ^ (w - 1)) by (rewrite <- Z.pow_succ_r by lia; f_equal; lia).
  pose proof (Z.mod_pos_bound (z + 2 ^ (w - 1)) (2 ^ w)). lia.
Qed.

Lemma sw_uw w z : 0 < w -> sw w (uw w z) = sw w z.
Proof. intros. unfold sw, uw. by rewrite Z.add_mod_idemp_l by lia. Qed.

Lemma uw_sw w z : 0 < w -> uw w (sw w z) = uw w z.
Proof.
  intros. unfold sw, uw. rewrite Zminus_mod_idemp_l. f_equal. lia.
Qed.

(** [sw_uw_id]: converting a signed value to unsigned and back is the identity. *)
Lemma sw_uw_id w z : 0 < w -> in_sw w z -> sw w (uw w z) = z.
Proof. intros. rewrite sw_uw by done. by apply sw_small. Qed.

(** * Bytes and strings *)

Abbreviation byte := ascii.
Abbreviation bytes := (list ascii).

Definition Z_of_byte (b : byte) : Z := Z.of_N (N_of_ascii b).
Definition byte_of_Z (z : Z) : byte := ascii_of_N (Z.to_N (z mod 256)).

Lemma Z_of_byte_range b : 0 <= Z_of_byte b < 256.
Proof. unfold Z_of_byte. pose proof (N_ascii_bounded b). lia. Qed.

Lemma Z_of_byte_of_Z z : Z_of_byte (byte_of_Z z) = z mod 256.
Proof.
  unfold Z_of_byte, byte_of_Z. pose proof (Z.mod_pos_bound z 256).
  rewrite N_ascii_embedding; lia.
Qed.

Lemma byte_of_Z_of_byte b : byte_of_Z (Z_of_byte b) = b.
Proof.
  unfold byte_of_Z. rewrite Z.mod_small by apply Z_of_byte_range.
  unfold Z_of_byte. rewrite N2Z.id. apply ascii_N_embedding.
Qed.

(** A string literal as the bytes it denotes. *)
Definition lit (s : string) : bytes := list_ascii_of_string s.
Arguments lit s%_string.

Definition NUL : byte := "000"%char.
Definition CR : byte := "013"%char.
Definition LF : byte := "010"%char.
Definition SP : byte := " "%char.

(** [static const char* const kCRLF] of [flute/net/Buffer.h]. *)
Definition kCRLF : bytes := [CR; LF].

(** * Contiguous ranges

    [len l] is the length as an integer, [slice l i j] the elements at
    positions [i .. j-1], the half-open iterator range [[begin+i, begin+j)]. *)
Definition len {A} (l : list A) : Z := Z.of_nat (length l).
Definition slice {A} (l : list A) (i j : Z) : list A :=
  take (Z.to_nat (j - i)) (drop (Z.to_nat i) l).

Lemma len_nonneg {A} (l : list A) : 0 <= len l.
Proof. unfold len. lia. Qed.

Lemma len_nil {A} : len (@nil A) = 0.
Proof. reflexivity. Qed.

Lemma len_cons {A} (x : A) l : len (x :: l) = 1 + len l.
Proof. unfold len. simpl length. lia. Qed.

Lemma len_app {A} (l k : list A) : len (l ++ k) = len l + len k.
Proof. unfold len. rewrite length_app. lia. Qed.

Lemma len_replicate {A} n (x : A) : len (replicate n x) = Z.of_nat n.
Proof. unfold len. by rewrite length_replicate. Qed.

Lemma len_take {A} n (l : list A) : len (take n l) = Z.min (Z.of_nat n) (len l).
Proof. unfold len. rewrite length_take. lia. Qed.

Lemma len_drop {A} n (l : list A) : len (drop n l) = Z.max 0 (len l - Z.of_nat n).
Proof. unfold len. rewrite length_drop. lia. Qed.

Lemma len_0_nil {A} (l : list A) : len l = 0 <-> l = [].
Proof. unfold len. destruct l; simpl; split; intros; done || lia. Qed.

Lemma len_slice {A} (l : list A) i j :
  0 <= i <= j -> j <= len l -> len (slice l i j) = j - i.
Proof. intros. unfold slice. rewrite len_take, len_drop. lia. Qed.

Lemma slice_all {A} (l : list A) : slice l 0 (len l) = l.
Proof.
  unfold slice. change (Z.to_nat 0) with 0%nat. rewrite drop_0.
  apply take_ge. unfold len. lia.
Qed.

Lemma slice_empty {A} (l : list A) i j : j <= i -> slice l i j = [].
Proof. intros. unfold slice. replace (Z.to_nat (j - i)) with 0%nat by lia. done. Qed.

Lemma slice_split {A} (l : list A) i k j :
  0 <= i <= k -> k <= j -> slice l i j = slice l i k ++ slice l k j.
Proof.
  intros. unfold slice.
  replace (Z.to_nat (j - i)) with (Z.to_nat (k - i) + Z.to_nat (j - k))%nat by lia.
  rewrite <- take_take_drop, drop_drop. do 3 f_equal. lia.
Qed.

Lemma slice_app_l {A} (l k : list A) i j :
  0 <= i -> j <= len l -> slice (l ++ k) i j = slice l i j.
Proof.
  intros ? Hj. unfold slice. destruct (Z.le_gt_cases i (len l)) as [Hi|Hi].
  - rewrite drop_app_le by (unfold len in *; lia).
    apply take_app_le. rewrite length_drop. unfold len in *. lia.
  - replace (Z.to_nat (j - i)) with 0%nat by lia. done.
Qed.

Lemma slice_app_r {A} (l k : list A) i j :
  len l <= i -> slice (l ++ k) i j = slice k (i - len l) (j - len l).
Proof.
  intros. unfold slice. rewrite drop_app_ge by (unfold len in *; lia).
  replace (j - len l - (i - len l)) with (j - i) by lia.
  do 2 f_equal. unfold len in *; lia.
Qed.

Lemma slice_take {A} (l : list A) i j n :
  0 <= i -> j <= Z.of_nat n -> slice (take n l) i j = slice l i j.
Proof.
  intros. unfold slice. rewrite skipn_firstn_comm, take_take. f_equal. lia.
Qed.

Lemma slice_drop {A} (l : list A) i j n :
  0 <= i -> 0 <= n -> slice (drop (Z.to_nat n) l) i j = slice l (i + n) (j + n).
Proof.
  intros. unfold slice. rewrite drop_drop. f_equal; [|f_equal]; lia.
Qed.

Lemma drop_slice {A} (l : list A) i j n :
  0 <= i -> 0 <= n <= j - i -> drop (Z.to_nat n) (slice l i j) = slice l (i + n) j.
Proof.
  intros. unfold slice. rewrite skipn_firstn_comm, drop_drop. f_equal; [|f_equal]; lia.
Qed.

Lemma take_slice {A} (l : list A) i j n :
  0 <= i -> 0 <= n <= j - i -> take (Z.to_nat n) (slice l i j) = slice l i (i + n).
Proof. intros. unfold slice. rewrite take_take. f_equal. lia. Qed.

Lemma slice_lookup {A} (l : list A) i j k :
  0 <= i -> 0 <= k < j - i -> slice l i j !! Z.to_nat k = l !! Z.to_nat (i + k).
Proof.
  intros. unfold slice. rewrite lookup_take_lt by lia. rewrite lookup_drop. f_equal. lia.
Qed.

(** [std::copy] of [src] over the range that starts at [pos]. *)
Definition overwrite {A} (l : list A) (pos : Z) (src : list A) : list A :=
  take (Z.to_nat pos) l ++ src ++ drop (Z.to_nat (pos + len src)) l.

Lemma len_overwrite {A} (l : list A) pos src :
  0 <= pos -> pos + len src <= len l -> len (overwrite l pos src) = len l.
Proof.
  intros. unfold overwrite. rewrite !len_app, len_take, len_drop.
  pose proof (len_nonneg src). lia.
Qed.

Lemma slice_overwrite_same {A} (l : list A) pos src :
  0 <= pos -> pos + len src <= len l ->
  slice (overwrite l pos src) pos (pos + len src) = src.
Proof.
  intros. unfold overwrite. pose proof (len_nonneg src).
  rewrite slice_app_r; rewrite len_take; [|lia].
  rewrite slice_app_l by lia.
  replace (pos - _) with 0 by lia. replace (pos + len src - _) with (len src) by lia.
  apply slice_all.
Qed.

Lemma slice_overwrite_before {A} (l : list A) pos src i j :
  0 <= i -> j <= pos -> pos + len src <= len l ->
  slice (overwrite l pos src) i j = slice l i j.
Proof.
  intros. pose proof (len_nonneg src).
  destruct (Z.le_gt_cases j i); [by rewrite !slice_empty by lia|].
  unfold overwrite. rewrite slice_app_l by (rewrite ?len_take; lia).
  apply slice_take; lia.
Qed.

Lemma slice_overwrite_after {A} (l : list A) pos src i j :
  0 <= pos -> pos + len src <= i -> pos + len src <= len l ->
  slice (overwrite l pos src) i j = slice l i j.
Proof.
  intros. unfold overwrite. pose proof (len_nonneg src).
  rewrite slice_app_r; rewrite len_take; [|lia].
  rewrite slice_app_r by lia.
  rewrite slice_drop by lia. f_equal; lia.
Qed.

(** * Automation *)

Create HintDb flute.

#[export] Hint Rewrite @bind_ok @bind_fail : outcome.
#[export] Hint Rewrite @len_nil @len_cons @len_app @len_replicate @len_take @len_drop : len.
#[export] Hint Resolve len_nonneg Z_of_byte_range : flute.

(** Record the non-negativity of every length in sight, then [lia]. *)
Ltac len_pose :=
  repeat match goal with
  | |- context [@len ?A ?l] =>
      lazymatch goal with
      | _ : 0 <= @len A l |- _ => fail
      | _ => pose proof (@len_nonneg A l)
      end
  | _ : context [@len ?A ?l] |- _ =>
      lazymatch goal with
      | _ : 0 <= @len A l |- _ => fail
      | _ => pose proof (@len_nonneg A l)
      end
  end.
Ltac len_lia := autorewrite with len in *; len_pose; lia.

(** Take apart a hypothesis that a sequence of calls returned. *)
Ltac outcome_inv :=
  repeat match goal with
  | H : mbind _ _ = Ok _ |- _ =>
      let x := fresh "x" in let Hx := fresh "Hx" in
      apply bind_ok_inv in H as (x & Hx & H)
  | H : Ok _ = Ok _ |- _ => injection H as H
  | H : Fail _ = Ok _ |- _ => discriminate H
  | H : Ok _ = Fail _ |- _ => discriminate H
  | H : assert_ _ = Ok _ |- _ => apply assert_ok_inv in H
  | H : require _ _ = Ok _ |- _ => apply require_ok_inv in H
  end.

(** Discharge the asserts of the goal whose condition is linear arithmetic. *)
Ltac step_asserts :=
  repeat match goal with
  | |- context [assert_ ?b] => rewrite (assert_true b) by (try done; lia); simpl
  | |- context [require ?f ?b] => rewrite (require_true f b) by (try done; lia); simpl
  end.

(** A character is not in a string literal. *)
Ltac not_in_lit :=
  let H := fresh in intros H; vm_compute in H;
  repeat (apply elem_of_cons in H as [H|H]; [discriminate H|]); by apply elem_of_nil in H.
