(* ===== verification/OrdContainers.v ===== *)
(** The ordered containers of the C++ standard library that the components
    use: [std::set] (the timer sets of TimerQueue) and [std::map] (the header
    maps of HttpRequest and HttpResponse).  A container is the list of its
    elements in iteration order; the comparator is a class, with the laws the
    standard requires of it, so that every lemma holds for integers, pairs,
    and strings alike. *)

From Stdlib Require Import Sorted.
From S2P Require Import Prelude.

(** * Comparators *)

Class Less (A : Type) := less : A -> A -> bool.

Class LessLaws (A : Type) `{Less A} : Prop := {
  less_irrefl : forall a, less a a = false;
  less_trans : forall a b c, less a b = true -> less b c = true -> less a c = true;
  less_total : forall a b, less a b = false -> less b a = false -> a = b
}.

#[global] Instance Z_less : Less Z := Z.ltb.
#[global] Instance Z_less_laws : LessLaws Z.
Proof. split; unfold less, Z_less; intros; lia. Qed.

(** [operator<] of [std::pair]. *)
#[global] Instance pair_less `{Less A, Less B} : Less (A * B) := fun x y =>
  less x.1 y.1 || (negb (less y.1 x.1) && less x.2 y.2).

(** [operator<] of [std::string]: lexicographic on unsigned characters. *)
Fixpoint bytes_ltb (x y : bytes) : bool :=
  match x, y with
  | _, [] => false
  | [], _ :: _ => true
  | a :: x', b :: y' =>
      (Z_of_byte a <? Z_of_byte b) || ((Z_of_byte a =? Z_of_byte b) && bytes_ltb x' y')
  end.
#[global] Instance bytes_less : Less bytes := bytes_ltb.

Section less_facts.
Context `{LessLaws A}.

Lemma less_asym a b : less a b = true -> less b a = false.
Proof.
  intros Hab. destruct (less b a) eqn:Hba; [|done].
  pose proof (less_trans _ _ _ Hab Hba) as Haa. by rewrite less_irrefl in Haa.
Qed.

Lemma less_ne a b : less a b = true -> a <> b.
Proof. intros Hab ->. by rewrite less_irrefl in Hab. Qed.

Lemma less_trichotomy a b : {less a b = true} + {a = b} + {less b a = true}.
Proof.
  destruct (less a b) eqn:Hab; [by left; left|].
  destruct (less b a) eqn:Hba; [by right|]. left; right. by apply less_total.
Qed.
End less_facts.

Lemma pair_less_spec `{LessLaws A, LessLaws B} (x y : A * B) :
  less x y = true <-> less x.1 y.1 = true \/ (x.1 = y.1 /\ less x.2 y.2 = true).
Proof.
  unfold less at 1, pair_less. rewrite orb_true_iff, andb_true_iff, negb_true_iff.
  split; [|intros [?|[-> ?]]; [by left | right; by rewrite less_irrefl]].
  intros [?|[Hyx ?]]; [by left|].
  destruct (less x.1 y.1) eqn:Hxy; [by left | right; split; [by apply less_total | done]].
Qed.

#[global] Instance pair_less_laws `{LessLaws A, LessLaws B} : LessLaws (A * B).
Proof.
  split.
  - intros [a b]. unfold less, pair_less; simpl. by rewrite !less_irrefl.
  - intros x y z. rewrite !pair_less_spec.
    intros [L1|[E1 L1]] [L2|[E2 L2]]; [left | left; by rewrite <- E2 | left; by rewrite E1 |].
    + by eapply less_trans.
    + right. split; [congruence | by eapply less_trans].
  - intros [a1 b1] [a2 b2]. unfold less, pair_less; simpl. intros L1 L2.
    destruct (less_trichotomy a1 a2) as [[L12| <-]|L12].
    + by rewrite L12 in L1.
    + rewrite less_irrefl in L1, L2. simpl in *. by rewrite (less_total b1 b2).
    + by rewrite L12 in L2.
Qed.

#[global] Instance bytes_less_laws : LessLaws bytes.
Proof.
  assert (Hinj : forall a b, Z_of_byte a = Z_of_byte b -> a = b).
  { intros a b E. rewrite <- (byte_of_Z_of_byte a), <- (byte_of_Z_of_byte b). by rewrite E. }
  split; unfold less, bytes_less.
  - intros a. induction a as [|x a IH]; simpl; [done|]. rewrite IH. lia.
  - intros a. induction a as [|x a IH]; intros [|y b] [|z c]; simpl; try done.
    specialize (IH b c). intros H1 H2.
    apply orb_true_iff in H1, H2. apply orb_true_iff.
    rewrite !andb_true_iff in *. rewrite !Z.ltb_lt, !Z.eqb_eq in *.
    destruct H1 as [H1|[H1 ?]], H2 as [H2|[H2 ?]]; (left; lia) || (right; split; [lia|auto]).
  - intros a. induction a as [|x a IH]; intros [|y b]; simpl; try done.
    intros H1 H2. apply orb_false_iff in H1 as [H1 H1'], H2 as [H2 H2'].
    assert (x = y) as -> by (apply Hinj; lia). f_equal.
    rewrite Z.eqb_refl in *. simpl in *. by apply IH.
Qed.

(** * std::set *)

Section set.
Context `{LessLaws A}.

(** [lower_bound x]: the iterator that splits the set into the elements below
    [x] and those that are not. *)
Fixpoint set_split (x : A) (s : list A) : list A * list A :=
  match s with
  | [] => ([], [])
  | e :: s' => if less e x then let p := set_split x s' in (e :: p.1, p.2) else ([], s)
  end.

(** [find(x) != end()]. *)
Definition set_find (x : A) (s : list A) : bool :=
  match (set_split x s).2 with [] => false | e :: _ => negb (less x e) end.

(** [insert(x)]: the new set and whether the insertion took place. *)
Definition set_insert (x : A) (s : list A) : list A * bool :=
  if set_find x s then (s, false)
  else let p := set_split x s in (p.1 ++ x :: p.2, true).

(** [erase(x)]: the new set and the number of elements erased. *)
Definition set_erase (x : A) (s : list A) : list A * Z :=
  if set_find x s then let p := set_split x s in (p.1 ++ tail p.2, 1) else (s, 0).

Definition set_sorted (s : list A) : Prop := StronglySorted (fun a b => less a b = true) s.

Lemma set_split_app x s : (set_split x s).1 ++ (set_split x s).2 = s.
Proof.
  induction s as [|e s IH]; simpl; [done|]. destruct (less e x); simpl; [by rewrite IH | done].
Qed.

Lemma set_split_below x s e : e ∈ (set_split x s).1 -> less e x = true.
Proof.
  induction s as [|a s IH]; simpl; [by intros ?%elem_of_nil|].
  destruct (less a x) eqn:E; simpl; [|by intros ?%elem_of_nil].
  by intros [->|?]%elem_of_cons; [|apply IH].
Qed.

Lemma set_split_above x s e :
  set_sorted s -> e ∈ (set_split x s).2 -> less e x = false.
Proof.
  intros Hs. induction Hs as [|a s Hs IH Ha]; simpl; [by intros ?%elem_of_nil|].
  destruct (less a x) eqn:E; simpl; [done|].
  intros [->|He]%elem_of_cons; [done|].
  rewrite Forall_forall in Ha. specialize (Ha e He).
  destruct (less e x) eqn:E'; [|done].
  by rewrite (less_trans _ _ _ Ha E') in E.
Qed.

Lemma set_sorted_app s1 s2 :
  set_sorted (s1 ++ s2) <->
  set_sorted s1 /\ set_sorted s2 /\ (forall a b, a ∈ s1 -> b ∈ s2 -> less a b = true).
Proof.
  induction s1 as [|x s1 IH]; simpl.
  - split; [|naive_solver]. intros. split_and!; [constructor|done|].
    by intros ?? ?%elem_of_nil.
  - split.
    + intros Hs. apply StronglySorted_inv in Hs as [Hs Hx].
      apply IH in Hs as (H1 & H2 & H3). rewrite Forall_app in Hx. destruct Hx as [Hx1 Hx2].
      split_and!; [by constructor | done |].
      intros a b [->|Ha]%elem_of_cons Hb; [|by apply H3].
      rewrite Forall_forall in Hx2. by apply Hx2.
    + intros (H1 & H2 & H3). apply StronglySorted_inv in H1 as [H1 Hx].
      constructor.
      * apply IH. split_and!; [done | done |]. intros. apply H3; [by apply elem_of_cons; right | done].
      * apply Forall_app; split; [done|]. apply Forall_forall. intros b Hb.
        apply H3; [by apply elem_of_cons; left | done].
Qed.

Lemma set_find_spec x s : set_sorted s -> set_find x s = true <-> x ∈ s.
Proof.
  intros Hs. unfold set_find.
  pose proof (set_split_app x s) as Happ.
  pose proof (set_split_below x s) as Hlo.
  pose proof (fun e => set_split_above x s e Hs) as Hhi.
  destruct (set_split x s) as [lo hi]; simpl in *. subst s.
  apply set_sorted_app in Hs as (Hs1 & Hs2 & _).
  rewrite elem_of_app. split.
  - destruct hi as [|e hi]; [done|]. intros Hx%negb_true_iff. right.
    rewrite (less_total x e); [by apply elem_of_cons; left | done | apply Hhi; by apply elem_of_cons; left].
  - intros [Hx|Hx].
    + apply Hlo in Hx. by rewrite less_irrefl in Hx.
    + destruct hi as [|e hi]; [by apply elem_of_nil in Hx|].
      apply negb_true_iff. apply elem_of_cons in Hx as [->|Hx]; [apply less_irrefl|].
      apply StronglySorted_inv in Hs2 as [_ Hall]. rewrite Forall_forall in Hall.
      apply less_asym. by apply Hall.
Qed.

Lemma set_find_false x s : set_sorted s -> set_find x s = false <-> x ∉ s.
Proof. intros Hs. rewrite <- (set_find_spec x s Hs). by rewrite not_true_iff_false. Qed.

Lemma set_insert_elem x s e :
  set_sorted s -> e ∈ (set_insert x s).1 <-> e = x \/ e ∈ s.
Proof.
  intros Hs. unfold set_insert. destruct (set_find x s) eqn:Hf; simpl.
  - apply set_find_spec in Hf; [|done]. naive_solver.
  - rewrite <- (set_split_app x s) at 3. rewrite !elem_of_app, elem_of_cons. naive_solver.
Qed.

Lemma set_insert_fresh x s :
  set_sorted s -> x ∉ s -> (set_insert x s).2 = true.
Proof. intros Hs Hx. unfold set_insert. by rewrite (proj2 (set_find_false x s Hs) Hx). Qed.

Lemma set_insert_length x s :
  set_sorted s -> x ∉ s -> length (set_insert x s).1 = S (length s).
Proof.
  intros Hs Hx. unfold set_insert. rewrite (proj2 (set_find_false x s Hs) Hx); simpl.
  rewrite <- (set_split_app x s) at 3. rewrite !length_app. simpl. lia.
Qed.

Lemma set_insert_sorted x s : set_sorted s -> set_sorted (set_insert x s).1.
Proof.
  intros Hs. unfold set_insert. destruct (set_find x s) eqn:Hf; simpl; [done|].
  apply (set_find_false x s Hs) in Hf.
  pose proof (set_split_app x s) as Happ.
  pose proof (set_split_below x s) as Hlo.
  pose proof (fun e => set_split_above x s e Hs) as Hhi.
  destruct (set_split x s) as [lo hi]; simpl in *. subst s.
  apply set_sorted_app in Hs as (Hs1 & Hs2 & Hs12).
  assert (Hxhi : forall e, e ∈ hi -> less x e = true).
  { intros e He. destruct (less_trichotomy x e) as [[?| <-]|E]; [done| |].
    - exfalso. apply Hf. apply elem_of_app. by right.
    - by rewrite (Hhi _ He) in E. }
  apply set_sorted_app. split_and!; [done| |].
  - constructor; [done|]. apply Forall_forall. intros e He. by apply Hxhi.
  - intros a b Ha [->|Hb]%elem_of_cons; [by apply Hlo | by apply Hs12].
Qed.

Lemma set_erase_count x s : set_sorted s -> x ∈ s -> (set_erase x s).2 = 1.
Proof. intros Hs Hx. unfold set_erase. by rewrite (proj2 (set_find_spec x s Hs) Hx). Qed.

Lemma set_erase_decomp x s :
  set_sorted s -> x ∈ s ->
  s = (set_split x s).1 ++ x :: tail (set_split x s).2 /\
  (set_erase x s).1 = (set_split x s).1 ++ tail (set_split x s).2.
Proof.
  intros Hs Hx. unfold set_erase. pose proof (proj2 (set_find_spec x s Hs) Hx) as Hf.
  rewrite Hf. simpl. split; [|done].
  unfold set_find in Hf. pose proof (fun e => set_split_above x s e Hs) as Hhi.
  rewrite <- (set_split_app x s) at 1.
  destruct (set_split x s) as [lo hi]; simpl in *. destruct hi as [|e hi]; [done|].
  apply negb_true_iff in Hf. simpl. f_equal. f_equal.
  symmetry. apply less_total; [done|]. apply Hhi. by apply elem_of_cons; left.
Qed.

Lemma set_erase_length x s :
  set_sorted s -> x ∈ s -> S (length (set_erase x s).1) = length s.
Proof.
  intros Hs Hx. destruct (set_erase_decomp x s Hs Hx) as [E1 E2].
  rewrite E1 at 2. rewrite E2, !length_app. simpl. lia.
Qed.

Lemma set_erase_sorted x s : set_sorted s -> set_sorted (set_erase x s).1.
Proof.
  intros Hs. unfold set_erase. destruct (set_find x s) eqn:Hf; simpl; [|done].
  rewrite <- (set_split_app x s) in Hs.
  apply set_sorted_app in Hs as (Hs1 & Hs2 & Hs12). apply set_sorted_app.
  destruct (set_split x s) as [lo [|e hi]]; simpl in *; [done|].
  split_and!; [done | by apply StronglySorted_inv in Hs2 as [? _] |].
  intros a b Ha Hb. apply Hs12; [done|]. by apply elem_of_cons; right.
Qed.

Lemma set_sorted_nodup s : set_sorted s -> NoDup s.
Proof.
  induction 1 as [|x s Hs IH Hx]; constructor; [|done].
  intros Hin. rewrite Forall_forall in Hx. specialize (Hx x Hin). by rewrite less_irrefl in Hx.
Qed.

Lemma set_erase_elem x s e :
  set_sorted s -> e ∈ (set_erase x s).1 <-> e ∈ s /\ e <> x.
Proof.
  intros Hs. destruct (set_find x s) eqn:Hf.
  - apply (set_find_spec x s Hs) in Hf.
    destruct (set_erase_decomp x s Hs Hf) as [E1 E2].
    pose proof (set_sorted_nodup s Hs) as Hnd.
    rewrite E1 in Hnd. rewrite E2. rewrite E1 at 3.
    apply NoDup_app in Hnd as (_ & Hd & Hnd%NoDup_cons).
    rewrite !elem_of_app, elem_of_cons. split.
    + intros [He|He]; (split; [naive_solver|]); intros ->.
      * eapply Hd; [exact He|]. by apply elem_of_cons; left.
      * by apply Hnd.
    + naive_solver.
  - unfold set_erase. rewrite Hf; simpl. apply (set_find_false x s Hs) in Hf. naive_solver.
Qed.

Lemma set_sorted_tail x s : set_sorted (x :: s) -> set_sorted s.
Proof. by intros [? _]%StronglySorted_inv. Qed.

(** The first element is the least one. *)
Lemma set_sorted_head x s e : set_sorted (x :: s) -> e ∈ s -> less x e = true.
Proof.
  intros [_ Hx]%StronglySorted_inv He. rewrite Forall_forall in Hx.
  by apply Hx.
Qed.

End set.

(** * std::map *)

Section map.
Context `{LessLaws K} {V : Type}.

(** [m.find(k)]: [None] for [end()]. *)
Fixpoint map_find (k : K) (m : list (K * V)) : option V :=
  match m with
  | [] => None
  | (k', v) :: m' =>
      if less k' k then map_find k m' else if less k k' then None else Some v
  end.

(** [m[k] = v]. *)
Fixpoint map_assign (k : K) (v : V) (m : list (K * V)) : list (K * V) :=
  match m with
  | [] => [(k, v)]
  | (k', v') :: m' =>
      if less k' k then (k', v') :: map_assign k v m'
      else if less k k' then (k, v) :: m else (k', v) :: m'
  end.

Definition map_sorted (m : list (K * V)) : Prop := set_sorted m.*1.

Lemma map_find_assign_same k v m : map_find k (map_assign k v m) = Some v.
Proof.
  induction m as [|[k' v'] m IH]; simpl; [by rewrite less_irrefl|].
  destruct (less k' k) eqn:E1; simpl; [by rewrite E1|].
  destruct (less k k') eqn:E2; simpl; [by rewrite less_irrefl|]. by rewrite E1, E2.
Qed.

Lemma map_find_assign_other k k2 v m :
  map_sorted m -> k2 <> k -> map_find k2 (map_assign k v m) = map_find k2 m.
Proof.
  unfold map_sorted.
  induction m as [|[k' v'] m IH]; simpl; intros Hs Hne.
  - destruct (less_trichotomy k k2) as [[E| ->]|E]; [by rewrite E | done |].
    by rewrite (less_asym _ _ E), E.
  - apply StronglySorted_inv in Hs as [Hs Hall].
    destruct (less k' k) eqn:E1; simpl.
    { destruct (less k' k2); [by apply IH | done]. }
    destruct (less k k') eqn:E2; simpl; [|].
    + destruct (less_trichotomy k k2) as [[E| ->]|E]; [by rewrite E | done |].
      rewrite (less_asym _ _ E), E.
      by rewrite (less_asym _ _ (less_trans _ _ _ E E2)), (less_trans _ _ _ E E2).
    + rewrite (less_total k' k E1 E2).
      destruct (less_trichotomy k k2) as [[E| ->]|E]; [by rewrite E | done |].
      by rewrite (less_asym _ _ E), E.
Qed.

Lemma map_assign_keys k v m e :
  e ∈ (map_assign k v m).*1 <-> e = k \/ e ∈ m.*1.
Proof.
  induction m as [|[k' v'] m IH]; simpl.
  - rewrite list_elem_of_singleton, elem_of_nil. naive_solver.
  - destruct (less k' k) eqn:E1; simpl; rewrite ?elem_of_cons, ?IH; [naive_solver|].
    destruct (less k k') eqn:E2; simpl; rewrite ?elem_of_cons; [naive_solver|].
    rewrite (less_total k' k E1 E2). naive_solver.
Qed.

Lemma map_assign_sorted k v m : map_sorted m -> map_sorted (map_assign k v m).
Proof.
  unfold map_sorted.
  induction m as [|[k' v'] m IH]; simpl; intros Hs; [by repeat constructor|].
  pose proof Hs as Hs0. apply StronglySorted_inv in Hs as [Hs Hall].
  destruct (less k' k) eqn:E1; simpl.
  - constructor; [by apply IH|]. rewrite Forall_forall in *. intros e He.
    apply map_assign_keys in He as [->|He]; [done|]. by apply Hall.
  - destruct (less k k') eqn:E2; simpl; [|by constructor].
    constructor; [done|]. constructor; [done|].
    eapply Forall_impl; [exact Hall|]. intros e He. by eapply less_trans.
Qed.

End map.

#[export] Hint Resolve set_insert_sorted set_erase_sorted map_assign_sorted : flute.
