(* ===== verification/Endian.v ===== *)
(** [flute/net/Endian.h]: conversion between host and network byte order, for
    a host of either endianness, and the object representation of integers
    that [memcpy] and [write(&x, sizeof x)] of Buffer see. *)

From S2P Require Import Prelude.

(** The byte order of the machine the library runs on. *)
Class HostEndian := host_little : bool.

(** * Object representation *)

(** The [n] bytes of [z], least significant first. *)
Fixpoint le_bytes (n : nat) (z : Z) : bytes :=
  match n with O => [] | S n' => byte_of_Z z :: le_bytes n' (z / 256) end.

Fixpoint le_value (bs : bytes) : Z :=
  match bs with [] => 0 | b :: bs' => Z_of_byte b + 256 * le_value bs' end.

(** Network order: most significant byte first. *)
Definition be_bytes (n : nat) (z : Z) : bytes := reverse (le_bytes n z).
Definition be_value (bs : bytes) : Z := le_value (reverse bs).

Section host.
Context `{HostEndian}.

(** The bytes of an [n]-byte unsigned integer in memory, and the integer a
    [memcpy] of [n] bytes into such an object gives. *)
Definition mem_store (n : nat) (z : Z) : bytes :=
  if host_little then le_bytes n z else be_bytes n z.
Definition mem_load (bs : bytes) : Z :=
  if host_little then le_value bs else be_value bs.

(** [htobeN]/[beNtoh] of <endian.h>: swap the bytes on a little-endian host. *)
Definition bswap (n : nat) (z : Z) : Z := le_value (be_bytes n z).
Definition htobe (n : nat) (z : Z) : Z := if host_little then bswap n z else z.
Definition betoh (n : nat) (z : Z) : Z := if host_little then bswap n z else z.

Definition host_to_net64 (host64 : Z) : Z := htobe 8 (u64 host64).
Definition host_to_net32 (host32 : Z) : Z := htobe 4 (u32 host32).
Definition host_to_net16 (host16 : Z) : Z := htobe 2 (u16 host16).
Definition net_to_host64 (net64 : Z) : Z := betoh 8 (u64 net64).
Definition net_to_host32 (net32 : Z) : Z := betoh 4 (u32 net32).
Definition net_to_host16 (net16 : Z) : Z := betoh 2 (u16 net16).
End host.

(** * Laws *)

Lemma length_le_bytes n z : length (le_bytes n z) = n.
Proof. revert z. induction n; simpl; intros; [done|]. by rewrite IHn. Qed.

Lemma length_be_bytes n z : length (be_bytes n z) = n.
Proof. unfold be_bytes. by rewrite length_reverse, length_le_bytes. Qed.

Lemma len_be_bytes n z : len (be_bytes n z) = Z.of_nat n.
Proof. unfold len. by rewrite length_be_bytes. Qed.

Lemma le_value_le_bytes n z : le_value (le_bytes n z) = z mod 256 ^ Z.of_nat n.
Proof.
  revert z. induction n as [|n IH]; intros z.
  - simpl. by rewrite Z.mod_1_r.
  - cbn [le_bytes le_value]. rewrite IH, Z_of_byte_of_Z.
    rewrite Nat2Z.inj_succ, Z.pow_succ_r by lia.
    rewrite Z.rem_mul_r by lia. done.
Qed.

Lemma le_bytes_le_value bs : le_bytes (length bs) (le_value bs) = bs.
Proof.
  induction bs as [|b bs IH]; [done|]. cbn [length le_bytes le_value].
  pose proof (Z_of_byte_range b).
  assert ((Z_of_byte b + 256 * le_value bs) / 256 = le_value bs) as ->.
  { rewrite Z.mul_comm, Z.div_add by lia. rewrite Z.div_small by lia. lia. }
  rewrite IH. f_equal. unfold byte_of_Z. rewrite Z.mul_comm, Z_mod_plus_full.
  apply byte_of_Z_of_byte.
Qed.

Lemma le_value_range bs : 0 <= le_value bs < 256 ^ len bs.
Proof.
  replace (le_value bs) with (le_value bs mod 256 ^ len bs).
  - apply Z.mod_pos_bound, Z.pow_pos_nonneg; len_lia.
  - rewrite <- (le_bytes_le_value bs) at 3. by rewrite le_value_le_bytes.
Qed.

Lemma le_bytes_mod n z w : z mod 256 ^ Z.of_nat n = w mod 256 ^ Z.of_nat n ->
  le_bytes n z = le_bytes n w.
Proof.
  intros E. rewrite <- (le_bytes_le_value (le_bytes n z)), <- (le_bytes_le_value (le_bytes n w)).
  by rewrite !length_le_bytes, !le_value_le_bytes, E.
Qed.

Section host_laws.
Context `{HostEndian}.

(** The wire format does not depend on the host: the object representation of
    a converted integer is its network-order representation. *)
Lemma mem_store_htobe n z : mem_store n (htobe n z) = be_bytes n z.
Proof.
  unfold mem_store, htobe, bswap. destruct host_little; [|done].
  rewrite <- (length_be_bytes n z) at 1. apply le_bytes_le_value.
Qed.

Lemma betoh_mem_load n z :
  betoh n (mem_load (be_bytes n z)) = z mod 256 ^ Z.of_nat n.
Proof.
  unfold betoh, mem_load, bswap. destruct host_little.
  - unfold be_bytes at 1.
    rewrite <- (length_be_bytes n z) at 1. rewrite le_bytes_le_value.
    unfold be_bytes. rewrite reverse_involutive. apply le_value_le_bytes.
  - unfold be_value, be_bytes. rewrite reverse_involutive. apply le_value_le_bytes.
Qed.

Lemma mem_load_range bs : 0 <= mem_load bs < 256 ^ len bs.
Proof.
  unfold mem_load, be_value. destruct host_little; [apply le_value_range|].
  pose proof (le_value_range (reverse bs)) as Hr. unfold len in *. by rewrite length_reverse in Hr.
Qed.

Lemma be_bytes_mod n z w : z mod 256 ^ Z.of_nat n = w mod 256 ^ Z.of_nat n ->
  be_bytes n z = be_bytes n w.
Proof. intros E. unfold be_bytes. by rewrite (le_bytes_mod n z w E). Qed.

Lemma mem_load_store n z : mem_load (mem_store n z) = z mod 256 ^ Z.of_nat n.
Proof.
  unfold mem_load, mem_store, be_value, be_bytes. destruct host_little; [|rewrite reverse_involutive]; apply le_value_le_bytes.
Qed.

Lemma len_mem_store n z : len (mem_store n z) = Z.of_nat n.
Proof. unfold mem_store. destruct host_little; [|apply len_be_bytes]. unfold len. by rewrite length_le_bytes. Qed.

(** The integer at an address determines the bytes there. *)
Lemma mem_load_inj a b : length a = length b -> mem_load a = mem_load b -> a = b.
Proof.
  intros L E. assert (forall x y, length x = length y -> le_value x = le_value y -> x = y) as I.
  { intros x y Lx Ex. by rewrite <- (le_bytes_le_value x), <- (le_bytes_le_value y), Lx, Ex. }
  unfold mem_load, be_value in E. destruct host_little; [by apply I|].
  apply (inj reverse), I; [by rewrite !length_reverse|done].
Qed.

(** Reading a network-order integer gives its value on every host. *)
Lemma betoh_load n bs : length bs = n -> betoh n (mem_load bs) = be_value bs.
Proof.
  intros L. assert (bs = be_bytes n (be_value bs)) as E.
  { unfold be_bytes, be_value. rewrite <- L, <- (length_reverse bs), le_bytes_le_value. by rewrite reverse_involutive. }
  rewrite E at 1. rewrite betoh_mem_load. apply Z.mod_small.
  unfold be_value. rewrite <- L, <- (length_reverse bs). apply le_value_range.
Qed.

Lemma be_value_inj a b : length a = length b -> be_value a = be_value b -> a = b.
Proof.
  intros L E. apply (inj reverse). unfold be_value in E.
  rewrite <- (le_bytes_le_value (reverse a)), <- (le_bytes_le_value (reverse b)), E. by rewrite !length_reverse, L.
Qed.

End host_laws.
