(* ===== verification/StringPiece.v ===== *)
(** [flute/common/StringPiece.h]: a pointer into someone else's memory with an
    [int] length, and the libc routines on byte ranges it is built from. *)

From S2P Require Import Prelude OrdContainers.

(** * libc and <algorithm> on byte ranges *)

(** [std::find(first, last, c) - first]. *)
Fixpoint std_find (c : byte) (l : bytes) : Z :=
  match l with
  | [] => 0
  | x :: l' => if decide (x = c) then 0 else 1 + std_find c l'
  end.

(** [memchr]: [None] for a null result. *)
Definition memchr (c : byte) (l : bytes) : option Z :=
  let p := std_find c l in if p =? len l then None else Some p.

(** [std::search(first, last, pat, pat + len) - first]. *)
Fixpoint std_search (pat l : bytes) : Z :=
  match l with
  | [] => 0
  | _ :: l' => if decide (take (length pat) l = pat) then 0 else 1 + std_search pat l'
  end.

(** [strlen]: the string must be terminated within the memory at [p]. *)
Definition strlen (p : bytes) : outcome Z := of_option FBounds (memchr NUL p).

(** [memcmp(p, q, n)]: its sign, by the first difference of unsigned bytes. *)
Fixpoint memcmp_loop (n : nat) (p q : bytes) : outcome Z :=
  match n with
  | O => Ok 0
  | S n' =>
      match p, q with
      | a :: p', b :: q' =>
          if Z_of_byte a <? Z_of_byte b then Ok (-1)
          else if Z_of_byte b <? Z_of_byte a then Ok 1
          else memcmp_loop n' p' q'
      | _, _ => Fail FBounds
      end
  end.
Definition memcmp (p q : bytes) (n : Z) : outcome Z := memcmp_loop (Z.to_nat (u64 n)) p q.

(** * StringPiece *)

(** [ptr_] is the memory readable from the pointer on; a null pointer reads
    nothing. *)
Record StringPiece : Type := mkStringPiece { ptr_ : bytes; length_ : Z }.

(** The constructors: default, from a C string, from a [std::string], and from
    a pointer and a length. *)
Definition StringPiece_null : StringPiece := mkStringPiece [] 0.
Definition StringPiece_cstr (str : bytes) : outcome StringPiece :=
  n ← strlen str; Ok (mkStringPiece str (s32 n)).
Definition StringPiece_string (str : bytes) : StringPiece :=
  mkStringPiece str (s32 (len str)).
Definition StringPiece_range (ptr : bytes) (n : Z) : StringPiece := mkStringPiece ptr n.

Definition data (sp : StringPiece) : bytes := ptr_ sp.
Definition size (sp : StringPiece) : Z := length_ sp.
Definition empty (sp : StringPiece) : bool := length_ sp =? 0.
Definition clear (sp : StringPiece) : StringPiece := mkStringPiece [] 0.

(** [set], of a pointer and a length and of a C string. *)
Definition set_range (buffer : bytes) (n : Z) (sp : StringPiece) : StringPiece := mkStringPiece buffer n.
Definition set_cstr (str : bytes) (sp : StringPiece) : outcome StringPiece := n ← strlen str; Ok (mkStringPiece str (s32 n)).

Definition index (sp : StringPiece) (i : Z) : outcome byte :=
  require FBounds (0 <=? i);; of_option FBounds (ptr_ sp !! Z.to_nat i).

Definition remove_prefix (sp : StringPiece) (n : Z) : outcome StringPiece :=
  require FBounds ((0 <=? n) && (n <=? len (ptr_ sp)));;
  Ok (mkStringPiece (drop (Z.to_nat n) (ptr_ sp)) (length_ sp - n)).
Definition remove_suffix (sp : StringPiece) (n : Z) : StringPiece :=
  mkStringPiece (ptr_ sp) (length_ sp - n).

Definition piece_eqb (sp x : StringPiece) : outcome bool :=
  if length_ sp =? length_ x then
    r ← memcmp (ptr_ sp) (ptr_ x) (length_ sp); Ok (r =? 0)
  else Ok false.
Definition piece_neqb (sp x : StringPiece) : outcome bool :=
  b ← piece_eqb sp x; Ok (negb b).

(** The macro [STRINGPIECE_BINARY_PREDICATE(cmp, auxcmp)]. *)
Definition binary_predicate (cmp auxcmp : Z -> Z -> bool) (sp x : StringPiece) : outcome bool :=
  r ← memcmp (ptr_ sp) (ptr_ x)
        (if length_ sp <? length_ x then length_ sp else length_ x);
  Ok (auxcmp r 0 || ((r =? 0) && cmp (length_ sp) (length_ x))).
Definition piece_ltb : StringPiece -> StringPiece -> outcome bool := binary_predicate Z.ltb Z.ltb.
Definition piece_leb : StringPiece -> StringPiece -> outcome bool := binary_predicate Z.leb Z.ltb.
Definition piece_geb : StringPiece -> StringPiece -> outcome bool := binary_predicate Z.geb Z.gtb.
Definition piece_gtb : StringPiece -> StringPiece -> outcome bool := binary_predicate Z.gtb Z.gtb.

Definition compare (sp x : StringPiece) : outcome Z :=
  r ← memcmp (ptr_ sp) (ptr_ x)
        (if length_ sp <? length_ x then length_ sp else length_ x);
  Ok (if r =? 0 then
        if length_ sp <? length_ x then -1
        else if length_ sp >? length_ x then 1 else r
      else r).

(** [std::string(p, n)] for the memory at [p]: [n] is a [size_t]. *)
Definition make_string (p : bytes) (n : Z) : outcome bytes :=
  let k := u64 n in
  require FThrow (k <=? PTRDIFF_MAX);;
  require FBounds (k <=? len p);;
  Ok (take (Z.to_nat k) p).

Definition as_string (sp : StringPiece) : outcome bytes := make_string (data sp) (size sp).
Definition CopyToString (sp : StringPiece) : outcome bytes := make_string (ptr_ sp) (length_ sp).

Definition starts_with (sp x : StringPiece) : outcome bool :=
  if length_ sp >=? length_ x then
    r ← memcmp (ptr_ sp) (ptr_ x) (length_ x); Ok (r =? 0)
  else Ok false.

(** * What a piece denotes *)

(** The piece lies inside its memory. *)
Definition piece_wf (sp : StringPiece) : Prop :=
  0 <= length_ sp <= len (ptr_ sp) /\ length_ sp < 2 ^ 31.
Definition piece_bytes (sp : StringPiece) : bytes := take (Z.to_nat (length_ sp)) (ptr_ sp).

(** * Lemmas *)

Lemma std_find_range c l : 0 <= std_find c l <= len l.
Proof.
  induction l as [|x l IH]; simpl; [done|]. rewrite len_cons. case_decide; len_lia.
Qed.

Lemma std_find_app_notin c l k :
  c ∉ l -> std_find c (l ++ k) = len l + std_find c k.
Proof.
  induction l as [|x l IH]; simpl; intros Hc; [done|].
  apply not_elem_of_cons in Hc as [? ?]. rewrite decide_False by congruence.
  rewrite IH by done. len_lia.
Qed.

Lemma std_find_notin c l : c ∉ l -> std_find c l = len l.
Proof. intros. rewrite <- (app_nil_r l) at 1. rewrite std_find_app_notin by done. simpl. lia. Qed.

Lemma std_find_head c l k : c ∉ l -> std_find c (l ++ c :: k) = len l.
Proof. intros. rewrite std_find_app_notin by done. simpl. rewrite decide_True by done. lia. Qed.

Lemma std_find_elem c l : c ∈ l -> std_find c l < len l.
Proof.
  induction l as [|x l IH]; intros H; [by apply elem_of_nil in H|]. simpl.
  apply elem_of_cons in H as [<-|H].
  - rewrite decide_True by done. len_lia.
  - case_decide; [len_lia|]. specialize (IH H). rewrite len_cons. lia.
Qed.

Lemma std_find_lt c l : std_find c l < len l -> c ∈ l.
Proof.
  intros Hlt. destruct (decide (c ∈ l)) as [|Hn]; [done|].
  rewrite std_find_notin in Hlt by done. lia.
Qed.

Lemma std_search_range pat l : 0 <= std_search pat l <= len l.
Proof.
  induction l as [|x l IH]; cbn [std_search]; [done|].
  rewrite len_cons. case_decide; len_lia.
Qed.

(** A match found lies within the range. *)
Lemma std_search_match pat l :
  std_search pat l < len l ->
  take (length pat) (drop (Z.to_nat (std_search pat l)) l) = pat.
Proof.
  induction l as [|x l IH]; cbn [std_search]; [unfold len; simpl; lia|].
  case_decide as E; [done|].
  rewrite len_cons. intros Hlt. pose proof (std_search_range pat l).
  replace (Z.to_nat (1 + std_search pat l)) with (S (Z.to_nat (std_search pat l))) by lia.
  simpl. apply IH. lia.
Qed.

Lemma std_search_fits pat l :
  std_search pat l < len l -> std_search pat l + len pat <= len l.
Proof.
  intros Hlt. pose proof (std_search_match pat l Hlt) as Hm.
  apply (f_equal len) in Hm. rewrite len_take, len_drop in Hm.
  pose proof (std_search_range pat l). fold (len pat) in Hm. lia.
Qed.

(** What follows the first match does not matter. *)
Lemma std_search_app pat l more :
  std_search pat l < len l -> std_search pat (l ++ more) = std_search pat l.
Proof.
  induction l as [|x l IH]; [done|]. intros Hlt.
  pose proof (std_search_fits pat (x :: l) Hlt) as Hfit. revert Hlt Hfit. cbn [std_search app].
  destruct (decide (take (length pat) (x :: l) = pat)) as [E|E]; intros Hlt Hfit.
  - rewrite decide_True; [done|]. rewrite app_comm_cons, take_app_le; [done|]. unfold len in Hfit. simpl in *. lia.
  - rewrite len_cons in *. rewrite IH by lia. rewrite decide_False; [done|].
    rewrite app_comm_cons, take_app_le; [done|]. pose proof (std_search_range pat l). unfold len in *. simpl. lia.
Qed.

Lemma memcmp_loop_prefix n p q :
  (n <= length p)%nat -> (n <= length q)%nat ->
  exists r, memcmp_loop n p q = Ok r /\
    (r = 0 <-> take n p = take n q) /\
    (r < 0 <-> bytes_ltb (take n p) (take n q) = true) /\
    (0 < r <-> bytes_ltb (take n q) (take n p) = true).
Proof.
  revert p q. induction n as [|n IH]; intros p q Hp Hq.
  { exists 0. simpl. split_and!; try done; lia. }
  destruct p as [|a p], q as [|b q]; simpl in Hp, Hq; [lia..|].
  cbn [memcmp_loop take firstn bytes_ltb].
  destruct (Z.ltb_spec (Z_of_byte a) (Z_of_byte b)) as [Hlt|Hge].
  { exists (-1). rewrite (proj2 (Z.ltb_ge _ _)) by lia. rewrite (proj2 (Z.eqb_neq _ _)) by lia.
    simpl. split_and!; try done; split; intros; try done; try lia.
    injection H as ->. lia. }
  destruct (Z.ltb_spec (Z_of_byte b) (Z_of_byte a)) as [Hgt|Hle].
  { exists 1. rewrite (proj2 (Z.eqb_neq (Z_of_byte a) (Z_of_byte b))) by lia.
    simpl. split_and!; try done; split; intros; try done; try lia.
    injection H as ->. lia. }
  assert (a = b) as ->.
  { rewrite <- (byte_of_Z_of_byte a), <- (byte_of_Z_of_byte b). f_equal. lia. }
  rewrite Z.eqb_refl. simpl.
  destruct (IH p q) as (r & -> & E1 & E2 & E3); [lia..|].
  exists r. split_and!; [done| |done|done]. rewrite E1. split; [by intros -> | by injection 1].
Qed.

(** The order of strings cut to the shorter length, then by length, is the
    lexicographic order. *)
Lemma bytes_ltb_cut p q n :
  n = Nat.min (length p) (length q) ->
  bytes_ltb p q = bytes_ltb (take n p) (take n q) ||
    (bool_decide (take n p = take n q) && (len p <? len q)).
Proof.
  revert p q. induction n as [|n IH]; intros p q Hn.
  - destruct p as [|a p], q as [|b q]; simpl in *; rewrite ?bool_decide_true by done; simpl;
      rewrite ?len_nil, ?len_cons; try done; try lia.
    + len_pose. lia.
    + len_pose. symmetry. apply Z.ltb_ge. lia.
  - destruct p as [|a p], q as [|b q]; simpl in Hn; [lia..|].
    cbn [take firstn bytes_ltb]. rewrite !len_cons.
    rewrite (IH p q) by lia.
    destruct (decide (a = b)) as [->|Hab].
    + rewrite Z.ltb_irrefl, Z.eqb_refl. simpl. f_equal. f_equal.
      * apply bool_decide_ext. split; [congruence | by injection 1].
      * lia.
    + assert (Z_of_byte a <> Z_of_byte b).
      { intros E. apply Hab. rewrite <- (byte_of_Z_of_byte a), <- (byte_of_Z_of_byte b). by rewrite E. }
      rewrite (proj2 (Z.eqb_neq _ _)) by done. simpl.
      rewrite (bool_decide_false (a :: _ = b :: _)) by (by injection 1).
      simpl. by rewrite !orb_false_r.
Qed.

Lemma piece_cut sp x :
  piece_wf sp -> piece_wf x ->
  exists r, memcmp (ptr_ sp) (ptr_ x) (if length_ sp <? length_ x then length_ sp else length_ x)
      = Ok r /\
    let n := Z.to_nat (Z.min (length_ sp) (length_ x)) in
    (r = 0 <-> take n (piece_bytes sp) = take n (piece_bytes x)) /\
    (r < 0 <-> bytes_ltb (take n (piece_bytes sp)) (take n (piece_bytes x)) = true) /\
    (0 < r <-> bytes_ltb (take n (piece_bytes x)) (take n (piece_bytes sp)) = true).
Proof.
  intros [[H1 H2] H3] [[G1 G2] G3]. unfold memcmp.
  set (n := Z.to_nat (Z.min (length_ sp) (length_ x))).
  replace (Z.to_nat _) with n.
  2:{ unfold n. f_equal. destruct (Z.ltb_spec (length_ sp) (length_ x));
        rewrite uw_small; unfold in_uw; lia. }
  unfold len in *.
  destruct (memcmp_loop_prefix n (ptr_ sp) (ptr_ x)) as (r & Hr & E); [lia..|].
  exists r. split; [done|]. unfold piece_bytes. rewrite !take_take.
  rewrite !Nat.min_l by lia. done.
Qed.

Lemma len_piece_bytes sp : piece_wf sp -> len (piece_bytes sp) = length_ sp.
Proof. intros [[??]?]. unfold piece_bytes. rewrite len_take. lia. Qed.

Lemma bytes_ltb_pieces sp x :
  piece_wf sp -> piece_wf x ->
  let n := Z.to_nat (Z.min (length_ sp) (length_ x)) in
  bytes_ltb (piece_bytes sp) (piece_bytes x) =
    bytes_ltb (take n (piece_bytes sp)) (take n (piece_bytes x)) ||
    (bool_decide (take n (piece_bytes sp) = take n (piece_bytes x)) && (length_ sp <? length_ x)).
Proof.
  intros Hs Hx n. rewrite (bytes_ltb_cut _ _ n), !len_piece_bytes by
    (try done; pose proof (len_piece_bytes sp Hs); pose proof (len_piece_bytes x Hx);
     unfold len in *; lia).
  done.
Qed.

(** [operator<] and [compare] agree with the lexicographic order of the
    denoted strings. *)
Lemma piece_ltb_spec sp x :
  piece_wf sp -> piece_wf x -> piece_ltb sp x = Ok (bytes_ltb (piece_bytes sp) (piece_bytes x)).
Proof.
  intros Hs Hx. unfold piece_ltb, binary_predicate.
  destruct (piece_cut sp x Hs Hx) as (r & -> & E0 & E1 & E2). simpl. f_equal.
  rewrite (bytes_ltb_pieces sp x Hs Hx). f_equal; [|f_equal].
  - apply eq_bool_prop_intro. rewrite !Is_true_true, Z.ltb_lt. exact E1.
  - apply eq_bool_prop_intro. rewrite !Is_true_true, Z.eqb_eq, bool_decide_eq_true. exact E0.
Qed.

Lemma compare_spec sp x :
  piece_wf sp -> piece_wf x ->
  returns (fun r =>
    (r < 0 <-> bytes_ltb (piece_bytes sp) (piece_bytes x) = true) /\
    (r = 0 <-> piece_bytes sp = piece_bytes x) /\
    (0 < r <-> bytes_ltb (piece_bytes x) (piece_bytes sp) = true)) (compare sp x).
Proof.
  intros Hs Hx. unfold compare.
  destruct (piece_cut sp x Hs Hx) as (r & -> & E0 & E1 & E2). simpl.
  rewrite (bytes_ltb_pieces sp x Hs Hx), (bytes_ltb_pieces x sp Hx Hs).
  rewrite (Z.min_comm (length_ x)).
  set (n := Z.to_nat _) in *.
  pose proof (len_piece_bytes sp Hs) as Ls. pose proof (len_piece_bytes x Hx) as Lx.
  assert (Heq : piece_bytes sp = piece_bytes x <->
    take n (piece_bytes sp) = take n (piece_bytes x) /\ length_ sp = length_ x).
  { split; [intros E; rewrite E; split; [done | by rewrite <- Ls, <- Lx, E]|].
    intros [E El]. rewrite <- (firstn_all (piece_bytes sp)), <- (firstn_all (piece_bytes x)).
    unfold len in *. replace (length (piece_bytes sp)) with n by lia.
    by replace (length (piece_bytes x)) with n by lia. }
  rewrite Heq, !orb_true_iff, !andb_true_iff, !bool_decide_eq_true, !Z.ltb_lt, <- E0, <- E1, <- E2.
  assert (take n (piece_bytes x) = take n (piece_bytes sp) <-> r = 0) as -> by (rewrite E0; done).
  repeat case_match; lia.
Qed.

Lemma starts_with_spec sp x :
  piece_wf sp -> piece_wf x ->
  starts_with sp x = Ok (bool_decide (piece_bytes x `prefix_of` piece_bytes sp)).
Proof.
  intros Hs Hx. pose proof (len_piece_bytes sp Hs) as Ls. pose proof (len_piece_bytes x Hx) as Lx.
  unfold starts_with. destruct (Z.geb_spec (length_ sp) (length_ x)) as [Hle|Hlt].
  2:{ f_equal. symmetry. apply bool_decide_false. intros [k Hk].
      apply (f_equal len) in Hk. rewrite len_app in Hk. len_pose. lia. }
  destruct Hs as [[H1 H2] H3], Hx as [[G1 G2] G3].
  unfold memcmp. rewrite uw_small by (unfold in_uw; lia). unfold len in *.
  destruct (memcmp_loop_prefix (Z.to_nat (length_ x)) (ptr_ sp) (ptr_ x)) as (r & -> & E0 & _);
    [lia..|]. simpl. f_equal.
  apply eq_bool_prop_intro. rewrite Is_true_true, Z.eqb_eq, bool_decide_spec, E0.
  unfold piece_bytes. split.
  - intros E. exists (drop (Z.to_nat (length_ x)) (take (Z.to_nat (length_ sp)) (ptr_ sp))).
    rewrite <- E. rewrite <- (take_drop (Z.to_nat (length_ x)) (take _ (ptr_ sp))) at 1.
    f_equal. rewrite take_take. f_equal. lia.
  - intros [k Hk]. apply (f_equal (take (Z.to_nat (length_ x)))) in Hk.
    rewrite take_take, Nat.min_l in Hk by lia. rewrite Hk.
    rewrite take_app_le by (rewrite length_take; lia).
    rewrite take_take. f_equal. lia.
Qed.
