(* ===== verification/Buffer.v ===== *)
(** [flute/net/Buffer.h], [flute/net/Buffer.cc]: the byte buffer of every
    connection,

    <<
      0 <= m_read_idx <= m_write_idx <= m_buffer.size()
      | prependable | content (readable) | writable |
    >>

    A [const char*] into the buffer is its offset from [begin()].  The state,
    the operations with their asserts and [size_t] arithmetic, and the proof
    that the buffer implements a queue of bytes with head room. *)

From S2P Require Import Prelude OrdContainers StringPiece Endian.

Record Buffer : Type := mkBuffer {
  m_buffer : bytes;
  m_read_idx : Z;
  m_write_idx : Z
}.

Definition kCheapPrepend : Z := 8.
Definition kInitialSize : Z := 1024.

(** * Operations *)

Definition content_bytes_len (b : Buffer) : Z := u64 (m_write_idx b - m_read_idx b).
Definition writable_bytes_len (b : Buffer) : Z := u64 (len (m_buffer b) - m_write_idx b).
Definition prependable_bytes_len (b : Buffer) : Z := m_read_idx b.

Definition peek_base (b : Buffer) : Z := m_read_idx b.
Definition write_base (b : Buffer) : Z := m_write_idx b.

(** [std::vector<char>(n)] and [resize(n)]. *)
Definition vector_resize (l : bytes) (n : Z) : outcome bytes :=
  require FThrow (n <=? PTRDIFF_MAX);;
  Ok (take (Z.to_nat n) l ++ replicate (Z.to_nat n - length l) NUL).

(** The constructor [Buffer(size_t initialSize)]. *)
Definition new_Buffer (initialSize : Z) : outcome Buffer :=
  v ← vector_resize [] (u64 (kCheapPrepend + initialSize));
  let b := mkBuffer v kCheapPrepend kCheapPrepend in
  assert_ (content_bytes_len b =? 0);;
  assert_ (writable_bytes_len b =? initialSize);;
  assert_ (prependable_bytes_len b =? kCheapPrepend);;
  Ok b.

Definition swap (b rhs : Buffer) : Buffer * Buffer := (rhs, b).

(** The bytes in memory between two offsets. *)
Definition read_range (b : Buffer) (i j : Z) : outcome bytes :=
  require FBounds ((0 <=? i) && (i <=? j) && (j <=? len (m_buffer b)));;
  Ok (slice (m_buffer b) i j).

(** [std::copy(d, d + len, begin() + pos)] from memory outside the buffer. *)
Definition store (b : Buffer) (pos : Z) (d : bytes) : outcome Buffer :=
  require FBounds ((0 <=? pos) && (pos + len d <=? len (m_buffer b)));;
  Ok (mkBuffer (overwrite (m_buffer b) pos d) (m_read_idx b) (m_write_idx b)).

Definition find_CRLF_from (b : Buffer) (start : Z) : outcome (option Z) :=
  assert_ (peek_base b <=? start);;
  assert_ (start <=? write_base b);;
  r ← read_range b start (write_base b);
  let crlf := start + std_search kCRLF r in
  Ok (if crlf =? write_base b then None else Some crlf).

Definition find_CRLF (b : Buffer) : outcome (option Z) :=
  r ← read_range b (peek_base b) (write_base b);
  let crlf := peek_base b + std_search kCRLF r in
  Ok (if crlf =? write_base b then None else Some crlf).

Definition find_EOL (b : Buffer) : outcome (option Z) :=
  r ← read_range b (peek_base b) (peek_base b + content_bytes_len b);
  Ok (Z.add (peek_base b) <$> memchr LF r).

Definition find_EOL_from (b : Buffer) (start : Z) : outcome (option Z) :=
  assert_ (peek_base b <=? start);;
  assert_ (start <=? write_base b);;
  r ← read_range b start (start + u64 (write_base b - start));
  Ok (Z.add start <$> memchr LF r).

Definition retrieve_all (b : Buffer) : Buffer :=
  mkBuffer (m_buffer b) kCheapPrepend kCheapPrepend.

Definition retrieve (b : Buffer) (n : Z) : outcome Buffer :=
  assert_ (n <=? content_bytes_len b);;
  if n <? content_bytes_len b then
    Ok (mkBuffer (m_buffer b) (u64 (m_read_idx b + n)) (m_write_idx b))
  else Ok (retrieve_all b).

Definition retrieve_until (b : Buffer) (end_ : Z) : outcome Buffer :=
  assert_ (peek_base b <=? end_);;
  assert_ (end_ <=? write_base b);;
  retrieve b (u64 (end_ - peek_base b)).

Definition retrieve_int64 (b : Buffer) : outcome Buffer := retrieve b 8.
Definition retrieve_int32 (b : Buffer) : outcome Buffer := retrieve b 4.
Definition retrieve_int16 (b : Buffer) : outcome Buffer := retrieve b 2.
Definition retrieve_int8 (b : Buffer) : outcome Buffer := retrieve b 1.

Definition readout_as_string (b : Buffer) (n : Z) : outcome (bytes * Buffer) :=
  assert_ (n <=? content_bytes_len b);;
  result ← read_range b (peek_base b) (peek_base b + n);
  b' ← retrieve b n;
  Ok (result, b').

Definition readout_all_as_string (b : Buffer) : outcome (bytes * Buffer) :=
  readout_as_string b (content_bytes_len b).

Definition as_string_piece (b : Buffer) : StringPiece :=
  StringPiece_range (drop (Z.to_nat (peek_base b)) (m_buffer b)) (s32 (content_bytes_len b)).

Definition as_string (b : Buffer) : outcome bytes :=
  make_string (drop (Z.to_nat (peek_base b)) (m_buffer b)) (s32 (content_bytes_len b)).

Definition peek_last_as_string (b : Buffer) (n : Z) : outcome bytes :=
  if n >? content_bytes_len b then Ok []
  else
    let start := peek_base b + u64 (content_bytes_len b - n) in
    read_range b start (start + n).

(** [std::copy(begin()+src, begin()+src+n, begin()+dst)]: element by element,
    front to back, over one array. *)
Fixpoint std_copy (n : nat) (src dst : Z) (l : bytes) : outcome bytes :=
  match n with
  | O => Ok l
  | S n' =>
      c ← of_option FBounds (l !! Z.to_nat src);
      require FBounds (dst <? len l);;
      std_copy n' (src + 1) (dst + 1) (<[Z.to_nat dst := c]> l)
  end.

Definition make_space (b : Buffer) (n : Z) : outcome Buffer :=
  if u64 (writable_bytes_len b + prependable_bytes_len b) <? u64 (n + kCheapPrepend) then
    v ← vector_resize (m_buffer b) (u64 (m_write_idx b + n));
    Ok (mkBuffer v (m_read_idx b) (m_write_idx b))
  else
    assert_ (kCheapPrepend <? m_read_idx b);;
    let readable := content_bytes_len b in
    v ← std_copy (Z.to_nat (m_write_idx b - m_read_idx b)) (m_read_idx b) kCheapPrepend (m_buffer b);
    let b' := mkBuffer v kCheapPrepend (u64 (kCheapPrepend + readable)) in
    assert_ (readable =? content_bytes_len b');;
    Ok b'.

Definition ensure_writable_len (b : Buffer) (n : Z) : outcome Buffer :=
  b' ← (if writable_bytes_len b <? n then make_space b n else Ok b);
  assert_ (writable_bytes_len b' >=? n);;
  Ok b'.

Definition mark_written (b : Buffer) (n : Z) : outcome Buffer :=
  assert_ (n <=? writable_bytes_len b);;
  Ok (mkBuffer (m_buffer b) (m_read_idx b) (u64 (m_write_idx b + n))).

Definition unwrite (b : Buffer) (n : Z) : outcome Buffer :=
  assert_ (n <=? content_bytes_len b);;
  Ok (mkBuffer (m_buffer b) (m_read_idx b) (u64 (m_write_idx b - n))).

(** [append(const char* data, size_t len)] for the [len] bytes [d]. *)
Definition append (b : Buffer) (d : bytes) : outcome Buffer :=
  b1 ← ensure_writable_len b (len d);
  b2 ← store b1 (write_base b1) d;
  mark_written b2 (len d).

Definition write (b : Buffer) (d : bytes) : outcome Buffer := append b d.

(** [append(const StringPiece& str)]: the [int] length becomes a [size_t]. *)
Definition append_piece (b : Buffer) (str : StringPiece) : outcome Buffer :=
  let n := u64 (size str) in
  require FBounds (n <=? len (data str));;
  append b (take (Z.to_nat n) (data str)).

(** [prepend(const void* data, size_t len)]. *)
Definition prepend (b : Buffer) (d : bytes) : outcome Buffer :=
  assert_ (len d <=? prependable_bytes_len b);;
  let b' := mkBuffer (m_buffer b) (u64 (m_read_idx b - len d)) (m_write_idx b) in
  store b' (m_read_idx b') d.

Definition shrink (b : Buffer) (reserve : Z) : outcome Buffer :=
  other ← new_Buffer kInitialSize;
  other ← ensure_writable_len other (u64 (content_bytes_len b + reserve));
  other ← append_piece other (as_string_piece b);
  Ok (swap b other).1.

(** ** Integers in network order *)

Section integers.
Context `{HostEndian}.

Definition append_int64_net (b : Buffer) (x : Z) : outcome Buffer :=
  let be64 := s64 (host_to_net64 x) in write b (mem_store 8 (u64 be64)).
Definition append_int32_net (b : Buffer) (x : Z) : outcome Buffer :=
  let be32 := s32 (host_to_net32 x) in write b (mem_store 4 (u32 be32)).
Definition append_int16_net (b : Buffer) (x : Z) : outcome Buffer :=
  let be16 := s16 (host_to_net16 x) in write b (mem_store 2 (u16 be16)).
Definition append_int8_net (b : Buffer) (x : Z) : outcome Buffer :=
  write b (mem_store 1 (u8 x)).

Definition peek_int64_host (b : Buffer) : outcome Z :=
  assert_ (content_bytes_len b >=? 8);;
  m ← read_range b (peek_base b) (peek_base b + 8);
  Ok (s64 (net_to_host64 (s64 (mem_load m)))).
Definition peek_int32_host (b : Buffer) : outcome Z :=
  assert_ (content_bytes_len b >=? 4);;
  m ← read_range b (peek_base b) (peek_base b + 4);
  Ok (s32 (net_to_host32 (s32 (mem_load m)))).
Definition peek_int16_host (b : Buffer) : outcome Z :=
  assert_ (content_bytes_len b >=? 2);;
  m ← read_range b (peek_base b) (peek_base b + 2);
  Ok (s16 (net_to_host16 (s16 (mem_load m)))).
Definition peek_int8_host (b : Buffer) : outcome Z :=
  assert_ (content_bytes_len b >=? 1);;
  m ← read_range b (peek_base b) (peek_base b + 1);
  Ok (s8 (mem_load m)).

Definition readout_int64_host (b : Buffer) : outcome (Z * Buffer) :=
  result ← peek_int64_host b; b' ← retrieve_int64 b; Ok (result, b').
Definition readout_int32_host (b : Buffer) : outcome (Z * Buffer) :=
  result ← peek_int32_host b; b' ← retrieve_int32 b; Ok (result, b').
Definition readout_int16_host (b : Buffer) : outcome (Z * Buffer) :=
  result ← peek_int16_host b; b' ← retrieve_int16 b; Ok (result, b').
Definition readout_int8_host (b : Buffer) : outcome (Z * Buffer) :=
  result ← peek_int8_host b; b' ← retrieve_int8 b; Ok (result, b').

Definition prepend_int64_net (b : Buffer) (x : Z) : outcome Buffer :=
  let be64 := s64 (host_to_net64 x) in prepend b (mem_store 8 (u64 be64)).
Definition prepend_int32_net (b : Buffer) (x : Z) : outcome Buffer :=
  let be32 := s32 (host_to_net32 x) in prepend b (mem_store 4 (u32 be32)).
Definition prepend_int16_net (b : Buffer) (x : Z) : outcome Buffer :=
  let be16 := s16 (host_to_net16 x) in prepend b (mem_store 2 (u16 be16)).
Definition prepend_int8_net (b : Buffer) (x : Z) : outcome Buffer :=
  prepend b (mem_store 1 (u8 x)).
End integers.

(** ** Reading from a descriptor *)

(** What [readv] did: an error number, or the bytes it stored, in order. *)
Inductive io_result : Type :=
| IoError (errno : Z)
| IoBytes (d : bytes).

Definition kExtraBuf : Z := 65536.

(** [read_all_from(fd, &saved_errno)]: [readv] is the system call on [fd],
    given the total capacity of the I/O vectors.  The result is [n] and the
    value stored to [*saved_errno], if any. *)
Definition read_all_from (readv : Z -> io_result) (b : Buffer)
    : outcome (Z * option Z * Buffer) :=
  let writable := writable_bytes_len b in
  let capacity := if writable <? kExtraBuf then writable + kExtraBuf else writable in
  match readv capacity with
  | IoError e => Ok (-1, Some e, b)
  | IoBytes d =>
      let n := len d in
      b1 ← store b (write_base b) (take (Z.to_nat writable) d);
      if n <=? writable then
        b2 ← mark_written b1 n; Ok (n, None, b2)
      else
        let b2 := mkBuffer (m_buffer b1) (m_read_idx b1) (len (m_buffer b1)) in
        b3 ← append b2 (drop (Z.to_nat writable) d);
        Ok (n, None, b3)
  end.

(** * The invariant *)

(** [0 <= m_read_idx <= m_write_idx <= size], in a vector that has room for
    the cheap-prepend area and is not larger than a vector can be. *)
Record wf (b : Buffer) : Prop := {
  wf_read : 0 <= m_read_idx b;
  wf_order : m_read_idx b <= m_write_idx b;
  wf_write : m_write_idx b <= len (m_buffer b);
  wf_room : kCheapPrepend <= len (m_buffer b);
  wf_max : len (m_buffer b) <= PTRDIFF_MAX
}.

(** The readable bytes: what the buffer holds, as its clients see it. *)
Definition content (b : Buffer) : bytes := slice (m_buffer b) (m_read_idx b) (m_write_idx b).

Ltac wf_inv H := destruct H as [?Hr ?Ho ?Hw ?Hk ?Hm]; unfold kCheapPrepend, PTRDIFF_MAX in *.
Ltac range := unfold in_uw, in_sw, PTRDIFF_MAX, kCheapPrepend in *; simpl in *; lia.

Lemma content_bytes_len_eq b : wf b -> content_bytes_len b = m_write_idx b - m_read_idx b.
Proof. intros H. wf_inv H. unfold content_bytes_len. apply uw_small. range. Qed.

Lemma writable_bytes_len_eq b : wf b -> writable_bytes_len b = len (m_buffer b) - m_write_idx b.
Proof. intros H. wf_inv H. unfold writable_bytes_len. apply uw_small. range. Qed.

Lemma len_content b : wf b -> len (content b) = m_write_idx b - m_read_idx b.
Proof. intros H. wf_inv H. apply len_slice; lia. Qed.

Lemma content_bytes_len_content b : wf b -> content_bytes_len b = len (content b).
Proof. intros H. by rewrite content_bytes_len_eq, len_content. Qed.

#[local] Hint Rewrite content_bytes_len_eq writable_bytes_len_eq using assumption : buf.

Lemma read_range_ok b i j :
  wf b -> 0 <= i <= j -> j <= m_write_idx b -> read_range b i j = Ok (slice (m_buffer b) i j).
Proof. intros H ??. wf_inv H. unfold read_range. by step_asserts. Qed.

Lemma store_spec b pos d :
  wf b -> 0 <= pos -> pos + len d <= len (m_buffer b) ->
  exists b', store b pos d = Ok b' /\ wf b' /\ m_buffer b' = overwrite (m_buffer b) pos d /\
    m_read_idx b' = m_read_idx b /\ m_write_idx b' = m_write_idx b.
Proof.
  intros H ??. wf_inv H. eexists. unfold store. step_asserts.
  split_and!; [done| |done..]. constructor; simpl; rewrite ?len_overwrite by lia; range.
Qed.

Lemma vector_resize_ok l n :
  0 <= n <= PTRDIFF_MAX ->
  exists v, vector_resize l n = Ok v /\ len v = n /\
    (len l <= n -> v = l ++ replicate (Z.to_nat n - length l) NUL).
Proof.
  intros Hn. eexists. unfold vector_resize. step_asserts. split; [done|].
  split; [autorewrite with len; unfold len; lia|].
  intros. rewrite take_ge; [done|]. unfold len in *. lia.
Qed.

(** ** Construction *)

Lemma new_Buffer_spec n :
  0 <= n <= PTRDIFF_MAX - kCheapPrepend ->
  exists b, new_Buffer n = Ok b /\ wf b /\ content b = [] /\
    m_read_idx b = kCheapPrepend /\ len (m_buffer b) = kCheapPrepend + n.
Proof.
  intros Hn. unfold new_Buffer.
  rewrite uw_small by range.
  destruct (vector_resize_ok [] (kCheapPrepend + n)) as (v & -> & Hv & _); [range|]. simpl.
  set (b := mkBuffer v kCheapPrepend kCheapPrepend).
  assert (wf b) as Hb by (constructor; subst b; simpl; rewrite ?Hv; range).
  autorewrite with buf. subst b. simpl. rewrite Hv. step_asserts.
  eexists; split_and!; [done|done| |done|done]. by apply slice_empty.
Qed.

(** ** Consuming *)

Lemma retrieve_all_wf b : wf b -> wf (retrieve_all b) /\ content (retrieve_all b) = [].
Proof.
  intros H. wf_inv H. split; [constructor; simpl; range | by apply slice_empty].
Qed.

Lemma retrieve_spec b n :
  wf b -> 0 <= n <= len (content b) ->
  exists b', retrieve b n = Ok b' /\ wf b' /\ content b' = drop (Z.to_nat n) (content b) /\
    m_buffer b' = m_buffer b /\ Z.min (m_read_idx b) kCheapPrepend <= m_read_idx b'.
Proof.
  intros H Hn. pose proof (len_content b H) as Hl. rewrite Hl in Hn.
  unfold retrieve. autorewrite with buf. step_asserts.
  destruct (Z.ltb_spec n (m_write_idx b - m_read_idx b)) as [Hlt|Hge].
  - wf_inv H. rewrite uw_small by range. eexists; split; [done|]. simpl. split_and!; [| |done|lia].
    + constructor; simpl; range.
    + unfold content; simpl. rewrite drop_slice by lia. done.
  - destruct (retrieve_all_wf b H) as [Hw Hc]. eexists; split_and!; [done|done| |done|simpl; lia].
    rewrite Hc. symmetry. apply drop_ge. unfold len in *. lia.
Qed.

Lemma retrieve_until_spec b n :
  wf b -> 0 <= n <= len (content b) ->
  exists b', retrieve_until b (m_read_idx b + n) = Ok b' /\ wf b' /\
    content b' = drop (Z.to_nat n) (content b) /\ m_buffer b' = m_buffer b /\
    Z.min (m_read_idx b) kCheapPrepend <= m_read_idx b'.
Proof.
  intros H Hn. pose proof (len_content b H) as Hl.
  unfold retrieve_until, peek_base, write_base. rewrite Hl in Hn. step_asserts.
  replace (u64 _) with n; [apply retrieve_spec; [done|lia]|].
  wf_inv H. rewrite uw_small; range.
Qed.

Lemma readout_as_string_spec b n :
  wf b -> 0 <= n <= len (content b) ->
  exists b', readout_as_string b n = Ok (take (Z.to_nat n) (content b), b') /\ wf b' /\
    content b' = drop (Z.to_nat n) (content b).
Proof.
  intros H Hn. destruct (retrieve_spec b n H Hn) as (b' & Hb' & Hw' & Hc' & _).
  pose proof (len_content b H) as Hl. rewrite Hl in Hn.
  exists b'. unfold readout_as_string. autorewrite with buf. step_asserts.
  rewrite read_range_ok; [|done| |]; unfold peek_base; [|pose proof (wf_read b H); lia | lia].
  simpl. rewrite Hb'. simpl. split_and!; [|done|done]. do 2 f_equal.
  unfold content. rewrite take_slice; [done| |lia]. by apply wf_read.
Qed.

Lemma unwrite_spec b n :
  wf b -> 0 <= n <= len (content b) ->
  exists b', unwrite b n = Ok b' /\ wf b' /\ m_buffer b' = m_buffer b /\
    m_read_idx b' = m_read_idx b /\
    content b' = take (Z.to_nat (len (content b) - n)) (content b).
Proof.
  intros H Hn. pose proof (len_content b H) as Hl. rewrite Hl in Hn.
  unfold unwrite. autorewrite with buf. step_asserts. wf_inv H. rewrite uw_small by range.
  eexists; split_and!; [done| |done..|].
  - constructor; simpl; range.
  - unfold content at 1; simpl. rewrite Hl. unfold content. rewrite take_slice by lia. f_equal. lia.
Qed.

(** ** The compaction loop *)

Lemma insert_overwrite {A} (l : list A) i x :
  0 <= i < len l -> <[Z.to_nat i := x]> l = overwrite l i [x].
Proof.
  intros. unfold overwrite. rewrite len_cons, len_nil.
  rewrite insert_take_drop by (unfold len in *; lia).
  do 3 f_equal. lia.
Qed.

Lemma overwrite_app {A} (l : list A) i s t :
  0 <= i -> i + len s + len t <= len l ->
  overwrite (overwrite l i s) (i + len s) t = overwrite l i (s ++ t).
Proof.
  intros. len_pose. unfold overwrite at 1 3. rewrite len_app.
  assert (take (Z.to_nat (i + len s)) (overwrite l i s) = take (Z.to_nat i) l ++ s) as ->.
  { unfold overwrite. rewrite app_assoc. rewrite take_app_length'; [done|].
    rewrite length_app, length_take. unfold len in *. lia. }
  rewrite <- !app_assoc. do 3 f_equal. unfold overwrite.
  rewrite drop_app_ge by (rewrite length_take; unfold len in *; lia).
  rewrite drop_app_ge by (rewrite length_take; unfold len in *; lia).
  rewrite drop_drop. f_equal. rewrite length_take. unfold len in *. lia.
Qed.

(** Copying towards the front over an overlapping range moves the range: no
    byte is read after it was overwritten. *)
Lemma std_copy_forward n src dst l :
  0 <= dst -> dst <= src -> src + Z.of_nat n <= len l ->
  std_copy n src dst l = Ok (overwrite l dst (slice l src (src + Z.of_nat n))).
Proof.
  revert src dst l. induction n as [|n IH]; intros src dst l Hd Hds Hs.
  { simpl. rewrite slice_empty by lia. unfold overwrite. rewrite len_nil, Z.add_0_r. simpl.
    by rewrite take_drop. }
  cbn [std_copy].
  destruct (l !! Z.to_nat src) as [c|] eqn:Hc.
  2:{ apply lookup_ge_None in Hc. unfold len in *. lia. }
  simpl. step_asserts. rewrite insert_overwrite by lia.
  assert (len (overwrite l dst [c]) = len l) as Hlen by (apply len_overwrite; len_lia).
  rewrite IH by (rewrite ?Hlen; lia). f_equal.
  assert (slice (overwrite l dst [c]) (src + 1) (src + 1 + Z.of_nat n)
          = slice l (src + 1) (src + Z.of_nat (S n))) as ->.
  { rewrite slice_overwrite_after by len_lia. f_equal. lia. }
  replace (dst + 1) with (dst + len [c]) by done.
  rewrite overwrite_app; [| done | rewrite len_slice; len_lia].
  f_equal. rewrite (slice_split l src (src + 1)) by lia. f_equal.
  unfold slice. replace (Z.to_nat (src + 1 - src)) with 1%nat by lia.
  by rewrite (drop_S l c) by done.
Qed.

(** ** Making room *)

(** The size of the vector after an operation that needs [n] more bytes. *)
(** [n] more bytes fit, by resizing or by moving the content to the front. *)
Definition fits (b : Buffer) (n : Z) : Prop :=
  n <= PTRDIFF_MAX /\
  (m_write_idx b + n <= PTRDIFF_MAX \/ n + kCheapPrepend <= len (m_buffer b) - m_write_idx b + m_read_idx b).

Lemma fits_intro b n : wf b -> m_write_idx b + n <= PTRDIFF_MAX -> fits b n.
Proof. intros H. wf_inv H. unfold fits, PTRDIFF_MAX, kCheapPrepend in *. lia. Qed.

Lemma make_space_spec b n :
  wf b -> len (m_buffer b) - m_write_idx b < n -> fits b n ->
  exists b', make_space b n = Ok b' /\ wf b' /\ content b' = content b /\
    n <= len (m_buffer b') - m_write_idx b' /\
    Z.min (m_read_idx b) kCheapPrepend <= m_read_idx b' /\
    len (m_buffer b') <= Z.max (len (m_buffer b)) (m_write_idx b + n) /\
    m_write_idx b' <= m_write_idx b.
Proof.
  intros H Hlt [Hn Hmax]. unfold make_space. autorewrite with buf. unfold prependable_bytes_len.
  pose proof H as H0. wf_inv H0.
  rewrite (uw_small 64 (_ - _ + _)), (uw_small 64 (n + 8)) by range.
  destruct (Z.ltb_spec (len (m_buffer b) - m_write_idx b + m_read_idx b) (n + 8)) as [Hg|Hm'].
  - rewrite (uw_small 64 (m_write_idx b + n)) by range.
    destruct (vector_resize_ok (m_buffer b) (m_write_idx b + n)) as (v & -> & Hv & Hv'); [range|].
    simpl. eexists; split_and!; [done| | | | | |]; simpl; rewrite ?Hv; try lia.
    + constructor; simpl; rewrite ?Hv; range.
    + unfold content; simpl. rewrite Hv' by lia. by apply slice_app_l.
  - step_asserts. rewrite std_copy_forward by lia. simpl.
    replace (m_read_idx b + _) with (m_write_idx b) by lia.
    assert (Hl : len (slice (m_buffer b) (m_read_idx b) (m_write_idx b))
                 = m_write_idx b - m_read_idx b) by (apply len_slice; lia).
    rewrite (uw_small 64 (8 + _)) by range.
    set (b' := mkBuffer _ _ _).
    assert (wf b') as Hb'.
    { constructor; subst b'; simpl; rewrite ?len_overwrite; rewrite ?Hl; range. }
    autorewrite with buf. subst b'; simpl. step_asserts.
    eexists; split_and!; [done|done| | | | |]; simpl; rewrite ?len_overwrite, ?Hl; try lia.
    unfold content; simpl.
    replace (8 + _) with (8 + len (slice (m_buffer b) (m_read_idx b) (m_write_idx b))) by lia.
    apply slice_overwrite_same; lia.
Qed.

Lemma ensure_writable_len_spec b n :
  wf b -> 0 <= n -> fits b n ->
  exists b', ensure_writable_len b n = Ok b' /\ wf b' /\ content b' = content b /\
    n <= len (m_buffer b') - m_write_idx b' /\
    Z.min (m_read_idx b) kCheapPrepend <= m_read_idx b' /\
    len (m_buffer b') <= Z.max (len (m_buffer b)) (m_write_idx b + n).
Proof.
  intros H Hn Hmax. unfold ensure_writable_len. autorewrite with buf.
  destruct (Z.ltb_spec (len (m_buffer b) - m_write_idx b) n) as [Hlt|Hge].
  - destruct (make_space_spec b n H Hlt Hmax) as (b' & -> & Hb' & Hc & Hw & Hr & Hl & _).
    simpl. autorewrite with buf. step_asserts. eauto 10.
  - simpl. autorewrite with buf. step_asserts.
    exists b. split_and!; [done..|lia|lia|lia].
Qed.

(** Making room moves the content towards the front, if at all. *)
Lemma ensure_writable_len_moves b n b' :
  wf b -> fits b n -> ensure_writable_len b n = Ok b' -> m_write_idx b' <= m_write_idx b.
Proof.
  intros H Hmax. unfold ensure_writable_len. autorewrite with buf.
  destruct (Z.ltb_spec (len (m_buffer b) - m_write_idx b) n) as [Hlt|Hge]; intros E; outcome_inv; subst; [|lia].
  destruct (make_space_spec b n H Hlt Hmax) as (b1 & E1 & _ & _ & _ & _ & _ & Hw). congruence.
Qed.

(** Data put behind the content, and then marked as written. *)
Lemma fill_spec b d :
  wf b -> len d <= len (m_buffer b) - m_write_idx b ->
  exists b1 b2, store b (write_base b) d = Ok b1 /\ writable_bytes_len b1 = writable_bytes_len b /\
    mark_written b1 (len d) = Ok b2 /\ wf b2 /\ content b2 = content b ++ d /\
    m_read_idx b2 = m_read_idx b /\ m_write_idx b2 = m_write_idx b + len d /\ len (m_buffer b2) = len (m_buffer b).
Proof.
  intros W1 Hw1. len_pose. unfold write_base. pose proof (wf_read b W1). pose proof (wf_order b W1).
  destruct (store_spec b (m_write_idx b) d W1) as (b2 & -> & W2 & Hb2 & Er & Ew); [lia..|].
  assert (len (m_buffer b2) = len (m_buffer b)) as El by (rewrite Hb2; apply len_overwrite; lia).
  exists b2. unfold mark_written. autorewrite with buf. wf_inv W1. rewrite El, Ew. step_asserts. rewrite uw_small by range.
  eexists; split_and!; [done|done|done| | |done|done|done].
  - constructor; simpl; rewrite ?El; range.
  - unfold content at 1; simpl. rewrite Er, Hb2. unfold content.
    rewrite (slice_split _ _ (m_write_idx b)) by lia.
    f_equal; [apply slice_overwrite_before | apply slice_overwrite_same]; lia.
Qed.

Lemma append_fits b d :
  wf b -> fits b (len d) ->
  exists b', append b d = Ok b' /\ wf b' /\ content b' = content b ++ d /\
    Z.min (m_read_idx b) kCheapPrepend <= m_read_idx b' /\
    len (m_buffer b') <= Z.max (len (m_buffer b)) (m_write_idx b + len d).
Proof.
  intros H Hmax. len_pose. unfold append.
  destruct (ensure_writable_len_spec b (len d) H) as (b1 & -> & W1 & Hc1 & Hw1 & Hr1 & Hl1);
    [lia|done|]. simpl.
  destruct (fill_spec b1 d W1 Hw1) as (b2 & b3 & -> & _ & E & W3 & C3 & R3 & _ & L3). simpl. rewrite E.
  exists b3. rewrite C3, Hc1, R3, L3. done.
Qed.

Lemma append_spec b d :
  wf b -> m_write_idx b + len d <= PTRDIFF_MAX ->
  exists b', append b d = Ok b' /\ wf b' /\ content b' = content b ++ d /\
    Z.min (m_read_idx b) kCheapPrepend <= m_read_idx b' /\
    len (m_buffer b') <= Z.max (len (m_buffer b)) (m_write_idx b + len d).
Proof. intros W Hm. apply append_fits; [done|]. by apply fits_intro. Qed.

(** Appending any object either appends it or throws [std::length_error]. *)
Lemma append_safe b d :
  wf b -> len d <= PTRDIFF_MAX ->
  match append b d with Ok b' => wf b' /\ content b' = content b ++ d | Fail f => f = FThrow end.
Proof.
  intros W Hd.
  destruct (Z.le_gt_cases (m_write_idx b + len d) PTRDIFF_MAX) as [Hf|Hf];
    [|destruct (Z.le_gt_cases (len d + kCheapPrepend) (len (m_buffer b) - m_write_idx b + m_read_idx b)) as [Hg|Hg]].
  - destruct (append_spec b d W Hf) as (b' & -> & ? & ? & _). done.
  - destruct (append_fits b d W) as (b' & -> & ? & ? & _); [split; [done|by right]|done].
  - unfold append, ensure_writable_len, make_space, vector_resize. autorewrite with buf.
    pose proof W as W0. wf_inv W0. unfold prependable_bytes_len.
    rewrite (proj2 (Z.ltb_lt _ _)), (uw_small 64 (_ - _ + _)), (uw_small 64 (len d + 8)) by range.
    rewrite (proj2 (Z.ltb_lt _ _)), (uw_small 64 (m_write_idx b + len d)) by range.
    unfold require. by rewrite (proj2 (Z.leb_gt _ _)) by range.
Qed.

Lemma prepend_spec b d :
  wf b -> len d <= m_read_idx b ->
  exists b', prepend b d = Ok b' /\ wf b' /\ content b' = d ++ content b /\
    m_read_idx b' = m_read_idx b - len d /\ len (m_buffer b') = len (m_buffer b).
Proof.
  intros H Hd. len_pose. unfold prepend, prependable_bytes_len. step_asserts.
  pose proof H as W0. wf_inv W0. rewrite uw_small by range.
  set (b1 := mkBuffer _ _ _).
  assert (wf b1) as W1 by (constructor; subst b1; simpl; range).
  destruct (store_spec b1 (m_read_idx b - len d) d W1) as (b2 & -> & W2 & Hb2 & Er & Ew);
    [subst b1; simpl; lia..|].
  exists b2. subst b1; simpl in *.
  assert (len (m_buffer b2) = len (m_buffer b)) as El by (rewrite Hb2, len_overwrite; lia).
  split_and!; [done|done| |done|done].
  unfold content at 1. rewrite Er, Ew, Hb2.
  rewrite (slice_split _ _ (m_read_idx b)) by lia. f_equal.
  - etransitivity; [|apply (slice_overwrite_same (m_buffer b) (m_read_idx b - len d)); lia].
    f_equal. lia.
  - unfold content. apply slice_overwrite_after; lia.
Qed.

(** ** Searching *)

Lemma find_CRLF_spec b :
  wf b ->
  find_CRLF b = Ok (let p := std_search kCRLF (content b) in
                    if p =? len (content b) then None else Some (m_read_idx b + p)).
Proof.
  intros H. unfold find_CRLF, peek_base, write_base.
  rewrite read_range_ok; [|done|split; [apply H|apply H]|lia]. simpl. f_equal.
  fold (content b). rewrite len_content by done.
  repeat case_match; try done; lia.
Qed.

(** The last [n] bytes of the content, or nothing when there are fewer. *)
Lemma peek_last_as_string_spec b n :
  wf b -> 0 <= n < 2 ^ 64 ->
  peek_last_as_string b n =
    Ok (if n >? len (content b) then []
        else drop (Z.to_nat (len (content b) - n)) (content b)).
Proof.
  intros H Hn. unfold peek_last_as_string. rewrite content_bytes_len_content by done.
  destruct (Z.gtb_spec n (len (content b))) as [?|Hle]; [done|].
  pose proof (len_content b H) as Hl. len_pose.
  pose proof H as W. wf_inv W. rewrite uw_small by range. unfold peek_base.
  rewrite read_range_ok by (done || lia). f_equal. rewrite Hl in *. unfold content.
  rewrite drop_slice by lia. f_equal; lia.
Qed.

Lemma as_string_piece_spec b :
  wf b -> len (content b) < 2 ^ 31 ->
  piece_wf (as_string_piece b) /\ piece_bytes (as_string_piece b) = content b.
Proof.
  intros H Hs. pose proof (len_content b H) as Hl.
  unfold as_string_piece, StringPiece_range, piece_wf, piece_bytes, peek_base.
  cbn [ptr_ length_]. rewrite content_bytes_len_content by done. len_pose.
  rewrite sw_small by range. rewrite len_drop. wf_inv H.
  split; [lia|]. rewrite Hl. done.
Qed.

Lemma append_piece_spec b sp :
  wf b -> piece_wf sp -> m_write_idx b + len (piece_bytes sp) <= PTRDIFF_MAX ->
  exists b', append_piece b sp = Ok b' /\ wf b' /\ content b' = content b ++ piece_bytes sp /\
    Z.min (m_read_idx b) kCheapPrepend <= m_read_idx b' /\
    len (m_buffer b') <= Z.max (len (m_buffer b)) (m_write_idx b + len (piece_bytes sp)).
Proof.
  intros H [[Hs1 Hs2] Hs3] Hm. unfold append_piece, size, data.
  rewrite uw_small by range. step_asserts. by apply append_spec.
Qed.

Lemma shrink_spec b reserve :
  wf b -> len (content b) < 2 ^ 31 -> 0 <= reserve ->
  kCheapPrepend + len (content b) + reserve <= PTRDIFF_MAX - kInitialSize ->
  exists b', shrink b reserve = Ok b' /\ wf b' /\ content b' = content b /\
    kCheapPrepend <= m_read_idx b' /\
    len (m_buffer b') <= kCheapPrepend + Z.max kInitialSize (len (content b) + reserve).
Proof.
  intros H Hs Hr Hm. unfold shrink. len_pose. unfold kInitialSize in *.
  rewrite content_bytes_len_content by done. rewrite uw_small by range.
  destruct (new_Buffer_spec 1024) as (o & -> & Wo & Co & Ro & Lo); [range|]. simpl.
  pose proof (len_content o Wo) as Lc. rewrite Co, len_nil in Lc.
  destruct (ensure_writable_len_spec o (len (content b) + reserve) Wo)
    as (o1 & -> & W1 & C1 & Hw1 & R1 & L1); [lia|apply fits_intro; [done|range]|]. simpl.
  destruct (as_string_piece_spec b H Hs) as [Hp Ep].
  destruct (append_piece_spec o1 (as_string_piece b) W1 Hp) as (o2 & -> & W2 & C2 & R2 & L2).
  { rewrite Ep. wf_inv W1. range. }
  simpl. rewrite Ep in *. eexists; split_and!; [done|done| |lia|].
  - by rewrite C2, C1, Co.
  - rewrite Ro in *. range.
Qed.

(** * Refinement: a queue of bytes with head room *)

(** What Buffer promises: the bytes between producer and consumer, and how
    many bytes can still be put in front of them without moving anything. *)
Record queue : Type := mkQueue { head_room : Z; items : bytes }.

Inductive buf_op : Type :=
| OpAppend (d : bytes)
| OpPrepend (d : bytes)
| OpRetrieve (n : Z)
| OpRetrieveAll
| OpUnwrite (n : Z)
| OpEnsureWritable (n : Z)
| OpShrink (reserve : Z).

Definition run_op (b : Buffer) (op : buf_op) : outcome Buffer :=
  match op with
  | OpAppend d => append b d
  | OpPrepend d => prepend b d
  | OpRetrieve n => retrieve b n
  | OpRetrieveAll => Ok (retrieve_all b)
  | OpUnwrite n => unwrite b n
  | OpEnsureWritable n => ensure_writable_len b n
  | OpShrink n => shrink b n
  end.

Fixpoint run_ops (b : Buffer) (ops : list buf_op) : outcome Buffer :=
  match ops with [] => Ok b | op :: ops' => b' ← run_op b op; run_ops b' ops' end.

(** The abstract operations, [None] where the caller breaks the contract. *)
Definition spec_op (q : queue) (op : buf_op) : option queue :=
  let room := Z.min (head_room q) kCheapPrepend in
  match op with
  | OpAppend d => Some (mkQueue room (items q ++ d))
  | OpPrepend d =>
      if len d <=? head_room q then Some (mkQueue (head_room q - len d) (d ++ items q)) else None
  | OpRetrieve n =>
      if (0 <=? n) && (n <=? len (items q))
      then Some (mkQueue room (drop (Z.to_nat n) (items q))) else None
  | OpRetrieveAll => Some (mkQueue kCheapPrepend [])
  | OpUnwrite n =>
      if (0 <=? n) && (n <=? len (items q))
      then Some (mkQueue (head_room q) (take (Z.to_nat (len (items q) - n)) (items q))) else None
  | OpEnsureWritable n => if 0 <=? n then Some (mkQueue room (items q)) else None
  | OpShrink n =>
      if (0 <=? n) && (len (items q) <? 2 ^ 31) then Some (mkQueue kCheapPrepend (items q)) else None
  end.

Fixpoint spec_ops (q : queue) (ops : list buf_op) : option queue :=
  match ops with [] => Some q | op :: ops' => q' ← spec_op q op; spec_ops q' ops' end.

(** By how many bytes an operation can grow the vector. *)
Definition op_cost (op : buf_op) : Z :=
  match op with
  | OpAppend d => len d
  | OpEnsureWritable n => Z.max 0 n
  | OpShrink n => kCheapPrepend + kInitialSize + Z.max 0 n
  | _ => 0
  end.
Definition ops_cost (ops : list buf_op) : Z := foldr (fun op z => op_cost op + z) 0 ops.

Definition refines (b : Buffer) (q : queue) : Prop :=
  wf b /\ content b = items q /\ 0 <= head_room q <= m_read_idx b.

Lemma op_cost_nonneg op : 0 <= op_cost op.
Proof. destruct op; unfold op_cost, kCheapPrepend, kInitialSize; len_pose; lia. Qed.

Lemma ops_cost_nonneg ops : 0 <= ops_cost ops.
Proof. induction ops as [|op ops IH]; simpl; [done|]. pose proof (op_cost_nonneg op). lia. Qed.

Ltac refines_done :=
  eexists; split_and!; [done | done | simpl; congruence |
    repeat match goal with E : m_buffer _ = m_buffer _ |- _ => rewrite E end; range ..].

Lemma run_op_refines b q op q' :
  refines b q -> spec_op q op = Some q' -> len (m_buffer b) + op_cost op <= PTRDIFF_MAX ->
  exists b', run_op b op = Ok b' /\ refines b' q' /\
    len (m_buffer b') <= len (m_buffer b) + op_cost op.
Proof.
  intros (W & C & R) Hs Hc. pose proof (wf_write b W). pose proof (len_content b W).
  pose proof (op_cost_nonneg op). unfold refines.
  destruct op as [d|d|n| |n|n|n]; cbn [run_op spec_op op_cost] in *; rewrite <- ?C in *;
    repeat case_match; simplify_eq/=.
  - destruct (append_spec b d W) as (b' & -> & W' & C' & R' & L'); [lia|]. refines_done.
  - destruct (prepend_spec b d W) as (b' & -> & W' & C' & R' & L'); [lia|]. refines_done.
  - destruct (retrieve_spec b n W) as (b' & -> & W' & C' & L' & R'); [lia|]. refines_done.
  - destruct (retrieve_all_wf b W) as [W' C']. unfold retrieve_all in *. refines_done.
  - destruct (unwrite_spec b n W) as (b' & -> & W' & L' & R' & C'); [lia|]. refines_done.
  - destruct (ensure_writable_len_spec b n W) as (b' & -> & W' & C' & N' & R' & L'); [lia|apply fits_intro; [done|lia]|].
    refines_done.
  - len_pose. pose proof (wf_read b W).
    destruct (shrink_spec b n W) as (b' & -> & W' & C' & R' & L');
      unfold kInitialSize, kCheapPrepend in *; [lia..|]. refines_done.
Qed.

Lemma run_ops_refines ops b q q' :
  refines b q -> spec_ops q ops = Some q' -> len (m_buffer b) + ops_cost ops <= PTRDIFF_MAX ->
  exists b', run_ops b ops = Ok b' /\ refines b' q'.
Proof.
  revert b q. induction ops as [|op ops IH]; simpl; intros b q HR Hs Hc.
  { simplify_eq. eauto. }
  destruct (spec_op q op) as [q1|] eqn:Hop; simpl in Hs; [|done].
  pose proof (ops_cost_nonneg ops).
  destruct (run_op_refines b q op q1 HR Hop) as (b1 & -> & HR1 & HL1); [lia|]. simpl.
  apply (IH b1 q1); [done..|lia].
Qed.

(** C1: from construction on, any sequence of appends, prepends, retrieves,
    unwrites, capacity requests and shrinks that respects the contract of the
    abstract queue runs without a failed assert, an access outside the vector
    or an exception (as long as the vector stays below its maximal size), keeps
    [0 <= read <= write <= size], and leaves exactly the bytes of the queue
    readable, with at least the promised head room for prepending. *)
Theorem buffer_implements_queue (n : Z) (ops : list buf_op) (q : queue) :
  0 <= n ->
  spec_ops (mkQueue kCheapPrepend []) ops = Some q ->
  kCheapPrepend + n + ops_cost ops <= PTRDIFF_MAX ->
  exists b b', new_Buffer n = Ok b /\ run_ops b ops = Ok b' /\
    wf b' /\ content b' = items q /\ head_room q <= prependable_bytes_len b'.
Proof.
  intros Hn Hs Hc. pose proof (ops_cost_nonneg ops).
  destruct (new_Buffer_spec n) as (b & Hb & W & C & R & L); [range|].
  destruct (run_ops_refines ops b (mkQueue kCheapPrepend []) q) as (b' & Hr & W' & C' & R').
  - split_and!; simpl; [done | done | done | by rewrite R].
  - done.
  - lia.
  - exists b, b'. split_and!; [done..|]. unfold prependable_bytes_len. lia.
Qed.

Lemma buffer_implements_queue_witness :
  exists b b', new_Buffer 4 = Ok b /\
    run_ops b [OpAppend (lit "hello "); OpRetrieve 3; OpAppend (lit "world");
               OpPrepend (lit "he"); OpUnwrite 1] = Ok b' /\
    wf b' /\ content b' = lit "helo worl" /\ 6 <= prependable_bytes_len b'.
Proof.
  apply (buffer_implements_queue 4 _ (mkQueue 6 (lit "helo worl")));
    [done | vm_compute; reflexivity | vm_compute; discriminate].
Defined.

(** ** Integers *)

Section integer_laws.
Context `{HostEndian}.

Lemma mem_store_len n z : len (mem_store n z) = Z.of_nat n.
Proof.
  unfold mem_store, len. destruct host_little; by rewrite ?length_be_bytes, ?length_le_bytes.
Qed.

(** The bytes written for an [8n]-bit [x] are those of [x] in network order. *)
Lemma net_store n w x :
  w = 8 * Z.of_nat n -> 0 < w ->
  mem_store n (uw w (sw w (htobe n (uw w x)))) = be_bytes n (uw w x).
Proof.
  intros Hw Hp. rewrite uw_sw by done.
  assert (256 ^ Z.of_nat n = 2 ^ w) as E.
  { rewrite Hw. change 256 with (2 ^ 8). by rewrite <- Z.pow_mul_r by lia. }
  assert (uw w (htobe n (uw w x)) = htobe n (uw w x)) as ->; [|apply mem_store_htobe].
  apply uw_small. unfold htobe. destruct host_little; [|apply uw_range; lia].
  unfold bswap, in_uw. rewrite <- E, <- (len_be_bytes n (uw w x)). apply le_value_range.
Qed.

(** Reading such bytes back gives [x]. *)
Lemma net_load n w x :
  w = 8 * Z.of_nat n -> 0 < w -> in_sw w x ->
  sw w (betoh n (uw w (sw w (mem_load (be_bytes n (uw w x)))))) = x.
Proof.
  intros Hw Hp Hx. rewrite uw_sw by done.
  assert (256 ^ Z.of_nat n = 2 ^ w) as E.
  { rewrite Hw. change 256 with (2 ^ 8). by rewrite <- Z.pow_mul_r by lia. }
  rewrite (uw_small w (mem_load _)).
  2:{ unfold in_uw. rewrite <- E, <- (len_be_bytes n (uw w x)). apply mem_load_range. }
  rewrite betoh_mem_load, E. fold (uw w (uw w x)).
  rewrite (uw_small w (uw w x)) by (apply uw_range; lia). by apply sw_uw_id.
Qed.

Lemma peek_front b d rest :
  wf b -> content b = d ++ rest ->
  read_range b (peek_base b) (peek_base b + len d) = Ok d /\ len d <= content_bytes_len b.
Proof.
  intros W C. pose proof (len_content b W) as L. rewrite C, len_app in L.
  rewrite content_bytes_len_content, C, len_app by done. len_pose.
  pose proof (wf_read b W).
  split; [|lia]. unfold peek_base. rewrite read_range_ok by (done || lia). f_equal.
  transitivity (take (Z.to_nat (len d)) (content b)).
  - unfold content. rewrite take_slice by lia. done.
  - rewrite C. rewrite take_app_length'; [done|]. unfold len. lia.
Qed.

Lemma retrieve_front b d rest :
  wf b -> content b = d ++ rest ->
  exists b', retrieve b (len d) = Ok b' /\ wf b' /\ content b' = rest.
Proof.
  intros W C. destruct (retrieve_spec b (len d) W) as (b' & -> & W' & C' & _).
  { rewrite C, len_app. len_pose. lia. }
  exists b'. split_and!; [done..|]. rewrite C', C, drop_app_length'; [done|]. unfold len. lia.
Qed.

End integer_laws.

(** The wire format of integers.  Appending an [N]-bit integer appends its
    network-order bytes whatever the byte order of the host, and reading an
    integer back from a buffer that starts with those bytes gives the same
    (signed) integer and consumes exactly them, for all four widths. *)
Theorem int_net_roundtrip (le : bool) (b : Buffer) (rest : bytes) (x64 x32 x16 x8 : Z) :
  let host : HostEndian := le in
  in_sw 64 x64 -> in_sw 32 x32 -> in_sw 16 x16 -> in_sw 8 x8 ->
  wf b -> m_write_idx b + 8 <= PTRDIFF_MAX ->
  (exists b1, append_int64_net b x64 = Ok b1 /\ content b1 = content b ++ be_bytes 8 (u64 x64)) /\
  (exists b1, append_int32_net b x32 = Ok b1 /\ content b1 = content b ++ be_bytes 4 (u32 x32)) /\
  (exists b1, append_int16_net b x16 = Ok b1 /\ content b1 = content b ++ be_bytes 2 (u16 x16)) /\
  (exists b1, append_int8_net b x8 = Ok b1 /\ content b1 = content b ++ be_bytes 1 (u8 x8)) /\
  (content b = be_bytes 8 (u64 x64) ++ rest ->
   exists b1, readout_int64_host b = Ok (x64, b1) /\ content b1 = rest) /\
  (content b = be_bytes 4 (u32 x32) ++ rest ->
   exists b1, readout_int32_host b = Ok (x32, b1) /\ content b1 = rest) /\
  (content b = be_bytes 2 (u16 x16) ++ rest ->
   exists b1, readout_int16_host b = Ok (x16, b1) /\ content b1 = rest) /\
  (content b = be_bytes 1 (u8 x8) ++ rest ->
   exists b1, readout_int8_host b = Ok (x8, b1) /\ content b1 = rest).
Proof.
  intros host R64 R32 R16 R8 W Hm.
  assert (Happ : forall n z, 0 <= Z.of_nat n <= 8 ->
    exists b1, write b (be_bytes n z) = Ok b1 /\ content b1 = content b ++ be_bytes n z).
  { intros n z Hn. destruct (append_spec b (be_bytes n z) W) as (b1 & ? & ? & ? & _); [|eauto].
    rewrite len_be_bytes. lia. }
  assert (Hread : forall n z, content b = be_bytes n z ++ rest ->
    read_range b (peek_base b) (peek_base b + Z.of_nat n) = Ok (be_bytes n z) /\
    Z.of_nat n <= content_bytes_len b /\
    exists b', retrieve b (Z.of_nat n) = Ok b' /\ content b' = rest).
  { intros n z C. destruct (peek_front b _ rest W C) as [E1 E2].
    destruct (retrieve_front b _ rest W C) as (b' & E3 & _ & E4).
    rewrite len_be_bytes in *. eauto 6. }
  assert (mem_store 1 (u8 x8) = be_bytes 1 (u8 x8)) as E8.
  { unfold mem_store. by destruct host_little. }
  assert (s8 (mem_load (be_bytes 1 (u8 x8))) = x8) as L8.
  { transitivity (s8 (mem_load (mem_store 1 (u8 x8)))); [by rewrite E8|].
    transitivity (s8 (le_value (le_bytes 1 (u8 x8)))); [unfold mem_load, mem_store; by destruct host_little|].
    rewrite le_value_le_bytes. change (256 ^ Z.of_nat 1) with (2 ^ 8). fold (u8 (u8 x8)).
    rewrite (uw_small 8 (u8 x8)) by (by apply uw_range). by apply sw_uw_id. }
  unfold append_int64_net, append_int32_net, append_int16_net, append_int8_net,
    host_to_net64, host_to_net32, host_to_net16.
  rewrite (net_store 8 64), (net_store 4 32), (net_store 2 16), E8 by done.
  split_and!; try (by apply Happ);
    intros C; destruct (Hread _ _ C) as (E1 & E2 & b' & E3 & E4); change (Z.of_nat 8) with 8 in *; change (Z.of_nat 4) with 4 in *;
    change (Z.of_nat 2) with 2 in *; change (Z.of_nat 1) with 1 in *; exists b';
    (split; [|done]);
    unfold readout_int64_host, readout_int32_host, readout_int16_host, readout_int8_host,
      peek_int64_host, peek_int32_host, peek_int16_host, peek_int8_host,
      retrieve_int64, retrieve_int32, retrieve_int16, retrieve_int8,
      net_to_host64, net_to_host32, net_to_host16;
    step_asserts; rewrite E1; simpl; rewrite E3; simpl;
    rewrite ?(net_load 8 64), ?(net_load 4 32), ?(net_load 2 16), ?L8 by done; done.
Qed.

Lemma int_net_roundtrip_witness :
  let host : HostEndian := true in
  let b := mkBuffer (replicate 8 NUL ++ be_bytes 8 (u64 (-2)) ++ replicate 24 NUL) 8 16 in
  exists b1, readout_int64_host b = Ok (-2, b1) /\ content b1 = [].
Proof.
  intros host b.
  assert (wf b) as W by (constructor; vm_compute; discriminate).
  apply (int_net_roundtrip true b [] (-2) 5 5 5);
    try (vm_compute; split; first [discriminate | reflexivity]); done.
Defined.

(** ** Reading from a descriptor *)

(** The documented contract of [readv(2)]: it stores at most as many bytes as
    the vectors hold. *)
Definition readv_contract (readv : Z -> io_result) : Prop :=
  forall capacity d, 0 <= capacity -> readv capacity = IoBytes d -> len d <= capacity.

(** The capacity of the I/O vectors: the writable part, and the stack buffer
    when the writable part is smaller than it. *)
Definition read_capacity (b : Buffer) : Z :=
  if writable_bytes_len b <? kExtraBuf then writable_bytes_len b + kExtraBuf else writable_bytes_len b.

(** Data stored at [write_base] continues the content. *)
Lemma store_continues b b1 t k :
  wf b -> m_buffer b1 = overwrite (m_buffer b) (m_write_idx b) t -> m_read_idx b1 = m_read_idx b ->
  m_write_idx b + len t <= len (m_buffer b) -> m_write_idx b <= k <= m_write_idx b + len t ->
  slice (m_buffer b1) (m_read_idx b1) k = content b ++ take (Z.to_nat (k - m_write_idx b)) t.
Proof.
  intros W B1 R1 Ht Hk. pose proof (wf_read b W). pose proof (wf_order b W).
  rewrite R1, B1, (slice_split _ _ (m_write_idx b)) by lia. f_equal.
  - apply slice_overwrite_before; lia.
  - rewrite <- (slice_overwrite_same (m_buffer b) (m_write_idx b) t) at 2 by lia.
    rewrite take_slice by lia. f_equal. lia.
Qed.

Lemma read_all_from_safe readv b d :
  wf b -> readv (read_capacity b) = IoBytes d -> len d <= read_capacity b ->
  match read_all_from readv b with
  | Ok (n, err, b') => n = len d /\ err = None /\ wf b' /\ content b' = content b ++ d
  | Fail f => f = FThrow /\ PTRDIFF_MAX < len (m_buffer b) + kExtraBuf
  end.
Proof.
  intros W Hr Hd. unfold read_all_from. fold (read_capacity b). rewrite Hr.
  pose proof (writable_bytes_len_eq b W) as Hwl. set (w := writable_bytes_len b) in *.
  pose proof (wf_read b W). pose proof (wf_order b W). pose proof (wf_write b W).
  assert (len d <= w + kExtraBuf) by (unfold read_capacity, kExtraBuf in *; fold w in Hd; case_match; len_pose; lia).
  destruct (store_spec b (write_base b) (take (Z.to_nat w) d) W) as (b1 & -> & W1 & B1 & R1 & E1);
    [unfold write_base; lia | unfold write_base; len_lia |].
  unfold write_base in B1. simpl.
  assert (len (m_buffer b1) = len (m_buffer b)) as L1 by (rewrite B1, len_overwrite; len_lia).
  pose proof (store_continues b b1 (take (Z.to_nat w) d)) as Hcopy.
  destruct (Z.leb_spec (len d) w) as [Hfit|Hspill].
  - unfold mark_written. rewrite writable_bytes_len_eq by done. step_asserts.
    pose proof (wf_max b W). len_pose. rewrite uw_small by range. split_and!; [done|done| |].
    + constructor; simpl; rewrite ?L1, ?E1, ?R1; len_pose; wf_inv W; range.
    + unfold content at 1; simpl. rewrite E1, Hcopy by (try done; len_lia). rewrite take_take. f_equal.
      apply take_ge. unfold len in *. lia.
  - set (b2 := mkBuffer _ _ _).
    assert (W2 : wf b2) by (constructor; subst b2; simpl; rewrite ?L1, ?R1; wf_inv W; range).
    pose proof (append_safe b2 (drop (Z.to_nat w) d) W2) as A. unfold kExtraBuf in *.
    specialize (A ltac:(len_pose; rewrite len_drop; unfold PTRDIFF_MAX; lia)).
    destruct (append b2 (drop (Z.to_nat w) d)) as [b3|f] eqn:E; simpl.
    + destruct A as [W3 C3]. split_and!; [done..|]. rewrite C3. unfold content at 1. subst b2; simpl.
      rewrite L1, Hcopy by (try done; len_lia). rewrite <- app_assoc, take_take. f_equal.
      rewrite <- (take_drop (Z.to_nat w) d) at 3. f_equal. f_equal. lia.
    + subst f. split; [done|]. apply Z.nle_gt. intros Hm.
      destruct (append_spec b2 (drop (Z.to_nat w) d) W2) as (b3 & E3 & _); [|congruence].
      subst b2; simpl. rewrite L1. len_lia.
Qed.

(** At the end of the stream nothing is stored. *)
Lemma read_all_from_eof b : wf b -> exists b', read_all_from (fun _ => IoBytes []) b = Ok (0, None, b').
Proof.
  intros W. unfold read_all_from. pose proof (writable_bytes_len_eq b W) as Hw.
  pose proof (wf_read b W). pose proof (wf_order b W). pose proof (wf_write b W).
  destruct (store_spec b (write_base b) [] W) as (b1 & E1 & W1 & _ & _ & I1);
    [unfold write_base; lia|unfold write_base; len_lia|].
  rewrite take_nil, E1. cbn -[Z.leb]. rewrite (proj2 (Z.leb_le 0 _)) by lia.
  unfold mark_written. rewrite writable_bytes_len_eq by done.
  pose proof (wf_write b1 W1). change (len (@nil ascii)) with 0. step_asserts. by eexists.
Qed.

(** C3: [read_all_from] appends to the content exactly the bytes that [readv]
    delivered, in order, whether they fit in the buffer or spill into the
    stack buffer; it returns their number, which is at most the writable space
    plus 64 KiB and below 128 KiB whenever the stack buffer was offered; on an
    error it leaves the buffer alone, returns -1 and saves the error number. *)
Theorem read_all_from_appends (readv : Z -> io_result) (b : Buffer) :
  wf b -> readv_contract readv ->
  len (m_buffer b) + kExtraBuf <= PTRDIFF_MAX ->
  let capacity := if writable_bytes_len b <? kExtraBuf
                  then writable_bytes_len b + kExtraBuf else writable_bytes_len b in
  match readv capacity with
  | IoError e => read_all_from readv b = Ok (-1, Some e, b)
  | IoBytes d =>
      len d <= writable_bytes_len b + kExtraBuf /\
      (writable_bytes_len b < kExtraBuf -> len d <= 128 * 1024 - 1) /\
      exists b', read_all_from readv b = Ok (len d, None, b') /\ wf b' /\
        content b' = content b ++ d
  end.
Proof.
  intros W Hk Hm capacity. fold (read_capacity b) in capacity.
  pose proof (writable_bytes_len_eq b W) as Hwl. pose proof (wf_write b W).
  destruct (readv capacity) as [e|d] eqn:Hr.
  { unfold read_all_from. fold (read_capacity b). fold capacity. by rewrite Hr. }
  assert (len d <= capacity) as Hd.
  { apply Hk; [|done]. subst capacity. unfold read_capacity, kExtraBuf. case_match; lia. }
  pose proof (read_all_from_safe readv b d W Hr Hd) as S. subst capacity. unfold read_capacity, kExtraBuf in *.
  split_and!; [destruct (Z.ltb_spec (writable_bytes_len b) 65536); lia .. |].
  destruct (read_all_from readv b) as [[[n err] b']|f]; [|lia].
  destruct S as (-> & -> & W' & C'). by exists b'.
Qed.

Lemma read_all_from_appends_witness :
  let b := mkBuffer (replicate 12 NUL) 8 8 in
  let readv cap := if 8 <=? cap then IoBytes (lit "abcdefgh") else IoBytes [] in
  exists b', read_all_from readv b = Ok (8, None, b') /\ wf b' /\
    content b' = content b ++ lit "abcdefgh".
Proof.
  intros b readv. apply (read_all_from_appends readv b).
  - constructor; vm_compute; discriminate.
  - intros cap d ?. unfold readv. destruct (Z.leb_spec 8 cap); intros [= <-]; vm_compute len; lia.
  - vm_compute. discriminate.
Defined.
