(* ===== verification/HttpRequest.v ===== *)
(** [flute/net/http/HttpRequest.h]: a parsed request.  The header map is a
    [std::map<string, string>]; a [const char*] range is the bytes in it. *)

From S2P Require Import Prelude OrdContainers StringPiece.

Inductive Method : Type := kInvalid | kGet | kPost | kHead | kPut | kDelete.
Inductive Version : Type := kUnknown | kHttp10 | kHttp11.

#[global] Instance Method_eq_dec : EqDecision Method.
Proof. solve_decision. Defined.
#[global] Instance Version_eq_dec : EqDecision Version.
Proof. solve_decision. Defined.

Record HttpRequest : Type := mkHttpRequest {
  m_method : Method;
  m_version : Version;
  m_request_path : bytes;
  m_query : bytes;
  m_receive_time : Z;
  m_headers : list (bytes * bytes)
}.

Definition new_HttpRequest : HttpRequest := mkHttpRequest kInvalid kUnknown [] [] 0 [].

Definition setVersion (r : HttpRequest) (v : Version) : HttpRequest :=
  mkHttpRequest (m_method r) v (m_request_path r) (m_query r) (m_receive_time r) (m_headers r).

Definition method_of_string (m : bytes) : Method :=
  if decide (m = lit "GET") then kGet
  else if decide (m = lit "POST") then kPost
  else if decide (m = lit "HEAD") then kHead
  else if decide (m = lit "PUT") then kPut
  else if decide (m = lit "DELETE") then kDelete
  else kInvalid.

Definition set_method (r : HttpRequest) (m : bytes) : outcome (bool * HttpRequest) :=
  assert_ (bool_decide (m_method r = kInvalid));;
  let method := method_of_string m in
  Ok (negb (bool_decide (method = kInvalid)),
      mkHttpRequest method (m_version r) (m_request_path r) (m_query r)
        (m_receive_time r) (m_headers r)).

Definition method_string (r : HttpRequest) : bytes :=
  match m_method r with
  | kGet => lit "GET"
  | kPost => lit "POST"
  | kHead => lit "HEAD"
  | kPut => lit "PUT"
  | kDelete => lit "DELETE"
  | _ => lit "UNKNOWN"
  end.

Definition set_path (r : HttpRequest) (p : bytes) : HttpRequest :=
  mkHttpRequest (m_method r) (m_version r) p (m_query r) (m_receive_time r) (m_headers r).
Definition set_query (r : HttpRequest) (q : bytes) : HttpRequest :=
  mkHttpRequest (m_method r) (m_version r) (m_request_path r) q (m_receive_time r) (m_headers r).
Definition set_receive_time (r : HttpRequest) (t : Z) : HttpRequest :=
  mkHttpRequest (m_method r) (m_version r) (m_request_path r) (m_query r) t (m_headers r).

(** [isspace] in the "C" locale. *)
Definition isspace (c : byte) : bool :=
  let z := Z_of_byte c in ((9 <=? z) && (z <=? 13)) || (z =? 32).

(** The loop that advances [colon] over white space, up to [end]. *)
Fixpoint skip_space (l : bytes) : bytes :=
  match l with
  | [] => []
  | c :: l' => if isspace c then skip_space l' else l
  end.

(** [while (!value.empty() && isspace(value[value.size() - 1]))
       value.resize(value.size() - 1)], at most [n] times. *)
Fixpoint trim_end (n : nat) (value : bytes) : bytes :=
  match n with
  | O => value
  | S n' =>
      match last value with
      | None => value
      | Some c =>
          if isspace c then trim_end n' (take (length value - 1) value) else value
      end
  end.

(** [add_header(start, colon, end)] for the line [[start, end)] with the colon
    at offset [colon]. *)
Definition add_header (r : HttpRequest) (line : bytes) (colon : Z) : HttpRequest :=
  let field := take (Z.to_nat colon) line in
  let value := skip_space (drop (Z.to_nat (colon + 1)) line) in
  let value := trim_end (length value) value in
  mkHttpRequest (m_method r) (m_version r) (m_request_path r) (m_query r) (m_receive_time r)
    (map_assign field value (m_headers r)).

Definition get_header (r : HttpRequest) (field : bytes) : bytes :=
  match map_find field (m_headers r) with Some v => v | None => [] end.

Definition swap (r that : HttpRequest) : HttpRequest * HttpRequest := (that, r).

(** * Lemmas *)

(** A value without surrounding white space. *)
Definition trimmed (v : bytes) : Prop :=
  (forall c, head v = Some c -> isspace c = false) /\
  (forall c, last v = Some c -> isspace c = false).

Lemma skip_space_trimmed v : trimmed v -> skip_space v = v.
Proof. intros [H _]. destruct v as [|c v]; simpl; [done|]. by rewrite H. Qed.

Lemma trim_end_trimmed n v : trimmed v -> trim_end n v = v.
Proof.
  intros [_ H]. destruct n; simpl; [done|]. destruct (last v) as [c|] eqn:E; [|done].
  by rewrite H.
Qed.

(** The loop stops at a value whose last character is not white space. *)
Lemma trim_end_last n v c :
  (length v <= n)%nat -> last (trim_end n v) = Some c -> isspace c = false.
Proof.
  revert v. induction n as [|n IH]; simpl; intros v Hn Hl.
  { destruct v; [done | simpl in Hn; lia]. }
  destruct (last v) as [d|] eqn:E; [|by rewrite E in Hl].
  destruct (isspace d) eqn:Ed; [|by simplify_eq].
  apply (IH _ ) in Hl; [done|]. rewrite length_take. lia.
Qed.

Lemma add_header_line r field value :
  ":"%char ∉ field -> trimmed value ->
  add_header r (field ++ lit ": " ++ value) (std_find ":"%char (field ++ lit ": " ++ value))
  = mkHttpRequest (m_method r) (m_version r) (m_request_path r) (m_query r) (m_receive_time r)
      (map_assign field value (m_headers r)).
Proof.
  intros Hf Hv. unfold add_header.
  change (lit ": ") with [":"%char; " "%char]. cbn [app].
  rewrite std_find_head by done. f_equal.
  assert (take (Z.to_nat (len field)) (field ++ ":"%char :: " "%char :: value) = field) as ->.
  { apply take_app_length'. unfold len. lia. }
  assert (drop (Z.to_nat (len field + 1)) (field ++ ":"%char :: " "%char :: value)
          = " "%char :: value) as ->.
  { replace (Z.to_nat (len field + 1)) with (length field + 1)%nat by (unfold len; lia).
    rewrite <- drop_drop, drop_app_length. done. }
  cbn [skip_space]. change (isspace " "%char) with true. cbn iota.
  by rewrite (skip_space_trimmed value Hv), (trim_end_trimmed _ value Hv).
Qed.
