(* ===== verification/HttpContext.v ===== *)
(** [flute/net/http/HttpContext.{h,cc}]: the incremental request parser, a
    state machine that consumes complete lines from the input buffer. *)

From S2P Require Import Prelude OrdContainers StringPiece Endian Buffer HttpRequest.

Inductive HttpRequestParseState : Type :=
| kExpectRequestLine
| kExpectHeaders
| kExpectBody
| kGotAll.

#[global] Instance HttpRequestParseState_eq_dec : EqDecision HttpRequestParseState.
Proof. solve_decision. Defined.

Record HttpContext : Type := mkHttpContext {
  m_state : HttpRequestParseState;
  m_request : HttpRequest
}.

Definition new_HttpContext : HttpContext := mkHttpContext kExpectRequestLine new_HttpRequest.

Definition got_all (c : HttpContext) : bool := bool_decide (m_state c = kGotAll).

(** [reset()]: swap the request with a fresh one. *)
Definition reset (c : HttpContext) : HttpContext :=
  let dummy := new_HttpRequest in
  mkHttpContext kExpectRequestLine (HttpRequest.swap (m_request c) dummy).1.

(** [process_request_line(begin, end)] on the bytes of the line: whether it
    succeeded, and the request as it was left. *)
Definition process_request_line (r : HttpRequest) (line : bytes) : outcome (bool * HttpRequest) :=
  let space := std_find SP line in
  if space =? len line then Ok (false, r)
  else
    '(valid, r) ← set_method r (take (Z.to_nat space) line);
    if negb valid then Ok (false, r)
    else
      let rest := drop (Z.to_nat (space + 1)) line in
      let space := std_find SP rest in
      if space =? len rest then Ok (false, r)
      else
        let target := take (Z.to_nat space) rest in
        let question := std_find "?"%char target in
        let r := if negb (question =? len target)
                 then set_query (set_path r (take (Z.to_nat question) target))
                        (drop (Z.to_nat question) target)
                 else set_path r target in
        let version := drop (Z.to_nat (space + 1)) rest in
        if (len version =? 8) && bool_decide (take 7 version = lit "HTTP/1.") then
          match last version with
          | Some "1"%char => Ok (true, setVersion r kHttp11)
          | Some "0"%char => Ok (true, setVersion r kHttp10)
          | _ => Ok (false, r)
          end
        else Ok (false, r).

(** The loop of [parse_request], with [ok] its local variable. *)
Fixpoint parse_loop (fuel : nat) (receiveTime : Z) (ok : bool) (c : HttpContext) (buf : Buffer)
    : outcome (bool * HttpContext * Buffer) :=
  match fuel with
  | O => Fail FFuel
  | S fuel' =>
      match m_state c with
      | kExpectRequestLine =>
          crlf ← find_CRLF buf;
          match crlf with
          | Some p =>
              line ← read_range buf (peek_base buf) p;
              '(ok', r) ← process_request_line (m_request c) line;
              if ok' : bool then
                buf' ← retrieve_until buf (p + 2);
                parse_loop fuel' receiveTime ok'
                  (mkHttpContext kExpectHeaders (set_receive_time r receiveTime)) buf'
              else Ok (ok', mkHttpContext kExpectRequestLine r, buf)
          | None => Ok (ok, c, buf)
          end
      | kExpectHeaders =>
          crlf ← find_CRLF buf;
          match crlf with
          | Some p =>
              line ← read_range buf (peek_base buf) p;
              let colon := std_find ":"%char line in
              if negb (colon =? len line) then
                buf' ← retrieve_until buf (p + 2);
                parse_loop fuel' receiveTime ok
                  (mkHttpContext kExpectHeaders (add_header (m_request c) line colon)) buf'
              else
                buf' ← retrieve_until buf (p + 2);
                Ok (ok, mkHttpContext kGotAll (m_request c), buf')
          | None => Ok (ok, c, buf)
          end
      | kExpectBody => parse_loop fuel' receiveTime ok c buf
      | kGotAll => Ok (false, c, buf)
      end
  end.

(** Every iteration that goes on consumes a line, at least two bytes. *)
Definition parse_fuel (buf : Buffer) : nat := S (S (Z.to_nat (content_bytes_len buf))).

Definition parse_request (c : HttpContext) (buf : Buffer) (receiveTime : Z)
    : outcome (bool * HttpContext * Buffer) :=
  parse_loop (parse_fuel buf) receiveTime false c buf.

(** * Lines *)

Lemma std_search_crlf line rest :
  CR ∉ line -> std_search kCRLF (line ++ kCRLF ++ rest) = len line.
Proof.
  induction line as [|x line IH]; intros Hx; [done|].
  apply not_elem_of_cons in Hx as [Hx Hline].
  cbn [app std_search]. rewrite decide_False by (unfold kCRLF; simpl length; rewrite firstn_cons; intros [= E]; done).
  rewrite IH by done. by rewrite len_cons.
Qed.

Definition split_line (l : bytes) : option (bytes * bytes) :=
  let p := std_search kCRLF l in
  if p =? len l then None else Some (take (Z.to_nat p) l, drop (Z.to_nat (p + 2)) l).

Lemma split_line_some l line rest :
  split_line l = Some (line, rest) -> l = line ++ kCRLF ++ rest.
Proof.
  unfold split_line. pose proof (std_search_range kCRLF l).
  destruct (Z.eqb_spec (std_search kCRLF l) (len l)) as [|Hne]; [done|]. intros [= <- <-].
  pose proof (std_search_match kCRLF l) as Hm. specialize (Hm ltac:(lia)).
  rewrite <- (take_drop (Z.to_nat (std_search kCRLF l)) l) at 1. f_equal.
  rewrite <- (take_drop 2 (drop _ l)). f_equal; [exact Hm|].
  rewrite drop_drop. f_equal. lia.
Qed.

Lemma split_line_crlf line rest :
  CR ∉ line -> split_line (line ++ kCRLF ++ rest) = Some (line, rest).
Proof.
  intros Hx. unfold split_line. rewrite std_search_crlf by done.
  rewrite (proj2 (Z.eqb_neq _ _)) by (rewrite !len_app; change (len kCRLF) with 2; len_pose; lia).
  do 2 f_equal.
  - apply take_app_length'. unfold len. lia.
  - replace (Z.to_nat (len line + 2)) with (length line + 2)%nat by (unfold len; lia).
    by rewrite <- drop_drop, drop_app_length.
Qed.

(** What the three buffer calls of an iteration do, in terms of the content. *)
Lemma next_line b :
  wf b ->
  match split_line (content b) with
  | None => find_CRLF b = Ok None
  | Some (line, rest) =>
      find_CRLF b = Ok (Some (peek_base b + len line)) /\
      read_range b (peek_base b) (peek_base b + len line) = Ok line /\
      exists b', retrieve_until b (peek_base b + len line + 2) = Ok b' /\ wf b' /\ content b' = rest
  end.
Proof.
  intros W. pose proof (find_CRLF_spec b W) as Hf. cbv zeta in Hf.
  destruct (split_line (content b)) as [[line rest]|] eqn:E.
  - pose proof (split_line_some _ _ _ E) as C. unfold split_line in E.
    pose proof (std_search_range kCRLF (content b)).
    destruct (Z.eqb_spec (std_search kCRLF (content b)) (len (content b))); [done|].
    injection E as E1 E2.
    assert (len line = std_search kCRLF (content b)) as Ll.
    { rewrite <- E1, len_take. lia. }
    split; [rewrite Hf, Ll; done|].
    destruct (peek_front b line (kCRLF ++ rest) W C) as [Hr _]. split; [done|].
    destruct (retrieve_until_spec b (len line + 2) W) as (b' & Hb' & W' & C' & _).
    { rewrite C, !len_app. change (len kCRLF) with 2. len_pose. lia. }
    exists b'. unfold peek_base. rewrite <- Z.add_assoc. split_and!; [done..|].
    rewrite C', <- E2, Ll. done.
  - unfold split_line in E.
    destruct (Z.eqb_spec (std_search kCRLF (content b)) (len (content b))); [|done].
    exact Hf.
Qed.

(** * The parser on byte strings *)

(** The same loop over the bytes of the content instead of the buffer. *)
Fixpoint parse_lines (fuel : nat) (receiveTime : Z) (ok : bool) (c : HttpContext) (l : bytes)
    : outcome (bool * HttpContext * bytes) :=
  match fuel with
  | O => Fail FFuel
  | S fuel' =>
      match m_state c with
      | kExpectRequestLine =>
          match split_line l with
          | Some (line, rest) =>
              '(ok', r) ← process_request_line (m_request c) line;
              if ok' : bool then
                parse_lines fuel' receiveTime ok'
                  (mkHttpContext kExpectHeaders (set_receive_time r receiveTime)) rest
              else Ok (ok', mkHttpContext kExpectRequestLine r, l)
          | None => Ok (ok, c, l)
          end
      | kExpectHeaders =>
          match split_line l with
          | Some (line, rest) =>
              let colon := std_find ":"%char line in
              if negb (colon =? len line) then
                parse_lines fuel' receiveTime ok
                  (mkHttpContext kExpectHeaders (add_header (m_request c) line colon)) rest
              else Ok (ok, mkHttpContext kGotAll (m_request c), rest)
          | None => Ok (ok, c, l)
          end
      | kExpectBody => parse_lines fuel' receiveTime ok c l
      | kGotAll => Ok (false, c, l)
      end
  end.

(** The loop over the buffer refines the loop over its content. *)
Lemma parse_loop_refines fuel t ok c b :
  wf b ->
  match parse_lines fuel t ok c (content b) with
  | Ok (k, c', l') =>
      exists b', parse_loop fuel t ok c b = Ok (k, c', b') /\ wf b' /\ content b' = l'
  | Fail f => parse_loop fuel t ok c b = Fail f
  end.
Proof.
  revert ok c b. induction fuel as [|fuel IH]; intros ok c b W; [done|].
  cbn [parse_lines parse_loop]. pose proof (next_line b W) as Hn.
  destruct (m_state c).
  - destruct (split_line (content b)) as [[line rest]|]; [|rewrite Hn; simpl; eauto].
    destruct Hn as (-> & Hr & b' & Hu & W' & C'). simpl. rewrite Hr. simpl.
    destruct (process_request_line (m_request c) line) as [[[] r]|f]; simpl; [|eauto|done].
    rewrite Hu. simpl. rewrite <- C'. by apply IH.
  - destruct (split_line (content b)) as [[line rest]|]; [|rewrite Hn; simpl; eauto].
    destruct Hn as (-> & Hr & b' & Hu & W' & C'). simpl. rewrite Hr. simpl.
    destruct (negb _); rewrite Hu; simpl; [rewrite <- C'; by apply IH | eauto].
  - by apply IH.
  - eauto.
Qed.

(** ** Termination and safety *)

(** The one way in which a call of the parser can fail: the first line is
    complete and has a blank, so its method is to be recorded, and an earlier
    request line has recorded one already. *)
Definition method_twice (c : HttpContext) (l : bytes) : bool :=
  bool_decide (m_state c = kExpectRequestLine) && negb (bool_decide (m_method (m_request c) = kInvalid)) &&
  match split_line l with Some (line, _) => bool_decide (SP ∈ line) | None => false end.

(** Recording a method twice is what fails in [process_request_line]. *)
Lemma process_request_line_outcome r line :
  if negb (bool_decide (m_method r = kInvalid)) && bool_decide (SP ∈ line)
  then process_request_line r line = Fail FAssert
  else exists res, process_request_line r line = Ok res.
Proof.
  unfold process_request_line, set_method. pose proof (std_find_range SP line) as Hr.
  destruct (bool_decide_reflect (SP ∈ line)) as [Hs|Hs].
  - pose proof (std_find_elem SP line Hs). rewrite (proj2 (Z.eqb_neq _ _)) by lia.
    destruct (bool_decide_reflect (m_method r = kInvalid)) as [Hm|Hm]; simpl; [|done].
    repeat case_match; simpl; repeat case_match; eauto.
  - rewrite andb_false_r, std_find_notin, Z.eqb_refl by done. eauto.
Qed.

Lemma len_split_line l line rest : split_line l = Some (line, rest) -> len rest + 2 <= len l.
Proof.
  intros H%split_line_some. rewrite H, !len_app. change (len kCRLF) with 2. len_pose. lia.
Qed.

Lemma suffix_split_line l line rest : split_line l = Some (line, rest) -> suffix rest l.
Proof. intros ->%split_line_some. rewrite app_assoc. by eexists. Qed.

(** Header lines never fail. *)
Lemma parse_header_lines_return fuel t ok r l :
  len l < Z.of_nat fuel ->
  exists c' l', parse_lines fuel t ok (mkHttpContext kExpectHeaders r) l = Ok (ok, c', l') /\
    suffix l' l /\ m_state c' <> kExpectBody.
Proof.
  revert r l. induction fuel as [|fuel IH]; intros r l Hf; [len_pose; lia|].
  cbn [parse_lines m_state m_request].
  destruct (split_line l) as [[line rest]|] eqn:El; [|by do 2 eexists].
  pose proof (len_split_line _ _ _ El). pose proof (suffix_split_line _ _ _ El).
  destruct (negb _); [|by do 2 eexists].
  destruct (IH (add_header r line (std_find ":"%char line)) rest) as (c' & l' & -> & Hs & Hc); [lia|].
  do 2 eexists. split_and!; [done|by etransitivity|done].
Qed.

Lemma parse_lines_outcome fuel t ok c l :
  m_state c <> kExpectBody -> len l < Z.of_nat fuel ->
  if method_twice c l then parse_lines fuel t ok c l = Fail FAssert
  else exists k c' l', parse_lines fuel t ok c l = Ok (k, c', l') /\ suffix l' l /\
    m_state c' <> kExpectBody.
Proof.
  intros Hb Hf. destruct fuel as [|fuel]; [len_pose; lia|]. unfold method_twice.
  destruct c as [st r]; destruct st; cbn [m_state m_request] in *; [| |done|].
  - rewrite bool_decide_true, andb_true_l by done. cbn [parse_lines m_state m_request].
    destruct (split_line l) as [[line rest]|] eqn:El; [|rewrite andb_false_r; by do 3 eexists].
    pose proof (process_request_line_outcome r line) as Hp.
    destruct (_ && _); [by rewrite Hp|]. destruct Hp as [[[] r'] ->]; simpl; [|by do 3 eexists].
    pose proof (len_split_line _ _ _ El). pose proof (suffix_split_line _ _ _ El).
    destruct (parse_header_lines_return fuel t true (set_receive_time r' t) rest) as (c' & l' & -> & Hs & Hc); [lia|].
    do 3 eexists. split_and!; [done|by etransitivity|done].
  - rewrite bool_decide_false by done. simpl (_ && _).
    destruct (parse_header_lines_return (S fuel) t ok r l Hf) as (c' & l' & -> & Hs & Hc). by do 3 eexists.
  - rewrite bool_decide_false by done. simpl. by do 3 eexists.
Qed.

Lemma parse_fuel_enough b : wf b -> len (content b) < Z.of_nat (parse_fuel b).
Proof. intros W. unfold parse_fuel. rewrite content_bytes_len_content by done. len_pose. lia. Qed.

(** C4: [parse_request] on every buffer and in every context, one left behind
    by a rejected request line included (only the state [kExpectBody], which no
    operation enters and in which the loop of the code spins, is left out).  The
    call fails [assert(m_method == kInvalid)] exactly when a request line is
    expected, an earlier line has already recorded a method, and the buffer
    starts with a complete line that has a blank.  In every other case it
    returns: the loop ends, no byte outside the buffer is read, what is left in
    the buffer is a suffix of what was there, the buffer stays well formed, and
    the context is again one of those covered. *)
Theorem parse_request_terminates (c : HttpContext) (b : Buffer) (t : Z) :
  wf b -> m_state c <> kExpectBody ->
  if method_twice c (content b) then parse_request c b t = Fail FAssert
  else exists ok c' b', parse_request c b t = Ok (ok, c', b') /\ wf b' /\
    suffix (content b') (content b) /\ m_state c' <> kExpectBody.
Proof.
  intros W Hc. unfold parse_request.
  pose proof (parse_lines_outcome (parse_fuel b) t false c (content b) Hc (parse_fuel_enough b W)) as Hp.
  pose proof (parse_loop_refines (parse_fuel b) t false c b W) as Hr.
  destruct (method_twice c (content b)); [by rewrite Hp in Hr|].
  destruct Hp as (k & c' & l' & Hp & Hs & Hb). rewrite Hp in Hr.
  destruct Hr as (b' & -> & W' & C'). do 3 eexists. split_and!; [done..| |done]. by rewrite C'.
Qed.

Definition buffer_of (l : bytes) : Buffer :=
  mkBuffer (replicate 8 NUL ++ l) 8 (8 + len l).

Lemma wf_buffer_of l : len l <= 1000000 -> wf (buffer_of l).
Proof. intros. constructor; simpl; autorewrite with len; len_pose; range. Qed.

Lemma content_buffer_of l : content (buffer_of l) = l.
Proof.
  unfold content, buffer_of. cbn [m_buffer m_read_idx m_write_idx].
  rewrite slice_app_r by done. etransitivity; [|apply slice_all].
  rewrite len_replicate. f_equal. lia.
Qed.

(** A fresh context returns, one that has seen a method aborts. *)
(** A fresh context returns, one that has seen a method aborts. *)
Lemma parse_request_terminates_witness :
  let b := buffer_of (lit "BREW /pot HTTP/1.1" ++ kCRLF) in
  (exists ok c' b', parse_request new_HttpContext b 0 = Ok (ok, c', b') /\ wf b' /\
     suffix (content b') (content b) /\ m_state c' <> kExpectBody) /\
  parse_request (mkHttpContext kExpectRequestLine (mkHttpRequest kGet kUnknown [] [] 0 [])) b 0 = Fail FAssert.
Proof.
  intros b. assert (wf b) as W by (by apply wf_buffer_of). split.
  - exact (parse_request_terminates new_HttpContext b 0 W ltac:(done)).
  - exact (parse_request_terminates (mkHttpContext kExpectRequestLine (mkHttpRequest kGet kUnknown [] [] 0 []))
      b 0 W ltac:(done)).
Defined.

(** ** Round trip *)

Definition version_string (v : Version) : bytes :=
  match v with kHttp11 => lit "HTTP/1.1" | _ => lit "HTTP/1.0" end.

Definition render_line (q : HttpRequest) : bytes :=
  method_string q ++ SP :: (m_request_path q ++ m_query q) ++ SP :: version_string (m_version q).

Definition render_headers (hs : list (bytes * bytes)) : bytes :=
  concat ((fun h => h.1 ++ lit ": " ++ h.2 ++ kCRLF) <$> hs).

(** The request [q] on the wire, with the header lines [hs]. *)
Definition render (q : HttpRequest) (hs : list (bytes * bytes)) : bytes :=
  render_line q ++ kCRLF ++ render_headers hs ++ kCRLF.

Definition header_ok (h : bytes * bytes) : Prop :=
  ":"%char ∉ h.1 /\ CR ∉ h.1 /\ CR ∉ h.2 /\ trimmed h.2.

(** A request that can be put on the wire. *)
Record wire_ok (q : HttpRequest) (hs : list (bytes * bytes)) : Prop := {
  ok_method : m_method q <> kInvalid;
  ok_version : m_version q <> kUnknown;
  ok_path : SP ∉ m_request_path q /\ CR ∉ m_request_path q /\ "?"%char ∉ m_request_path q;
  ok_query : SP ∉ m_query q /\ CR ∉ m_query q;
  ok_question : m_query q = [] \/ exists k, m_query q = "?"%char :: k;
  ok_headers : Forall header_ok hs;
  ok_header_map : m_headers q = foldl (fun m h => map_assign h.1 h.2 m) [] hs
}.

Lemma method_string_facts q :
  m_method q <> kInvalid ->
  method_of_string (method_string q) = m_method q /\ SP ∉ method_string q /\ CR ∉ method_string q.
Proof.
  intros Hm. unfold method_string. destruct (m_method q); try done;
    (split; [reflexivity|]); split; by not_in_lit.
Qed.

Lemma version_string_facts v :
  CR ∉ version_string v /\ len (version_string v) = 8 /\ take 7 (version_string v) = lit "HTTP/1.".
Proof.
  destruct v; simpl; (split; [by not_in_lit | done]).
Qed.

Lemma drop_after {A} (l : list A) x k : drop (Z.to_nat (len l + 1)) (l ++ x :: k) = k.
Proof.
  replace (Z.to_nat (len l + 1)) with (length l + 1)%nat by (unfold len; lia).
  by rewrite <- drop_drop, drop_app_length.
Qed.

Lemma take_before {A} (l k : list A) : take (Z.to_nat (len l)) (l ++ k) = l.
Proof. apply take_app_length'. unfold len. lia. Qed.

Lemma process_render_line q :
  m_method q <> kInvalid -> m_version q <> kUnknown ->
  SP ∉ m_request_path q -> "?"%char ∉ m_request_path q -> SP ∉ m_query q ->
  m_query q = [] \/ (exists k, m_query q = "?"%char :: k) ->
  process_request_line new_HttpRequest (render_line q)
  = Ok (true, mkHttpRequest (m_method q) (m_version q) (m_request_path q) (m_query q) 0 []).
Proof.
  intros Hm Hv Hp Hq Hqs Hquery.
  destruct (method_string_facts q Hm) as (Em & Hsp & _).
  destruct (version_string_facts (m_version q)) as (_ & Hvl & Hvt).
  unfold process_request_line, render_line.
  rewrite std_find_head, (proj2 (Z.eqb_neq _ _)) by (first [done | len_lia]).
  rewrite take_before, drop_after. unfold set_method.
  rewrite (bool_decide_true (m_method new_HttpRequest = kInvalid)) by done. simpl.
  rewrite Em, bool_decide_false by done. simpl.
  assert (SP ∉ m_request_path q ++ m_query q) as Hsp2 by (rewrite elem_of_app; tauto).
  rewrite std_find_head, (proj2 (Z.eqb_neq _ _)) by (first [done | len_lia]).
  rewrite take_before, drop_after, Hvl, bool_decide_true by done. simpl.
  unfold setVersion, set_query, set_path.
  destruct Hquery as [E|[k E]]; rewrite E.
  - rewrite app_nil_r, std_find_notin, Z.eqb_refl by done. simpl.
    by destruct (m_version q).
  - rewrite std_find_head, (proj2 (Z.eqb_neq _ _)) by (first [done | len_lia]). simpl.
    rewrite take_before. unfold len. rewrite Nat2Z.id, drop_app_length.
    by destruct (m_version q).
Qed.

Lemma parse_headers hs fuel t ok r rest :
  Forall header_ok hs -> (length hs < fuel)%nat ->
  parse_lines fuel t ok (mkHttpContext kExpectHeaders r) (render_headers hs ++ kCRLF ++ rest)
  = Ok (ok, mkHttpContext kGotAll
      (mkHttpRequest (m_method r) (m_version r) (m_request_path r) (m_query r) (m_receive_time r)
        (foldl (fun m h => map_assign h.1 h.2 m) (m_headers r) hs)), rest).
Proof.
  revert fuel r. induction hs as [|[f v] hs IH]; intros [|fuel] r Hh Hf; try (simpl in Hf; lia);
    cbn [parse_lines m_state].
  - change (render_headers []) with (@nil byte). rewrite (split_line_crlf []) by apply not_elem_of_nil.
    by destruct r.
  - apply Forall_cons in Hh as [(Hc & Hf1 & Hf2 & Ht) Hh]. simpl in Hc, Hf1, Hf2, Ht.
    unfold render_headers. rewrite fmap_cons, concat_cons. fold (render_headers hs). simpl fst. simpl snd.
    replace (((f ++ lit ": " ++ v ++ kCRLF) ++ render_headers hs) ++ kCRLF ++ rest)
      with ((f ++ lit ": " ++ v) ++ kCRLF ++ render_headers hs ++ kCRLF ++ rest)
      by (by rewrite <- !app_assoc).
    rewrite split_line_crlf by (rewrite !elem_of_app; intros [?|[Hl|?]]; try done;
      revert Hl; by not_in_lit).
    assert (negb (std_find ":"%char (f ++ lit ": " ++ v) =? len (f ++ lit ": " ++ v)) = true) as ->.
    { change (lit ": " ++ v) with (":"%char :: SP :: v). rewrite std_find_head by done.
      apply negb_true_iff, Z.eqb_neq. len_lia. }
    cbn [m_request].
    rewrite add_header_line by done. rewrite IH by (first [done | simpl in Hf; lia]). done.
Qed.

Lemma len_render_headers hs : Z.of_nat (length hs) <= len (render_headers hs).
Proof.
  induction hs as [|[f v] hs IH]; [done|]. unfold render_headers in *.
  rewrite fmap_cons, concat_cons, !len_app. simpl length. change (len (lit ": ")) with 2.
  len_pose. lia.
Qed.

Lemma parse_render (q : HttpRequest) (hs : list (bytes * bytes)) (rest : bytes)
    (b : Buffer) :
  wire_ok q hs -> wf b -> content b = render q hs ++ rest ->
  exists b', parse_request new_HttpContext b (m_receive_time q)
             = Ok (true, mkHttpContext kGotAll q, b') /\ wf b' /\ content b' = rest.
Proof.
  intros [Hm Hv [Hp1 [Hp2 Hp3]] [Hq1 Hq2] Hq3 Hh Hmap] W C.
  pose proof (parse_loop_refines (parse_fuel b) (m_receive_time q) false new_HttpContext b W) as Hr.
  assert (parse_lines (parse_fuel b) (m_receive_time q) false new_HttpContext (content b)
          = Ok (true, mkHttpContext kGotAll q, rest)) as E; [|by rewrite E in Hr].
  pose proof (parse_fuel_enough b W) as Hfuel. pose proof (len_render_headers hs) as Hlh.
  destruct (parse_fuel b) as [|fuel]; [len_pose; lia|]. clear Hr.
  cbn [parse_lines m_state new_HttpContext]. rewrite C in *.
  unfold render in *. rewrite <- !app_assoc in *. rewrite !len_app in Hfuel. len_pose.
  destruct (method_string_facts q Hm) as (_ & _ & Hcr).
  destruct (version_string_facts (m_version q)) as (Hvcr & _).
  rewrite split_line_crlf.
  2:{ unfold render_line. rewrite !not_elem_of_app, !not_elem_of_cons, !not_elem_of_app, !not_elem_of_cons.
      by split_and!. }
  cbn [m_request]. rewrite process_render_line by done. simpl.
  change (CR :: LF :: rest) with (kCRLF ++ rest).
  rewrite parse_headers by (first [done | change (len kCRLF) with 2 in *; lia]). simpl.
  rewrite <- Hmap. by destruct q.
Qed.

(** C5: parsing inverts printing.  A request with a known method and version,
    a path and query without blanks, and any number of header lines with
    trimmed values, printed as [METHOD target HTTP/1.x], header lines and an
    empty line and followed by arbitrary bytes, is parsed by one call into
    exactly that request: the call returns true, the context is in [kGotAll],
    the header map holds the last value of every field, and the bytes that
    follow are what is left in the buffer. *)
Theorem parse_request_roundtrip (q : HttpRequest) (hs : list (bytes * bytes)) (rest : bytes)
    (b : Buffer) :
  wire_ok q hs -> wf b -> content b = render q hs ++ rest ->
  exists b', parse_request new_HttpContext b (m_receive_time q)
             = Ok (true, mkHttpContext kGotAll q, b') /\ wf b' /\ content b' = rest.
Proof. apply parse_render. Qed.

Definition sample_request : HttpRequest :=
  mkHttpRequest kGet kHttp11 (lit "/a") (lit "?k=v") 7 [(lit "Host", lit "h:80")].

Lemma sample_request_ok : wire_ok sample_request [(lit "Host", lit "h:80")].
Proof.
  constructor; [done|done|split_and!; by not_in_lit|split_and!; by not_in_lit| | |done].
  - right. by eexists.
  - apply Forall_singleton. split_and!; [by not_in_lit..|]; split; by intros c [= <-].
Qed.

Lemma parse_request_roundtrip_witness :
  exists b', parse_request new_HttpContext
      (buffer_of (render sample_request [(lit "Host", lit "h:80")] ++ lit "GET")) 7
    = Ok (true, mkHttpContext kGotAll sample_request, b') /\ wf b' /\ content b' = lit "GET".
Proof.
  apply (parse_request_roundtrip sample_request [(lit "Host", lit "h:80")]);
    [apply sample_request_ok | by apply wf_buffer_of | by rewrite content_buffer_of].
Defined.

(** ** What is left behind by a rejected or an incomplete request *)

(** What may follow the method in a request line that is accepted. *)
Definition line_tail_ok (tail : bytes) : Prop :=
  exists target v, tail = target ++ SP :: lit "HTTP/1." ++ [v] /\ SP ∉ target /\ (v = "0"%char \/ v = "1"%char).

(** Any other line with a known method is rejected after the method was
    recorded. *)
Lemma process_rejects m tail :
  SP ∉ m -> method_of_string m <> kInvalid -> ~ line_tail_ok tail ->
  exists r, process_request_line new_HttpRequest (m ++ SP :: tail) = Ok (false, r) /\
    m_method r = method_of_string m.
Proof.
  intros Hm Hv Ht. unfold process_request_line.
  rewrite std_find_head, (proj2 (Z.eqb_neq _ _)) by (first [done | len_lia]).
  rewrite take_before, drop_after. unfold set_method.
  rewrite (bool_decide_true (m_method new_HttpRequest = kInvalid)) by done. simpl.
  rewrite bool_decide_false by done. simpl.
  destruct (decide (SP ∈ tail)) as [Hs|Hs]; [|rewrite std_find_notin, Z.eqb_refl by done; eauto].
  apply list_elem_of_split_l in Hs as (target & version & -> & Hs).
  rewrite std_find_head, (proj2 (Z.eqb_neq _ _)) by (first [done | len_lia]).
  rewrite take_before, drop_after.
  set (r := if negb _ then _ else _).
  assert (m_method r = method_of_string m) as Er by (subst r; by case_match).
  destruct (Z.eqb_spec (len version) 8) as [Hl|]; [|eauto]. rewrite andb_true_l.
  match goal with |- context [bool_decide ?P] => destruct (bool_decide_reflect P) as [H7|]; [|eauto] end.
  destruct (last version) as [v|] eqn:El; [|eauto].
  assert (v <> "0"%char /\ v <> "1"%char) as [H0 H1].
  { apply last_Some in El as [pre ->]. assert (pre = lit "HTTP/1.") as ->.
    { change (lit "HTTP/1.") with (["H"; "T"; "T"; "P"; "/"; "1"; "."]%char). rewrite <- H7, take_app_length'; [done|]. revert Hl. unfold len. rewrite length_app. simpl. lia. }
    split; intros ->; apply Ht; eexists _, _; eauto. }
  exists r. split; [|done]. destruct v as [[] [] [] [] [] [] [] []]; first [done | congruence].
Qed.

Lemma split_line_more l more line rest :
  split_line l = Some (line, rest) -> split_line (l ++ more) = Some (line, rest ++ more).
Proof.
  unfold split_line. pose proof (std_search_range kCRLF l).
  destruct (Z.eqb_spec (std_search kCRLF l) (len l)) as [|Hne]; [done|]. intros [= <- <-].
  pose proof (std_search_fits kCRLF l ltac:(lia)). change (len kCRLF) with 2 in *.
  rewrite std_search_app by lia. rewrite (proj2 (Z.eqb_neq _ _)) by len_lia.
  do 2 f_equal; [rewrite take_app_le; [done|] | rewrite drop_app_le; [done|]]; unfold len in *; lia.
Qed.

Lemma rejected_line_state (b : Buffer) (m tail rest more : bytes) (t t' : Z) (b2 : Buffer) :
  wf b -> split_line (content b) = Some (m ++ SP :: tail, rest) ->
  SP ∉ m -> method_of_string m <> kInvalid -> ~ line_tail_ok tail ->
  wf b2 -> content b2 = content b ++ more ->
  exists c b1, parse_request new_HttpContext b t = Ok (false, c, b1) /\ content b1 = content b /\
    m_state c = kExpectRequestLine /\
    parse_request c b2 t' = Fail FAssert.
Proof.
  intros W C Hm Hv Ht W2 C2. unfold parse_request, parse_fuel.
  pose proof (next_line b W) as N1. rewrite C in N1. destruct N1 as (F1 & R1 & _).
  pose proof (next_line b2 W2) as N2. rewrite C2, (split_line_more _ _ _ _ C) in N2. destruct N2 as (F2 & R2 & _).
  destruct (process_rejects m tail Hm Hv Ht) as (r & Er & Em).
  do 2 eexists. cbn [parse_loop m_state new_HttpContext]. rewrite F1. cbn. rewrite R1. cbn.
  rewrite Er. split_and!; try done.
  cbn. rewrite F2. cbn. rewrite R2. cbn.
  pose proof (process_request_line_outcome r (m ++ SP :: tail)) as Hp.
  rewrite !bool_decide_decide, decide_False, decide_True in Hp; [by rewrite Hp| |by rewrite Em].
  apply elem_of_app. right. apply elem_of_cons. by left.
Qed.

(** C6: a rejected request line poisons the context.  When the first line
    starts with a known method and a blank and what follows is not a target
    without blanks, one blank and [HTTP/1.0] or [HTTP/1.1] (for instance
    [GET /], [GET / HTTP/2.0], [GET /a b HTTP/1.1]), [parse_request] returns
    false with nothing consumed and the method recorded; the next call on the
    same context and buffer, for the next read of the connection, fails
    [assert(m_method == kInvalid)] of [HttpRequest::set_method] and the process
    aborts, whatever bytes were appended in between. *)
Theorem rejected_line_poisons (b : Buffer) (m tail rest more : bytes) (t t' : Z) (b2 : Buffer) :
  wf b -> split_line (content b) = Some (m ++ SP :: tail, rest) ->
  SP ∉ m -> method_of_string m <> kInvalid -> ~ line_tail_ok tail ->
  wf b2 -> content b2 = content b ++ more ->
  exists c b1, parse_request new_HttpContext b t = Ok (false, c, b1) /\ content b1 = content b /\
    m_state c = kExpectRequestLine /\
    parse_request c b2 t' = Fail FAssert.
Proof. apply rejected_line_state. Qed.

Lemma rejected_line_poisons_witness :
  let l := lit "GET / HTTP/2.0" ++ kCRLF in
  exists c b1, parse_request new_HttpContext (buffer_of l) 1 = Ok (false, c, b1) /\
    content b1 = content (buffer_of l) /\ m_state c = kExpectRequestLine /\
    parse_request c (buffer_of (l ++ lit "x")) 2 = Fail FAssert.
Proof.
  intros l. apply (rejected_line_poisons (buffer_of l) (lit "GET") (lit "/ HTTP/2.0") [] (lit "x"));
    try apply wf_buffer_of; rewrite ?content_buffer_of; try done; [by not_in_lit|].
  intros ([|x [|y target]] & v & E & _); [done..|]. apply (f_equal length) in E.
  rewrite length_app in E. simpl in E. lia.
Defined.

Lemma parse_lines_headers_ok fuel t ok r l k c' l' :
  parse_lines fuel t ok (mkHttpContext kExpectHeaders r) l = Ok (k, c', l') -> k = ok.
Proof.
  revert r l. induction fuel as [|fuel IH]; intros r l; [done|]. cbn [parse_lines m_state].
  destruct (split_line l) as [[line rest]|]; [|by intros [= -> _ _]].
  destruct (negb _); [apply IH | by intros [= -> _ _]].
Qed.

(** A request that arrives in pieces is never reported as parsed.  Any
    call that starts in [kExpectHeaders] returns false, the call that consumes
    the last header line and reaches [kGotAll] included: the local [ok] is
    only ever set by a request line. *)
Theorem resumed_parse_returns_false (r : HttpRequest) (b b' : Buffer) (t : Z) (ok : bool)
    (c' : HttpContext) :
  wf b -> parse_request (mkHttpContext kExpectHeaders r) b t = Ok (ok, c', b') -> ok = false.
Proof.
  intros W H. unfold parse_request in H.
  pose proof (parse_loop_refines (parse_fuel b) t false (mkHttpContext kExpectHeaders r) b W) as Hr.
  rewrite H in Hr. destruct (parse_lines _ _ _ _ _) as [[[k c] l]|] eqn:E; [|done].
  destruct Hr as (b2 & [= -> _ _] & _). by apply parse_lines_headers_ok in E.
Qed.

Lemma resumed_parse_returns_false_witness :
  exists ok c' b',
    parse_request (mkHttpContext kExpectHeaders new_HttpRequest) (buffer_of kCRLF) 3 = Ok (ok, c', b') /\
    got_all c' = true /\ ok = false.
Proof.
  do 3 eexists. split; [vm_compute; reflexivity|]. split; [reflexivity|].
  apply (resumed_parse_returns_false new_HttpRequest (buffer_of kCRLF)
           (snd (match parse_request (mkHttpContext kExpectHeaders new_HttpRequest) (buffer_of kCRLF) 3 with
                 | Ok r => r | Fail _ => (false, new_HttpContext, buffer_of []) end)) 3 _
           (mkHttpContext kGotAll new_HttpRequest)).
  - by apply wf_buffer_of.
  - vm_compute. reflexivity.
Defined.
