(* ===== verification/Channel.v ===== *)
(** [flute/net/Channel.{h,cc}]: the events a file descriptor is watched for,
    the events received for it, and the dispatch of its callbacks.

    A [Channel*] is an address in a store [gmap chan_ptr Channel], because the
    pollers, the reactor and the channel's owner share it.  A stored
    [std::function] is the name of a closure; what running it does is a
    parameter of [handle_event]. *)

From S2P Require Import Prelude.

Definition POLLIN : Z := 1.
Definition POLLPRI : Z := 2.
Definition POLLOUT : Z := 4.
Definition POLLERR : Z := 8.
Definition POLLHUP : Z := 16.
Definition POLLNVAL : Z := 32.
Definition POLLRDHUP : Z := 8192.

Definition kNoneEvent : Z := 0.
Definition kReadEvent : Z := Z.lor POLLIN POLLPRI.
Definition kWriteEvent : Z := POLLOUT.

(** Addresses of channels, of closures, of the object a channel is tied to,
    and thread ids. *)
Abbreviation chan_ptr := Z.
Abbreviation closure := Z.
Abbreviation obj_ptr := Z.
Abbreviation pid_t := Z.

(** The thread that executes: [CurrentThread::tid()]. *)
Class CurrentThread := cur_tid : pid_t.

Record Channel : Type := mkChannel {
  m_reactor : pid_t;  (* the owner reactor, by the thread it belongs to *)
  m_fd : Z;
  m_concerned_events : Z;
  m_recv_events : Z;
  m_idx : Z;
  m_loghup_enabled : bool;
  m_tied_obj_ptr : option obj_ptr;
  m_tied : bool;
  m_is_handing_event : bool;
  m_is_in_reactor : bool;
  m_read_callback : option closure;
  m_write_callback : option closure;
  m_close_callback : option closure;
  m_error_callback : option closure
}.

Definition new_Channel (reactor : pid_t) (fd : Z) : Channel :=
  mkChannel reactor fd 0 0 (-1) true None false false false None None None None.

Definition set_concerned (e : Z) (ch : Channel) : Channel :=
  mkChannel (m_reactor ch) (m_fd ch) e (m_recv_events ch) (m_idx ch) (m_loghup_enabled ch)
    (m_tied_obj_ptr ch) (m_tied ch) (m_is_handing_event ch) (m_is_in_reactor ch)
    (m_read_callback ch) (m_write_callback ch) (m_close_callback ch) (m_error_callback ch).

Definition set_revents (revt : Z) (ch : Channel) : Channel :=
  mkChannel (m_reactor ch) (m_fd ch) (m_concerned_events ch) revt (m_idx ch) (m_loghup_enabled ch)
    (m_tied_obj_ptr ch) (m_tied ch) (m_is_handing_event ch) (m_is_in_reactor ch)
    (m_read_callback ch) (m_write_callback ch) (m_close_callback ch) (m_error_callback ch).

Definition set_index (idx : Z) (ch : Channel) : Channel :=
  mkChannel (m_reactor ch) (m_fd ch) (m_concerned_events ch) (m_recv_events ch) idx (m_loghup_enabled ch)
    (m_tied_obj_ptr ch) (m_tied ch) (m_is_handing_event ch) (m_is_in_reactor ch)
    (m_read_callback ch) (m_write_callback ch) (m_close_callback ch) (m_error_callback ch).

Definition set_handing (b : bool) (ch : Channel) : Channel :=
  mkChannel (m_reactor ch) (m_fd ch) (m_concerned_events ch) (m_recv_events ch) (m_idx ch) (m_loghup_enabled ch)
    (m_tied_obj_ptr ch) (m_tied ch) b (m_is_in_reactor ch)
    (m_read_callback ch) (m_write_callback ch) (m_close_callback ch) (m_error_callback ch).

Definition set_in_reactor (b : bool) (ch : Channel) : Channel :=
  mkChannel (m_reactor ch) (m_fd ch) (m_concerned_events ch) (m_recv_events ch) (m_idx ch) (m_loghup_enabled ch)
    (m_tied_obj_ptr ch) (m_tied ch) (m_is_handing_event ch) b
    (m_read_callback ch) (m_write_callback ch) (m_close_callback ch) (m_error_callback ch).

(** The four [set_*_callback] members. *)
Definition set_callbacks (r w c e : option closure) (ch : Channel) : Channel :=
  mkChannel (m_reactor ch) (m_fd ch) (m_concerned_events ch) (m_recv_events ch) (m_idx ch) (m_loghup_enabled ch)
    (m_tied_obj_ptr ch) (m_tied ch) (m_is_handing_event ch) (m_is_in_reactor ch) r w c e.

Definition tie (obj : obj_ptr) (ch : Channel) : Channel :=
  mkChannel (m_reactor ch) (m_fd ch) (m_concerned_events ch) (m_recv_events ch) (m_idx ch) (m_loghup_enabled ch)
    (Some obj) true (m_is_handing_event ch) (m_is_in_reactor ch)
    (m_read_callback ch) (m_write_callback ch) (m_close_callback ch) (m_error_callback ch).

Definition disable_loghup (ch : Channel) : Channel :=
  mkChannel (m_reactor ch) (m_fd ch) (m_concerned_events ch) (m_recv_events ch) (m_idx ch) false
    (m_tied_obj_ptr ch) (m_tied ch) (m_is_handing_event ch) (m_is_in_reactor ch)
    (m_read_callback ch) (m_write_callback ch) (m_close_callback ch) (m_error_callback ch).

(** [x & mask] as a condition. *)
Definition has (x mask : Z) : bool := negb (Z.land x mask =? 0).

Definition is_none_event (ch : Channel) : bool := m_concerned_events ch =? kNoneEvent.
Definition is_writing (ch : Channel) : bool := has (m_concerned_events ch) kWriteEvent.
Definition is_reading (ch : Channel) : bool := has (m_concerned_events ch) kReadEvent.

(** [events_to_string], with the decimal rendering of the descriptor as an
    argument: [operator<<(int)] of [std::ostringstream]. *)
Definition events_to_string (fd_dec : bytes) (ev : Z) : bytes :=
  fd_dec ++ lit ": "
  ++ (if has ev POLLIN then lit "IN " else [])
  ++ (if has ev POLLPRI then lit "PRI " else [])
  ++ (if has ev POLLOUT then lit "OUT " else [])
  ++ (if has ev POLLHUP then lit "HUP " else [])
  ++ (if has ev POLLRDHUP then lit "RDHUP " else [])
  ++ (if has ev POLLERR then lit "ERR " else [])
  ++ (if has ev POLLNVAL then lit "NVAL " else []).

(** * Dispatch *)

(** A state that contains channels: reading one through its pointer (a dead
    one is not there), writing one, and [weak_ptr<void>::lock()]. *)
Class ChannelHeap (W : Type) := {
  chan_at : W -> chan_ptr -> option Channel;
  put_chan : chan_ptr -> Channel -> W -> W;
  lock : W -> obj_ptr -> bool
}.

Class ChannelHeapLaws (W : Type) `{ChannelHeap W} := {
  chan_at_put : forall w c ch, chan_at (put_chan c ch w) c = Some ch;
  put_put : forall w c ch ch', put_chan c ch (put_chan c ch' w) = put_chan c ch w;
}.

Section dispatch.
Context {W : Type} `{ChannelHeap W}.
(** Running a closure: [None] as argument for [EventCallback], [Some t] for
    [ReadEventCallback]. *)
Context (run : closure -> option Z -> W -> outcome W).

Definition deref (w : W) (c : chan_ptr) : outcome Channel := of_option FNull (chan_at w c).

(** [if (m_cb) m_cb(arg);] *)
Definition call_if (cb : option closure) (arg : option Z) (w : W) : outcome W :=
  match cb with Some f => run f arg w | None => Ok w end.

(** [if (m_recv_events & ...) { if (m_cb) m_cb(arg); }]: events and callback
    are members, read again each time. *)
Definition dispatch_if (cond : Z -> bool) (cb : Channel -> option closure) (arg : option Z)
    (c : chan_ptr) (w : W) : outcome W :=
  ch ← deref w c;
  if cond (m_recv_events ch) then call_if (cb ch) arg w else Ok w.

Definition hup_alone (rev : Z) : bool := has rev POLLHUP && negb (has rev POLLIN).

Definition handle_event_with_guard (c : chan_ptr) (recv_time : Z) (w : W) : outcome W :=
  ch ← deref w c;
  w ← Ok (put_chan c (set_handing true ch) w);
  w ← dispatch_if hup_alone m_close_callback None c w;
  w ← dispatch_if (fun rev => has rev (Z.lor POLLERR POLLNVAL)) m_error_callback None c w;
  w ← dispatch_if (fun rev => has rev (Z.lor (Z.lor POLLIN POLLPRI) POLLRDHUP)) m_read_callback
        (Some recv_time) c w;
  w ← dispatch_if (fun rev => has rev POLLOUT) m_write_callback None c w;
  ch ← deref w c;
  Ok (put_chan c (set_handing false ch) w).

Definition handle_event (c : chan_ptr) (recv_time : Z) (w : W) : outcome W :=
  ch ← deref w c;
  if m_tied ch then
    match m_tied_obj_ptr ch with
    | Some obj => if lock w obj then handle_event_with_guard c recv_time w else Ok w
    | None => Ok w
    end
  else handle_event_with_guard c recv_time w.

(** ** The calls that the received events stand for *)

Definition calls (ch : Channel) (t : Z) : list (closure * option Z) :=
  let rev := m_recv_events ch in
  let call (b : bool) (cb : option closure) arg :=
    match cb with Some f => if b then [(f, arg)] else [] | None => [] end in
  call (hup_alone rev) (m_close_callback ch) None
  ++ call (has rev (Z.lor POLLERR POLLNVAL)) (m_error_callback ch) None
  ++ call (has rev (Z.lor (Z.lor POLLIN POLLPRI) POLLRDHUP)) (m_read_callback ch) (Some t)
  ++ call (has rev POLLOUT) (m_write_callback ch) None.

Fixpoint run_calls (l : list (closure * option Z)) (w : W) : outcome W :=
  match l with
  | [] => Ok w
  | (f, arg) :: l => w ← run f arg w; run_calls l w
  end.

(** Events and callbacks agree; everything else may differ. *)
Definition same_dispatch (ch ch' : Channel) : Prop :=
  m_recv_events ch = m_recv_events ch' /\ m_read_callback ch = m_read_callback ch' /\
  m_write_callback ch = m_write_callback ch' /\ m_close_callback ch = m_close_callback ch' /\
  m_error_callback ch = m_error_callback ch'.

#[global] Instance same_dispatch_equiv : Equivalence same_dispatch.
Proof.
  split; [by intros ch | |]; unfold same_dispatch; repeat intros (-> & -> & -> & -> & ->) || intros ?; done.
Qed.

(** The closures leave the dispatched channel alive, with its received
    events and its callbacks: [set_revents] is called by pollers only, and
    the owner sets callbacks at construction. *)
Definition keeps (c : chan_ptr) (ch0 : Channel) : Prop :=
  forall f arg w w' ch, run f arg w = Ok w' -> chan_at w c = Some ch -> same_dispatch ch0 ch ->
    exists ch', chan_at w' c = Some ch' /\ same_dispatch ch0 ch'.

Lemma run_calls_app l1 l2 w :
  run_calls (l1 ++ l2) w = (run_calls l1 w ≫= run_calls l2).
Proof.
  revert w. induction l1 as [|[f a] l1 IH]; intros w; simpl; [done|].
  destruct (run f a w); simpl; [apply IH | done].
Qed.

Lemma dispatch_if_run cond (cb : Channel -> option closure) arg c w ch0 ch :
  keeps c ch0 -> chan_at w c = Some ch -> same_dispatch ch0 ch -> cb ch = cb ch0 ->
  exists m, dispatch_if cond cb arg c w = m /\
    m = run_calls (match cb ch0 with Some f => if cond (m_recv_events ch0) then [(f, arg)] else []
                   | None => [] end) w /\
    forall w', m = Ok w' -> exists ch', chan_at w' c = Some ch' /\ same_dispatch ch0 ch'.
Proof.
  intros K Hc Hs Hcb. eexists. split; [done|]. unfold dispatch_if, deref. rewrite Hc. simpl.
  rewrite Hcb. destruct Hs as [Hr Hs]. rewrite <- Hr. unfold call_if.
  destruct (cb ch0) as [f|], (cond (m_recv_events ch0)); simpl;
    [split | split; [done|]; intros ? [= <-]; exists ch; split; [done | by split] ..].
  - by destruct (run f arg w).
  - intros w' Hw. eapply K; [exact Hw | exact Hc | by split].
Qed.

(** One [dispatch_if] of the goal, in lock step with one segment of [calls]. *)
Ltac dispatch_step :=
  lazymatch goal with
  | K : keeps ?c ?ch, C : chan_at ?w ?c = Some ?ch0, S : same_dispatch ?ch ?ch0
    |- mbind _ (dispatch_if ?cond ?cb ?arg ?c ?w) = _ =>
      let m := fresh "m" in let Em := fresh "Em" in let Er := fresh "Er" in let Hm := fresh "Hm" in
      let w1 := fresh "w" in let ch1 := fresh "ch" in
      destruct (dispatch_if_run cond cb arg c w ch ch0 K C S) as (m & Em & Er & Hm);
        [unfold same_dispatch in S; naive_solver|];
      rewrite Em; cbv beta in Er; rewrite <- Er; clear Em Er;
      destruct m as [w1|?]; cbn [mbind outcome_bind]; [|done];
      clear C S; destruct (Hm _ eq_refl) as (ch1 & C & S); clear Hm
  end.

(** [Channel::handle_event] calls exactly the callbacks that the received
    events ask for, in the order close (hang-up with nothing to read), error,
    read, write, each at most once, between setting and clearing
    [m_is_handing_event]; a channel whose tied owner is gone is not touched. *)
Theorem handle_event_order (L : ChannelHeapLaws W) (c : chan_ptr) (t : Z) (w : W) (ch : Channel) :
  chan_at w c = Some ch -> keeps c ch ->
  handle_event c t w =
    if m_tied ch && negb (match m_tied_obj_ptr ch with Some o => lock w o | None => false end)
    then Ok w
    else
      w' ← run_calls (calls ch t) (put_chan c (set_handing true ch) w);
      ch' ← deref w' c;
      Ok (put_chan c (set_handing false ch') w').
Proof.
  intros Hc K. assert (deref w c = Ok ch) as Hd by (unfold deref; by rewrite Hc).
  unfold handle_event. rewrite Hd. cbn [mbind outcome_bind].
  enough (handle_event_with_guard c t w =
    (w' ← run_calls (calls ch t) (put_chan c (set_handing true ch) w);
     ch' ← deref w' c; Ok (put_chan c (set_handing false ch') w'))) as E.
  { destruct (m_tied ch); simpl; [|done].
    destruct (m_tied_obj_ptr ch) as [o|]; [|done]. by destruct (lock w o). }
  unfold handle_event_with_guard. rewrite Hd. cbn [mbind outcome_bind].
  assert (same_dispatch ch (set_handing true ch)) as S0 by by split_and!.
  pose proof (chan_at_put w c (set_handing true ch)) as C0.
  generalize dependent (put_chan c (set_handing true ch) w).
  generalize dependent (set_handing true ch). intros ch0 S0 w0 C0. unfold calls.
  do 3 (rewrite run_calls_app; dispatch_step). dispatch_step. done.
Qed.
End dispatch.

(** ** A heap that records the calls *)

Definition trace_heap : Type := gmap chan_ptr Channel * list (closure * option Z).

#[global] Instance trace_heap_ops : ChannelHeap trace_heap := {
  chan_at w c := w.1 !! c;
  put_chan c ch w := (<[c := ch]> w.1, w.2);
  lock w o := true
}.

#[global] Instance trace_heap_laws : ChannelHeapLaws trace_heap.
Proof.
  split; intros w c ch; simpl; [by rewrite lookup_insert_eq | intros ch'; by rewrite insert_insert_eq].
Qed.

Definition trace_run (f : closure) (arg : option Z) (w : trace_heap) : outcome trace_heap :=
  Ok (w.1, w.2 ++ [(f, arg)]).

Lemma handle_event_order_witness :
  let ch := set_revents 28 (set_callbacks (Some 1) (Some 2) (Some 3) (Some 4) (new_Channel 0 5)) in
  let w : trace_heap := ({[ 8 := ch ]}, []) in
  exists w', handle_event trace_run 8 77 w = Ok w' /\ w'.2 = [(3, None); (4, None); (2, None)] /\
    w'.1 !! 8 = Some ch.
Proof.
  intros ch w. eexists.
  rewrite (handle_event_order trace_run _ 8 77 w ch).
  - split_and!; vm_compute; reflexivity.
  - reflexivity.
  - intros f arg w1 w2 ch1 [= <-] H1 S1. by exists ch1.
Defined.
