(* ===== verification/Poller.v ===== *)
(** [flute/net/Poller.{h,cc}]: what the reactor asks of an I/O multiplexer.

    The pollers share the channels with their owners, so every operation takes
    and returns the store of channels.  [PollerOps] has the virtual functions,
    [PollerLaws] is the contract that [Reactor] and the channels rely on;
    [EPollPoller] and [PollPoller] discharge it.  The channel operations that
    go through the reactor to the poller ([wang_to_read] and the like) are
    here, over the interface. *)

From S2P Require Import Prelude Channel.

Abbreviation chans := (gmap chan_ptr Channel).

(** Everything of a channel but what a poller writes. *)
Definition owner_part (ch : Channel) : Channel := set_revents 0 (set_index 0 ch).

(** The events that channels ask for: combinations of [kReadEvent] and
    [kWriteEvent]. *)
Definition valid_events (e : Z) : Prop := 0 <= e < 8.

Class PollerOps (P : Type) := {
  (** What [epoll_wait] or [poll] answered. *)
  poll_answer : Type;
  update_channel : P -> chans -> chan_ptr -> outcome (P * chans);
  remove_channel : P -> chans -> chan_ptr -> outcome (P * chans);
  poll : P -> chans -> poll_answer -> outcome (P * chans * list chan_ptr);
  m_channel_map : P -> gmap Z chan_ptr;
  owner_thread : P -> pid_t
}.

(** [Poller::assert_in_reactor_thread]. *)
Definition assert_in_thread `{CurrentThread} (owner : pid_t) : outcome unit :=
  require FFatal (owner =? cur_tid).

Lemma in_thread_ok `{CurrentThread} owner : owner = cur_tid -> assert_in_thread owner = Ok tt.
Proof. intros ->. unfold assert_in_thread. by rewrite Z.eqb_refl. Qed.

(** [Poller::has_channel]. *)
Definition has_channel {P} `{PollerOps P, CurrentThread} (p : P) (cs : chans) (c : chan_ptr)
    : outcome bool :=
  assert_in_thread (owner_thread p);;
  ch ← of_option FNull (cs !! c);
  Ok (match m_channel_map p !! m_fd ch with
      | Some c' => c' =? c
      | None => false
      end).

Class PollerLaws (P : Type) `{PollerOps P, CurrentThread} := {
  poller_inv : P -> chans -> Prop;
  (** The events that the kernel is asked to report for a descriptor. *)
  watched : P -> Z -> option Z;
  (** The registration is in a state that [remove_channel] accepts. *)
  removable : P -> Channel -> Prop;
  (** What the manual of the system call says about its answer. *)
  answer_ok : P -> poll_answer -> Prop;

  inv_thread : forall p cs, poller_inv p cs -> owner_thread p = cur_tid;
  registered_channel : forall p cs fd c, poller_inv p cs -> m_channel_map p !! fd = Some c ->
    exists ch, cs !! c = Some ch /\ m_fd ch = fd /\ valid_events (m_concerned_events ch);
  (** Only the registered channels matter. *)
  inv_frame : forall p cs cs', poller_inv p cs ->
    (forall fd c, m_channel_map p !! fd = Some c -> cs' !! c = cs !! c) -> poller_inv p cs';
  (** The members of a channel that its owner writes do not matter. *)
  inv_owner : forall p cs c ch ch', poller_inv p cs -> cs !! c = Some ch -> m_fd ch' = m_fd ch ->
    m_idx ch' = m_idx ch -> m_concerned_events ch' = m_concerned_events ch -> poller_inv p (<[c := ch']> cs);
  watched_sound : forall p cs fd e, poller_inv p cs -> watched p fd = Some e ->
    exists c ch, m_channel_map p !! fd = Some c /\ cs !! c = Some ch /\ m_concerned_events ch = e;
  watched_complete : forall p cs fd c ch, poller_inv p cs -> m_channel_map p !! fd = Some c ->
    cs !! c = Some ch -> m_concerned_events ch <> kNoneEvent ->
    watched p fd = Some (m_concerned_events ch);

  (** [update_channel] after the owner changed [m_concerned_events]: it does
      not abort, unless the kernel refuses the registration. *)
  update_spec : forall p cs c ch ch',
    poller_inv p cs -> cs !! c = Some ch ->
    m_fd ch' = m_fd ch -> m_idx ch' = m_idx ch -> valid_events (m_concerned_events ch') ->
    m_channel_map p !! m_fd ch = Some c \/
      (m_channel_map p !! m_fd ch = None /\ m_idx ch = -1 /\ 0 <= m_fd ch) ->
    match update_channel p (<[c := ch']> cs) c with
    | Ok (p', cs') =>
        poller_inv p' cs' /\ m_channel_map p' = <[m_fd ch := c]> (m_channel_map p) /\
        (exists idx, cs' = <[c := set_index idx ch']> cs) /\
        (m_channel_map p !! m_fd ch = Some c ->
         m_concerned_events ch' = kNoneEvent -> exists ch2, cs' !! c = Some ch2 /\ removable p' ch2)
    | Fail f => f = FFatal
    end;

  remove_spec : forall p cs c ch ch',
    poller_inv p cs -> cs !! c = Some ch -> m_channel_map p !! m_fd ch = Some c ->
    m_fd ch' = m_fd ch -> m_idx ch' = m_idx ch -> m_concerned_events ch' = m_concerned_events ch ->
    m_concerned_events ch = kNoneEvent -> removable p ch ->
    exists p' cs', remove_channel p (<[c := ch']> cs) c = Ok (p', cs') /\
      poller_inv p' cs' /\ m_channel_map p' = delete (m_fd ch) (m_channel_map p) /\
      (forall c0, owner_part <$> cs' !! c0 = owner_part <$> (<[c := ch']> cs) !! c0);

  (** [poll] hands out registered channels, each once, with the events the
      kernel reported for their descriptor, and changes nothing else. *)
  poll_spec : forall p cs a, poller_inv p cs -> answer_ok p a ->
    exists p' cs' active, poll p cs a = Ok (p', cs', active) /\
      poller_inv p' cs' /\ m_channel_map p' = m_channel_map p /\ NoDup active /\
      (forall c, owner_part <$> cs' !! c = owner_part <$> cs !! c) /\
      (forall c, c ∈ active -> exists ch, cs' !! c = Some ch /\ m_channel_map p !! m_fd ch = Some c /\
         m_recv_events ch <> 0)
}.

(** * Received events *)

(** [set_revents] on each channel of a list. *)
Definition mark (cs : chans) (l : list (chan_ptr * Z)) : chans :=
  foldl (fun cs x => alter (set_revents x.2) x.1 cs) cs l.

Lemma mark_lookup cs l c : exists r, mark cs l !! c = set_revents r <$> cs !! c.
Proof.
  revert cs. induction l as [|[c1 r1] l IH]; intros cs; simpl.
  { exists (default 0 (m_recv_events <$> cs !! c)). destruct (cs !! c) as [[]|]; done. }
  destruct (IH (alter (set_revents r1) c1 cs)) as [r ->]. exists r.
  destruct (decide (c1 = c)) as [->|Hne].
  - rewrite lookup_alter_eq. by destruct (cs !! c).
  - by rewrite lookup_alter_ne.
Qed.

Lemma mark_marked cs l c :
  c ∈ l.*1 -> Forall (fun x => x.2 <> 0) l ->
  exists r, r <> 0 /\ mark cs l !! c = set_revents r <$> cs !! c.
Proof.
  induction l as [|[c1 r1] l IH] using rev_ind; intros Hc Hr; [by apply elem_of_nil in Hc|].
  apply Forall_app in Hr as [Hr Hr1]. rewrite Forall_singleton in Hr1. simpl in Hr1.
  unfold mark. rewrite foldl_app. simpl. fold (mark cs l).
  destruct (decide (c1 = c)) as [->|Hne].
  - exists r1. split; [done|]. rewrite lookup_alter_eq.
    destruct (mark_lookup cs l c) as [r Hl]. simpl in *. rewrite Hl. by destruct (cs !! c).
  - simpl. rewrite lookup_alter_ne by done. apply IH; [|done].
    rewrite fmap_app, elem_of_app in Hc. destruct Hc as [Hc|Hc]; [done|].
    simpl in Hc. apply list_elem_of_singleton in Hc. congruence.
Qed.

Lemma mark_owner_part cs l c : owner_part <$> mark cs l !! c = owner_part <$> cs !! c.
Proof. destruct (mark_lookup cs l c) as [r ->]. by destruct (cs !! c). Qed.

(** * Channel operations that reach the poller *)

Section channel_ops.
Context {P : Type} `{PollerOps P, CurrentThread}.

(** [Channel::update_self_in_reactor] and [Reactor::update_channel]: the
    reactor asserts that it owns the channel and that it is its own thread. *)
Definition update_self_in_reactor (p : P) (cs : chans) (c : chan_ptr) : outcome (P * chans) :=
  ch ← of_option FNull (cs !! c);
  let cs := <[c := set_in_reactor true ch]> cs in
  assert_ (m_reactor ch =? owner_thread p);;
  assert_in_thread (owner_thread p);;
  update_channel p cs c.

Definition change_events (f : Z -> Z) (p : P) (cs : chans) (c : chan_ptr) : outcome (P * chans) :=
  ch ← of_option FNull (cs !! c);
  update_self_in_reactor p (<[c := set_concerned (f (m_concerned_events ch)) ch]> cs) c.

Definition wang_to_read := change_events (fun e => Z.lor e kReadEvent).
Definition end_reading := change_events (fun e => Z.land e (Z.lnot kReadEvent)).
Definition want_to_write := change_events (fun e => Z.lor e kWriteEvent).
Definition end_writing := change_events (fun e => Z.land e (Z.lnot kWriteEvent)).
Definition end_all := change_events (fun _ => kNoneEvent).

(** The assertion of [Reactor::remove_channel] while events are dispatched:
    the channel is the one being handled, or is not active. *)
Definition may_remove (handling : bool) (current : option chan_ptr) (active : list chan_ptr)
    (c : chan_ptr) : bool :=
  negb handling || bool_decide (current = Some c) || negb (bool_decide (c ∈ active)).

(** [Channel::remove_self_from_reactor] and [Reactor::remove_channel]. *)
Definition remove_self_from_reactor (handling : bool) (current : option chan_ptr)
    (active : list chan_ptr) (p : P) (cs : chans) (c : chan_ptr) : outcome (P * chans) :=
  ch ← of_option FNull (cs !! c);
  assert_ (is_none_event ch);;
  let cs := <[c := set_in_reactor false ch]> cs in
  assert_ (m_reactor ch =? owner_thread p);;
  assert_in_thread (owner_thread p);;
  assert_ (may_remove handling current active c);;
  remove_channel p cs c.

(** [Channel::~Channel]. *)
Definition destroy_Channel (p : P) (cs : chans) (c : chan_ptr) : outcome chans :=
  ch ← of_option FNull (cs !! c);
  assert_ (negb (m_is_handing_event ch));;
  assert_ (negb (m_is_in_reactor ch));;
  (if owner_thread p =? cur_tid then h ← has_channel p cs c; assert_ (negb h) else Ok tt);;
  Ok (delete c cs).

End channel_ops.

(** * Theorems over the interface *)

Section channel_laws.
Context {P : Type} `{PollerLaws P}.

(** A channel that the poller knows, or that was never registered. *)
Definition attached (p : P) (c : chan_ptr) (ch : Channel) : Prop :=
  m_reactor ch = owner_thread p /\
  (m_channel_map p !! m_fd ch = Some c \/
   m_channel_map p !! m_fd ch = None /\ m_idx ch = -1 /\ 0 <= m_fd ch).

(** The owner may have written other members of the channel before. *)
Lemma change_owned_spec f p cs c ch ch0 :
  poller_inv p cs -> cs !! c = Some ch -> attached p c ch ->
  m_fd ch0 = m_fd ch -> m_idx ch0 = m_idx ch -> m_reactor ch0 = m_reactor ch ->
  valid_events (f (m_concerned_events ch0)) ->
  match change_events f p (<[c := ch0]> cs) c with
  | Ok (p', cs') =>
      poller_inv p' cs' /\ m_channel_map p' = <[m_fd ch := c]> (m_channel_map p) /\
      exists idx, let ch' := set_index idx (set_in_reactor true
          (set_concerned (f (m_concerned_events ch0)) ch0)) in
        cs' = <[c := ch']> cs /\
        (m_channel_map p !! m_fd ch = Some c -> f (m_concerned_events ch0) = kNoneEvent -> removable p' ch')
  | Fail e => e = FFatal
  end.
Proof.
  intros I Hc [Hr Ha] Hf Hi Hr0 Hv. unfold change_events, update_self_in_reactor. rewrite lookup_insert_eq. simpl.
  rewrite lookup_insert_eq. simpl. unfold assert_in_thread.
  rewrite (inv_thread _ _ I) in *. rewrite Hr0, Hr, Z.eqb_refl. simpl.
  rewrite !insert_insert_eq.
  pose proof (update_spec p cs c ch
    (set_in_reactor true (set_concerned (f (m_concerned_events ch0)) ch0)) I Hc Hf Hi Hv Ha) as U.
  destruct (update_channel _ _ _) as [[p' cs']|e]; [|done].
  destruct U as (I' & M' & [idx ->] & R). split_and!; [done..|]. exists idx. split; [done|].
  intros M1 E. destruct (R M1 E) as (ch2 & L2 & R2). rewrite lookup_insert_eq in L2. by simplify_eq.
Qed.

Lemma change_events_spec f p cs c ch :
  poller_inv p cs -> cs !! c = Some ch -> attached p c ch -> valid_events (f (m_concerned_events ch)) ->
  match change_events f p cs c with
  | Ok (p', cs') =>
      poller_inv p' cs' /\ m_channel_map p' = <[m_fd ch := c]> (m_channel_map p) /\
      exists idx, let ch' := set_index idx (set_in_reactor true
          (set_concerned (f (m_concerned_events ch)) ch)) in
        cs' = <[c := ch']> cs /\
        (m_channel_map p !! m_fd ch = Some c -> f (m_concerned_events ch) = kNoneEvent -> removable p' ch')
  | Fail e => e = FFatal
  end.
Proof.
  intros I Hc Ha Hv. pose proof (change_owned_spec f p cs c ch ch I Hc Ha eq_refl eq_refl eq_refl Hv) as S.
  by rewrite insert_id in S.
Qed.

(** After any of [wang_to_read], [want_to_write], [end_reading],
    [end_writing] and [end_all] on a channel that is new or registered, the
    kernel is asked for exactly the events the channel wants: its descriptor is
    watched with the new events when they are not empty, and what is watched on
    it is never anything else.  The only way the call does not return is that
    the kernel refuses the registration.  This holds for every poller that
    implements the interface. *)
Theorem channel_interest_in_sync (f : Z -> Z) (p p' : P) (cs cs' : chans) (c : chan_ptr) (ch : Channel) :
  poller_inv p cs -> cs !! c = Some ch -> attached p c ch -> valid_events (f (m_concerned_events ch)) ->
  change_events f p cs c = Ok (p', cs') ->
  poller_inv p' cs' /\
  (f (m_concerned_events ch) <> kNoneEvent -> watched p' (m_fd ch) = Some (f (m_concerned_events ch))) /\
  (forall e, watched p' (m_fd ch) = Some e -> e = f (m_concerned_events ch)).
Proof.
  intros I Hc Ha Hv E. pose proof (change_events_spec f p cs c ch I Hc Ha Hv) as S. rewrite E in S.
  destruct S as (I' & M' & idx & -> & _).
  assert (m_channel_map p' !! m_fd ch = Some c) as Mc by (rewrite M'; apply lookup_insert_eq).
  split; [done|]. split.
  - intros Hn. exact (watched_complete p' _ (m_fd ch) c _ I' Mc (lookup_insert_eq _ _ _) Hn).
  - intros e He. destruct (watched_sound _ _ _ _ I' He) as (c2 & ch2 & M2 & L2 & <-).
    rewrite Mc in M2. injection M2 as <-. rewrite lookup_insert_eq in L2. by injection L2 as <-.
Qed.

(** ** Reachable states *)

Implicit Types (s : P * chans).

(** What the owners of channels and the reactor do with a poller. *)
Inductive poller_step : P * chans -> P * chans -> Prop :=
| step_new p cs c fd :
    cs !! c = None -> poller_step (p, cs) (p, <[c := new_Channel (owner_thread p) fd]> cs)
| step_change f p cs c ch p' cs' :
    cs !! c = Some ch -> attached p c ch -> valid_events (f (m_concerned_events ch)) ->
    change_events f p cs c = Ok (p', cs') -> poller_step (p, cs) (p', cs')
| step_remove h cur act p cs c ch p' cs' :
    cs !! c = Some ch -> m_channel_map p !! m_fd ch = Some c -> removable p ch ->
    remove_self_from_reactor h cur act p cs c = Ok (p', cs') -> poller_step (p, cs) (p', cs')
| step_poll a p cs p' cs' act :
    answer_ok p a -> poll p cs a = Ok (p', cs', act) -> poller_step (p, cs) (p', cs')
| step_destroy p cs c cs' :
    destroy_Channel p cs c = Ok cs' -> poller_step (p, cs) (p, cs').

(** Removing a channel that wants nothing never fails, in any dispatch state
    that permits it. *)
Lemma remove_self_spec h cur act p cs c ch :
  poller_inv p cs -> cs !! c = Some ch -> m_channel_map p !! m_fd ch = Some c ->
  m_reactor ch = owner_thread p -> m_concerned_events ch = kNoneEvent -> removable p ch ->
  may_remove h cur act c = true ->
  exists p' cs', remove_self_from_reactor h cur act p cs c = Ok (p', cs') /\
    poller_inv p' cs' /\ m_channel_map p' = delete (m_fd ch) (m_channel_map p) /\
    (forall c0, owner_part <$> cs' !! c0 = owner_part <$> (<[c := set_in_reactor false ch]> cs) !! c0).
Proof.
  intros I Hc Hm Hr Hn Hrem Hmay. unfold remove_self_from_reactor. rewrite Hc. simpl.
  unfold is_none_event. rewrite Hn, Hr, Z.eqb_refl, (in_thread_ok _ (inv_thread _ _ I)), Hmay. simpl.
  by apply (remove_spec p cs c ch).
Qed.

Lemma remove_self_ok h cur act p cs c r :
  remove_self_from_reactor h cur act p cs c = Ok r ->
  exists ch, cs !! c = Some ch /\ m_concerned_events ch = kNoneEvent /\ m_reactor ch = owner_thread p /\
    may_remove h cur act c = true.
Proof.
  unfold remove_self_from_reactor. destruct (cs !! c) as [ch|]; [|done]. simpl. intros Hr. outcome_inv.
  exists ch. split_and!; [done|by apply Z.eqb_eq|by apply Z.eqb_eq|done].
Qed.

Lemma poller_step_inv s s' : poller_step s s' -> poller_inv s.1 s.2 -> poller_inv s'.1 s'.2.
Proof.
  intros [p cs c fd Hc|f p cs c ch p' cs' Hc Ha Hv E|h cur act p cs c ch p' cs' Hc Hm Hr E
         |a p cs p' cs' act Ha E|p cs c cs' E] I; simpl in *.
  - apply (inv_frame p cs); [done|]. intros fd' c' M. destruct (registered_channel _ _ _ _ I M) as (ch & L & _).
    rewrite lookup_insert_ne by congruence. done.
  - pose proof (change_events_spec f p cs c ch I Hc Ha Hv) as S. rewrite E in S. apply S.
  - destruct (remove_self_ok _ _ _ _ _ _ _ E) as (ch2 & Hc2 & Hn & Ho & Hmay). simplify_eq.
    destruct (remove_self_spec h cur act p cs c ch) as (p2 & cs2 & E2 & I2 & _); try done. congruence.
  - destruct (poll_spec p cs a I Ha) as (p2 & cs2 & act2 & E2 & I2 & _). congruence.
  - unfold destroy_Channel in E. destruct (cs !! c) as [ch|] eqn:Hc; [|done]. simpl in E. outcome_inv. subst cs'.
    rewrite (inv_thread _ _ I), Z.eqb_refl in *. unfold has_channel in *.
    rewrite (in_thread_ok _ (inv_thread _ _ I)), Hc in *. simpl in *. outcome_inv.
    apply (inv_frame p cs); [done|]. intros fd c0 M. apply lookup_delete_ne. intros <-.
    destruct (registered_channel _ _ _ _ I M) as (ch0 & L0 & Hf & _). simplify_eq.
    rewrite M, Z.eqb_refl in *. done.
Qed.

Lemma poller_rtc_inv s s' : rtc poller_step s s' -> poller_inv s.1 s.2 -> poller_inv s'.1 s'.2.
Proof. induction 1; eauto using poller_step_inv. Qed.

(** A registered channel is taken out the way its owners do it: [end_all], then
    [remove_self_from_reactor]. *)
Lemma end_all_remove_spec h cur act p cs c ch :
  poller_inv p cs -> cs !! c = Some ch -> m_channel_map p !! m_fd ch = Some c ->
  m_reactor ch = owner_thread p -> may_remove h cur act c = true ->
  match end_all p cs c with
  | Ok (p', cs') => exists p'' cs'', remove_self_from_reactor h cur act p' cs' c = Ok (p'', cs'') /\
      poller_inv p'' cs'' /\ m_channel_map p'' = delete (m_fd ch) (m_channel_map p) /\ watched p'' (m_fd ch) = None
  | Fail e => e = FFatal
  end.
Proof.
  intros I Hc Hm Hr Hmay. pose proof (change_events_spec (fun _ => kNoneEvent) p cs c ch I Hc) as S. fold end_all in S.
  specialize (S ltac:(split; [done|by left]) ltac:(unfold valid_events, kNoneEvent; lia)).
  destruct (end_all p cs c) as [[p' cs']|e]; [|done].
  destruct S as (I' & M' & idx & -> & Hrem). set (ch' := set_index _ _) in *.
  destruct (remove_self_spec h cur act p' (<[c := ch']> cs) c ch') as (p'' & cs'' & E & I'' & M'' & _); try done.
  - apply lookup_insert_eq.
  - rewrite M'. apply lookup_insert_eq.
  - rewrite (inv_thread _ _ I'). rewrite (inv_thread _ _ I) in Hr. exact Hr.
  - by apply Hrem.
  - exists p'', cs''. change (m_fd ch') with (m_fd ch) in *. rewrite M'', M', delete_insert_eq. split_and!; [done..|].
    destruct (watched p'' (m_fd ch)) as [e|] eqn:Hw; [|done].
    destruct (watched_sound _ _ _ _ I'' Hw) as (c2 & ch2 & M2 & _). by rewrite M'', M', delete_insert_eq, lookup_delete_eq in M2.
Qed.

Lemma destroy_channel_ok p cs c ch :
  poller_inv p cs -> cs !! c = Some ch -> m_channel_map p !! m_fd ch <> Some c ->
  m_is_handing_event ch = false -> m_is_in_reactor ch = false ->
  destroy_Channel p cs c = Ok (delete c cs).
Proof.
  intros I Hc Hm Hh Hi. unfold destroy_Channel, has_channel. rewrite Hc. cbn. rewrite Hh, Hi.
  rewrite (in_thread_ok _ (inv_thread _ _ I)), (inv_thread _ _ I), Z.eqb_refl. cbn. rewrite ?Hc. cbn.
  destruct (m_channel_map p !! m_fd ch) as [c'|]; [|done]. destruct (Z.eqb_spec c' c); [congruence|done].
Qed.

(** C10: in every state that a poller is brought to by operations on channels
    that are new or registered, by the removal of registered channels, by
    destructors that return and by calls of [poll], the kernel watches exactly
    what the channels want (each registered channel with wanted events is
    watched for those, and every watched descriptor belongs to a registered
    channel that wants just that).  From there: changing the interest of a new or
    registered channel fails only when the kernel refuses the registration;
    switching a registered channel off and removing it, which the reactor must
    permit, fails in no other way and leaves its descriptor unregistered and
    unwatched; the destructor of a channel that is neither registered nor in use
    returns; and [poll] returns registered channels, each once and with events
    received.  (Removing a channel that never wanted anything is not among
    these: see [never_enabled_remove_aborts].) *)
Theorem poller_reachable_safe (p0 p : P) (cs : chans) :
  poller_inv p0 ∅ -> rtc poller_step (p0, ∅) (p, cs) ->
  (forall fd c ch, m_channel_map p !! fd = Some c -> cs !! c = Some ch ->
     m_concerned_events ch <> kNoneEvent -> watched p fd = Some (m_concerned_events ch)) /\
  (forall fd e, watched p fd = Some e -> exists c ch, m_channel_map p !! fd = Some c /\
     cs !! c = Some ch /\ m_concerned_events ch = e) /\
  (forall f c ch e, cs !! c = Some ch -> attached p c ch -> valid_events (f (m_concerned_events ch)) ->
     change_events f p cs c = Fail e -> e = FFatal) /\
  (forall h cur act c ch, cs !! c = Some ch -> m_channel_map p !! m_fd ch = Some c ->
     m_reactor ch = owner_thread p -> may_remove h cur act c = true ->
     match end_all p cs c with
     | Ok (p', cs') => exists p'' cs'', remove_self_from_reactor h cur act p' cs' c = Ok (p'', cs'') /\
         m_channel_map p'' = delete (m_fd ch) (m_channel_map p) /\ watched p'' (m_fd ch) = None
     | Fail e => e = FFatal
     end) /\
  (forall c ch, cs !! c = Some ch -> m_channel_map p !! m_fd ch <> Some c ->
     m_is_handing_event ch = false -> m_is_in_reactor ch = false -> destroy_Channel p cs c = Ok (delete c cs)) /\
  (forall a, answer_ok p a -> exists p' cs' active, poll p cs a = Ok (p', cs', active) /\ NoDup active /\
     forall c, c ∈ active -> exists ch, cs' !! c = Some ch /\ m_channel_map p !! m_fd ch = Some c /\ m_recv_events ch <> 0).
Proof.
  intros I0 Hr.
  pose proof (poller_rtc_inv _ _ Hr I0 : poller_inv p cs) as I.
  split_and!.
  - intros. by eapply watched_complete.
  - intros fd e. by apply watched_sound.
  - intros f c ch e Hc Ha Hv E. pose proof (change_events_spec f p cs c ch I Hc Ha Hv) as S.
    by rewrite E in S.
  - intros h cur act c ch Hc Hm Ho Hmay. pose proof (end_all_remove_spec h cur act p cs c ch I Hc Hm Ho Hmay) as S.
    destruct (end_all p cs c) as [[p' cs']|]; [|done]. destruct S as (p'' & cs'' & E & _ & ? & ?). by exists p'', cs''.
  - intros c ch. by apply destroy_channel_ok.
  - intros a Ha. destruct (poll_spec p cs a I Ha) as (p' & cs' & active & E & _ & _ & ND & _ & Hact). by exists p', cs', active.
Qed.

End channel_laws.
