(* ===== verification/EPollPoller.v ===== *)
(** [flute/net/poller/EPollPoller.{h,cc}]: the poller over epoll.

    The kernel's epoll instance behind [m_epoll_fd] is a parameter: a state
    type [K] with [epoll_ctl] and the interest list, and the laws of
    epoll_ctl(2).  Descriptors stay open while they are registered (closing
    one would drop it from the interest list behind the poller's back). *)

From S2P Require Import Prelude Channel Poller.

Inductive EpollOp : Type := EPOLL_CTL_ADD | EPOLL_CTL_MOD | EPOLL_CTL_DEL.

Record epoll_event : Type := mk_epoll_event { ev_events : Z; ev_ptr : chan_ptr }.

Class EPollKernel (K : Type) := {
  epoll_ctl : K -> EpollOp -> Z -> epoll_event -> K * Z;
  interest : K -> gmap Z epoll_event
}.

(** epoll_ctl(2).  Adding or modifying can be refused ([ENOMEM], [ENOSPC],
    [EPERM]); a refused call changes nothing. *)
Class EPollKernelLaws (K : Type) `{EPollKernel K} := {
  ctl_add : forall k fd e k' r, interest k !! fd = None -> epoll_ctl k EPOLL_CTL_ADD fd e = (k', r) ->
    (r = 0 /\ interest k' = <[fd := e]> (interest k)) \/ (r = -1 /\ interest k' = interest k);
  ctl_mod : forall k fd e k' r, is_Some (interest k !! fd) -> epoll_ctl k EPOLL_CTL_MOD fd e = (k', r) ->
    (r = 0 /\ interest k' = <[fd := e]> (interest k)) \/ (r = -1 /\ interest k' = interest k);
  ctl_del : forall k fd e k' r, is_Some (interest k !! fd) -> epoll_ctl k EPOLL_CTL_DEL fd e = (k', r) ->
    r = 0 /\ interest k' = delete fd (interest k);
  ctl_exists : forall k fd e, is_Some (interest k !! fd) ->
    (epoll_ctl k EPOLL_CTL_ADD fd e).2 = -1;
  ctl_missing : forall k op fd e, interest k !! fd = None -> op <> EPOLL_CTL_ADD ->
    (epoll_ctl k op fd e).2 = -1
}.

Definition kNew : Z := -1.
Definition kAdded : Z := 1.
Definition kDeleted : Z := 2.
Definition kInitEventListSize : Z := 16.

Record EPollPoller (K : Type) : Type := mkEPollPoller {
  m_owner : pid_t;
  m_epoll : K;
  m_events_list : list epoll_event;
  m_map : gmap Z chan_ptr
}.
Arguments mkEPollPoller {K}.
Arguments m_owner {K}.
Arguments m_epoll {K}.
Arguments m_events_list {K}.
Arguments m_map {K}.

(** The constructor, on an epoll instance that was created. *)
Definition new_EPollPoller {K} (owner : pid_t) (k : K) : EPollPoller K :=
  mkEPollPoller owner k (replicate (Z.to_nat kInitEventListSize) (mk_epoll_event 0 0)) ∅.

(** What [epoll_wait] returned: the events it stored, or [-1] with [errno]. *)
Inductive wait_answer : Type :=
| WaitEvents (evs : list epoll_event)
| WaitError (errno : Z).

Section epoll.
Context {K : Type} `{EPollKernel K} `{CurrentThread}.
Implicit Types (p : EPollPoller K) (cs : chans).

(** [EPollPoller::update]. *)
Definition update p (operation : EpollOp) (ch : Channel) (c : chan_ptr) : outcome (EPollPoller K) :=
  let event := mk_epoll_event (m_concerned_events ch) c in
  let '(k, r) := epoll_ctl (m_epoll p) operation (m_fd ch) event in
  (match operation with
   | EPOLL_CTL_DEL => Ok tt
   | _ => require FFatal (negb (r <? 0))
   end);;
  Ok (mkEPollPoller (m_owner p) k (m_events_list p) (m_map p)).

Definition epoll_update_channel p cs (c : chan_ptr) : outcome (EPollPoller K * chans) :=
  assert_in_thread (m_owner p);;
  ch ← of_option FNull (cs !! c);
  let index := m_idx ch in
  let fd := m_fd ch in
  if (index =? kNew) || (index =? kDeleted) then
    m ← (if index =? kNew then
           assert_ (bool_decide (m_map p !! fd = None));;
           Ok (<[fd := c]> (m_map p))
         else
           assert_ (bool_decide (m_map p !! fd <> None));;
           assert_ (bool_decide (m_map p !! fd = Some c));;
           Ok (m_map p));
    let p := mkEPollPoller (m_owner p) (m_epoll p) (m_events_list p) m in
    let ch := set_index kAdded ch in
    p ← update p EPOLL_CTL_ADD ch c;
    Ok (p, <[c := ch]> cs)
  else
    assert_ (bool_decide (m_map p !! fd <> None));;
    assert_ (bool_decide (m_map p !! fd = Some c));;
    assert_ (index =? kAdded);;
    if is_none_event ch then
      p ← update p EPOLL_CTL_DEL ch c;
      Ok (p, <[c := set_index kDeleted ch]> cs)
    else
      p ← update p EPOLL_CTL_MOD ch c;
      Ok (p, cs).

Definition epoll_remove_channel p cs (c : chan_ptr) : outcome (EPollPoller K * chans) :=
  assert_in_thread (m_owner p);;
  ch ← of_option FNull (cs !! c);
  let fd := m_fd ch in
  assert_ (bool_decide (m_map p !! fd <> None));;
  assert_ (bool_decide (m_map p !! fd = Some c));;
  assert_ (is_none_event ch);;
  let index := m_idx ch in
  assert_ ((index =? kAdded) || (index =? kDeleted));;
  let p := mkEPollPoller (m_owner p) (m_epoll p) (m_events_list p) (delete fd (m_map p)) in
  p ← (if index =? kAdded then update p EPOLL_CTL_DEL ch c else Ok p);
  Ok (p, <[c := set_index kNew ch]> cs).

(** The loop of [register_active_channels] over the events that arrived. *)
Fixpoint register_loop p cs (evs : list epoll_event) (active : list chan_ptr)
    : outcome (chans * list chan_ptr) :=
  match evs with
  | [] => Ok (cs, active)
  | e :: evs =>
      let c := ev_ptr e in
      ch ← of_option FNull (cs !! c);
      assert_ (bool_decide (m_map p !! m_fd ch <> None));;
      assert_ (bool_decide (m_map p !! m_fd ch = Some c));;
      register_loop p (<[c := set_revents (ev_events e) ch]> cs) evs (active ++ [c])
  end.

Definition epoll_register_active_channels p cs (n_events_arrived : Z)
    : outcome (chans * list chan_ptr) :=
  assert_ (n_events_arrived <=? len (m_events_list p));;
  register_loop p cs (take (Z.to_nat n_events_arrived) (m_events_list p)) [].

(** [EPollPoller::poll].  The kernel stored the events at the front of
    [m_events_list]; a full list is doubled for the next time. *)
Definition epoll_poll p cs (a : wait_answer) : outcome (EPollPoller K * chans * list chan_ptr) :=
  match a with
  | WaitEvents [] => Ok (p, cs, [])
  | WaitEvents evs =>
      let n := len evs in
      let p := mkEPollPoller (m_owner p) (m_epoll p) (overwrite (m_events_list p) 0 evs) (m_map p) in
      '(cs, active) ← epoll_register_active_channels p cs n;
      let size := len (m_events_list p) in
      let l := if n =? size
               then m_events_list p ++ replicate (Z.to_nat size) (mk_epoll_event 0 0)
               else m_events_list p in
      Ok (mkEPollPoller (m_owner p) (m_epoll p) l (m_map p), cs, active)
  | WaitError _ => Ok (p, cs, [])
  end.

#[global] Instance EPollPoller_ops : PollerOps (EPollPoller K) := {
  poll_answer := wait_answer;
  update_channel := epoll_update_channel;
  remove_channel := epoll_remove_channel;
  poll := epoll_poll;
  m_channel_map := m_map;
  owner_thread := m_owner
}.

(** * The invariant *)

(** The state of a registered channel: added and in the interest list with its
    events and its address, or deleted and wanting nothing. *)
Definition entry_ok p (fd : Z) (c : chan_ptr) (ch : Channel) : Prop :=
  m_fd ch = fd /\ valid_events (m_concerned_events ch) /\
  ((m_idx ch = kAdded /\ interest (m_epoll p) !! fd = Some (mk_epoll_event (m_concerned_events ch) c)) \/
   (m_idx ch = kDeleted /\ interest (m_epoll p) !! fd = None /\ m_concerned_events ch = kNoneEvent)).

Record epoll_inv p cs : Prop := {
  epoll_thread : m_owner p = cur_tid;
  epoll_entries : forall fd c, m_map p !! fd = Some c -> exists ch, cs !! c = Some ch /\ entry_ok p fd c ch;
  epoll_interest : forall fd e, interest (m_epoll p) !! fd = Some e -> is_Some (m_map p !! fd);
  epoll_list : 0 < len (m_events_list p)
}.

(** epoll_wait(2): at most [maxevents] events, for distinct members of the
    interest list, with the pointer stored there and a non-empty event mask. *)
Definition epoll_answer_ok p (a : wait_answer) : Prop :=
  match a with
  | WaitEvents evs =>
      len evs <= len (m_events_list p) /\ NoDup (ev_ptr <$> evs) /\
      Forall (fun e => ev_events e <> 0 /\
        exists fd e0, interest (m_epoll p) !! fd = Some e0 /\ ev_ptr e0 = ev_ptr e) evs
  | WaitError _ => True
  end.

Definition epoll_watched p (fd : Z) : option Z := ev_events <$> interest (m_epoll p) !! fd.

(** ** Every operation preserves it *)

Context {KL : EPollKernelLaws K}.

(** One registration changes, the rest of the poller and of the store stays. *)
Lemma epoll_inv_change p p' cs c ch ch' :
  epoll_inv p cs -> cs !! c = Some ch -> m_fd ch' = m_fd ch ->
  m_owner p' = m_owner p -> m_events_list p' = m_events_list p ->
  m_map p' = <[m_fd ch := c]> (m_map p) ->
  (forall fd, fd <> m_fd ch -> interest (m_epoll p') !! fd = interest (m_epoll p) !! fd) ->
  entry_ok p' (m_fd ch) c ch' ->
  epoll_inv p' (<[c := ch']> cs).
Proof.
  intros [T E I L] Hc Hfd Ho Hl Hm Hi He. constructor; [congruence| | |congruence].
  - intros fd c2. rewrite Hm. destruct (decide (fd = m_fd ch)) as [->|Hne].
    + rewrite lookup_insert_eq. intros [= <-]. exists ch'. by rewrite lookup_insert_eq.
    + rewrite lookup_insert_ne by done. intros M2. destruct (E _ _ M2) as (ch2 & L2 & O2).
      assert (c2 <> c) by (intros ->; simplify_eq; by destruct O2).
      exists ch2. rewrite lookup_insert_ne by done. split; [done|].
      unfold entry_ok in *. by rewrite Hi.
  - intros fd e. rewrite Hm. destruct (decide (fd = m_fd ch)) as [->|Hne].
    + rewrite lookup_insert_eq. eauto.
    + rewrite lookup_insert_ne, Hi by done. apply I.
Qed.

Lemma epoll_interest_fresh p cs fd : epoll_inv p cs -> m_map p !! fd = None -> interest (m_epoll p) !! fd = None.
Proof.
  intros [_ _ I _] Hm. destruct (interest (m_epoll p) !! fd) eqn:E; [|done].
  apply I in E. rewrite Hm in E. by destruct E.
Qed.

(** What a successful or fatal [update] leaves. *)
Lemma update_add p ch c :
  interest (m_epoll p) !! m_fd ch = None ->
  match update p EPOLL_CTL_ADD ch c with
  | Ok p' => m_owner p' = m_owner p /\ m_events_list p' = m_events_list p /\ m_map p' = m_map p /\
      interest (m_epoll p') = <[m_fd ch := mk_epoll_event (m_concerned_events ch) c]> (interest (m_epoll p))
  | Fail f => f = FFatal
  end.
Proof.
  intros Hi. unfold update. destruct (epoll_ctl _ _ _ _) as [k r] eqn:E.
  destruct (ctl_add _ _ _ _ _ Hi E) as [[-> Hk]|[-> Hk]]; simpl; [by split_and!|done].
Qed.

Lemma update_mod p ch c :
  is_Some (interest (m_epoll p) !! m_fd ch) ->
  match update p EPOLL_CTL_MOD ch c with
  | Ok p' => m_owner p' = m_owner p /\ m_events_list p' = m_events_list p /\ m_map p' = m_map p /\
      interest (m_epoll p') = <[m_fd ch := mk_epoll_event (m_concerned_events ch) c]> (interest (m_epoll p))
  | Fail f => f = FFatal
  end.
Proof.
  intros Hi. unfold update. destruct (epoll_ctl _ _ _ _) as [k r] eqn:E.
  destruct (ctl_mod _ _ _ _ _ Hi E) as [[-> Hk]|[-> Hk]]; simpl; [by split_and!|done].
Qed.

Lemma update_del p ch c :
  is_Some (interest (m_epoll p) !! m_fd ch) ->
  exists p', update p EPOLL_CTL_DEL ch c = Ok p' /\ m_owner p' = m_owner p /\
    m_events_list p' = m_events_list p /\ m_map p' = m_map p /\
    interest (m_epoll p') = delete (m_fd ch) (interest (m_epoll p)).
Proof.
  intros Hi. unfold update. destruct (epoll_ctl _ _ _ _) as [k r] eqn:E.
  destruct (ctl_del _ _ _ _ _ Hi E) as [-> Hk]. eexists. by split_and!.
Qed.

(** The result of [update_channel]: the registration [c] is in the map, only
    the index of its channel was written. *)
Definition updated p cs c ch ch' (r : outcome (EPollPoller K * chans)) : Prop :=
  match r with
  | Ok (p', cs') =>
      epoll_inv p' cs' /\ m_map p' = <[m_fd ch := c]> (m_map p) /\
      exists idx, cs' = <[c := set_index idx ch']> cs
  | Fail f => f = FFatal
  end.

Lemma updated_intro p cs c ch ch' p' idx :
  epoll_inv p cs -> cs !! c = Some ch -> m_fd ch' = m_fd ch -> valid_events (m_concerned_events ch') ->
  m_owner p' = m_owner p -> m_events_list p' = m_events_list p ->
  m_map p' = <[m_fd ch := c]> (m_map p) ->
  (forall fd, fd <> m_fd ch -> interest (m_epoll p') !! fd = interest (m_epoll p) !! fd) ->
  entry_ok p' (m_fd ch) c (set_index idx ch') ->
  updated p cs c ch ch' (Ok (p', <[c := set_index idx ch']> cs)).
Proof.
  intros. split_and!; [|done|by exists idx]. by eapply epoll_inv_change.
Qed.

(** The [EPOLL_CTL_ADD] branch. *)
Lemma epoll_add_branch p cs c ch ch' :
  epoll_inv p cs -> cs !! c = Some ch -> m_fd ch' = m_fd ch -> valid_events (m_concerned_events ch') ->
  interest (m_epoll p) !! m_fd ch = None ->
  updated p cs c ch ch'
    (p' ← update (mkEPollPoller (m_owner p) (m_epoll p) (m_events_list p) (<[m_fd ch := c]> (m_map p)))
            EPOLL_CTL_ADD (set_index kAdded ch') c;
     Ok (p', <[c := set_index kAdded ch']> cs)).
Proof.
  intros I Hc Hfd Hv Hi.
  pose proof (update_add (mkEPollPoller (m_owner p) (m_epoll p) (m_events_list p)
    (<[m_fd ch := c]> (m_map p))) (set_index kAdded ch') c) as U.
  simpl in U. rewrite Hfd in U. specialize (U Hi).
  destruct (update _ _ _ _) as [p'|f]; cbn [mbind outcome_bind]; [|done].
    destruct U as (O & L & M & Hi').
  apply (updated_intro p cs c ch ch' p' kAdded); try done.
  - intros fd Hne. rewrite Hi'. by rewrite lookup_insert_ne.
  - split_and!; [done|done|left]. by rewrite Hi', lookup_insert_eq.
Qed.

(** The branch of a channel that is in the interest list. *)
Lemma epoll_added_branch p cs c ch ch' :
  epoll_inv p cs -> cs !! c = Some ch -> m_fd ch' = m_fd ch -> valid_events (m_concerned_events ch') ->
  m_idx ch' = kAdded -> m_map p !! m_fd ch = Some c -> is_Some (interest (m_epoll p) !! m_fd ch) ->
  updated p cs c ch ch'
    (if is_none_event ch'
     then p' ← update p EPOLL_CTL_DEL ch' c; Ok (p', <[c := set_index kDeleted ch']> cs)
     else p' ← update p EPOLL_CTL_MOD ch' c; Ok (p', <[c := ch']> cs)).
Proof.
  intros I Hc Hfd Hv Hidx Hm Hi. assert (<[m_fd ch := c]> (m_map p) = m_map p) as Hmm by by apply insert_id.
  destruct (is_none_event ch') eqn:En.
  - destruct (update_del p ch' c) as (p' & -> & O & L & M & Hi'); [by rewrite Hfd|].
    apply (updated_intro p cs c ch ch' p' kDeleted); try done; [congruence| |].
    + intros fd Hne. rewrite Hi', Hfd. by rewrite lookup_delete_ne.
    + split_and!; [done|done|right]. rewrite Hi', Hfd, lookup_delete_eq. apply Z.eqb_eq in En. done.
  - pose proof (update_mod p ch' c) as U. rewrite Hfd in U. specialize (U Hi).
    destruct (update p EPOLL_CTL_MOD ch' c) as [p'|f]; cbn [mbind outcome_bind]; [|done].
    destruct U as (O & L & M & Hi').
    replace (<[c := ch']> cs) with (<[c := set_index kAdded ch']> cs)
      by (rewrite <- Hidx; by destruct ch').
    apply (updated_intro p cs c ch ch' p' kAdded); try done; [congruence| |].
    + intros fd Hne. rewrite Hi'. by rewrite lookup_insert_ne.
    + split_and!; [done|done|left]. by rewrite Hi', lookup_insert_eq.
Qed.

Lemma epoll_update_spec p cs c ch ch' :
  epoll_inv p cs -> cs !! c = Some ch ->
  m_fd ch' = m_fd ch -> m_idx ch' = m_idx ch -> valid_events (m_concerned_events ch') ->
  m_map p !! m_fd ch = Some c \/ (m_map p !! m_fd ch = None /\ m_idx ch = -1 /\ 0 <= m_fd ch) ->
  updated p cs c ch ch' (epoll_update_channel p (<[c := ch']> cs) c).
Proof.
  intros I Hc Hfd Hidx Hv Ha. unfold epoll_update_channel.
  rewrite (in_thread_ok (m_owner p)) by apply I. cbn [mbind outcome_bind].
  rewrite lookup_insert_eq. cbn [of_option mbind outcome_bind]. rewrite Hfd, Hidx, !insert_insert_eq.
  destruct Ha as [Hm|(Hm & Hn & Hpos)].
  - destruct (epoll_entries _ _ I _ _ Hm) as (ch0 & L0 & (_ & _ & Hs)).
    rewrite Hc in L0. injection L0 as <-.
    rewrite (bool_decide_true (m_map p !! m_fd ch <> None)), (bool_decide_true (m_map p !! m_fd ch = Some c))
      by congruence.
    destruct Hs as [[Hk Hi]|(Hk & Hi & _)]; rewrite Hk.
    + apply epoll_added_branch; try done; first [congruence | eauto].
    + cbn. pose proof (epoll_add_branch p cs c ch ch' I Hc Hfd Hv Hi) as A.
      by rewrite (insert_id (m_map p)) in A.
  - rewrite Hn, (bool_decide_true (m_map p !! m_fd ch = None)) by done. cbn.
    apply epoll_add_branch; try done. by eapply epoll_interest_fresh.
Qed.

Lemma epoll_remove_spec p cs c ch ch' :
  epoll_inv p cs -> cs !! c = Some ch -> m_map p !! m_fd ch = Some c ->
  m_fd ch' = m_fd ch -> m_idx ch' = m_idx ch -> m_concerned_events ch' = m_concerned_events ch ->
  m_concerned_events ch = kNoneEvent ->
  exists p', epoll_remove_channel p (<[c := ch']> cs) c = Ok (p', <[c := set_index kNew ch']> cs) /\
    epoll_inv p' (<[c := set_index kNew ch']> cs) /\ m_map p' = delete (m_fd ch) (m_map p).
Proof.
  intros I Hc Hm Hfd Hidx Hev Hnone. unfold epoll_remove_channel.
  rewrite (in_thread_ok (m_owner p)) by apply I. cbn [mbind outcome_bind].
  rewrite lookup_insert_eq. cbn [of_option mbind outcome_bind]. rewrite Hfd, Hidx.
  destruct (epoll_entries _ _ I _ _ Hm) as (ch0 & L0 & (_ & _ & Hs)).
  rewrite Hc in L0. injection L0 as <-.
  rewrite (bool_decide_true (m_map p !! m_fd ch <> None)), (bool_decide_true (m_map p !! m_fd ch = Some c))
    by congruence.
  unfold is_none_event. rewrite Hev, Hnone. cbn.
  set (p0 := mkEPollPoller (m_owner p) (m_epoll p) (m_events_list p) (delete (m_fd ch) (m_map p))).
  assert (exists p', (if m_idx ch =? kAdded then update p0 EPOLL_CTL_DEL ch' c else Ok p0) = Ok p' /\
    ((m_idx ch =? kAdded) || (m_idx ch =? kDeleted)) = true /\
    m_owner p' = m_owner p /\ m_events_list p' = m_events_list p /\ m_map p' = delete (m_fd ch) (m_map p) /\
    interest (m_epoll p') = delete (m_fd ch) (interest (m_epoll p))) as (p' & Hu & -> & O & L & M & Hi').
  { destruct Hs as [[-> Hi]|(-> & Hi & _)]; cbn [kAdded kDeleted Z.eqb].
    - destruct (update_del p0 ch' c) as (p' & -> & ? & ? & ? & ?); [rewrite Hfd; subst p0; eauto|].
      exists p'. rewrite Hfd in *. by split_and!.
    - exists p0. split_and!; try done. symmetry. by apply delete_id. }
  exists p'. rewrite Hu. cbn. rewrite insert_insert_eq. split_and!; [done| |done].
  destruct I as [T E I Ln]. constructor; [congruence| | |congruence].
  - intros fd c2. rewrite M. intros [Hne M2]%lookup_delete_Some. destruct (E _ _ M2) as (ch2 & L2 & O2).
    assert (c2 <> c) by (intros ->; simplify_eq; by destruct O2).
    exists ch2. rewrite lookup_insert_ne by done. split; [done|].
    unfold entry_ok in *. by rewrite Hi', lookup_delete_ne.
  - intros fd e. rewrite M, Hi'. intros [Hne He]%lookup_delete_Some. rewrite lookup_delete_ne by done. by eapply I.
Qed.

(** ** Polling *)

Definition event_pairs (evs : list epoll_event) : list (chan_ptr * Z) :=
  (fun e => (ev_ptr e, ev_events e)) <$> evs.

Lemma event_pairs_fst evs : (event_pairs evs).*1 = ev_ptr <$> evs.
Proof. unfold event_pairs. by rewrite <- list_fmap_compose. Qed.

Lemma register_loop_spec p cs evs active :
  (forall e, e ∈ evs -> exists ch, cs !! ev_ptr e = Some ch /\ m_map p !! m_fd ch = Some (ev_ptr e)) ->
  register_loop p cs evs active = Ok (mark cs (event_pairs evs), active ++ (ev_ptr <$> evs)).
Proof.
  revert cs active. induction evs as [|e evs IH]; intros cs active He; simpl; [by rewrite app_nil_r|].
  destruct (He e) as (ch & Hc & Hm); [apply elem_of_cons; by left|]. rewrite Hc. simpl.
  rewrite (bool_decide_true (m_map p !! m_fd ch <> None)), (bool_decide_true (m_map p !! m_fd ch = Some _))
    by congruence. simpl.
  assert (<[ev_ptr e := set_revents (ev_events e) ch]> cs
          = alter (set_revents (ev_events e)) (ev_ptr e) cs) as ->.
  { apply map_eq. intros c. destruct (decide (ev_ptr e = c)) as [<-|Hne].
    - by rewrite lookup_insert_eq, lookup_alter_eq, Hc.
    - by rewrite lookup_insert_ne, lookup_alter_ne. }
  rewrite IH; [by rewrite <- app_assoc|].
  intros e2 He2. destruct (He e2) as (ch2 & Hc2 & Hm2); [apply elem_of_cons; by right|].
  destruct (decide (ev_ptr e = ev_ptr e2)) as [->|Hne].
  - rewrite lookup_alter_eq, Hc2. simpl. eauto.
  - rewrite lookup_alter_ne by done. eauto.
Qed.

Lemma epoll_inv_mark p p' cs l :
  epoll_inv p cs -> m_owner p' = m_owner p -> m_epoll p' = m_epoll p -> m_map p' = m_map p ->
  0 < len (m_events_list p') -> epoll_inv p' (mark cs l).
Proof.
  intros [T E I L] Ho He Hm Hl. constructor; [congruence| |by rewrite He, Hm|done].
  intros fd c. rewrite Hm. intros M. destruct (E _ _ M) as (ch & Hc & O).
  destruct (mark_lookup cs l c) as [r Hr]. rewrite Hr, Hc. eexists. split; [done|].
  unfold entry_ok. by rewrite He.
Qed.

(** Reported events point to registered channels. *)
Lemma reported_registered p cs evs :
  epoll_inv p cs ->
  Forall (fun e => ev_events e <> 0 /\
    exists fd e0, interest (m_epoll p) !! fd = Some e0 /\ ev_ptr e0 = ev_ptr e) evs ->
  forall e, e ∈ evs -> ev_events e <> 0 /\
    exists ch, cs !! ev_ptr e = Some ch /\ m_map p !! m_fd ch = Some (ev_ptr e).
Proof.
  intros I Hall x Hx. rewrite Forall_forall in Hall. destruct (Hall x Hx) as (Hnz & fd & e0 & Hi & He0).
  split; [done|].
  destruct (epoll_interest _ _ I _ _ Hi) as [c Hm]. destruct (epoll_entries _ _ I _ _ Hm) as (ch & Hc & O).
  destruct O as (Hfd & _ & [[_ Hi2]|(_ & Hi2 & _)]); [|congruence].
  rewrite Hi in Hi2. injection Hi2 as ->. simpl in He0. subst c. exists ch. split; [done|]. by rewrite Hfd.
Qed.

Lemma epoll_poll_spec p cs a :
  epoll_inv p cs -> epoll_answer_ok p a ->
  let evs := match a with WaitEvents evs => evs | WaitError _ => [] end in
  exists p', epoll_poll p cs a = Ok (p', mark cs (event_pairs evs), ev_ptr <$> evs) /\
    epoll_inv p' (mark cs (event_pairs evs)) /\ m_map p' = m_map p.
Proof.
  intros I Ha. destruct a as [[|e evs]|err]; [exists p; by split_and!| |exists p; by split_and!].
  destruct Ha as (Hlen & _ & Hall). unfold epoll_poll.
  set (l := e :: evs) in *.
  set (p1 := mkEPollPoller (m_owner p) (m_epoll p) (overwrite (m_events_list p) 0 l) (m_map p)).
  assert (len (m_events_list p1) = len (m_events_list p)) as Hl1 by (apply len_overwrite; lia).
  unfold epoll_register_active_channels. rewrite assert_true by lia. cbn [mbind outcome_bind].
  assert (take (Z.to_nat (len l)) (m_events_list p1) = l) as ->.
  { subst p1. cbn [m_events_list]. unfold overwrite. change (Z.to_nat 0) with 0%nat.
    rewrite take_0. cbn [app]. apply take_app_length'. unfold len. lia. }
  rewrite register_loop_spec by (intros x Hx; by apply (reported_registered p cs l)).
  cbn [mbind outcome_bind app]. eexists. split_and!; [reflexivity| |done].
  eapply epoll_inv_mark; [exact I|done..|]. cbn [m_events_list]. pose proof (epoll_list _ _ I).
  case_match; [rewrite len_app|]; len_pose; lia.
Qed.

#[global] Instance EPollPoller_laws : PollerLaws (EPollPoller K).
Proof.
  refine {| poller_inv := epoll_inv; watched := epoll_watched; removable p ch := True;
            answer_ok := epoll_answer_ok |}.
  - intros p cs I. apply I.
  - intros p cs fd c I M. destruct (epoll_entries _ _ I _ _ M) as (ch & Hc & Hf & Hv & _). eauto.
  - intros p cs cs' [T E I L] Hcs. constructor; [done| |done|done].
    intros fd c M. destruct (E _ _ M) as (ch & Hc & O). exists ch. by rewrite (Hcs _ _ M).
  - intros p cs c ch ch' [T E I L] Hc Hf Hi He. constructor; [done| |done|done].
    intros fd c' M. destruct (E _ _ M) as (ch2 & Hc2 & O). destruct (decide (c = c')) as [->|Hne].
    + rewrite lookup_insert_eq. exists ch'. split; [done|]. assert (ch2 = ch) as -> by congruence.
      unfold entry_ok in *. by rewrite Hf, Hi, He.
    + rewrite lookup_insert_ne by done. by exists ch2.
  - intros p cs fd e I. unfold epoll_watched. intros (ev & Hi & ->)%fmap_Some.
    destruct (epoll_interest _ _ I _ _ Hi) as [c M]. destruct (epoll_entries _ _ I _ _ M) as (ch & Hc & O).
    exists c, ch. split_and!; [done..|]. destruct O as (_ & _ & [[_ Hi2]|(_ & Hi2 & _)]); [|congruence].
    rewrite Hi in Hi2. by injection Hi2 as ->.
  - intros p cs fd c ch I M Hc Hn. destruct (epoll_entries _ _ I _ _ M) as (ch2 & Hc2 & O).
    rewrite Hc in Hc2. injection Hc2 as <-. unfold epoll_watched.
    destruct O as (_ & _ & [[_ ->]|(_ & _ & ?)]); done.
  - intros p cs c ch ch' I Hc Hf Hi Hv Ha.
    pose proof (epoll_update_spec p cs c ch ch' I Hc Hf Hi Hv Ha) as U. unfold updated in U. simpl.
    destruct (epoll_update_channel _ _ _) as [[p' cs']|f]; [|done].
    destruct U as (I' & M' & idx & ->). split_and!; [done|done|by exists idx|].
    intros _ _. eexists. split; [apply lookup_insert_eq|done].
  - intros p cs c ch ch' I Hc Hm Hf Hi He Hn _.
    destruct (epoll_remove_spec p cs c ch ch' I Hc Hm Hf Hi He Hn) as (p' & Hr & I' & M').
    eexists _, _. split_and!; [exact Hr|done|done|]. intros c0. destruct (decide (c = c0)) as [<-|Hne].
    + by rewrite !lookup_insert_eq.
    + by rewrite !lookup_insert_ne.
  - intros p cs a I Ha. destruct (epoll_poll_spec p cs a I Ha) as (p' & Hp & I' & M').
    set (evs := match a with WaitEvents evs => evs | WaitError _ => [] end) in *.
    assert (NoDup (ev_ptr <$> evs) /\ Forall (fun e => ev_events e <> 0 /\
      exists fd e0, interest (m_epoll p) !! fd = Some e0 /\ ev_ptr e0 = ev_ptr e) evs) as [Hnd Hall].
    { destruct a; [by destruct Ha as (_ & ? & ?)|]. split; constructor. }
    eexists _, _, _. split_and!; [exact Hp|done|done|done|intros; apply mark_owner_part|].
    intros c Hc. pose proof (reported_registered _ _ _ I Hall) as Hreg.
    destruct (mark_marked cs (event_pairs evs) c) as (r & Hr & Hl).
    { by rewrite event_pairs_fst. }
    { apply Forall_fmap, Forall_forall. intros e He. by apply Hreg. }
    apply list_elem_of_fmap in Hc as (e & -> & He). destruct (Hreg e He) as (_ & ch & Hch & Hm).
    rewrite Hl, Hch. by exists (set_revents r ch).
Defined.

End epoll.

(** * A kernel that satisfies the laws *)

(** The interest list as a table of bounded size. *)
Abbreviation table_epoll := (gmap Z epoll_event).

#[global] Instance table_epoll_ops : EPollKernel table_epoll := {
  epoll_ctl k op fd e :=
    match op, k !! fd with
    | EPOLL_CTL_ADD, None => if decide (size k < 1000)%nat then (<[fd := e]> k, 0) else (k, -1)
    | EPOLL_CTL_MOD, Some _ => (<[fd := e]> k, 0)
    | EPOLL_CTL_DEL, Some _ => (delete fd k, 0)
    | _, _ => (k, -1)
    end;
  interest k := k
}.

#[global] Instance table_epoll_laws : EPollKernelLaws table_epoll.
Proof.
  split; unfold epoll_ctl, interest, table_epoll_ops.
  - intros k fd e k' r ->. case_decide; intros [= <- <-]; first [by left | by right].
  - intros k fd e k' r [e0 ->] [= <- <-]. by left.
  - intros k fd e k' r [e0 ->] [= <- <-]. done.
  - intros k fd e [e0 ->]. done.
  - intros k [] fd e ->; done.
Qed.

#[local] Instance loop_thread : CurrentThread := 1.

Lemma epoll_inv_new `{EPollKernelLaws K} (k : K) :
  interest k = ∅ -> epoll_inv (new_EPollPoller cur_tid k) ∅.
Proof.
  intros Hk. constructor; simpl; [done| | |done].
  - intros fd c. by rewrite lookup_empty.
  - intros fd e. by rewrite Hk, lookup_empty.
Qed.

(** A poller of the loop thread with one channel on descriptor 5. *)
Definition one_channel : EPollPoller table_epoll * chans :=
  (new_EPollPoller 1 (∅ : table_epoll), <[100 := new_Channel 1 5]> ∅).

Lemma one_channel_reachable :
  rtc poller_step (new_EPollPoller 1 (∅ : table_epoll), ∅) one_channel.
Proof. apply rtc_once. exact (step_new (new_EPollPoller 1 (∅ : table_epoll)) ∅ 100 5 eq_refl). Qed.

Lemma channel_interest_in_sync_witness :
  exists p' cs', wang_to_read one_channel.1 one_channel.2 100 = Ok (p', cs') /\
    poller_inv p' cs' /\ watched p' 5 = Some kReadEvent /\
    (forall e, watched p' 5 = Some e -> e = kReadEvent).
Proof.
  destruct (wang_to_read one_channel.1 one_channel.2 100) as [[p' cs']|f] eqn:E; [|by vm_compute in E].
  exists p', cs'. split; [reflexivity|].
  destruct (channel_interest_in_sync (fun e => Z.lor e kReadEvent) one_channel.1 p' one_channel.2 cs' 100
    (new_Channel 1 5)) as (I & W & U).
  - apply (poller_rtc_inv _ _ one_channel_reachable). by apply epoll_inv_new.
  - reflexivity.
  - split; [reflexivity | right; split_and!; done].
  - done.
  - exact E.
  - split_and!; [exact I | by apply W | exact U].
Defined.

(** The same channel, reading. *)
Definition reading_channel : EPollPoller table_epoll * chans :=
  match wang_to_read one_channel.1 one_channel.2 100 with Ok s => s | Fail _ => one_channel end.

Lemma reading_channel_reachable :
  rtc poller_step (new_EPollPoller 1 (∅ : table_epoll), ∅) (reading_channel.1, reading_channel.2).
Proof.
  eapply rtc_r; [exact one_channel_reachable|].
  apply (step_change (fun e => Z.lor e kReadEvent) one_channel.1 one_channel.2 100 (new_Channel 1 5)).
  - reflexivity.
  - split; [reflexivity | right; split_and!; done].
  - done.
  - vm_compute. reflexivity.
Qed.

Lemma poller_reachable_safe_witness : watched reading_channel.1 5 = Some kReadEvent.
Proof.
  destruct (poller_reachable_safe (new_EPollPoller 1 (∅ : table_epoll)) reading_channel.1 reading_channel.2)
    as (C & _); [by apply epoll_inv_new | exact reading_channel_reachable |].
  apply (C 5 100 (set_index kAdded (set_in_reactor true (set_concerned kReadEvent (new_Channel 1 5)))));
    [vm_compute; reflexivity .. | done].
Defined.
