(* ===== verification/PollPoller.v ===== *)
(** [flute/net/poller/PollPoller.{h,cc}]: the poller over poll(2).  A channel's
    index is its position in [pollfds_]; an ignored descriptor [fd] is stored
    as [-fd-1]; removal swaps with the last entry. *)

From S2P Require Import Prelude Channel Poller.

Record pollfd : Type := mkpollfd { pfd_fd : Z; pfd_events : Z; pfd_revents : Z }.

Record PollPoller : Type := mkPollPoller {
  m_powner : pid_t;
  pollfds_ : list pollfd;
  m_pmap : gmap Z chan_ptr
}.

Definition new_PollPoller (owner : pid_t) : PollPoller := mkPollPoller owner [] ∅.

(** What [::poll] did: the [revents] it stored, or [-1] with [errno]. *)
Inductive poll_result : Type :=
| PollEvents (revents : list Z)
| PollError (errno : Z).

Section poll.
Context `{CurrentThread}.
Implicit Types (p : PollPoller) (cs : chans).

(** [pollfds_[idx]], after [assert(0 <= idx && idx < pollfds_.size())]. *)
Definition pollfd_at p (idx : Z) : outcome pollfd :=
  assert_ ((0 <=? idx) && (idx <? len (pollfds_ p)));;
  of_option FBounds (pollfds_ p !! Z.to_nat idx).

Definition poll_update_channel p cs (c : chan_ptr) : outcome (PollPoller * chans) :=
  assert_in_thread (m_powner p);;
  ch ← of_option FNull (cs !! c);
  let fd := m_fd ch in
  if m_idx ch <? 0 then
    assert_ (bool_decide (m_pmap p !! fd = None));;
    let pfd := mkpollfd fd (s16 (m_concerned_events ch)) 0 in
    let fds := pollfds_ p ++ [pfd] in
    let idx := len fds - 1 in
    Ok (mkPollPoller (m_powner p) fds (<[fd := c]> (m_pmap p)), <[c := set_index idx ch]> cs)
  else
    assert_ (bool_decide (m_pmap p !! fd <> None));;
    assert_ (bool_decide (m_pmap p !! fd = Some c));;
    let idx := m_idx ch in
    pfd ← pollfd_at p idx;
    assert_ ((pfd_fd pfd =? fd) || (pfd_fd pfd =? - fd - 1));;
    let pfd := mkpollfd (if is_none_event ch then - fd - 1 else fd) (s16 (m_concerned_events ch)) 0 in
    Ok (mkPollPoller (m_powner p) (<[Z.to_nat idx := pfd]> (pollfds_ p)) (m_pmap p), cs).

Definition poll_remove_channel p cs (c : chan_ptr) : outcome (PollPoller * chans) :=
  assert_in_thread (m_powner p);;
  ch ← of_option FNull (cs !! c);
  let fd := m_fd ch in
  assert_ (bool_decide (m_pmap p !! fd <> None));;
  assert_ (bool_decide (m_pmap p !! fd = Some c));;
  assert_ (is_none_event ch);;
  let idx := m_idx ch in
  pfd ← pollfd_at p idx;
  assert_ ((pfd_fd pfd =? - fd - 1) && (pfd_events pfd =? m_concerned_events ch));;
  let map := delete fd (m_pmap p) in
  if idx =? len (pollfds_ p) - 1 then
    Ok (mkPollPoller (m_powner p) (removelast (pollfds_ p)) map, cs)
  else
    back ← of_option FBounds (last (pollfds_ p));
    let fds := removelast (<[Z.to_nat idx := back]> (pollfds_ p)) in
    let channelAtEnd := if pfd_fd back <? 0 then - pfd_fd back - 1 else pfd_fd back in
    end_ptr ← of_option FNull (map !! channelAtEnd);
    end_ch ← of_option FNull (cs !! end_ptr);
    Ok (mkPollPoller (m_powner p) fds map, <[end_ptr := set_index idx end_ch]> cs).

(** The loop of [register_active_channels]. *)
Fixpoint poll_register_loop p cs (fds : list pollfd) (numEvents : Z) (active : list chan_ptr)
    : outcome (chans * list chan_ptr) :=
  match fds with
  | [] => Ok (cs, active)
  | pfd :: fds =>
      if 0 <? numEvents then
        if 0 <? pfd_revents pfd then
          c ← of_option FAssert (m_pmap p !! pfd_fd pfd);
          ch ← of_option FNull (cs !! c);
          assert_ (m_fd ch =? pfd_fd pfd);;
          poll_register_loop p (<[c := set_revents (pfd_revents pfd) ch]> cs) fds (numEvents - 1)
            (active ++ [c])
        else poll_register_loop p cs fds numEvents active
      else Ok (cs, active)
  end.

(** The number that [::poll] returns: the entries with events. *)
Definition num_events (revents : list Z) : Z := len (filter (fun r => r <> 0) revents).

Definition store_revents (fds : list pollfd) (revents : list Z) : list pollfd :=
  zip_with (fun pfd r => mkpollfd (pfd_fd pfd) (pfd_events pfd) r) fds revents.

Definition poll_poll p cs (a : poll_result) : outcome (PollPoller * chans * list chan_ptr) :=
  match a with
  | PollEvents revents =>
      let p := mkPollPoller (m_powner p) (store_revents (pollfds_ p) revents) (m_pmap p) in
      let numEvents := num_events revents in
      if 0 <? numEvents then
        '(cs, active) ← poll_register_loop p cs (pollfds_ p) numEvents [];
        Ok (p, cs, active)
      else Ok (p, cs, [])
  | PollError _ => Ok (p, cs, [])
  end.

#[global] Instance PollPoller_ops : PollerOps PollPoller := {
  poll_answer := poll_result;
  update_channel := poll_update_channel;
  remove_channel := poll_remove_channel;
  poll := poll_poll;
  m_channel_map := m_pmap;
  owner_thread := m_powner
}.

(** * The invariant *)

(** The descriptor an entry stands for. *)
Definition entry_fd (pfd : pollfd) : Z := if pfd_fd pfd <? 0 then - pfd_fd pfd - 1 else pfd_fd pfd.

(** The entry of a registered channel. *)
Definition slot_ok p (fd : Z) (ch : Channel) : Prop :=
  m_fd ch = fd /\ 0 <= fd /\ valid_events (m_concerned_events ch) /\ 0 <= m_idx ch /\
  exists pfd, pollfds_ p !! Z.to_nat (m_idx ch) = Some pfd /\
    pfd_events pfd = m_concerned_events ch /\
    (pfd_fd pfd = fd \/ (pfd_fd pfd = - fd - 1 /\ m_concerned_events ch = kNoneEvent)).

Record poll_inv p cs : Prop := {
  poll_thread : m_powner p = cur_tid;
  poll_slots : forall fd c, m_pmap p !! fd = Some c -> exists ch, cs !! c = Some ch /\ slot_ok p fd ch;
  poll_owners : forall i pfd, pollfds_ p !! i = Some pfd ->
    exists c ch, m_pmap p !! entry_fd pfd = Some c /\ cs !! c = Some ch /\ m_idx ch = Z.of_nat i
}.

Definition poll_watched p (fd : Z) : option Z :=
  if 0 <=? fd then (fun x => pfd_events x.2) <$> list_find (fun pfd => pfd_fd pfd = fd) (pollfds_ p)
  else None.

Definition poll_removable p (ch : Channel) : Prop :=
  exists pfd, pollfds_ p !! Z.to_nat (m_idx ch) = Some pfd /\ pfd_fd pfd = - m_fd ch - 1.

(** poll(2): one [revents] for each entry, zero for a negative descriptor,
    and a set of poll flags, hence not negative. *)
Definition poll_answer_ok p (a : poll_result) : Prop :=
  match a with
  | PollEvents revents =>
      Forall2 (fun pfd r => 0 <= r /\ (pfd_fd pfd < 0 -> r = 0)) (pollfds_ p) revents
  | PollError _ => True
  end.

(** ** Entries and channels correspond *)

Lemma slot_entry p fd ch pfd :
  slot_ok p fd ch -> pollfds_ p !! Z.to_nat (m_idx ch) = Some pfd -> entry_fd pfd = fd.
Proof.
  intros (_ & Hp & _ & _ & pfd2 & L2 & _ & Hfd) L. simplify_eq. unfold entry_fd.
  destruct Hfd as [->|[-> _]]; case_match; lia.
Qed.

Lemma slot_unique p cs fd c ch fd2 c2 ch2 :
  poll_inv p cs -> m_pmap p !! fd = Some c -> cs !! c = Some ch ->
  m_pmap p !! fd2 = Some c2 -> cs !! c2 = Some ch2 -> m_idx ch = m_idx ch2 -> c = c2 /\ fd = fd2.
Proof.
  intros [_ S _] M L M2 L2 Hi. destruct (S _ _ M) as (x & Lx & Sx), (S _ _ M2) as (y & Ly & Sy). simplify_eq.
  pose proof Sx as Sx0. destruct Sx0 as (_ & _ & _ & _ & pfd & Lp & _).
  pose proof (slot_entry _ _ _ _ Sx Lp). rewrite Hi in Lp. pose proof (slot_entry _ _ _ _ Sy Lp).
  split; congruence.
Qed.

(** A registered channel is registered under its own descriptor only. *)
Lemma slot_fd p cs fd c ch :
  poll_inv p cs -> m_pmap p !! fd = Some c -> cs !! c = Some ch -> m_fd ch = fd.
Proof. intros [_ S _] M L. destruct (S _ _ M) as (x & Lx & Sx & _). by simplify_eq. Qed.

Lemma s16_valid e : valid_events e -> s16 e = e.
Proof. intros []. apply sw_small; [lia|]. unfold in_sw. lia. Qed.

(** ** Update *)

Definition poll_updated p cs c ch ch' (r : outcome (PollPoller * chans)) : Prop :=
  exists p' cs', r = Ok (p', cs') /\ poll_inv p' cs' /\ m_pmap p' = <[m_fd ch := c]> (m_pmap p) /\
    (exists idx, cs' = <[c := set_index idx ch']> cs) /\
    (m_pmap p !! m_fd ch = Some c -> m_concerned_events ch' = kNoneEvent ->
     exists ch2, cs' !! c = Some ch2 /\ poll_removable p' ch2).

Lemma poll_update_new p cs c ch ch' :
  poll_inv p cs -> cs !! c = Some ch -> m_fd ch' = m_fd ch -> m_idx ch' = m_idx ch ->
  valid_events (m_concerned_events ch') ->
  m_pmap p !! m_fd ch = None -> m_idx ch = -1 -> 0 <= m_fd ch ->
  poll_updated p cs c ch ch' (poll_update_channel p (<[c := ch']> cs) c).
Proof.
  intros I Hc Hfd Hidx Hv Hm Hn Hpos. unfold poll_update_channel.
  rewrite in_thread_ok by apply I. cbn [mbind outcome_bind].
  rewrite lookup_insert_eq. cbn [of_option mbind outcome_bind]. rewrite Hfd, Hidx, Hn. simpl.
  rewrite bool_decide_true by done. simpl. rewrite s16_valid, insert_insert_eq by done.
  eexists _, _. split_and!; [done| |done|by eexists|congruence].
  assert (forall fd2 c2, m_pmap p !! fd2 = Some c2 -> c2 <> c /\ fd2 <> m_fd ch) as Hother.
  { intros fd2 c2 M2. split; [|congruence]. intros ->. pose proof (slot_fd _ _ _ _ _ I M2 Hc). congruence. }
  pose proof I as [T S O]. constructor; simpl; [done| |].
  - intros fd2 c2. destruct (decide (fd2 = m_fd ch)) as [->|Hne].
    + rewrite lookup_insert_eq. intros [= <-]. eexists. rewrite lookup_insert_eq. split; [done|].
      split_and!; simpl; [done|done|done|len_lia|].
      eexists. rewrite len_app, lookup_app_r; rewrite len_cons, len_nil; unfold len; [|lia].
      replace (_ - _)%nat with 0%nat by lia. split_and!; simpl; [done|done|by left].
    + rewrite lookup_insert_ne by done. intros M2. destruct (Hother _ _ M2) as [Hc2 _].
      rewrite lookup_insert_ne by done. destruct (S _ _ M2) as (ch2 & L2 & A & B & C & D & pfd & Lp & E).
      exists ch2. split; [done|]. split_and!; [done..|]. exists pfd.
      split; [by apply lookup_app_l_Some|done].
  - intros i pfd. rewrite lookup_app_Some. intros [Li|[Hi Li]].
    + destruct (O _ _ Li) as (c2 & ch2 & M2 & L2 & Hi). destruct (Hother _ _ M2).
      exists c2, ch2. by rewrite !lookup_insert_ne.
    + apply list_lookup_singleton_Some in Li as [Hi0 <-]. exists c. eexists.
      unfold entry_fd. simpl. rewrite (proj2 (Z.ltb_ge _ _)) by lia. rewrite !lookup_insert_eq.
      split_and!; [done|done|]. simpl. rewrite len_app. unfold len. simpl. lia.
Qed.

Lemma pollfd_at_slot p fd ch :
  slot_ok p fd ch -> exists pfd, pollfd_at p (m_idx ch) = Ok pfd /\
    pollfds_ p !! Z.to_nat (m_idx ch) = Some pfd /\ pfd_events pfd = m_concerned_events ch /\
    (pfd_fd pfd = fd \/ (pfd_fd pfd = - fd - 1 /\ m_concerned_events ch = kNoneEvent)).
Proof.
  intros (_ & _ & _ & Hi & pfd & L & E & Hf). exists pfd. unfold pollfd_at.
  pose proof (lookup_lt_Some _ _ _ L). rewrite assert_true by (unfold len; lia). simpl.
  by rewrite L.
Qed.

Lemma poll_update_existing p cs c ch ch' :
  poll_inv p cs -> cs !! c = Some ch -> m_fd ch' = m_fd ch -> m_idx ch' = m_idx ch ->
  valid_events (m_concerned_events ch') -> m_pmap p !! m_fd ch = Some c ->
  poll_updated p cs c ch ch' (poll_update_channel p (<[c := ch']> cs) c).
Proof.
  intros I Hc Hfd Hidx Hv Hm. unfold poll_update_channel.
  rewrite in_thread_ok by apply I. cbn [mbind outcome_bind].
  rewrite lookup_insert_eq. cbn [of_option mbind outcome_bind]. rewrite Hfd, Hidx.
  destruct (poll_slots _ _ I _ _ Hm) as (x & Lx & Sx). rewrite Hc in Lx. injection Lx as <-.
  pose proof Sx as (_ & Hpos & _ & Hi & _). destruct (pollfd_at_slot _ _ _ Sx) as (pfd & Hat & Lp & _ & Hpf).
  pose proof (lookup_lt_Some _ _ _ Lp) as Hlt.
  rewrite (proj2 (Z.ltb_ge _ _)), !bool_decide_true by (first [lia | congruence]). simpl.
  rewrite Hat. simpl. rewrite assert_true by lia. simpl. rewrite s16_valid by done.
  set (pfd' := mkpollfd _ _ _).
  assert (entry_fd pfd' = m_fd ch) as He.
  { unfold entry_fd, pfd'. simpl. destruct (is_none_event ch'); case_match; lia. }
  assert (set_index (m_idx ch') ch' = ch') as Hid by by destruct ch'.
  eexists _, _. split_and!; [done| |by rewrite insert_id|exists (m_idx ch'); by rewrite Hid|].
  2:{ intros _ Hnone. exists ch'. rewrite lookup_insert_eq. split; [done|]. exists pfd'. cbn [pollfds_]. rewrite Hidx, Hfd.
      rewrite list_lookup_insert_eq by done. split; [done|]. unfold pfd', is_none_event. by rewrite Hnone. }
  pose proof I as [T S O]. constructor; simpl; [done| |].
  - intros fd2 c2 M2. destruct (decide (c = c2)) as [<-|Hne].
    + rewrite lookup_insert_eq. pose proof (slot_fd _ _ _ _ _ I M2 Hc). subst fd2. eexists. split; [done|].
      split_and!; [done|done|done|lia|]. exists pfd'. simpl. rewrite Hidx, list_lookup_insert_eq by done.
      split_and!; [done|done|]. unfold pfd', is_none_event. simpl. destruct (Z.eqb_spec (m_concerned_events ch') kNoneEvent); tauto.
    + rewrite lookup_insert_ne by done. destruct (S _ _ M2) as (ch2 & L2 & A & B & C & D & pfd2 & Lp2 & E).
      exists ch2. split; [done|]. split_and!; [done..|]. exists pfd2. simpl.
      rewrite list_lookup_insert_ne; [done|]. intros Heq.
      destruct (slot_unique p cs _ c ch fd2 c2 ch2 I Hm Hc M2 L2); [lia|done].
  - intros i pfd2 Li. apply list_lookup_insert_Some in Li as [(<- & <- & _)|[Hne Li]].
    + exists c, ch'. rewrite He, lookup_insert_eq. split_and!; [done..|lia].
    + destruct (O _ _ Li) as (c2 & ch2 & M2 & L2 & Hi2). exists c2, ch2.
      rewrite lookup_insert_ne; [done|]. intros <-. simplify_eq. lia.
Qed.

(** ** Removal *)

Lemma removelast_lookup {A} (l : list A) i :
  (S i < length l)%nat -> removelast l !! i = l !! i.
Proof. intros. rewrite removelast_firstn_len. by rewrite lookup_take_lt by lia. Qed.

Lemma removelast_lookup_Some {A} (l : list A) i x :
  removelast l !! i = Some x -> l !! i = Some x /\ (S i < length l)%nat.
Proof.
  rewrite removelast_firstn_len. intros H1. apply lookup_take_Some in H1 as [H1 H2]. split; [done|lia].
Qed.

(** The channels that stay registered, with the positions they have after one
    channel has been taken out; at most the last entry has moved. *)
Lemma poll_remove_inv p cs cs' c ch fds :
  poll_inv p cs -> cs !! c = Some ch -> m_pmap p !! m_fd ch = Some c ->
  (forall fd2 c2 ch2, fd2 <> m_fd ch -> m_pmap p !! fd2 = Some c2 -> cs !! c2 = Some ch2 ->
     exists i, 0 <= i /\ cs' !! c2 = Some (set_index i ch2) /\
       fds !! Z.to_nat i = pollfds_ p !! Z.to_nat (m_idx ch2)) ->
  (forall i pfd, fds !! i = Some pfd -> exists c2 ch2, entry_fd pfd <> m_fd ch /\
     m_pmap p !! entry_fd pfd = Some c2 /\ cs' !! c2 = Some ch2 /\ m_idx ch2 = Z.of_nat i) ->
  poll_inv (mkPollPoller (m_powner p) fds (delete (m_fd ch) (m_pmap p))) cs'.
Proof.
  intros [T S O] Hc Hm H1 H2. constructor; simpl; [done| |].
  - intros fd2 c2 [Hne M2]%lookup_delete_Some. destruct (S _ _ M2) as (ch2 & L2 & A & B & C & D & pfd & Lp & E).
    destruct (H1 fd2 c2 ch2) as (i & Hi & L' & Lf); [congruence|done|done|].
    eexists. split; [done|]. split_and!; simpl; [done..|]. exists pfd. by rewrite Lf.
  - intros i pfd Li. destruct (H2 i pfd Li) as (c2 & ch2 & Hne & M2 & L2 & Hi).
    exists c2, ch2. by rewrite lookup_delete_ne.
Qed.

(** Entries other than that of [c] belong to other channels. *)
Lemma other_owner p cs c ch i pfd :
  poll_inv p cs -> cs !! c = Some ch -> m_pmap p !! m_fd ch = Some c ->
  pollfds_ p !! i = Some pfd -> Z.of_nat i <> m_idx ch ->
  exists c2 ch2, c2 <> c /\ entry_fd pfd <> m_fd ch /\ m_pmap p !! entry_fd pfd = Some c2 /\
    cs !! c2 = Some ch2 /\ m_idx ch2 = Z.of_nat i.
Proof.
  intros I Hc Hm Li Hi. destruct (poll_owners _ _ I _ _ Li) as (c2 & ch2 & M2 & L2 & Hi2).
  exists c2, ch2. split_and!; [|congruence|done..]. intros ->. congruence.
Qed.

Lemma other_slot p cs c ch fd2 c2 ch2 :
  poll_inv p cs -> cs !! c = Some ch -> m_pmap p !! m_fd ch = Some c ->
  fd2 <> m_fd ch -> m_pmap p !! fd2 = Some c2 -> cs !! c2 = Some ch2 ->
  c2 <> c /\ m_idx ch2 <> m_idx ch /\ 0 <= m_idx ch2 < len (pollfds_ p).
Proof.
  intros I Hc Hm Hne M2 L2. split_and!.
  - intros ->. pose proof (slot_fd _ _ _ _ _ I M2 Hc). congruence.
  - intros Hi. destruct (slot_unique p cs _ _ _ _ _ _ I M2 L2 Hm Hc Hi). done.
  - destruct (poll_slots _ _ I _ _ M2) as (x & Lx & _ & _ & _ & D & pfd & Lp & _). simplify_eq. done.
  - destruct (poll_slots _ _ I _ _ M2) as (x & Lx & _ & _ & _ & D & pfd & Lp & _). simplify_eq.
    apply lookup_lt_Some in Lp. unfold len. lia.
Qed.

Lemma set_index_id ch : set_index (m_idx ch) ch = ch.
Proof. by destruct ch. Qed.

(** The removed entry is the last one. *)
Lemma poll_remove_last p cs c ch ch' :
  poll_inv p cs -> cs !! c = Some ch -> m_pmap p !! m_fd ch = Some c ->
  m_idx ch = len (pollfds_ p) - 1 ->
  poll_inv (mkPollPoller (m_powner p) (removelast (pollfds_ p)) (delete (m_fd ch) (m_pmap p)))
    (<[c := ch']> cs).
Proof.
  intros I Hc Hm Hlast. apply (poll_remove_inv p cs _ c ch); [done..| |].
  - intros fd2 c2 ch2 Hne M2 L2. destruct (other_slot _ _ _ _ _ _ _ I Hc Hm Hne M2 L2) as (Hc2 & Hi & Hr).
    exists (m_idx ch2). rewrite lookup_insert_ne, set_index_id by done. split_and!; [lia|done|].
    apply removelast_lookup. unfold len in *. lia.
  - intros i pfd [Li Hlt]%removelast_lookup_Some.
    destruct (other_owner p cs c ch i pfd I Hc Hm Li) as (c2 & ch2 & Hc2 & Hne & M2 & L2 & Hi).
    { unfold len in *. lia. }
    exists c2, ch2. by rewrite lookup_insert_ne.
Qed.

(** The last entry moves into the place of the removed one. *)
Lemma poll_remove_swap p cs c ch ch' back ce che :
  poll_inv p cs -> cs !! c = Some ch -> m_pmap p !! m_fd ch = Some c ->
  0 <= m_idx ch < len (pollfds_ p) - 1 -> last (pollfds_ p) = Some back ->
  ce <> c -> m_pmap p !! entry_fd back = Some ce -> cs !! ce = Some che ->
  m_idx che = len (pollfds_ p) - 1 ->
  poll_inv (mkPollPoller (m_powner p) (removelast (<[Z.to_nat (m_idx ch) := back]> (pollfds_ p)))
      (delete (m_fd ch) (m_pmap p)))
    (<[ce := set_index (m_idx ch) che]> (<[c := ch']> cs)).
Proof.
  intros I Hc Hm Hidx Hb Hce Me Le He. rewrite last_lookup in Hb.
  assert (length (<[Z.to_nat (m_idx ch) := back]> (pollfds_ p)) = length (pollfds_ p)) as Hlen
    by apply length_insert.
  apply (poll_remove_inv p cs _ c ch); [done..| |].
  - intros fd2 c2 ch2 Hne M2 L2. destruct (other_slot _ _ _ _ _ _ _ I Hc Hm Hne M2 L2) as (Hc2 & Hi & Hr).
    destruct (decide (ce = c2)) as [<-|Hcc].
    + simplify_eq. exists (m_idx ch). rewrite lookup_insert_eq. split_and!; [lia|done|].
      rewrite removelast_lookup by (unfold len in *; lia).
      rewrite list_lookup_insert_eq by (unfold len in *; lia). rewrite <- Hb. f_equal. unfold len in *. lia.
    + exists (m_idx ch2). rewrite !lookup_insert_ne, set_index_id by done. split_and!; [lia|done|].
      assert (m_idx ch2 <> m_idx che).
      { intros Hx. destruct (slot_unique p cs _ _ _ _ _ _ I M2 L2 Me Le Hx). done. }
      rewrite removelast_lookup by (unfold len in *; lia). apply list_lookup_insert_ne. lia.
  - intros i pfd [Li Hlt]%removelast_lookup_Some.
    apply list_lookup_insert_Some in Li as [(<- & <- & _)|[Hne Li]].
    + exists ce. eexists. rewrite lookup_insert_eq. split_and!; [|done|done|simpl; lia].
      intros Hx. rewrite Hx in Me. congruence.
    + destruct (other_owner p cs c ch i pfd I Hc Hm Li) as (c2 & ch2 & Hc2 & Hn & M2 & L2 & Hi); [lia|].
      exists c2, ch2. split_and!; [done|done| |done]. rewrite lookup_insert_ne, lookup_insert_ne; [done|done|].
      intros <-. simplify_eq. unfold len in *. lia.
Qed.

Lemma poll_remove_spec p cs c ch ch' :
  poll_inv p cs -> cs !! c = Some ch -> m_pmap p !! m_fd ch = Some c ->
  m_fd ch' = m_fd ch -> m_idx ch' = m_idx ch -> m_concerned_events ch' = m_concerned_events ch ->
  m_concerned_events ch = kNoneEvent -> poll_removable p ch ->
  exists p' cs', poll_remove_channel p (<[c := ch']> cs) c = Ok (p', cs') /\
    poll_inv p' cs' /\ m_pmap p' = delete (m_fd ch) (m_pmap p) /\
    (forall c0, owner_part <$> cs' !! c0 = owner_part <$> (<[c := ch']> cs) !! c0).
Proof.
  intros I Hc Hm Hfd Hidx Hev Hnone (pfd0 & Lp0 & Hneg). unfold poll_remove_channel.
  rewrite in_thread_ok by apply I. cbn [mbind outcome_bind].
  rewrite lookup_insert_eq. cbn [of_option mbind outcome_bind]. rewrite Hfd, Hidx.
  destruct (poll_slots _ _ I _ _ Hm) as (x & Lx & Sx). rewrite Hc in Lx. injection Lx as <-.
  pose proof Sx as (_ & _ & _ & Hi & _). destruct (pollfd_at_slot _ _ _ Sx) as (pfd & Hat & Lp & Hpe & _).
  rewrite Lp0 in Lp. injection Lp as <-. pose proof (lookup_lt_Some _ _ _ Lp0) as Hlt.
  rewrite !bool_decide_true by congruence. unfold is_none_event. rewrite Hev, Hnone. cbn.
  rewrite Hat. cbn. rewrite Hneg, Hpe, Hnone, Z.eqb_refl. cbn.
  destruct (Z.eqb_spec (m_idx ch) (len (pollfds_ p) - 1)) as [Hl|Hl].
  - eexists _, _. split_and!; [done| |done|done]. by apply poll_remove_last.
  - destruct (last (pollfds_ p)) as [back|] eqn:Hb.
    2:{ apply last_None in Hb. rewrite Hb in Hlt. simpl in Hlt. lia. }
    cbn. pose proof Hb as Hb2. rewrite last_lookup in Hb2.
    destruct (other_owner p cs c ch _ _ I Hc Hm Hb2) as (ce & che & Hce & Hne & Me & Le & Hie).
    { unfold len in *. lia. }
    fold (entry_fd back). rewrite lookup_delete_ne, Me by done. cbn. rewrite lookup_insert_ne, Le by done. cbn.
    eexists _, _. split_and!; [done| |done|].
    + eapply poll_remove_swap; try done; unfold len in *; lia.
    + intros c0. destruct (decide (ce = c0)) as [<-|]; [|by rewrite lookup_insert_ne].
      rewrite lookup_insert_eq, lookup_insert_ne, Le by done. done.
Qed.

(** ** Polling *)

(** The channel and the events of an entry that has events. *)
Definition entry_pair p (pfd : pollfd) : option (chan_ptr * Z) :=
  if 0 <? pfd_revents pfd then (fun c => (c, pfd_revents pfd)) <$> m_pmap p !! pfd_fd pfd else None.

Lemma poll_register_loop_spec p cs fds active n :
  (forall pfd, pfd ∈ fds -> 0 < pfd_revents pfd -> exists c ch, m_pmap p !! pfd_fd pfd = Some c /\
     cs !! c = Some ch /\ m_fd ch = pfd_fd pfd) ->
  n = len (filter (fun pfd => 0 < pfd_revents pfd) fds) ->
  poll_register_loop p cs fds n active
  = Ok (mark cs (omap (entry_pair p) fds), active ++ (omap (entry_pair p) fds).*1).
Proof.
  revert cs active n. induction fds as [|pfd fds IH]; intros cs active n Hreg ->; [by rewrite app_nil_r|].
  cbn [poll_register_loop omap list_omap]. rewrite filter_cons.
  destruct (Z.ltb_spec 0 (pfd_revents pfd)) as [Hr|Hr].
  - rewrite decide_True by done. rewrite (proj2 (Z.ltb_lt 0 _)) by len_lia.
    destruct (Hreg pfd) as (c & ch & M & L & Hf); [apply elem_of_cons; by left|done|].
    assert (entry_pair p pfd = Some (c, pfd_revents pfd)) as ->.
    { unfold entry_pair. by rewrite (proj2 (Z.ltb_lt _ _)), M. }
    rewrite M. cbn [of_option mbind outcome_bind]. rewrite L. cbn [of_option mbind outcome_bind].
    rewrite Hf, Z.eqb_refl. cbn [assert_ mbind outcome_bind].
    assert (<[c := set_revents (pfd_revents pfd) ch]> cs = alter (set_revents (pfd_revents pfd)) c cs) as ->.
    { apply map_eq. intros c0. destruct (decide (c = c0)) as [<-|Hne].
      - by rewrite lookup_insert_eq, lookup_alter_eq, L.
      - by rewrite lookup_insert_ne, lookup_alter_ne. }
    rewrite IH; [by rewrite <- app_assoc| |len_lia].
    intros pfd2 H2 Hr2. destruct (Hreg pfd2) as (c2 & ch2 & M2 & L2 & Hf2); [apply elem_of_cons; by right|done|].
    exists c2. destruct (decide (c = c2)) as [<-|Hne].
    + rewrite lookup_alter_eq, L2. simpl. eauto.
    + rewrite lookup_alter_ne by done. eauto.
  - assert (entry_pair p pfd = None) as ->.
    { unfold entry_pair. by rewrite (proj2 (Z.ltb_ge _ _)). }
    rewrite decide_False by lia. case_match eqn:En.
    + apply IH; [|done]. intros pfd2 H2. apply Hreg. apply elem_of_cons. by right.
    + apply Z.ltb_ge in En. assert (filter (fun pfd => 0 < pfd_revents pfd) fds = []) as Hnil.
      { apply len_0_nil. len_lia. }
      assert (omap (entry_pair p) fds = []) as ->; [|by rewrite app_nil_r].
      clear -Hnil. induction fds as [|x fds IH]; [done|]. rewrite filter_cons in Hnil.
      case_decide; [done|]. cbn. unfold entry_pair at 1. rewrite (proj2 (Z.ltb_ge _ _)) by lia. by apply IH.
Qed.

Lemma store_revents_lookup fds revents i pfd :
  store_revents fds revents !! i = Some pfd ->
  exists pfd0 r, fds !! i = Some pfd0 /\ revents !! i = Some r /\
    pfd = mkpollfd (pfd_fd pfd0) (pfd_events pfd0) r.
Proof.
  unfold store_revents. rewrite lookup_zip_with. destruct (fds !! i) as [x|]; [|done]. simpl.
  destruct (revents !! i) as [r|]; [|done]. intros [= <-]. eauto.
Qed.

(** Storing events leaves the correspondence as it is. *)
Lemma poll_inv_store p cs revents l :
  poll_inv p cs -> length (pollfds_ p) = length revents ->
  poll_inv (mkPollPoller (m_powner p) (store_revents (pollfds_ p) revents) (m_pmap p)) (mark cs l).
Proof.
  intros [T S O] Hlen. constructor; simpl; [done| |].
  - intros fd c M. destruct (S _ _ M) as (ch & L & A & B & C & D & pfd & Lp & E).
    destruct (mark_lookup cs l c) as [r Hr]. rewrite Hr, L. eexists. split; [done|].
    split_and!; [done..|]. destruct (lookup_lt_is_Some_2 revents (Z.to_nat (m_idx ch))) as [rv Hrv].
    { rewrite <- Hlen. by eapply lookup_lt_Some. }
    exists (mkpollfd (pfd_fd pfd) (pfd_events pfd) rv). split; [|done].
    simpl. unfold store_revents. by rewrite lookup_zip_with, Lp; simpl; rewrite Hrv.
  - intros i pfd Li. apply store_revents_lookup in Li as (pfd0 & r0 & L0 & Hr0 & ->).
    destruct (O _ _ L0) as (c & ch & M & L & Hi). exists c.
    destruct (mark_lookup cs l c) as [r Hr]. rewrite Hr, L. eauto.
Qed.

Lemma num_events_count fds revents :
  Forall2 (fun pfd r => 0 <= r /\ (pfd_fd pfd < 0 -> r = 0)) fds revents ->
  num_events revents = len (filter (fun pfd => 0 < pfd_revents pfd) (store_revents fds revents)).
Proof.
  unfold num_events, store_revents. induction 1 as [|pfd r fds revents [Hr _] _ IH]; [done|].
  simpl. rewrite !filter_cons. simpl.
  destruct (decide (r <> 0)), (decide (0 < r)); try lia; autorewrite with len; by rewrite IH.
Qed.

Lemma NoDup_omap_fst {A B C} (f : A -> option (B * C)) l :
  (forall i j x y b, l !! i = Some x -> l !! j = Some y -> fst <$> f x = Some b -> fst <$> f y = Some b -> i = j) ->
  NoDup (omap f l).*1.
Proof.
  induction l as [|x l IH]; intros Hinj; [constructor|]. cbn.
  assert (NoDup (omap f l).*1) as Hnd.
  { apply IH. intros i j y z b Hi Hj Hy Hz. pose proof (Hinj (S i) (S j) y z b Hi Hj Hy Hz). lia. }
  destruct (f x) as [[b c]|] eqn:E; [|done]. cbn. constructor; [|done].
  intros Hin. apply list_elem_of_fmap in Hin as ([b' c'] & -> & Hin). apply list_elem_of_omap in Hin as (y & Hy & Fy).
  apply list_elem_of_lookup in Hy as [j Hj].
  pose proof (Hinj 0%nat (S j) x y b' eq_refl Hj) as Hx. rewrite E, Fy in Hx. by specialize (Hx eq_refl eq_refl).
Qed.

(** An entry with events belongs to a registered channel with its descriptor. *)
Lemma stored_registered p cs revents i pfd :
  poll_inv p cs -> poll_answer_ok p (PollEvents revents) ->
  store_revents (pollfds_ p) revents !! i = Some pfd -> 0 < pfd_revents pfd ->
  exists c ch, m_pmap p !! pfd_fd pfd = Some c /\ cs !! c = Some ch /\ m_fd ch = pfd_fd pfd /\
    m_idx ch = Z.of_nat i.
Proof.
  intros I Ha Li Hr. apply store_revents_lookup in Li as (pfd0 & r & L0 & Lr & ->). simpl in *.
  destruct (Forall2_lookup_lr _ _ _ _ _ _ Ha L0 Lr) as [_ Hneg].
  destruct (poll_owners _ _ I _ _ L0) as (c & ch & M & L & Hi).
  unfold entry_fd in M. destruct (Z.ltb_spec (pfd_fd pfd0) 0) as [Hlt|Hge]; [specialize (Hneg Hlt); lia|].
  exists c, ch. split_and!; [done|done|by eapply slot_fd|done].
Qed.

Lemma poll_poll_spec p cs a :
  poll_inv p cs -> poll_answer_ok p a ->
  exists p' cs' active, poll_poll p cs a = Ok (p', cs', active) /\
    poll_inv p' cs' /\ m_pmap p' = m_pmap p /\ NoDup active /\
    (forall c, owner_part <$> cs' !! c = owner_part <$> cs !! c) /\
    (forall c, c ∈ active -> exists ch, cs' !! c = Some ch /\ m_pmap p !! m_fd ch = Some c /\
       m_recv_events ch <> 0).
Proof.
  intros I Ha. destruct a as [revents|err].
  2:{ exists p, cs, []. split_and!; try done; [constructor|]. intros c Hc. by apply elem_of_nil in Hc. }
  pose proof (Forall2_length _ _ _ Ha) as Hlen. unfold poll_poll. rewrite (num_events_count _ _ Ha).
  set (fds := store_revents (pollfds_ p) revents). set (p1 := mkPollPoller _ fds _).
  assert (forall i pfd, fds !! i = Some pfd -> 0 < pfd_revents pfd -> exists c ch,
    m_pmap p1 !! pfd_fd pfd = Some c /\ cs !! c = Some ch /\ m_fd ch = pfd_fd pfd /\ m_idx ch = Z.of_nat i)
    as Hreg by (intros i pfd Hi Hr; exact (stored_registered p cs revents i pfd I Ha Hi Hr)).
  destruct (Z.ltb_spec 0 (len (filter (fun pfd => 0 < pfd_revents pfd) fds))) as [_|_].
  2:{ exists p1, cs, []. split_and!; try done; [|constructor|].
      - by apply (poll_inv_store p cs revents []).
      - intros c Hc. by apply elem_of_nil in Hc. }
  rewrite (poll_register_loop_spec p1 cs fds []).
  2:{ intros pfd Hin Hr. apply list_elem_of_lookup in Hin as [i Li].
      destruct (Hreg i pfd Li Hr) as (c & ch & ? & ? & ? & _). eauto. }
  2:{ done. }
  cbn [mbind outcome_bind app]. eexists _, _, _. split_and!; [reflexivity|by apply poll_inv_store|done| | |].
  - apply NoDup_omap_fst. intros i j x y b Hi Hj. unfold entry_pair.
    destruct (Z.ltb_spec 0 (pfd_revents x)) as [Hx|]; [|done].
    destruct (Z.ltb_spec 0 (pfd_revents y)) as [Hy|]; [|done].
    destruct (Hreg _ _ Hi Hx) as (c & ch & M & L & _ & I1), (Hreg _ _ Hj Hy) as (c2 & ch2 & M2 & L2 & _ & I2).
    rewrite M, M2. simpl. intros [= ->] [= ->]. simplify_eq. lia.
  - intros c. apply mark_owner_part.
  - intros c Hc. destruct (mark_marked cs (omap (entry_pair p1) fds) c Hc) as (r & Hr & Hl).
    { apply Forall_forall. intros [c0 r0] Hin. apply list_elem_of_omap in Hin as (pfd & _ & E). revert E.
      unfold entry_pair. destruct (Z.ltb_spec 0 (pfd_revents pfd)); [|done].
      intros (? & _ & [= -> ->])%fmap_Some. simpl. lia. }
    apply list_elem_of_fmap in Hc as ([c0 r0] & -> & Hin). apply list_elem_of_omap in Hin as (pfd & Hin & E).
    apply list_elem_of_lookup in Hin as [i Li]. revert E. unfold entry_pair.
    destruct (Z.ltb_spec 0 (pfd_revents pfd)) as [Hp|]; [|done]. intros (c1 & M & [= -> ->])%fmap_Some.
    destruct (Hreg i pfd Li Hp) as (c & ch & M1 & L & Hf & _). rewrite M1 in M. injection M as ->. cbn [fst] in *.
    exists (set_revents r ch). change (mark cs (omap (entry_pair p1) fds) !! c1 = Some (set_revents r ch) /\
      m_pmap p !! m_fd ch = Some c1 /\ r <> 0). by rewrite Hl, L, Hf.
Qed.

#[global] Instance PollPoller_laws : PollerLaws PollPoller.
Proof.
  refine {| poller_inv := poll_inv; watched := poll_watched; removable := poll_removable;
            answer_ok := poll_answer_ok |}.
  - intros p cs I. apply I.
  - intros p cs fd c I M. destruct (poll_slots _ _ I _ _ M) as (ch & Hc & Hf & _ & Hv & _). eauto.
  - intros p cs cs' [T S O] Hcs. constructor; [done| |].
    + intros fd c M. destruct (S _ _ M) as (ch & Hc & Sl). exists ch. by rewrite (Hcs _ _ M).
    + intros i pfd Li. destruct (O _ _ Li) as (c & ch & M & L & Hi). exists c, ch. by rewrite (Hcs _ _ M).
  - intros p cs c ch ch' [T S O] Hc Hf Hi He. constructor; [done| |].
    + intros fd c' M. destruct (S _ _ M) as (ch2 & Hc2 & Sl). destruct (decide (c = c')) as [->|Hne].
      * rewrite lookup_insert_eq. exists ch'. split; [done|]. assert (ch2 = ch) as -> by congruence.
        unfold slot_ok in *. by rewrite Hf, Hi, He.
      * rewrite lookup_insert_ne by done. by exists ch2.
    + intros i pfd Li. destruct (O _ _ Li) as (c' & ch2 & M & L & Hi2). destruct (decide (c = c')) as [->|Hne].
      * exists c', ch'. rewrite lookup_insert_eq. split_and!; [done..|]. congruence.
      * exists c', ch2. by rewrite lookup_insert_ne.
  - intros p cs fd e I. unfold poll_watched. destruct (Z.leb_spec 0 fd) as [Hp|]; [|done].
    intros ([i pfd] & (Li & Hfd & _)%list_find_Some & ->)%fmap_Some. simpl.
    destruct (poll_owners _ _ I _ _ Li) as (c & ch & M & L & Hi). unfold entry_fd in M.
    rewrite Hfd, (proj2 (Z.ltb_ge _ _)) in M by done. exists c, ch. split_and!; [done..|].
    destruct (poll_slots _ _ I _ _ M) as (x & Lx & _ & _ & _ & _ & pfd2 & Lp & He & _).
    assert (x = ch) as -> by congruence. rewrite Hi, Nat2Z.id in Lp. congruence.
  - intros p cs fd c ch I M L Hn. change (m_pmap p !! fd = Some c) in M.
    destruct (poll_slots _ _ I _ _ M) as (x & Lx & _ & Hp & _ & _ & pfd & Lp & He & Hf).
    assert (x = ch) as -> by congruence. rewrite <- He. destruct Hf as [Hf|[_ ?]]; [|done]. unfold poll_watched. rewrite (proj2 (Z.leb_le _ _)) by done.
    destruct (list_find (fun pfd => pfd_fd pfd = fd) (pollfds_ p)) as [[j pfd2]|] eqn:E.
    + apply list_find_Some in E as (Lj & Hfj & _). simpl. f_equal.
      destruct (poll_owners _ _ I _ _ Lj) as (c2 & ch2 & M2 & L2 & Hj). unfold entry_fd in M2.
      rewrite Hfj, (proj2 (Z.ltb_ge _ _)) in M2 by done.
      assert (c2 = c) as -> by congruence. assert (ch2 = ch) as -> by congruence.
      rewrite Hj, Nat2Z.id in Lp. congruence.
    + apply list_find_None in E. rewrite Forall_forall in E. exfalso. apply (E pfd); [|done].
      by eapply list_elem_of_lookup_2.
  - intros p cs c ch ch' I Hc Hf Hi Hv Ha.
    assert (poll_updated p cs c ch ch' (poll_update_channel p (<[c := ch']> cs) c))
      as (p' & cs' & E & I' & M' & C' & R').
    { destruct Ha as [Ha|(Ha & Hn & Hp)]; [by apply poll_update_existing | by apply poll_update_new]. }
    simpl. rewrite E. by split_and!.
  - intros p cs c ch ch'. simpl. apply poll_remove_spec.
  - apply poll_poll_spec.
Defined.

Lemma lookup_appended {A} (l : list A) x : (l ++ [x]) !! Z.to_nat (len (l ++ [x]) - 1) = Some x.
Proof.
  rewrite lookup_app_r, len_app by (rewrite ?len_app; unfold len; simpl; lia).
  replace (_ - _)%nat with 0%nat by (unfold len; simpl; lia). done.
Qed.

(** With this poller, a channel that was never enabled cannot be taken
    out.  [end_all] on it appends an entry with the descriptor itself, and
    [remove_channel] asserts the negated form that only a second update writes:
    the process aborts.  [Acceptor::~Acceptor] makes these two calls, so a
    server that is destroyed before it listens aborts. *)
Theorem never_enabled_remove_aborts (p p' : PollPoller) (cs cs' : chans) (c : chan_ptr) (ch : Channel)
    (h : bool) (cur : option chan_ptr) (act : list chan_ptr) :
  poll_inv p cs -> cs !! c = Some ch -> m_reactor ch = m_powner p -> m_idx ch = -1 -> 0 <= m_fd ch ->
  m_pmap p !! m_fd ch = None -> end_all p cs c = Ok (p', cs') ->
  remove_self_from_reactor h cur act p' cs' c = Fail FAssert.
Proof.
  intros I Hc Hr Hn Hp Hm E. unfold end_all, change_events, update_self_in_reactor in E. rewrite Hc in E.
  cbn in E. rewrite lookup_insert_eq in E. cbn in E. rewrite Hr, Z.eqb_refl in E. cbn in E.
  rewrite in_thread_ok in E by apply I. cbn in E. rewrite insert_insert_eq in E.
  unfold poll_update_channel in E. rewrite in_thread_ok in E by apply I. cbn in E.
  rewrite lookup_insert_eq in E. cbn in E. rewrite Hn in E. cbn in E.
  rewrite bool_decide_true in E by done. cbn in E. rewrite insert_insert_eq in E. injection E as <- <-.
  unfold remove_self_from_reactor. rewrite lookup_insert_eq. cbn. rewrite Hr, Z.eqb_refl. cbn.
  rewrite in_thread_ok by apply I. cbn. destruct (may_remove h cur act c); [|done]. cbn.
  unfold poll_remove_channel. cbn. rewrite in_thread_ok by apply I. cbn.
  rewrite insert_insert_eq, lookup_insert_eq. cbn. rewrite !lookup_insert_eq, !bool_decide_true by done. cbn.
  unfold pollfd_at. cbn. rewrite assert_true by len_lia. cbn.
  rewrite lookup_appended. cbn.
  by rewrite (proj2 (Z.eqb_neq (m_fd ch) (- m_fd ch - 1))) by lia.
Qed.

End poll.

#[local] Instance poll_loop_thread : CurrentThread := 1.

Lemma never_enabled_remove_aborts_witness :
  exists p' cs', end_all (new_PollPoller 1) (<[100 := new_Channel 1 5]> ∅) 100 = Ok (p', cs') /\
    remove_self_from_reactor false None [] p' cs' 100 = Fail FAssert.
Proof.
  do 2 eexists. split; [vm_compute; reflexivity|].
  eapply (never_enabled_remove_aborts (new_PollPoller 1) _ (<[100 := new_Channel 1 5]> ∅) _ 100
    (new_Channel 1 5)); try done.
Defined.
