(* ===== verification/Format.v ===== *)
(** Decimal formatting, as the conversions of printf(3) that the sources use:
    [%d] (and [%zd], PRId64), [%4d], [%02d], [%06d]; and the truncation of
    snprintf(3). *)

From S2P Require Import Prelude.

Definition digit (d : Z) : byte := byte_of_Z (48 + d).

(** The digits of a non-negative number, most significant first. *)
Fixpoint digits (fuel : nat) (n : Z) : bytes :=
  match fuel with
  | O => []
  | S fuel' => if n <? 10 then [digit n] else digits fuel' (n / 10) ++ [digit (n mod 10)]
  end.

(** [n < 2^(log2 n + 1)], so that many divisions by ten reach zero. *)
Definition dec_abs (n : Z) : bytes := digits (S (Z.to_nat (Z.log2 n))) n.

(** [%d]. *)
Definition dec (z : Z) : bytes := if z <? 0 then "-"%char :: dec_abs (- z) else dec_abs z.

Definition pad (c : byte) (w : Z) (s : bytes) : bytes := replicate (Z.to_nat (w - len s)) c ++ s.

(** [%<w>d]. *)
Definition dec_w (w z : Z) : bytes := pad SP w (dec z).

(** [%0<w>d]: the sign precedes the zeros. *)
Definition dec_0 (w z : Z) : bytes :=
  if z <? 0 then "-"%char :: pad "0"%char (w - 1) (dec_abs (- z)) else pad "0"%char w (dec_abs z).

(** What [snprintf(buf, size, ...)] leaves in [buf], up to the terminating NUL,
    when the formatted text is [s]. *)
Definition snprintf (size : Z) (s : bytes) : bytes := take (Z.to_nat (size - 1)) s.

(** The number that a string of digits denotes. *)
Definition dec_value (l : bytes) : Z := foldl (fun a c => a * 10 + (Z_of_byte c - 48)) 0 l.

(** * Lemmas *)

Lemma digit_value d : 0 <= d < 10 -> Z_of_byte (digit d) - 48 = d.
Proof. intros. unfold digit. rewrite Z_of_byte_of_Z, Z.mod_small by lia. lia. Qed.

Lemma dec_value_snoc l c : dec_value (l ++ [c]) = dec_value l * 10 + (Z_of_byte c - 48).
Proof. unfold dec_value. by rewrite foldl_app. Qed.

Lemma digits_value fuel n : 0 <= n < 2 ^ Z.of_nat fuel -> dec_value (digits fuel n) = n.
Proof.
  revert n. induction fuel as [|fuel IH]; intros n Hn; simpl; [change (2 ^ Z.of_nat 0) with 1 in Hn; change (0 = n); lia|].
  destruct (Z.ltb_spec n 10) as [Hlt|Hge].
  - unfold dec_value. simpl. rewrite digit_value by lia. lia.
  - rewrite Nat2Z.inj_succ, Z.pow_succ_r in Hn by lia.
    assert (0 <= n / 10 < 2 ^ Z.of_nat fuel).
    { split; [apply Z.div_pos; lia|]. apply Z.div_lt_upper_bound; lia. }
    pose proof (Z.mod_pos_bound n 10). pose proof (Z.div_mod n 10).
    rewrite dec_value_snoc, IH, digit_value by lia. lia.
Qed.

(** Reading back what [%d] printed. *)
Lemma dec_abs_value n : 0 <= n -> dec_value (dec_abs n) = n.
Proof.
  intros Hn. apply digits_value. rewrite Nat2Z.inj_succ, Z2Nat.id by apply Z.log2_nonneg.
  destruct (Z.eq_dec n 0) as [->|]; [done|]. pose proof (Z.log2_spec n). lia.
Qed.

Definition is_digit (c : byte) : Prop := 48 <= Z_of_byte c <= 57.

Lemma digit_is_digit d : 0 <= d < 10 -> is_digit (digit d).
Proof. intros. unfold is_digit. pose proof (digit_value d). lia. Qed.

Lemma digits_are_digits fuel n : 0 <= n -> Forall is_digit (digits fuel n).
Proof.
  revert n. induction fuel as [|fuel IH]; intros n Hn; simpl; [constructor|].
  destruct (Z.ltb_spec n 10).
  - constructor; [apply digit_is_digit; lia | constructor].
  - apply Forall_app. split; [apply IH, Z.div_pos; lia|].
    constructor; [apply digit_is_digit, Z.mod_pos_bound; lia | constructor].
Qed.

Lemma dec_abs_digits n : 0 <= n -> Forall is_digit (dec_abs n).
Proof. apply digits_are_digits. Qed.

(** At most [k] digits below [10^k]. *)
Lemma len_digits fuel n k : 0 < k -> 0 <= n < 10 ^ k -> len (digits fuel n) <= k.
Proof.
  revert n k. induction fuel as [|fuel IH]; intros n k Hk Hn; simpl; [len_lia|].
  destruct (Z.ltb_spec n 10); [len_lia|]. rewrite len_app, len_cons, len_nil.
  destruct (Z.eq_dec k 1) as [->|]; [lia|].
  assert (10 ^ k = 10 * 10 ^ (k - 1)) as E by (rewrite <- Z.pow_succ_r by lia; f_equal; lia).
  enough (len (digits fuel (n / 10)) <= k - 1) by lia. apply IH; [lia|].
  split; [apply Z.div_pos; lia|]. apply Z.div_lt_upper_bound; lia.
Qed.

Lemma len_dec_abs n k : 0 < k -> 0 <= n < 10 ^ k -> len (dec_abs n) <= k.
Proof. apply len_digits. Qed.

Lemma len_pad c w s : len s <= w -> len (pad c w s) = w.
Proof. intros. unfold pad. rewrite len_app, len_replicate. lia. Qed.

Lemma dec_value_zeros n l : dec_value (replicate n "0"%char ++ l) = dec_value l.
Proof.
  induction n as [|n IH]; [done|]. rewrite <- IH. unfold dec_value. simpl. done.
Qed.

(** Zero padding does not change the value. *)
Lemma dec_0_value w n : 0 <= n -> dec_value (dec_0 w n) = n.
Proof.
  intros. unfold dec_0. rewrite (proj2 (Z.ltb_ge _ _)) by done. unfold pad.
  rewrite dec_value_zeros. by apply dec_abs_value.
Qed.

Lemma snprintf_fits size s : len s < size -> snprintf size s = s.
Proof. intros. unfold snprintf. apply take_ge. unfold len in *. lia. Qed.
