(* ===== verification/Timestamp.v ===== *)
(** [flute/common/Timestamp.{h,cc}]: microseconds since the epoch, an
    [int64_t].  A [double] number of seconds is an IEEE binary64 value of the
    standard library's [SpecFloat], multiplied with its rounding and truncated
    by the cast. *)

From Stdlib Require Import Floats.SpecFloat.
From S2P Require Import Prelude Format.

Abbreviation Timestamp := Z.
Abbreviation double := spec_float.

Definition kMicroSecondsPerSecond : Z := 1000 * 1000.

(** [int64_t] arithmetic: signed overflow is undefined. *)
Definition checked64 (z : Z) : outcome Z :=
  require FOverflow ((- 2 ^ 63 <=? z) && (z <? 2 ^ 63));; Ok z.

Definition invalid : Timestamp := 0.
Definition valid (t : Timestamp) : bool := 0 <? t.

Definition from_unix_time (t microseconds : Z) : outcome Timestamp :=
  p ← checked64 (t * kMicroSecondsPerSecond); checked64 (p + microseconds).

(** [Timestamp::now()] on what [gettimeofday] returned. *)
Definition now (tv_sec tv_usec : Z) : outcome Timestamp :=
  p ← checked64 (tv_sec * kMicroSecondsPerSecond); checked64 (p + tv_usec).

(** [swap], [operator<] and [operator==]. *)
Definition timestamp_swap (t another : Timestamp) : Timestamp * Timestamp := (another, t).
Definition timestamp_ltb (lhs rhs : Timestamp) : bool := lhs <? rhs.
Definition timestamp_eqb (lhs rhs : Timestamp) : bool := lhs =? rhs.

Definition seconds_since_epoch (t : Timestamp) : Z := Z.quot t kMicroSecondsPerSecond.

(** * Doubles *)

Definition double_of_Z (z : Z) : double := binary_normalize 53 1024 z 0 false.
Definition double_mul : double -> double -> double := SFmul 53 1024.
Definition double_div : double -> double -> double := SFdiv 53 1024.
Definition double_gt (x y : double) : bool := SFltb y x.
Definition zero_point_zero : double := S754_zero false.

(** [static_cast<int64_t>(double)]: truncation; undefined when the value does
    not fit. *)
Definition int64_of_double (x : double) : outcome Z :=
  match x with
  | S754_zero _ => Ok 0
  | S754_finite s m e =>
      let mag := if 0 <=? e then Z.pos m * 2 ^ e else Z.pos m / 2 ^ (- e) in
      checked64 (if s then - mag else mag)
  | _ => Fail FOverflow
  end.

(** The number of microseconds that [add_second] adds. *)
Definition delta_of_seconds (seconds : double) : outcome Z :=
  int64_of_double (double_mul seconds (double_of_Z kMicroSecondsPerSecond)).

Definition add_second (t : Timestamp) (seconds : double) : outcome Timestamp :=
  delta ← delta_of_seconds seconds; checked64 (t + delta).

Definition second_difference (high low : Timestamp) : outcome double :=
  diff ← checked64 (high - low);
  Ok (double_div (double_of_Z diff) (double_of_Z kMicroSecondsPerSecond)).

(** * Strings *)

Definition to_string (t : Timestamp) : bytes :=
  snprintf (32 - 1)
    (dec (Z.quot t kMicroSecondsPerSecond) ++ "."%char :: dec_0 6 (Z.rem t kMicroSecondsPerSecond)).

(** Broken-down time: [struct tm] with [tm_year + 1900] and [tm_mon + 1]. *)
Record civil_time : Type := mk_civil {
  c_year : Z; c_month : Z; c_day : Z; c_hour : Z; c_minute : Z; c_second : Z
}.

(** [to_formatted_string], with [gmtime_r] of the C library as argument. *)
Definition to_formatted_string (gmtime_r : Z -> civil_time) (t : Timestamp) (show_micro_seconds : bool)
    : bytes :=
  let tm := gmtime_r (Z.quot t kMicroSecondsPerSecond) in
  let date := dec_w 4 (c_year tm) ++ dec_0 2 (c_month tm) ++ dec_0 2 (c_day tm) ++ SP ::
    dec_0 2 (c_hour tm) ++ ":"%char :: dec_0 2 (c_minute tm) ++ ":"%char :: dec_0 2 (c_second tm) in
  if show_micro_seconds
  then snprintf 64 (date ++ "."%char :: dec_0 6 (s32 (Z.rem t kMicroSecondsPerSecond)))
  else snprintf 64 date.

(** * Lemmas *)

Lemma checked64_ok z : in_sw 64 z -> checked64 z = Ok z.
Proof. unfold in_sw, checked64. intros. by rewrite require_true by lia. Qed.

Lemma checked64_inv z r : checked64 z = Ok r -> r = z /\ in_sw 64 z.
Proof. unfold checked64, in_sw. intros H. outcome_inv. subst. lia. Qed.

Lemma len_to_string_digits t :
  0 <= t < 2 ^ 63 -> len (dec_abs (t / kMicroSecondsPerSecond)) <= 13 /\
    len (dec_0 6 (t mod kMicroSecondsPerSecond)) = 6.
Proof.
  unfold kMicroSecondsPerSecond. intros Ht. split.
  - apply len_dec_abs; [lia|]. split; [apply Z.div_pos; lia|]. apply Z.div_lt_upper_bound; lia.
  - pose proof (Z.mod_pos_bound t (1000 * 1000)). unfold dec_0. rewrite (proj2 (Z.ltb_ge _ _)) by lia.
    apply len_pad. apply len_dec_abs; lia.
Qed.

(** The text of a timestamp determines it.  For every time from the epoch
    on, [to_string] prints the seconds, a dot and exactly six digits of
    microseconds, untruncated by its 32-byte buffer, and reading the two numbers
    back gives the timestamp. *)
Theorem to_string_roundtrip (t : Timestamp) :
  0 <= t < 2 ^ 63 ->
  exists s us, to_string t = s ++ "."%char :: us /\ Forall is_digit s /\ len us = 6 /\
    dec_value s * kMicroSecondsPerSecond + dec_value us = t.
Proof.
  intros Ht. unfold to_string. rewrite Z.quot_div_nonneg, Z.rem_mod_nonneg by (unfold kMicroSecondsPerSecond; lia).
  destruct (len_to_string_digits t Ht) as [Hs Hu].
  assert (0 <= t / kMicroSecondsPerSecond) as Hq by (apply Z.div_pos; unfold kMicroSecondsPerSecond; lia).
  pose proof (Z.mod_pos_bound t kMicroSecondsPerSecond ltac:(done)) as Hm.
  unfold dec. rewrite (proj2 (Z.ltb_ge _ _)) by done.
  rewrite snprintf_fits by (rewrite len_app, len_cons, Hu; lia).
  do 2 eexists. split_and!; [reflexivity|by apply dec_abs_digits|exact Hu|].
  rewrite dec_abs_value, dec_0_value by lia.
  pose proof (Z.div_mod t kMicroSecondsPerSecond ltac:(done)). lia.
Qed.

Lemma to_string_roundtrip_witness :
  exists s us, to_string 1500000000000042 = s ++ "."%char :: us /\ Forall is_digit s /\ len us = 6 /\
    dec_value s * kMicroSecondsPerSecond + dec_value us = 1500000000000042.
Proof. apply to_string_roundtrip. lia. Defined.
