(* ===== verification/TimerQueue.v ===== *)
(** [flute/net/Timer.{h,cc}], [TimerId.h] and [TimerQueue.{h,cc}]: the timers
    of a reactor, kept in two ordered sets, one by expiration and one by
    address, over one timerfd.

    [Timer*] is an address in a heap of live timers.  A timer callback is user
    code; what it does to the queue is a sequence of [add_timer] and [remove]
    calls made in the loop thread, which [body] gives for the callback and the
    queue it sees.  The allocator is a parameter ([malloc]). *)

From Stdlib Require Import Floats.SpecFloat.
From S2P Require Import Prelude OrdContainers Format Timestamp Channel Poller.

Abbreviation timer_ptr := Z.

Record Timer : Type := mkTimer {
  m_callback : closure;
  m_time_expire : Timestamp;
  m_interval : double;
  m_is_repeated : bool;
  m_global_timer_id : Z
}.

Definition restart (now : Timestamp) (t : Timer) : outcome Timer :=
  e ← (if m_is_repeated t then add_second now (m_interval t) else Ok invalid);
  Ok (mkTimer (m_callback t) e (m_interval t) (m_is_repeated t) (m_global_timer_id t)).

Record TimerId : Type := mkTimerId { m_timer_ptr : timer_ptr; sequence_ : Z }.

Abbreviation Entry := (Timestamp * timer_ptr)%type.
Abbreviation ActiveTimer := (timer_ptr * Z)%type.

Record TimerQueue : Type := mkTimerQueue {
  m_thread : pid_t;                      (* of m_reactor *)
  m_timers_set : list Entry;
  m_active_timers_set : list ActiveTimer;
  m_is_calling_expired_timers : bool;
  m_canceling_timers : list ActiveTimer;
  m_heap : gmap timer_ptr Timer;         (* the timers that are alive *)
  g_global_timer_id : Z;                 (* Timer::g_global_timer_id *)
  m_timer_fd : option Timestamp          (* the time the timerfd is armed for *)
}.

Definition new_TimerQueue (tid : pid_t) : TimerQueue := mkTimerQueue tid [] [] false [] ∅ 0 None.

(** The instructions of user code on a queue, with what the clock shows when
    [how_long_from_now] reads it. *)
Inductive timer_op : Type :=
| OpAdd (cb : closure) (time : Timestamp) (interval : double) (clock : Timestamp)
| OpRemove (id : TimerId).

Definition UINTPTR_MAX : Z := 2 ^ 64 - 1.

(** * Arming the timerfd *)

(** [how_long_from_now]: the [timespec], as seconds and nanoseconds. *)
Definition how_long_from_now (time clock : Timestamp) : outcome (Z * Z) :=
  d ← checked64 (time - clock);
  let microseconds := if d <? 100 then 100 else d in
  Ok (Z.quot microseconds kMicroSecondsPerSecond,
      Z.rem microseconds kMicroSecondsPerSecond * 1000).

(** [timerfd_settime] with the relative time of [how_long_from_now]: the timer
    expires once, that much later than the clock shows. *)
Definition reset_timer_fd (q : TimerQueue) (expiration clock : Timestamp) : outcome TimerQueue :=
  '(sec, nsec) ← how_long_from_now expiration clock;
  Ok (mkTimerQueue (m_thread q) (m_timers_set q) (m_active_timers_set q) (m_is_calling_expired_timers q)
        (m_canceling_timers q) (m_heap q) (g_global_timer_id q)
        (Some (clock + sec * kMicroSecondsPerSecond + nsec / 1000))).

Section queue.
Context `{CurrentThread}.
Context (malloc : gmap timer_ptr Timer -> option timer_ptr).
Context (body : closure -> TimerQueue -> list timer_op).

Definition size_assert (q : TimerQueue) : outcome unit :=
  assert_ (len (m_timers_set q) =? len (m_active_timers_set q)).

Definition timer_at (q : TimerQueue) (p : timer_ptr) : outcome Timer := of_option FNull (m_heap q !! p).

(** [TimerQueue::insert]. *)
Definition insert_timer (q : TimerQueue) (p : timer_ptr) : outcome (bool * TimerQueue) :=
  assert_in_thread (m_thread q);;
  size_assert q;;
  t ← timer_at q p;
  let time := m_time_expire t in
  let earliest := match m_timers_set q with [] => true | e :: _ => time <? e.1 end in
  let '(ts, ok1) := set_insert (time, p) (m_timers_set q) in
  assert_ ok1;;
  let '(act, ok2) := set_insert (p, m_global_timer_id t) (m_active_timers_set q) in
  assert_ ok2;;
  let q := mkTimerQueue (m_thread q) ts act (m_is_calling_expired_timers q) (m_canceling_timers q)
             (m_heap q) (g_global_timer_id q) (m_timer_fd q) in
  size_assert q;;
  Ok (earliest, q).

Definition add_timer_in_reactor (q : TimerQueue) (p : timer_ptr) (clock : Timestamp)
    : outcome TimerQueue :=
  assert_in_thread (m_thread q);;
  '(changed, q) ← insert_timer q p;
  if changed : bool then
    t ← timer_at q p; reset_timer_fd q (m_time_expire t) clock
  else Ok q.

(** [new Timer(cb, when, interval)]. *)
Definition alloc_timer (q : TimerQueue) (cb : closure) (time : Timestamp) (interval : double)
    : outcome (timer_ptr * TimerQueue) :=
  p ← of_option FThrow (malloc (m_heap q));
  let id := s64 (g_global_timer_id q + 1) in
  let t := mkTimer cb time interval (double_gt interval zero_point_zero) id in
  Ok (p, mkTimerQueue (m_thread q) (m_timers_set q) (m_active_timers_set q)
           (m_is_calling_expired_timers q) (m_canceling_timers q) (<[p := t]> (m_heap q)) id (m_timer_fd q)).

(** [add_timer] called in the loop thread, where [run_asap_in_reactor] runs
    the task at once. *)
Definition add_timer (q : TimerQueue) (cb : closure) (time : Timestamp) (interval : double)
    (clock : Timestamp) : outcome (TimerId * TimerQueue) :=
  '(p, q) ← alloc_timer q cb time interval;
  q ← add_timer_in_reactor q p clock;
  t ← timer_at q p;
  Ok (mkTimerId p (m_global_timer_id t), q).

(** [cancel_in_reactor]. *)
Definition cancel_in_reactor (q : TimerQueue) (timerId : TimerId) : outcome TimerQueue :=
  assert_in_thread (m_thread q);;
  size_assert q;;
  let timer := (m_timer_ptr timerId, sequence_ timerId) in
  q ← (if set_find timer (m_active_timers_set q) then
         t ← timer_at q (m_timer_ptr timerId);
         let '(ts, n) := set_erase (m_time_expire t, m_timer_ptr timerId) (m_timers_set q) in
         assert_ (n =? 1);;
         Ok (mkTimerQueue (m_thread q) ts (set_erase timer (m_active_timers_set q)).1
               (m_is_calling_expired_timers q) (m_canceling_timers q)
               (delete (m_timer_ptr timerId) (m_heap q)) (g_global_timer_id q) (m_timer_fd q))
       else if m_is_calling_expired_timers q then
         Ok (mkTimerQueue (m_thread q) (m_timers_set q) (m_active_timers_set q)
               (m_is_calling_expired_timers q) (set_insert timer (m_canceling_timers q)).1
               (m_heap q) (g_global_timer_id q) (m_timer_fd q))
       else Ok q);
  size_assert q;;
  Ok q.

(** The calls that a callback makes. *)
Fixpoint run_ops (ops : list timer_op) (q : TimerQueue) : outcome TimerQueue :=
  match ops with
  | [] => Ok q
  | OpAdd cb time interval clock :: ops => '(_, q) ← add_timer q cb time interval clock; run_ops ops q
  | OpRemove id :: ops => q ← cancel_in_reactor q id; run_ops ops q
  end.

Definition alarm (q : TimerQueue) (p : timer_ptr) : outcome TimerQueue :=
  t ← timer_at q p; run_ops (body (m_callback t) q) q.

(** The loop of [retrieve_expired_timers] over the active set. *)
Fixpoint erase_active (q : TimerQueue) (expired : list Entry) (act : list ActiveTimer)
    : outcome (list ActiveTimer) :=
  match expired with
  | [] => Ok act
  | e :: expired =>
      t ← timer_at q e.2;
      let '(act, n) := set_erase (e.2, m_global_timer_id t) act in
      assert_ (n =? 1);;
      erase_active q expired act
  end.

Definition retrieve_expired_timers (q : TimerQueue) (now : Timestamp) : outcome (list Entry * TimerQueue) :=
  size_assert q;;
  let '(expired, rest) := set_split (now, UINTPTR_MAX) (m_timers_set q) in
  assert_ (match rest with [] => true | e :: _ => now <? e.1 end);;
  act ← erase_active q expired (m_active_timers_set q);
  let q := mkTimerQueue (m_thread q) rest act (m_is_calling_expired_timers q) (m_canceling_timers q)
             (m_heap q) (g_global_timer_id q) (m_timer_fd q) in
  size_assert q;;
  Ok (expired, q).

(** One iteration of the loop of [reset]: restart a repeating timer that was
    not cancelled meanwhile, free any other. *)
Definition reset_one (now : Timestamp) (p : timer_ptr) (q : TimerQueue) : outcome TimerQueue :=
  t ← timer_at q p;
  if m_is_repeated t && negb (set_find (p, m_global_timer_id t) (m_canceling_timers q)) then
    t ← restart now t;
    let q := mkTimerQueue (m_thread q) (m_timers_set q) (m_active_timers_set q)
               (m_is_calling_expired_timers q) (m_canceling_timers q) (<[p := t]> (m_heap q))
               (g_global_timer_id q) (m_timer_fd q) in
    '(_, q) ← insert_timer q p; Ok q
  else
    Ok (mkTimerQueue (m_thread q) (m_timers_set q) (m_active_timers_set q)
          (m_is_calling_expired_timers q) (m_canceling_timers q) (delete p (m_heap q))
          (g_global_timer_id q) (m_timer_fd q)).

Fixpoint reset_loop (expired : list Entry) (now : Timestamp) (q : TimerQueue) : outcome TimerQueue :=
  match expired with
  | [] => Ok q
  | e :: expired => q ← reset_one now e.2 q; reset_loop expired now q
  end.

Definition reset (q : TimerQueue) (expired : list Entry) (now clock : Timestamp) : outcome TimerQueue :=
  q ← reset_loop expired now q;
  nextExpire ← (match m_timers_set q with
                | [] => Ok invalid
                | e :: _ => t ← timer_at q e.2; Ok (m_time_expire t)
                end);
  if valid nextExpire then reset_timer_fd q nextExpire clock else Ok q.

Definition set_calling (b : bool) (q : TimerQueue) : TimerQueue :=
  mkTimerQueue (m_thread q) (m_timers_set q) (m_active_timers_set q) b
    (if b then [] else m_canceling_timers q) (m_heap q) (g_global_timer_id q) (m_timer_fd q).

Fixpoint alarm_all (expired : list Entry) (q : TimerQueue) : outcome TimerQueue :=
  match expired with
  | [] => Ok q
  | e :: expired => q ← alarm q e.2; alarm_all expired q
  end.

(** [handle_timerfd_read]: the timerfd, read here, is no longer armed.
    [now] is the clock at the start, [clock] the clock at the end. *)
Definition handle_timerfd_read (q : TimerQueue) (now clock : Timestamp) : outcome TimerQueue :=
  assert_in_thread (m_thread q);;
  let q := mkTimerQueue (m_thread q) (m_timers_set q) (m_active_timers_set q)
             (m_is_calling_expired_timers q) (m_canceling_timers q) (m_heap q) (g_global_timer_id q) None in
  '(expired, q) ← retrieve_expired_timers q now;
  q ← alarm_all expired (set_calling true q);
  reset (set_calling false q) expired now clock.

(** * The invariant *)

(** Bounds that keep the microsecond arithmetic away from overflow: about
    73,000 years for the clock and for an interval. *)
Definition clock_ok (c : Timestamp) : Prop := 0 < c <= 2 ^ 61.
Definition time_ok (t : Timestamp) : Prop := - 2 ^ 62 <= t <= 2 ^ 62.
Definition interval_ok (i : double) : Prop :=
  double_gt i zero_point_zero = true -> exists d, delta_of_seconds i = Ok d /\ 0 <= d <= 2 ^ 61.

Definition timer_ok (t : Timer) : Prop :=
  time_ok (m_time_expire t) /\ interval_ok (m_interval t) /\
  m_is_repeated t = double_gt (m_interval t) zero_point_zero.

Definition op_ok (T : Timestamp) (o : timer_op) : Prop :=
  match o with
  | OpAdd _ time interval clock => time_ok time /\ interval_ok interval /\ clock_ok clock /\ clock <= T
  | OpRemove _ => True
  end.

(** [ex] are the live timers outside of the sets: those that were taken out and
    whose callbacks are running, and those that are not yet put in. *)
Record tq_inv (ex : list Entry) (q : TimerQueue) : Prop := {
  inv_tid : m_thread q = cur_tid;
  inv_ts_sorted : set_sorted (m_timers_set q);
  inv_act_sorted : set_sorted (m_active_timers_set q);
  inv_can_sorted : set_sorted (m_canceling_timers q);
  inv_len : len (m_timers_set q) = len (m_active_timers_set q);
  inv_ts : forall e p, (e, p) ∈ m_timers_set q ->
    exists t, m_heap q !! p = Some t /\ m_time_expire t = e /\ (p, m_global_timer_id t) ∈ m_active_timers_set q;
  inv_act : forall p i, (p, i) ∈ m_active_timers_set q ->
    exists t, m_heap q !! p = Some t /\ m_global_timer_id t = i /\ (m_time_expire t, p) ∈ m_timers_set q;
  inv_heap : forall p t, m_heap q !! p = Some t -> 0 < p < UINTPTR_MAX /\ timer_ok t;
  inv_ex : forall p, p ∈ ex.*2 ->
    exists t, m_heap q !! p = Some t /\ (p, m_global_timer_id t) ∉ m_active_timers_set q;
  inv_ex_nodup : NoDup ex.*2;
  inv_all : forall p t, m_heap q !! p = Some t -> (p, m_global_timer_id t) ∈ m_active_timers_set q \/ p ∈ ex.*2
}.

(** The call returns in [Q], or the allocator gave out. *)
Definition safe {A} (Q : A -> Prop) (m : outcome A) : Prop :=
  match m with Ok a => Q a | Fail f => f = FThrow end.

Definition malloc_ok : Prop :=
  forall h p, malloc h = Some p -> h !! p = None /\ 0 < p < UINTPTR_MAX.
Definition body_ok (T : Timestamp) : Prop := forall cb q, Forall (op_ok T) (body cb q).

Lemma safe_bind {A B} (Q : A -> Prop) (R : B -> Prop) m (k : A -> outcome B) :
  safe Q m -> (forall a, Q a -> safe R (k a)) -> safe R (m ≫= k).
Proof. destruct m; simpl; auto. Qed.

Lemma size_assert_ok ex q : tq_inv ex q -> size_assert q = Ok tt.
Proof. intros I. unfold size_assert. by rewrite (inv_len _ _ I), Z.eqb_refl. Qed.

(** A live timer that is not among the expired ones is in both sets or in none. *)
Lemma not_active_not_timed ex q p t e :
  tq_inv ex q -> m_heap q !! p = Some t -> (p, m_global_timer_id t) ∉ m_active_timers_set q ->
  (e, p) ∉ m_timers_set q.
Proof.
  intros I Ht Ha Hin. destruct (inv_ts _ _ I _ _ Hin) as (t2 & Ht2 & _ & Ha2). by simplify_eq.
Qed.

(** ** Heap changes outside the sets *)

Definition with_heap (h : gmap timer_ptr Timer) (id : Z) (q : TimerQueue) : TimerQueue :=
  mkTimerQueue (m_thread q) (m_timers_set q) (m_active_timers_set q) (m_is_calling_expired_timers q)
    (m_canceling_timers q) h id (m_timer_fd q).

(** The cell of a timer [p] that is in neither set is written or freed; the
    timers outside of the sets are then [ex']. *)
Lemma inv_heap_change ex ex' q p o id :
  tq_inv ex q -> (forall i, (p, i) ∉ m_active_timers_set q) -> 0 < p < UINTPTR_MAX ->
  match o with Some t => timer_ok t | None => True end ->
  NoDup ex'.*2 -> (forall p', p' <> p -> p' ∈ ex'.*2 <-> p' ∈ ex.*2) -> (p ∈ ex'.*2 <-> is_Some o) ->
  tq_inv ex' (with_heap (partial_alter (fun _ => o) p (m_heap q)) id q).
Proof.
  intros [T S1 S2 S3 Ln I1 I2 I3 I4 I5 I6] Da Hp Ho Hnd Hne Heq. constructor; simpl; try done.
  - intros e p2 Hin. destruct (I1 e p2 Hin) as (t & Ht & He & Ha). exists t.
    rewrite lookup_partial_alter_ne; [done|]. intros ->. by eapply Da.
  - intros p2 i Hin. destruct (I2 p2 i Hin) as (t & Ht & He & Ha). exists t.
    rewrite lookup_partial_alter_ne; [done|]. intros ->. by eapply Da.
  - intros p2 t. destruct (decide (p = p2)) as [<-|Hn2].
    + rewrite lookup_partial_alter_eq. intros ->. done.
    + rewrite lookup_partial_alter_ne by done. apply I3.
  - intros p2 Hin. destruct (decide (p2 = p)) as [->|Hn2].
    + apply Heq in Hin as [t ->]. exists t. by rewrite lookup_partial_alter_eq.
    + destruct (I4 p2) as (t & Ht & Hn); [by apply Hne|]. exists t. by rewrite lookup_partial_alter_ne.
  - intros p2 t. destruct (decide (p2 = p)) as [->|Hn2].
    + rewrite lookup_partial_alter_eq. intros ->. right. by apply Heq.
    + rewrite lookup_partial_alter_ne by done. intros [?|?]%I6; [by left|right; by apply Hne].
Qed.

(** Which of the timers outside comes first does not matter. *)
Lemma inv_perm ex ex' q : ex.*2 ≡ₚ ex'.*2 -> tq_inv ex q -> tq_inv ex' q.
Proof.
  intros Hp [T S1 S2 S3 Ln I1 I2 I3 I4 I5 I6].
  constructor; try done; [intros p; rewrite <- Hp; apply I4|by rewrite <- Hp|intros p t; rewrite <- Hp; apply I6].
Qed.

(** A timer outside of the sets. *)
Lemma inv_outside x ex q :
  tq_inv (x :: ex) q -> (forall i, (x.2, i) ∉ m_active_timers_set q) /\ x.2 ∉ ex.*2 /\ NoDup ex.*2 /\
    exists t, m_heap q !! x.2 = Some t /\ 0 < x.2 < UINTPTR_MAX /\ timer_ok t.
Proof.
  intros I. destruct (inv_ex _ _ I x.2) as (t & Ht & Hn); [apply elem_of_cons; by left|].
  pose proof (inv_ex_nodup _ _ I) as Hnd. apply NoDup_cons in Hnd as [Hx Hnd].
  split_and!; [|done..|exists t; split; [done|by apply (inv_heap _ _ I)]].
  intros i Hin. destruct (inv_act _ _ I _ _ Hin) as (t2 & Ht2 & <- & _). by simplify_eq.
Qed.

(** ** [insert] *)

Definition head_time (s : list Entry) : option Z := fst <$> head s.

Lemma entry_less_spec (x y : Entry) : less x y = true <-> x.1 < y.1 \/ (x.1 = y.1 /\ x.2 < y.2).
Proof. rewrite pair_less_spec. unfold less, Z_less. rewrite !Z.ltb_lt. done. Qed.

Lemma head_time_min s e p e0 : set_sorted s -> (e, p) ∈ s -> head_time s = Some e0 -> e0 <= e.
Proof.
  destruct s as [|[a b] s]; [done|]. intros Hs Hin [= <-]. apply elem_of_cons in Hin as [[= -> ->]|Hin]; [done|].
  pose proof (set_sorted_head _ _ _ Hs Hin) as Hl. apply entry_less_spec in Hl. simpl in Hl. lia.
Qed.

Lemma sorted_times (s : list Entry) (i j : nat) e1 p1 e2 p2 :
  set_sorted s -> s !! i = Some (e1, p1) -> s !! j = Some (e2, p2) -> (i <= j)%nat -> e1 <= e2.
Proof.
  revert i j. induction s as [|[e p] s IH]; intros i j Hs Hi Hj Hij; [done|].
  destruct i as [|i], j as [|j]; simpl in Hi, Hj; simplify_eq; [done| |lia|].
  - apply list_elem_of_lookup_2 in Hj. pose proof (set_sorted_head _ _ _ Hs Hj) as Hl.
    apply entry_less_spec in Hl. simpl in Hl. lia.
  - eapply (IH i j); [by eapply set_sorted_tail|done|done|lia].
Qed.

Lemma head_time_elem s e : head_time s = Some e -> exists p, (e, p) ∈ s.
Proof. destruct s as [|[a b] s]; [done|]. intros [= <-]. exists b. apply elem_of_cons. by left. Qed.

Definition earliest_changed (q : TimerQueue) (time : Timestamp) : bool :=
  match m_timers_set q with [] => true | e :: _ => time <? e.1 end.

Lemma insert_timer_spec e0 p ex q t :
  tq_inv ((e0, p) :: ex) q -> m_heap q !! p = Some t ->
  exists q', insert_timer q p = Ok (earliest_changed q (m_time_expire t), q') /\ tq_inv ex q' /\
    m_timers_set q' = (set_insert (m_time_expire t, p) (m_timers_set q)).1 /\
    m_heap q' = m_heap q /\ m_timer_fd q' = m_timer_fd q /\
    m_active_timers_set q' = (set_insert (p, m_global_timer_id t) (m_active_timers_set q)).1 /\
    m_canceling_timers q' = m_canceling_timers q /\
    m_is_calling_expired_timers q' = m_is_calling_expired_timers q.
Proof.
  intros I Ht. destruct (inv_outside _ _ _ I) as (Da & Dx & Dn & _). simpl in Da, Dx.
  assert ((m_time_expire t, p) ∉ m_timers_set q) as Hts by (by eapply not_active_not_timed).
  unfold insert_timer. rewrite in_thread_ok by apply I. rewrite (size_assert_ok _ q I). cbn.
  unfold timer_at. rewrite Ht. cbn. fold (earliest_changed q (m_time_expire t)).
  pose proof (set_insert_fresh (m_time_expire t, p) _ (inv_ts_sorted _ _ I) Hts) as O1.
  pose proof (set_insert_fresh (p, m_global_timer_id t) _ (inv_act_sorted _ _ I) (Da _)) as O2.
  pose proof (set_insert_length (m_time_expire t, p) _ (inv_ts_sorted _ _ I) Hts) as L1.
  pose proof (set_insert_length (p, m_global_timer_id t) _ (inv_act_sorted _ _ I) (Da _)) as L2.
  pose proof (set_insert_sorted (m_time_expire t, p) _ (inv_ts_sorted _ _ I)) as S1.
  pose proof (set_insert_sorted (p, m_global_timer_id t) _ (inv_act_sorted _ _ I)) as S2.
  pose proof (fun e => set_insert_elem (m_time_expire t, p) _ e (inv_ts_sorted _ _ I)) as E1.
  pose proof (fun e => set_insert_elem (p, m_global_timer_id t) _ e (inv_act_sorted _ _ I)) as E2.
  destruct (set_insert (m_time_expire t, p) (m_timers_set q)) as [ts ok1]. simpl in *. subst ok1.
  destruct (set_insert (p, m_global_timer_id t) (m_active_timers_set q)) as [act ok2]. simpl in *. subst ok2.
  assert (len ts = len act) as Hl by (pose proof (inv_len _ _ I); unfold len in *; lia).
  unfold size_assert. cbn. rewrite Hl, Z.eqb_refl. cbn. eexists. split; [done|]. split_and!; try done.
  destruct I as [T S1' S2' S3 Ln I1 I2 I3 I4 I5 I6]. constructor; simpl; try done.
  - intros e p2 [[= -> ->]|Hin]%E1; [exists t; split_and!; try done; apply E2; by left|].
    destruct (I1 e p2 Hin) as (t2 & ? & ? & ?). exists t2. split_and!; try done. apply E2. by right.
  - intros p2 i [[= -> ->]|Hin]%E2; [exists t; split_and!; try done; apply E1; by left|].
    destruct (I2 p2 i Hin) as (t2 & ? & ? & ?). exists t2. split_and!; try done. apply E1. by right.
  - intros p2 Hin. destruct (I4 p2) as (t2 & Ht2 & Hn); [apply elem_of_cons; by right|]. exists t2. split; [done|].
    intros [[= -> _]|?]%E2; done.
  - intros p2 t2 Ht2. rewrite E2. destruct (I6 p2 t2 Ht2) as [?|[->|?]%elem_of_cons]; [auto..| |by right].
    left. left. simpl in Ht2. by simplify_eq.
Qed.

(** ** The timerfd is armed for the earliest timer *)

(** When the queue is idle ([idle]), or in any phase when the earliest timer
    has a time at or before the epoch, the timerfd is armed to expire no later
    than that timer, or within 100 microseconds of a past clock reading. *)
Definition armed (T : Timestamp) (idle : bool) (q : TimerQueue) : Prop :=
  forall e, head_time (m_timers_set q) = Some e -> (idle = true \/ e <= 0) ->
    exists w, m_timer_fd q = Some w /\ w <= Z.max e (T + 100).

(** [how_long_from_now] never yields the zero that would disarm the timerfd. *)
Lemma how_long_spec time clock :
  time_ok time -> clock_ok clock ->
  exists sec nsec, how_long_from_now time clock = Ok (sec, nsec) /\ 0 <= sec /\ 0 <= nsec < 10 ^ 9 /\
    sec * kMicroSecondsPerSecond + nsec / 1000 = Z.max 100 (time - clock) /\ 0 < sec + nsec.
Proof.
  unfold time_ok, clock_ok. intros Ht Hc. unfold how_long_from_now.
  rewrite checked64_ok by (unfold in_sw; lia). simpl.
  set (us := if time - clock <? 100 then 100 else time - clock).
  assert (us = Z.max 100 (time - clock)) as -> by (subst us; case_match; lia).
  set (m := Z.max 100 (time - clock)). unfold kMicroSecondsPerSecond.
  rewrite Z.quot_div_nonneg, Z.rem_mod_nonneg by lia. do 2 eexists. split; [done|].
  pose proof (Z.div_mod m (1000 * 1000)). pose proof (Z.mod_pos_bound m (1000 * 1000)).
  rewrite Z.div_mul by lia. split_and!; lia.
Qed.

Definition with_fd (fd : option Timestamp) (q : TimerQueue) : TimerQueue :=
  mkTimerQueue (m_thread q) (m_timers_set q) (m_active_timers_set q) (m_is_calling_expired_timers q)
    (m_canceling_timers q) (m_heap q) (g_global_timer_id q) fd.

Lemma reset_timer_fd_spec q time clock :
  time_ok time -> clock_ok clock ->
  reset_timer_fd q time clock = Ok (with_fd (Some (clock + Z.max 100 (time - clock))) q).
Proof.
  intros Ht Hc. destruct (how_long_spec time clock Ht Hc) as (sec & nsec & E & _ & _ & Hs & _).
  unfold reset_timer_fd. rewrite E. simpl. unfold with_fd. rewrite <- Hs, Z.add_assoc. done.
Qed.

Lemma inv_with_fd ex q fd : tq_inv ex q -> tq_inv ex (with_fd fd q).
Proof. intros []. by constructor. Qed.

Lemma head_time_insert e p s :
  set_sorted s ->
  head_time (set_insert (e, p) s).1 = Some (match head_time s with Some e0 => Z.min e e0 | None => e end).
Proof.
  intros Hs. pose proof (set_insert_sorted (e, p) s Hs) as Hs'.
  pose proof (fun x => set_insert_elem (e, p) s x Hs) as El.
  destruct (head_time (set_insert (e, p) s).1) as [e1|] eqn:E1.
  2:{ exfalso. assert ((e, p) ∈ (set_insert (e, p) s).1) as Hin by (apply El; by left).
      destruct (set_insert (e, p) s).1; [by apply elem_of_nil in Hin|done]. }
  f_equal. pose proof (head_time_elem _ _ E1) as [p1 Hin1].
  assert (e1 <= e) by (eapply head_time_min; [exact Hs'|apply El; by left|done]).
  destruct (head_time s) as [e0|] eqn:E0.
  - pose proof (head_time_elem _ _ E0) as [p0 Hin0].
    assert (e1 <= e0) by (eapply head_time_min; [exact Hs'|apply El; by right|done]).
    apply El in Hin1 as [[= -> ->]|Hin1]; [lia|].
    assert (e0 <= e1) by exact (head_time_min s e1 p1 e0 Hs Hin1 E0). lia.
  - apply El in Hin1 as [[= -> ->]|Hin1]; [done|]. destruct s; [by apply elem_of_nil in Hin1|done].
Qed.

Lemma earliest_changed_spec q time :
  earliest_changed q time = match head_time (m_timers_set q) with Some e0 => time <? e0 | None => true end.
Proof. unfold earliest_changed. by destruct (m_timers_set q) as [|[]]. Qed.

(** ** [add_timer] *)

Lemma add_timer_in_reactor_spec T idle e0 p ex q t clock :
  tq_inv ((e0, p) :: ex) q -> armed T idle q -> m_heap q !! p = Some t -> clock_ok clock -> clock <= T ->
  exists q', add_timer_in_reactor q p clock = Ok q' /\ tq_inv ex q' /\ armed T idle q' /\
    m_heap q' = m_heap q.
Proof.
  intros I A Ht Hc HcT. unfold add_timer_in_reactor. rewrite in_thread_ok by apply I. cbn.
  destruct (insert_timer_spec e0 p ex q t I Ht) as (q1 & -> & I1 & Ts & Hh & Hfd & _). cbn.
  pose proof (head_time_insert (m_time_expire t) p _ (inv_ts_sorted _ _ I)) as Hhead. rewrite <- Ts in Hhead.
  destruct (inv_heap _ _ I _ _ Ht) as [_ [Hto _]]. rewrite earliest_changed_spec.
  destruct (match head_time (m_timers_set q) with Some e0 => m_time_expire t <? e0 | None => true end) eqn:Ec.
  - unfold timer_at. rewrite Hh, Ht. cbn. rewrite reset_timer_fd_spec by done. eexists. split; [done|].
    split_and!; [by apply inv_with_fd| |done]. intros e He _. simpl in *. rewrite Hhead in He. injection He as <-.
    eexists. split; [done|]. unfold clock_ok in *.
    destruct (head_time (m_timers_set q)); lia.
  - eexists. split_and!; [done..| |done]. intros e He Hi. rewrite Hhead in He. rewrite Hfd.
    destruct (head_time (m_timers_set q)) as [e1|] eqn:E0; [|done].
    injection He as <-. apply A; [|destruct Hi; [by left|right; lia]]. rewrite E0. f_equal. lia.
Qed.

Lemma alloc_timer_spec T idle ex q cb time interval :
  malloc_ok -> tq_inv ex q -> armed T idle q -> time_ok time -> interval_ok interval ->
  safe (fun r => tq_inv ((time, r.1) :: ex) r.2 /\ armed T idle r.2 /\
          exists t, m_heap r.2 !! r.1 = Some t /\ m_time_expire t = time /\ m_callback t = cb)
    (alloc_timer q cb time interval).
Proof.
  intros Hm I A Ht Hi. unfold alloc_timer. destruct (malloc (m_heap q)) as [p|] eqn:E; [|done].
  destruct (Hm _ _ E) as [Hfresh Hp]. cbn.
  assert (p ∉ ex.*2) as Dx by (intros Hin; destruct (inv_ex _ _ I _ Hin) as (? & ? & _); congruence).
  split_and!; [|done|eexists; split; [apply lookup_insert_eq|done]].
  apply (inv_heap_change ex ((time, p) :: ex) q p (Some _)); simpl; try done.
  - intros i Hin. destruct (inv_act _ _ I _ _ Hin) as (? & ? & _). congruence.
  - apply NoDup_cons. split; [done|apply I].
  - intros p' Hne. rewrite elem_of_cons. naive_solver.
  - rewrite elem_of_cons. naive_solver.
Qed.

Lemma add_timer_spec T idle ex q cb time interval clock :
  malloc_ok -> tq_inv ex q -> armed T idle q -> op_ok T (OpAdd cb time interval clock) ->
  safe (fun r => tq_inv ex r.2 /\ armed T idle r.2) (add_timer q cb time interval clock).
Proof.
  intros Hm I A (Ht & Hi & Hc & HcT). unfold add_timer.
  eapply safe_bind; [by apply (alloc_timer_spec T idle ex)|].
  intros [p q1] (I1 & A1 & t & Ht1 & _). simpl in *.
  destruct (add_timer_in_reactor_spec T idle _ p ex q1 t clock I1 A1 Ht1 Hc HcT) as (q2 & -> & I2 & A2 & Hh).
  cbn. unfold timer_at. rewrite Hh, Ht1. done.
Qed.

(** ** [cancel_in_reactor] *)

Lemma head_time_erase T idle x s :
  set_sorted s -> forall e, head_time (set_erase x s).1 = Some e ->
    exists e0, head_time s = Some e0 /\ e0 <= e /\ ((idle = true \/ e <= 0) -> (idle = true \/ e0 <= 0)) /\
      Z.max e0 (T + 100) <= Z.max e (T + 100).
Proof.
  intros Hs e He. destruct (head_time_elem _ _ He) as [p Hin]. apply set_erase_elem in Hin as [Hin _]; [|done].
  destruct (head_time s) as [e0|] eqn:E0; [|destruct s; [by apply elem_of_nil in Hin|done]].
  pose proof (head_time_min _ _ _ _ Hs Hin E0). exists e0. split_and!; [done|done| |lia].
  intros [|]; [by left|right; lia].
Qed.

(** What cancelling an active timer leaves. *)
Lemma cancel_active_inv ex q p t :
  tq_inv ex q -> m_heap q !! p = Some t -> (p, m_global_timer_id t) ∈ m_active_timers_set q ->
  tq_inv ex (mkTimerQueue (m_thread q) (set_erase (m_time_expire t, p) (m_timers_set q)).1
    (set_erase (p, m_global_timer_id t) (m_active_timers_set q)).1 (m_is_calling_expired_timers q)
    (m_canceling_timers q) (delete p (m_heap q)) (g_global_timer_id q) (m_timer_fd q)).
Proof.
  intros I Ht Ha.
  assert ((m_time_expire t, p) ∈ m_timers_set q) as Hts.
  { destruct (inv_act _ _ I _ _ Ha) as (t2 & ? & _ & ?). by simplify_eq. }
  pose proof (set_erase_length _ _ (inv_ts_sorted _ _ I) Hts) as L1.
  pose proof (set_erase_length _ _ (inv_act_sorted _ _ I) Ha) as L2.
  destruct I as [T S1 S2 S3 Ln I1 I2 I3 I4 I5 I6].
  constructor; simpl; try done; try by apply set_erase_sorted.
  - unfold len in *. lia.
  - intros e p2 Hin. apply set_erase_elem in Hin as [Hin Hne]; [|done]. destruct (I1 _ _ Hin) as (t2 & Ht2 & <- & Ha2).
    assert (p <> p2) by (intros ->; by simplify_eq). exists t2. rewrite lookup_delete_ne by done.
    split_and!; try done. apply set_erase_elem; [done|]. split; [done|congruence].
  - intros p2 i Hin. apply set_erase_elem in Hin as [Hin Hne]; [|done]. destruct (I2 _ _ Hin) as (t2 & Ht2 & <- & Ha2).
    assert (p <> p2) by (intros ->; by simplify_eq). exists t2. rewrite lookup_delete_ne by done.
    split_and!; try done. apply set_erase_elem; [done|]. split; [done|congruence].
  - intros p2 t2 [_ Hl]%lookup_delete_Some. by apply I3.
  - intros p2 Hin. destruct (I4 p2 Hin) as (t2 & Ht2 & Hn).
    assert (p <> p2) by (intros ->; by simplify_eq). exists t2. rewrite lookup_delete_ne by done.
    split; [done|]. rewrite set_erase_elem by done. tauto.
  - intros p2 t2 [Hne Ht2]%lookup_delete_Some. rewrite set_erase_elem by done. destruct (I6 _ _ Ht2); [left|by right].
    split; [done|]. congruence.
Qed.

Lemma cancel_spec T idle ex q id :
  tq_inv ex q -> armed T idle q ->
  exists q', cancel_in_reactor q id = Ok q' /\ tq_inv ex q' /\ armed T idle q'.
Proof.
  intros I A. unfold cancel_in_reactor. rewrite in_thread_ok by apply I. rewrite (size_assert_ok ex q I). cbn.
  set (timer := (m_timer_ptr id, sequence_ id)).
  destruct (set_find timer (m_active_timers_set q)) eqn:Hf.
  - apply set_find_spec in Hf; [|apply I]. pose proof Hf as Ha.
    destruct (inv_act _ _ I _ _ Hf) as (t & Ht & Hid & Hts). unfold timer_at. rewrite Ht. cbn.
    pose proof (set_erase_count _ _ (inv_ts_sorted _ _ I) Hts) as Hn.
    pose proof (cancel_active_inv ex q (m_timer_ptr id) t I Ht) as I'. rewrite Hid in I'. specialize (I' Ha).
    pose proof (head_time_erase T idle (m_time_expire t, m_timer_ptr id) _ (inv_ts_sorted _ _ I)) as Hh.
    subst timer.
    destruct (set_erase (m_time_expire t, m_timer_ptr id) (m_timers_set q)) as [ts n]. simpl in *. subst n. cbn.
    rewrite (size_assert_ok ex _ I'). cbn. eexists. split_and!; [done|done|].
    intros e He Hi. simpl in *. destruct (Hh e He) as (e0 & H0 & _ & Hi0 & Hm).
    destruct (A e0 H0 (Hi0 Hi)) as (w & Hw & Hle). exists w. split; [done|lia].
  - destruct (m_is_calling_expired_timers q); cbn.
    + set (q' := mkTimerQueue _ _ _ _ _ _ _ _). assert (tq_inv ex q') as I'.
      { destruct I. constructor; try done. simpl. by apply set_insert_sorted. }
      rewrite (size_assert_ok ex q' I'). cbn. eexists. by split_and!.
    + rewrite (size_assert_ok ex q I). cbn. eexists. by split_and!.
Qed.

Lemma run_ops_spec T idle ex ops q :
  malloc_ok -> Forall (op_ok T) ops -> tq_inv ex q -> armed T idle q ->
  safe (fun q' => tq_inv ex q' /\ armed T idle q') (run_ops ops q).
Proof.
  intros Hm Ho. revert q. induction Ho as [|o ops Ho _ IH]; intros q I A; [done|].
  destruct o as [cb time interval clock|id]; cbn [run_ops].
  - eapply safe_bind; [by apply (add_timer_spec T idle ex)|]. intros [? q1] [I1 A1]. by apply IH.
  - destruct (cancel_spec T idle ex q id I A) as (q1 & -> & I1 & A1). by apply IH.
Qed.

(** The timers whose callbacks run stay alive until the last one has run. *)
Lemma alarm_all_spec T ex l q :
  malloc_ok -> body_ok T -> tq_inv ex q -> armed T false q -> (forall x, x ∈ l -> x ∈ ex) ->
  safe (fun q' => tq_inv ex q' /\ armed T false q') (alarm_all l q).
Proof.
  intros Hm Hb. revert q. induction l as [|x l IH]; intros q I A Hl; [done|]. cbn [alarm_all].
  eapply (safe_bind (fun q' => tq_inv ex q' /\ armed T false q')).
  - unfold alarm, timer_at. destruct (inv_ex _ _ I x.2) as (t & -> & _).
    { apply list_elem_of_fmap_2, Hl, elem_of_cons. by left. }
    by apply run_ops_spec.
  - intros q1 [I1 A1]. apply IH; [done..|]. intros y Hy. apply Hl, elem_of_cons. by right.
Qed.

(** ** [retrieve_expired_timers] *)

Lemma split_expired q now :
  set_sorted (m_timers_set q) -> (forall e p, (e, p) ∈ m_timers_set q -> p < UINTPTR_MAX) ->
  let '(ex, rest) := set_split (now, UINTPTR_MAX) (m_timers_set q) in
  m_timers_set q = ex ++ rest /\ (forall e p, (e, p) ∈ ex -> e <= now) /\
  (forall e p, (e, p) ∈ rest -> now < e).
Proof.
  intros Hs Hp. pose proof (set_split_app (now, UINTPTR_MAX) (m_timers_set q)) as E.
  pose proof (set_split_below (now, UINTPTR_MAX) (m_timers_set q)) as B.
  pose proof (fun x => set_split_above (now, UINTPTR_MAX) (m_timers_set q) x Hs) as Ab.
  destruct (set_split (now, UINTPTR_MAX) (m_timers_set q)) as [ex rest]. simpl in *. split_and!; [done| |].
  - intros e p Hin. specialize (B _ Hin). apply entry_less_spec in B. simpl in B. lia.
  - intros e p Hin. specialize (Ab _ Hin). assert (p < UINTPTR_MAX) by (apply (Hp e); rewrite <- E; apply elem_of_app; by right).
    destruct (less (e, p) (now, UINTPTR_MAX)) eqn:Hl; [done|]. apply not_true_iff_false in Hl.
    rewrite entry_less_spec in Hl. simpl in Hl. lia.
Qed.

(** Erasing the expired timers from the active set, one by one. *)
Lemma erase_active_spec q l act :
  set_sorted act -> NoDup l.*2 ->
  (forall p, p ∈ l.*2 -> exists t, m_heap q !! p = Some t /\ (p, m_global_timer_id t) ∈ act) ->
  exists act', erase_active q l act = Ok act' /\ set_sorted act' /\
    len act' + len l = len act /\
    (forall p i, (p, i) ∈ act' <-> (p, i) ∈ act /\ (p ∈ l.*2 ->
        forall t, m_heap q !! p = Some t -> i <> m_global_timer_id t)).
Proof.
  revert act. induction l as [|[e p] l IH]; intros act Hs Hnd Hin; cbn [erase_active].
  { exists act. split_and!; [done|done|len_lia|]. intros p i. split; [|tauto].
    intros ?. split; [done|]. by intros ?%elem_of_nil. }
  apply NoDup_cons in Hnd as [Hp Hnd]. simpl in Hp.
  destruct (Hin p) as (t & Ht & Ha); [apply elem_of_cons; by left|]. unfold timer_at. simpl. rewrite Ht. cbn.
  pose proof (set_erase_count _ _ Hs Ha) as Hn. pose proof (set_erase_length _ _ Hs Ha) as Hl.
  pose proof (set_erase_sorted (p, m_global_timer_id t) _ Hs) as Hs1.
  pose proof (fun x => set_erase_elem (p, m_global_timer_id t) act x Hs) as El.
  destruct (set_erase (p, m_global_timer_id t) act) as [act1 n]. simpl in *. subst n. cbn.
  destruct (IH act1 Hs1 Hnd) as (act' & -> & Hs' & Hlen & El').
  { intros p2 H2. destruct (Hin p2) as (t2 & Ht2 & Ha2); [apply elem_of_cons; by right|].
    exists t2. split; [done|]. apply El. split; [done|]. intros [= -> _]. done. }
  exists act'. split_and!; [done|done|unfold len in *; simpl length; lia|].
  intros p2 i. rewrite El', El, elem_of_cons. split.
  - intros [[Hact Hne] Hrest]. split; [done|]. intros [->|H2] t2 Ht2; [|by apply Hrest].
    simplify_eq. by intros ->.
  - intros [Hact Hrest]. split; [split; [done|]|intros; apply Hrest; [by right|done]].
    intros [= -> ->]. by apply (Hrest (or_introl eq_refl) t).
Qed.

(** Entries of the timer set have distinct addresses. *)
Lemma timers_nodup ex q : tq_inv ex q -> NoDup (m_timers_set q).*2.
Proof.
  intros I. apply NoDup_fmap_2_strong; [|apply set_sorted_nodup, I].
  intros [e1 p1] [e2 p2] H1 H2 Heq. simpl in Heq. subst p2.
  destruct (inv_ts _ _ I _ _ H1) as (t1 & Ht1 & <- & _), (inv_ts _ _ I _ _ H2) as (t2 & Ht2 & <- & _). congruence.
Qed.

Definition without (q : TimerQueue) (ts : list Entry) (act : list ActiveTimer) : TimerQueue :=
  mkTimerQueue (m_thread q) ts act (m_is_calling_expired_timers q) (m_canceling_timers q)
    (m_heap q) (g_global_timer_id q) (m_timer_fd q).

Lemma retrieve_expired_spec ex0 q now :
  tq_inv ex0 q ->
  exists ex rest q', retrieve_expired_timers q now = Ok (ex, q') /\
    m_timers_set q = ex ++ rest /\ m_timers_set q' = rest /\
    (forall e p, (e, p) ∈ ex -> e <= now) /\ (forall e p, (e, p) ∈ rest -> now < e) /\
    tq_inv (ex ++ ex0) q' /\ m_timer_fd q' = m_timer_fd q /\ m_heap q' = m_heap q.
Proof.
  intros I. unfold retrieve_expired_timers. rewrite (size_assert_ok _ q I). cbn.
  pose proof (split_expired q now (inv_ts_sorted _ _ I)) as Sp.
  destruct (set_split (now, UINTPTR_MAX) (m_timers_set q)) as [ex rest].
  destruct Sp as (E & Hex & Hrest).
  { intros e p Hin. destruct (inv_ts _ _ I _ _ Hin) as (t & Ht & _). by destruct (inv_heap _ _ I _ _ Ht) as [[]]. }
  rewrite assert_true by (destruct rest as [|[e p] rest]; [done|]; apply Z.ltb_lt, (Hrest e p), elem_of_cons; by left).
  pose proof (timers_nodup _ _ I) as Hnd. rewrite E, fmap_app, NoDup_app in Hnd. destruct Hnd as (Nex & Ndis & _).
  pose proof (inv_ts_sorted _ _ I) as Ss. rewrite E in Ss. apply set_sorted_app in Ss as (_ & Sr & _).
  cbn. destruct (erase_active_spec q ex _ (inv_act_sorted _ _ I) Nex) as (act & -> & Sa & La & Ea).
  { intros p ([e p'] & -> & Hin)%list_elem_of_fmap. destruct (inv_ts _ _ I e p') as (t & ? & _ & ?); [|eauto].
    rewrite E. apply elem_of_app. by left. }
  cbn. fold (without q rest act).
  assert (len rest = len act) as Hl.
  { pose proof (inv_len _ _ I) as Hl. rewrite E, len_app in Hl. lia. }
  assert (tq_inv (ex ++ ex0) (without q rest act)) as I'.
  { destruct I as [T S1 S2 S3 Ln I1 I2 I3 I4 I5 I6]. constructor; simpl; try done.
    - intros e p Hin. destruct (I1 e p) as (t & Ht & He & Ha); [rewrite E; apply elem_of_app; by right|]. exists t. split_and!; try done.
      apply Ea. split; [done|]. intros Hp. exfalso. apply (Ndis p Hp). apply list_elem_of_fmap. by exists (e, p).
    - intros p i [Hin Hn]%Ea. destruct (I2 p i Hin) as (t & Ht & <- & Hts). exists t. split_and!; try done.
      rewrite E in Hts. apply elem_of_app in Hts as [Hts|Hts]; [|done]. exfalso.
      apply (Hn (list_elem_of_fmap_2' snd _ _ _ Hts eq_refl) t Ht eq_refl).
    - intros p. rewrite fmap_app, elem_of_app. intros [Hp|Hp].
      + pose proof Hp as ([e p'] & -> & Hin)%list_elem_of_fmap.
        destruct (I1 e p') as (t & Ht & _); [rewrite E; apply elem_of_app; by left|]. exists t. split; [done|].
        intros [_ Hn]%Ea. by apply (Hn Hp t Ht).
      + destruct (I4 p Hp) as (t & Ht & Hn). exists t. split; [done|]. intros [? _]%Ea. done.
    - rewrite fmap_app. apply NoDup_app. split_and!; [done| |done].
      intros p ([e p'] & -> & Hin)%list_elem_of_fmap Hp. destruct (I4 p' Hp) as (t & Ht & Hn).
      destruct (I1 e p') as (t2 & Ht2 & _ & Ha); [rewrite E; apply elem_of_app; by left|]. by simplify_eq.
    - intros p t Ht. rewrite fmap_app, elem_of_app, Ea. destruct (I6 p t Ht) as [Ha|]; [|auto].
      destruct (decide (p ∈ ex.*2)) as [|Hn]; [auto|]. left. by split. }
  rewrite (size_assert_ok _ _ I'). cbn. exists ex, rest. eexists. by split_and!.
Qed.

(** ** [reset] *)

Lemma restart_spec now t :
  clock_ok now -> timer_ok t -> m_is_repeated t = true ->
  exists t', restart now t = Ok t' /\ timer_ok t' /\ 0 < m_time_expire t' /\
    m_global_timer_id t' = m_global_timer_id t.
Proof.
  unfold clock_ok. intros Hn (Hto & Hi & Hr) Hrep. unfold restart. rewrite Hrep.
  destruct (Hi ltac:(congruence)) as (d & Hd & Hpos). unfold add_second. rewrite Hd. cbn.
  rewrite checked64_ok by (unfold in_sw; lia). cbn. eexists. split; [done|].
  split; [|simpl; split; [lia|done]]. split_and!; simpl; [unfold time_ok; lia|done|congruence].
Qed.

Lemma reset_one_spec T x ex now q :
  clock_ok now -> tq_inv (x :: ex) q -> armed T false q ->
  exists q', reset_one now x.2 q = Ok q' /\ tq_inv ex q' /\ armed T false q' /\
    m_canceling_timers q' = m_canceling_timers q /\
    (forall p, p <> x.2 -> m_heap q' !! p = m_heap q !! p) /\
    (forall t, m_heap q !! x.2 = Some t -> (x.2, m_global_timer_id t) ∈ m_canceling_timers q ->
       m_heap q' !! x.2 = None).
Proof.
  intros Hn I A. destruct (inv_outside x ex q I) as (Da & Dx & Dn & t & Ht & Hp & Hto).
  unfold reset_one, timer_at. rewrite Ht. cbn [of_option mbind outcome_bind].
  destruct (m_is_repeated t && _) eqn:Hrep.
  - apply andb_prop in Hrep as [Hrep Hcan].
    destruct (restart_spec now t Hn Hto Hrep) as (t' & -> & Hto' & Hpos & _). cbn [mbind outcome_bind].
    fold (with_heap (<[x.2 := t']> (m_heap q)) (g_global_timer_id q) q).
    assert (tq_inv (x :: ex) (with_heap (<[x.2 := t']> (m_heap q)) (g_global_timer_id q) q)) as I1.
    { apply (inv_heap_change (x :: ex) (x :: ex) q x.2 (Some t')); try done; [apply I|]. simpl. rewrite elem_of_cons. naive_solver. }
    destruct x as [e0 p0]. simpl in *.
    destruct (insert_timer_spec e0 p0 ex _ t' I1) as (q2 & E2 & I2 & Ts & Hh & Hfd & _ & Hc & _); [apply lookup_insert_eq|].
    rewrite E2. cbn [mbind outcome_bind]. exists q2. split_and!; [done|done| |done| |].
    + intros e He Hi. rewrite Ts, head_time_insert in He by apply I. cbn [with_heap m_timers_set] in He.
      rewrite Hfd. apply A; [|done]. destruct Hi as [|Hi]; [done|].
      destruct (head_time (m_timers_set q)); injection He as <-; [f_equal|]; lia.
    + intros p Hne. rewrite Hh. simpl. by rewrite lookup_insert_ne.
    + intros t2 Ht2 Hin. simplify_eq. apply set_find_spec in Hin; [|apply I]. by rewrite Hin in Hcan.
  - eexists. split_and!; [done| |done|done| |].
    + apply (inv_heap_change (x :: ex) ex q x.2 None (g_global_timer_id q)); try done.
      intros p' Hne. simpl. rewrite elem_of_cons. naive_solver.
    + intros p Hne. simpl. by rewrite lookup_delete_ne.
    + intros. simpl. apply lookup_delete_eq.
Qed.

Lemma reset_loop_spec T ex ex0 now q :
  clock_ok now -> tq_inv (ex ++ ex0) q -> armed T false q ->
  exists q', reset_loop ex now q = Ok q' /\ tq_inv ex0 q' /\ armed T false q' /\
    (forall p, p ∉ ex.*2 -> m_heap q' !! p = m_heap q !! p) /\
    (forall p t, p ∈ ex.*2 -> m_heap q !! p = Some t -> (p, m_global_timer_id t) ∈ m_canceling_timers q ->
       m_heap q' !! p = None).
Proof.
  intros Hn. revert q. induction ex as [|x ex IH]; intros q I A.
  { exists q. split_and!; try done. by intros p t ?%elem_of_nil. }
  pose proof (inv_ex_nodup _ _ I : NoDup (x.2 :: (ex ++ ex0).*2)) as [Hx _]%NoDup_cons.
  rewrite fmap_app, not_elem_of_app in Hx. destruct Hx as [Hx _].
  destruct (reset_one_spec T x (ex ++ ex0) now q Hn I A) as (q1 & E1 & I1 & A1 & C1 & H1 & K1).
  cbn [reset_loop]. rewrite E1. cbn [mbind outcome_bind].
  destruct (IH q1 I1 A1) as (q2 & -> & I2 & A2 & H2 & K2). exists q2. split_and!; [done..| |].
  - intros p Hp. apply not_elem_of_cons in Hp as [Hne Hp]. rewrite H2, H1 by done. done.
  - intros p t Hp Ht Hc. destruct (decide (p = x.2)) as [->|Hne].
    + rewrite H2 by done. by eapply K1.
    + apply elem_of_cons in Hp as [|Hp]; [done|]. apply (K2 p t Hp); [by rewrite H1|by rewrite C1].
Qed.

Lemma reset_spec T ex ex0 q now clock :
  clock_ok now -> clock_ok clock -> clock <= T -> tq_inv (ex ++ ex0) q -> armed T false q ->
  exists q', reset q ex now clock = Ok q' /\ tq_inv ex0 q' /\ armed T true q'.
Proof.
  intros Hn Hc HcT I A. unfold reset. destruct (reset_loop_spec T ex ex0 now q Hn I A) as (q1 & -> & I1 & A1 & _). cbn.
  destruct (m_timers_set q1) as [|[e p] ts] eqn:Ets.
  { exists q1. split_and!; [done..|]. intros e He. by rewrite Ets in He. }
  destruct (inv_ts _ _ I1 e p) as (t & Ht & Hte & _); [rewrite Ets; apply elem_of_cons; by left|].
  unfold timer_at. simpl. rewrite Ht. cbn. unfold valid. destruct (inv_heap _ _ I1 _ _ Ht) as [_ [Hto _]].
  destruct (Z.ltb_spec 0 (m_time_expire t)) as [Hpos|Hneg].
  - rewrite reset_timer_fd_spec by done. eexists. split_and!; [done|by apply inv_with_fd|].
    intros e1 He1 _. simpl in *. rewrite Ets in He1. injection He1 as <-. eexists. split; [done|].
    unfold clock_ok in *. lia.
  - exists q1. split_and!; [done..|]. intros e1 He1 _. apply A1; [done|]. right.
    rewrite Ets in He1. injection He1 as <-. lia.
Qed.

(** ** The whole queue *)

Lemma handle_timerfd_read_spec T ex0 q now clock :
  malloc_ok -> body_ok T -> clock_ok now -> clock_ok clock -> clock <= T -> tq_inv ex0 q ->
  safe (fun q' => tq_inv ex0 q' /\ armed T true q') (handle_timerfd_read q now clock).
Proof.
  intros Hm Hb Hn Hc HcT I. unfold handle_timerfd_read. rewrite in_thread_ok by apply I. cbn.
  fold (with_fd None q).
  destruct (retrieve_expired_spec ex0 (with_fd None q) now (inv_with_fd _ _ _ I))
    as (ex & rest & q1 & -> & _ & Hr & _ & Hrest & I1 & _). cbn.
  assert (tq_inv (ex ++ ex0) (set_calling true q1)) as I2.
  { destruct I1. constructor; try done. constructor. }
  eapply (safe_bind (fun q' => tq_inv (ex ++ ex0) q' /\ armed T false q')).
  - apply alarm_all_spec; try done; [|intros x Hx; apply elem_of_app; by left]. intros e He [?|Hle]; [done|]. simpl in He. rewrite Hr in He.
    destruct (head_time_elem _ _ He) as [p Hin]. pose proof (Hrest _ _ Hin). unfold clock_ok in *. lia.
  - intros q2 [I3 A3].
    destruct (reset_spec T ex ex0 (set_calling false q2) now clock) as (q3 & -> & I4 & A4); try done.
    by destruct I3; constructor.
Qed.

(** What reaches the queue: user calls in the loop thread, and the timerfd. *)
Inductive tq_event : Type :=
| EvOp (o : timer_op)
| EvExpire (now clock : Timestamp).

Fixpoint run_events (evs : list tq_event) (q : TimerQueue) : outcome TimerQueue :=
  match evs with
  | [] => Ok q
  | EvOp o :: evs => q ← run_ops [o] q; run_events evs q
  | EvExpire now clock :: evs => q ← handle_timerfd_read q now clock; run_events evs q
  end.

Definition event_ok (T : Timestamp) (ev : tq_event) : Prop :=
  match ev with
  | EvOp o => op_ok T o
  | EvExpire now clock => clock_ok now /\ clock_ok clock /\ clock <= T
  end.

Lemma inv_new : tq_inv [] (new_TimerQueue cur_tid).
Proof.
  constructor; simpl; try done; try constructor.
  - by intros e p ?%elem_of_nil.
  - by intros p i ?%elem_of_nil.
  - by intros p ?%elem_of_nil.
Qed.

(** C13: no timer is lost.  After any sequence of [add_timer] and [remove]
    calls and of timerfd expirations, with callbacks that themselves add and
    cancel timers in any way, no assertion of the queue has failed and no freed
    timer was touched (only the allocator can make a call fail); the two sets
    describe exactly the live timers, so none leaks; and whenever a timer is waiting, the timerfd
    is armed to expire no later than the earliest one, or within 100
    microseconds of a past clock reading. *)
Theorem timer_queue_safe (T : Timestamp) (evs : list tq_event) :
  malloc_ok -> body_ok T -> Forall (event_ok T) evs ->
  safe (fun q => tq_inv [] q /\ armed T true q) (run_events evs (new_TimerQueue cur_tid)).
Proof.
  intros Hm Hb He.
  assert (forall q, tq_inv [] q -> armed T true q ->
    safe (fun q => tq_inv [] q /\ armed T true q) (run_events evs q)) as G.
  { induction He as [|[o|now clock] evs Ho _ IH]; intros q I A; [done| |]; cbn [run_events].
    - eapply safe_bind; [apply (run_ops_spec T true []); [done|by apply Forall_singleton|done|done]|].
      intros q1 [I1 A1]. by apply IH.
    - destruct Ho as (Hn & Hc & HcT). eapply safe_bind; [by apply (handle_timerfd_read_spec T [])|].
      intros q1 [I1 A1]. by apply IH. }
  apply G; [apply inv_new | by intros e].
Qed.

(** An expiration takes out exactly the timers that are due.
    [retrieve_expired_timers(now)] returns the waiting timers whose time is at
    or before [now], in the order of their times, and the timers after [now]
    are exactly those that stay, in both sets. *)
Theorem expired_timers_exact (q : TimerQueue) (now : Timestamp) :
  tq_inv [] q ->
  exists expired q', retrieve_expired_timers q now = Ok (expired, q') /\
    (forall e p, (e, p) ∈ expired <-> (e, p) ∈ m_timers_set q /\ e <= now) /\
    (forall e p, (e, p) ∈ m_timers_set q' <-> (e, p) ∈ m_timers_set q /\ now < e) /\
    (forall i j ei ej, (expired.*1) !! i = Some ei -> (expired.*1) !! j = Some ej -> (i <= j)%nat -> ei <= ej) /\
    (forall p t, m_heap q' !! p = Some t -> (p, m_global_timer_id t) ∈ m_active_timers_set q' <->
       (m_time_expire t, p) ∈ m_timers_set q').
Proof.
  intros I. destruct (retrieve_expired_spec [] q now I) as (ex & rest & q' & E & Ets & Er & Hex & Hrest & I' & _).
  exists ex, q'. split; [done|]. rewrite Er, Ets. split_and!.
  - intros e p. rewrite elem_of_app. split; [intros Hin; split; [by left|by eapply Hex]|].
    intros [[|Hin] Hle]; [done|]. pose proof (Hrest _ _ Hin). lia.
  - intros e p. rewrite elem_of_app. split; [intros Hin; split; [by right|by eapply Hrest]|].
    intros [[Hin|] Hlt]; [|done]. pose proof (Hex _ _ Hin). lia.
  - intros i j ei ej Hi Hj Hij. rewrite list_lookup_fmap in Hi, Hj.
    apply fmap_Some in Hi as ([e1 p1] & Hi & ->), Hj as ([e2 p2] & Hj & ->). simpl.
    pose proof (inv_ts_sorted _ _ I) as S. rewrite Ets in S. apply set_sorted_app in S as (S & _).
    by eapply sorted_times.
  - intros p t Ht. rewrite <- Er. split.
    + intros (t2 & Ht2 & _ & ?)%(inv_act _ _ I'). by simplify_eq.
    + intros (t2 & Ht2 & _ & ?)%(inv_ts _ _ I'). by simplify_eq.
Qed.

(** What [cancel_in_reactor] does to each of the collections. *)
Lemma cancel_effect ex q id :
  tq_inv ex q ->
  let named a := a = (m_timer_ptr id, sequence_ id) in
  let waiting := (m_timer_ptr id, sequence_ id) ∈ m_active_timers_set q in
  exists q', cancel_in_reactor q id = Ok q' /\ tq_inv ex q' /\
    (forall a, a ∈ m_active_timers_set q' <-> a ∈ m_active_timers_set q /\ ~ named a) /\
    (forall e p, (e, p) ∈ m_timers_set q' <-> (e, p) ∈ m_timers_set q /\ ~ (p = m_timer_ptr id /\ waiting)) /\
    (forall p t, m_heap q' !! p = Some t <-> m_heap q !! p = Some t /\ ~ (p = m_timer_ptr id /\ waiting)) /\
    (forall a, a ∈ m_canceling_timers q' <->
       a ∈ m_canceling_timers q \/ (named a /\ ~ waiting /\ m_is_calling_expired_timers q = true)) /\
    m_is_calling_expired_timers q' = m_is_calling_expired_timers q /\ m_timer_fd q' = m_timer_fd q.
Proof.
  intros I named waiting. subst named waiting. cbv beta.
  unfold cancel_in_reactor. rewrite in_thread_ok by apply I. rewrite (size_assert_ok ex q I). cbn.
  destruct (set_find _ (m_active_timers_set q)) eqn:Hf.
  - apply set_find_spec in Hf; [|apply I].
    destruct (inv_act _ _ I _ _ Hf) as (t & Ht & Hid & Hts). unfold timer_at. rewrite Ht. cbn.
    pose proof (set_erase_count _ _ (inv_ts_sorted _ _ I) Hts) as Hn.
    pose proof (cancel_active_inv ex q (m_timer_ptr id) t I Ht) as I'. rewrite Hid in I'. specialize (I' Hf).
    pose proof (fun x => set_erase_elem (m_time_expire t, m_timer_ptr id) _ x (inv_ts_sorted _ _ I)) as Et.
    destruct (set_erase (m_time_expire t, m_timer_ptr id) (m_timers_set q)) as [ts n]. simpl in *. subst n. cbn.
    rewrite (size_assert_ok ex _ I'). cbn. eexists. split; [done|]. split; [done|]. simpl. split_and!; [| | | |done|done].
    + intros a. by rewrite set_erase_elem by apply I.
    + intros e p. rewrite Et. split; [|intros [Hin Hn]; split; [done|]; by intros [= -> ->]; apply Hn].
      intros [Hin Hne]. split; [done|]. intros [-> _].
      destruct (inv_ts _ _ I _ _ Hin) as (t2 & Ht2 & <- & _). by simplify_eq.
    + intros p t2. rewrite lookup_delete_Some. naive_solver.
    + naive_solver.
  - apply set_find_false in Hf; [|apply I]. destruct (m_is_calling_expired_timers q) eqn:Hcall; cbn.
    + set (q' := mkTimerQueue _ _ _ _ _ _ _ _). assert (tq_inv ex q') as I'.
      { destruct I. constructor; try done. simpl. by apply set_insert_sorted. }
      rewrite (size_assert_ok ex q' I'). cbn. eexists. split; [done|]. split; [done|]. simpl.
      split_and!; [naive_solver|naive_solver|naive_solver| |done|done].
      intros a. rewrite set_insert_elem by apply I. naive_solver.
    + rewrite (size_assert_ok ex q I). cbn. eexists. split; [done|]. split; [done|].
      split_and!; naive_solver.
Qed.

(** What the callbacks that run after a cancellation leave alone. *)
Lemma run_ops_frame T idle ex ops q :
  malloc_ok -> Forall (op_ok T) ops -> tq_inv ex q -> armed T idle q ->
  safe (fun q' => tq_inv ex q' /\ armed T idle q' /\
      (forall a, a ∈ m_canceling_timers q -> a ∈ m_canceling_timers q') /\
      (forall p, p ∈ ex.*2 -> m_heap q' !! p = m_heap q !! p))
    (run_ops ops q).
Proof.
  intros Hm Ho. revert q. induction Ho as [|o ops Ho _ IH]; intros q I A; [done|].
  destruct o as [cb time interval clock|id]; cbn [run_ops].
  - destruct Ho as (Ht & Hi & Hc & HcT). unfold add_timer.
    pose proof (alloc_timer_spec T idle ex q cb time interval Hm I A Ht Hi) as Hs. unfold alloc_timer in *.
    destruct (malloc (m_heap q)) as [p|] eqn:Em; [|done]. destruct (Hm _ _ Em) as [Hfresh _].
    cbn [of_option mbind outcome_bind safe fst snd] in *. set (q1 := mkTimerQueue _ _ _ _ _ _ _ _) in *.
    destruct Hs as (I1 & A1 & t & Ht1 & _).
    pose proof (insert_timer_spec time p ex q1 t I1 Ht1) as (q2 & E2 & I2 & _ & Hh2 & _ & _ & Hc2 & _).
    destruct (add_timer_in_reactor_spec T idle _ p ex q1 t clock I1 A1 Ht1 Hc HcT) as (q3 & E3 & I3 & A3 & Hh).
    assert (m_canceling_timers q3 = m_canceling_timers q) as Hc3.
    { unfold add_timer_in_reactor in E3. rewrite in_thread_ok in E3 by apply I1. cbn in E3. rewrite E2 in E3. cbn in E3.
      destruct (earliest_changed _ _); [|by injection E3 as <-].
      unfold timer_at in E3. rewrite Hh2, Ht1 in E3. cbn in E3.
      rewrite reset_timer_fd_spec in E3 by (first [done | apply (inv_heap _ _ I1 _ _ Ht1)]). by injection E3 as <-. }
    rewrite E3. cbn. unfold timer_at. rewrite Hh, Ht1. cbn.
    pose proof (IH q3 I3 A3) as Hs. destruct (run_ops ops q3) as [q4|]; [|done]. destruct Hs as (? & ? & Hc4 & Hh4).
    split_and!; [done|done|intros a Ha; apply Hc4; by rewrite Hc3|].
    intros p2 Hp2. rewrite Hh4, Hh by done. simpl. rewrite lookup_insert_ne; [done|].
    intros ->. destruct (inv_ex _ _ I _ Hp2) as (? & ? & _). congruence.
  - destruct (cancel_spec T idle ex q id I A) as (q1 & E & I1 & A1).
    destruct (cancel_effect ex q id I) as (q2 & E2 & _ & _ & _ & Hh & Hc & _). rewrite E in E2. injection E2 as <-.
    rewrite E. cbn. pose proof (IH q1 I1 A1) as Hs. destruct (run_ops ops q1) as [q3|]; [|done].
    destruct Hs as (? & ? & Hc3 & Hh3). split_and!; [done|done|intros a Ha; apply Hc3, Hc; by left|].
    intros p Hp. rewrite Hh3 by done. destruct (inv_ex _ _ I _ Hp) as (t & Ht & Hn). rewrite Ht. apply Hh.
    split; [done|]. intros [-> Hw]. destruct (inv_act _ _ I _ _ Hw) as (t2 & Ht2 & Hi2 & _). simplify_eq. apply Hn. by rewrite Hi2.
Qed.

(** C15: cancelling works at any time, in and outside of timer callbacks.
    [cancel_in_reactor] always returns.  A waiting timer that it names is in
    neither set afterwards and freed; every other timer is in the sets it was
    in and untouched (a stale [TimerId] whose address was reused has another
    sequence number).  A timer that is cancelled while it is itself being
    handled (its callback has just run, or is one of those running) is, whatever
    the callbacks after that do to the queue, freed and not restarted by the
    [reset] that follows, and the timers [ex0] not yet put in stay. *)
Theorem cancelled_timer_is_gone (T now : Timestamp) (ex ex0 : list Entry) (q : TimerQueue) (id : TimerId) :
  malloc_ok -> clock_ok now -> tq_inv (ex ++ ex0) q -> armed T false q ->
  let waiting := (m_timer_ptr id, sequence_ id) ∈ m_active_timers_set q in
  exists q', cancel_in_reactor q id = Ok q' /\ tq_inv (ex ++ ex0) q' /\
    (forall a, a ∈ m_active_timers_set q' <->
       a ∈ m_active_timers_set q /\ a <> (m_timer_ptr id, sequence_ id)) /\
    (forall e p, (e, p) ∈ m_timers_set q' <-> (e, p) ∈ m_timers_set q /\ ~ (p = m_timer_ptr id /\ waiting)) /\
    (forall p t, m_heap q' !! p = Some t <-> m_heap q !! p = Some t /\ ~ (p = m_timer_ptr id /\ waiting)) /\
    (m_is_calling_expired_timers q = true ->
     forall t ops q1, m_timer_ptr id ∈ ex.*2 -> m_heap q !! m_timer_ptr id = Some t ->
       m_global_timer_id t = sequence_ id -> Forall (op_ok T) ops -> run_ops ops q' = Ok q1 ->
       exists q2, reset_loop ex now q1 = Ok q2 /\ tq_inv ex0 q2 /\ m_heap q2 !! m_timer_ptr id = None).
Proof.
  intros Hm Hn I A waiting. destruct (cancel_effect _ q id I) as (q' & E & I' & Ha & Ht & Hh & Hc & _ & Hfd).
  exists q'. split_and!; [done..|]. intros Hcall t ops q1 Hex Hq Hid Ho E1.
  assert (~ waiting) as Hw.
  { intros Hw. destruct (inv_ex _ _ I (m_timer_ptr id)) as (t3 & Ht3 & Hna); [rewrite fmap_app; apply elem_of_app; by left|].
    simplify_eq. apply Hna. by rewrite Hid. }
  assert (armed T false q') as A'.
  { destruct (cancel_spec T false _ q id I A) as (q2 & E2 & _ & A2). rewrite E in E2. by injection E2 as <-. }
  pose proof (run_ops_frame T false _ ops q' Hm Ho I' A') as Hs. rewrite E1 in Hs. destruct Hs as (I1 & A1 & Hc1 & Hh1).
  destruct (reset_loop_spec T ex ex0 now q1 Hn I1 A1) as (q2 & E2 & I2 & _ & _ & K). exists q2. split_and!; [done..|].
  apply (K _ t Hex).
  - rewrite Hh1 by (rewrite fmap_app; apply elem_of_app; by left). apply Hh. split; [done|tauto].
  - apply Hc1, Hc. right. rewrite Hid. done.
Qed.

End queue.

(** * An instance *)

(** The least address above all live ones. *)
Definition bump_malloc (h : gmap timer_ptr Timer) : option timer_ptr :=
  let p := map_fold (fun k _ m => Z.max (k + 16) m) 16 h in
  if p <? UINTPTR_MAX then Some p else None.

Lemma bump_malloc_ok : malloc_ok bump_malloc.
Proof.
  intros h p. unfold bump_malloc. destruct (Z.ltb_spec (map_fold (fun k _ m => Z.max (k + 16) m) 16 h) UINTPTR_MAX) as [Hlt|]; [|done].
  intros [= <-].
  assert (16 <= map_fold (fun k _ m => Z.max (k + 16) m) 16 h /\
    forall k t, h !! k = Some t -> k + 16 <= map_fold (fun k _ m => Z.max (k + 16) m) 16 h) as [Hge Hk].
  { apply (map_fold_weak_ind (fun m h => 16 <= m /\ forall k (t : Timer), h !! k = Some t -> k + 16 <= m)).
    - split; [done|]. intros k t. by rewrite lookup_empty.
    - intros k t m r Hm [IH1 IH2]. split; [lia|]. intros k2 t2 [[<- _]|[_ Hl]]%lookup_insert_Some; [lia|].
      specialize (IH2 _ _ Hl). lia. }
  split; [|lia]. destruct (h !! _) eqn:E; [|done]. apply Hk in E. lia.
Qed.

#[local] Instance tq_thread : CurrentThread := 1.

(** A periodic timer of half a second, whose callback adds a one-shot timer
    and cancels timer 16. *)
Definition half : double := S754_finite false 4503599627370496 (-53).
Definition sample_body (cb : closure) (q : TimerQueue) : list timer_op :=
  if cb =? 1 then [OpAdd 2 0 zero_point_zero 1000000; OpRemove (mkTimerId 16 1)] else [].
Definition sample_events : list tq_event :=
  [EvOp (OpAdd 1 500000 half 1); EvExpire 600000 600001; EvExpire 700000 700001].

Lemma half_ok : interval_ok half.
Proof. intros _. exists 500000. split; [vm_compute; reflexivity | lia]. Qed.

Lemma timer_queue_safe_witness :
  safe (fun q => tq_inv [] q /\ armed 1000000 true q)
    (run_events bump_malloc sample_body sample_events (new_TimerQueue cur_tid)).
Proof.
  apply timer_queue_safe.
  - exact bump_malloc_ok.
  - intros cb q. unfold sample_body. destruct (cb =? 1); [|constructor].
    repeat constructor; unfold time_ok, clock_ok; try lia. intros Hx. vm_compute in Hx. discriminate Hx.
  - repeat constructor; unfold time_ok, clock_ok; try lia. exact half_ok.
Defined.

(** The queue with the periodic timer, and the same queue while its callback
    runs. *)
Definition sample_queue : TimerQueue :=
  match run_ops bump_malloc [OpAdd 1 500000 half 1] (new_TimerQueue 1) with
  | Ok q => q | Fail _ => new_TimerQueue 1
  end.
Definition sample_calling : TimerQueue :=
  match retrieve_expired_timers sample_queue 600000 with
  | Ok (_, q) => set_calling true q | Fail _ => new_TimerQueue 1
  end.

Lemma sample_queue_inv : tq_inv [] sample_queue.
Proof.
  pose proof (run_ops_spec bump_malloc sample_body 1000000 true [] [OpAdd 1 500000 half 1] (new_TimerQueue 1) bump_malloc_ok) as S.
  assert (run_ops bump_malloc [OpAdd 1 500000 half 1] (new_TimerQueue 1) = Ok sample_queue) as E
    by (vm_compute; reflexivity).
  rewrite E in S. apply S; [|apply inv_new|by intros e].
  repeat constructor; unfold time_ok, clock_ok; try lia. exact half_ok.
Qed.

Lemma sample_calling_inv : tq_inv [(500000, 16)] sample_calling.
Proof.
  destruct (retrieve_expired_spec sample_body [] sample_queue 600000 sample_queue_inv) as (ex & rest & q & E & _ & _ & _ & _ & I & _).
  assert (exists q0, retrieve_expired_timers sample_queue 600000 = Ok ([(500000, 16)], q0) /\
    sample_calling = set_calling true q0) as (q0 & E0 & ->) by (eexists; split; vm_compute; reflexivity).
  rewrite E0 in E. injection E as <- <-. rewrite app_nil_r in I. destruct I. constructor; try done. constructor.
Qed.

Lemma expired_timers_exact_witness :
  exists expired q', retrieve_expired_timers sample_queue 600000 = Ok (expired, q') /\
    (forall e p, (e, p) ∈ expired <-> (e, p) ∈ m_timers_set sample_queue /\ e <= 600000).
Proof.
  destruct (expired_timers_exact sample_body sample_queue 600000 sample_queue_inv) as (ex & q' & E & H1 & _).
  exists ex, q'. split; [exact E | exact H1].
Defined.

(** The waiting timer, cancelled outside of callbacks, and the same timer
    cancelled by its own callback, which then adds another one. *)
Lemma cancelled_timer_is_gone_witness :
  (exists q', cancel_in_reactor sample_queue (mkTimerId 16 1) = Ok q' /\ m_heap q' !! 16 = None) /\
  (exists q' q1 q2, cancel_in_reactor sample_calling (mkTimerId 16 1) = Ok q' /\
    run_ops bump_malloc [OpAdd 2 0 zero_point_zero 1000] q' = Ok q1 /\
    reset_loop [(500000, 16)] 600000 q1 = Ok q2 /\ m_heap q2 !! 16 = None).
Proof.
  split.
  - destruct (cancelled_timer_is_gone bump_malloc sample_body 600000 600000 [] [] sample_queue (mkTimerId 16 1))
      as (q' & E & _ & _ & _ & Hh & _); [exact bump_malloc_ok | unfold clock_ok; lia | exact sample_queue_inv | | ].
    { intros e He [|Hle]; [done|]. vm_compute in He. injection He as <-. lia. }
    exists q'. split; [exact E|]. destruct (m_heap q' !! 16) as [t|] eqn:Ht; [|done].
    apply Hh in Ht as [_ Ht]. destruct Ht. split; [reflexivity|]. apply set_find_spec; [apply sample_queue_inv|vm_compute; reflexivity].
  - destruct (cancelled_timer_is_gone bump_malloc sample_body 600000 600000 [(500000, 16)] [] sample_calling (mkTimerId 16 1))
      as (q' & E1 & _ & _ & _ & _ & K).
    + exact bump_malloc_ok.
    + unfold clock_ok. lia.
    + exact sample_calling_inv.
    + intros e He. vm_compute in He. discriminate He.
    + assert (exists q1, run_ops bump_malloc [OpAdd 2 0 zero_point_zero 1000] q' = Ok q1) as [q1 Er].
      { vm_compute in E1. injection E1 as <-. eexists. vm_compute. reflexivity. }
      destruct (K eq_refl (mkTimer 1 500000 half true 1) [OpAdd 2 0 zero_point_zero 1000] q1) as (q2 & E2 & _ & E3);
        [apply elem_of_cons; by left | vm_compute; reflexivity .. | | exact Er |].
      * repeat constructor; unfold time_ok, clock_ok; try lia. intros Hx. vm_compute in Hx. discriminate Hx.
      * exists q', q1, q2. auto.
Defined.
