(* ===== verification/ZeroCopier.v ===== *)
(** [flute/common/ZeroCopier.{h,cc}]: sending a file to a socket chunk by
    chunk, by sendfile(2), by mmap(2) and send(2), or by read(2) and write(2).

    The open file is its bytes and the position of its descriptor.  A system
    call is a function of the count it is asked for and of how many bytes it is
    willing to transfer at most, which is an argument of each step; it yields
    its result and the bytes it transferred.  A member that the constructor
    leaves uninitialised is [None]. *)

From S2P Require Import Prelude.

Inductive CopyMode : Type := kZeroCopy | kMMap | kReadWrite.

Definition kMaxTrial : Z := 100.
Definition PAGESIZE : Z := 4096.

Record ZeroCopier : Type := mkZeroCopier {
  m_source_path : bytes;
  m_target_fd : option Z;
  m_failure_counter : Z;
  m_source_available : bool;
  m_total_bytes : option Z;
  m_offset : option Z;
  m_started : bool;
  m_source : bytes;      (* the content of the file behind m_source_fd *)
  m_source_pos : Z       (* the file position of m_source_fd *)
}.

(** What [::open] and [fstat64] found. *)
Inductive open_result : Type :=
| OpenFailed
| StatFailed
| Opened (content : bytes).

Definition new_ZeroCopier (path : bytes) (r : open_result) : ZeroCopier :=
  match r with
  | Opened content => mkZeroCopier path (Some (-1)) 0 true (Some (len content)) (Some 0) false content 0
  | _ => mkZeroCopier [] None 0 false None None false [] 0
  end.

(** The constructor itself: when the file cannot be opened it first formats the
    path into a [char buf[100]] with [sprintf]. *)
Definition open_error_text (path : bytes) : bytes := lit "Cannot open file: " ++ path ++ lit "!".

Definition construct_ZeroCopier (path : bytes) (r : open_result) : outcome ZeroCopier :=
  (match r with
   | OpenFailed => require FBounds (len (open_error_text path) + 1 <=? 100)
   | _ => Ok tt
   end);;
  Ok (new_ZeroCopier path r).

(** Reading a member that may be indeterminate. *)
Definition member {A} (x : option A) : outcome A := of_option FUninit x.

Definition is_valid (z : ZeroCopier) : outcome bool :=
  if m_source_available z then t ← member (m_target_fd z); Ok (negb (t =? -1)) else Ok false.

Definition has_finished (z : ZeroCopier) : outcome bool :=
  v ← is_valid z;
  if negb v then Ok true
  else if negb (m_started z) then Ok true
  else
    assert_ (m_source_available z);;
    o ← member (m_offset z); t ← member (m_total_bytes z);
    Ok (u64 o =? t).

Definition source_size (z : ZeroCopier) : outcome Z := member (m_total_bytes z).

Definition remaining_bytes (z : ZeroCopier) : outcome Z :=
  t ← member (m_total_bytes z); o ← member (m_offset z); Ok (s64 (t - o)).

Definition set_target_fd (fd : Z) (z : ZeroCopier) : ZeroCopier :=
  mkZeroCopier (m_source_path z) (Some fd) (m_failure_counter z) (m_source_available z)
    (m_total_bytes z) (m_offset z) (m_started z) (m_source z) (m_source_pos z).

Definition start (z : ZeroCopier) : ZeroCopier :=
  mkZeroCopier (m_source_path z) (m_target_fd z) (m_failure_counter z) (m_source_available z)
    (m_total_bytes z) (m_offset z) true (m_source z) (m_source_pos z).

(** [mark_abort]: pretend that everything was sent. *)
Definition mark_abort (z : ZeroCopier) : ZeroCopier :=
  mkZeroCopier (m_source_path z) (m_target_fd z) (m_failure_counter z) (m_source_available z)
    (Some 0) (Some 0) (m_started z) (m_source z) (m_source_pos z).

Definition to_abort (z : ZeroCopier) : outcome bool :=
  t ← member (m_total_bytes z); o ← member (m_offset z); Ok ((t =? 0) && (o =? 0)).

Definition set_failures (n : Z) (z : ZeroCopier) : ZeroCopier :=
  mkZeroCopier (m_source_path z) (m_target_fd z) n (m_source_available z)
    (m_total_bytes z) (m_offset z) (m_started z) (m_source z) (m_source_pos z).

Definition advance (off pos : Z) (z : ZeroCopier) : ZeroCopier :=
  mkZeroCopier (m_source_path z) (m_target_fd z) (m_failure_counter z) (m_source_available z)
    (m_total_bytes z) (Some off) (m_started z) (m_source z) pos.

(** What the system calls of one chunk are willing to do: transfer at most that
    many bytes, or, when negative, fail. *)
Record chunk_answer : Type := mkAnswer {
  a_sendfile : Z;
  a_mmap_ok : bool;
  a_send : Z;
  a_munmap_ok : bool;
  a_read : Z;
  a_write : Z
}.

(** A transfer out of [mem] when [count] bytes are asked for and the call is
    willing to move [k]: sendfile(2) and read(2) stop at the end of the file,
    send(2) and write(2) at the first byte that cannot be read. *)
Definition sys_transfer (mem : bytes) (count k : Z) : Z * bytes :=
  if k <? 0 then (-1, [])
  else let d := take (Z.to_nat (Z.min k count)) mem in (len d, d).

Definition page_round (n : Z) : Z := (n + PAGESIZE - 1) / PAGESIZE * PAGESIZE.

(** The memory that mmap(2) of [length] bytes of the file from [offset] on
    yields: whole pages, the last page of the file filled up with zeros, and
    nothing readable behind it. *)
Definition sys_mmap (file : bytes) (offset length : Z) : bytes :=
  let d := drop (Z.to_nat offset) file in
  take (Z.to_nat (page_round length)) (d ++ replicate (Z.to_nat (page_round (len d) - len d)) NUL).

(** [send_one_chunk_zerocopy]: sendfile(2) reads at [m_offset] and advances it. *)
Definition send_one_chunk_zerocopy (a : chunk_answer) (z : ZeroCopier) (bytes_to_send : Z)
    : outcome (Z * ZeroCopier * bytes) :=
  o ← member (m_offset z);
  let '(n, d) := sys_transfer (drop (Z.to_nat o) (m_source z)) bytes_to_send (a_sendfile a) in
  if 0 <=? n then Ok (n, advance (o + n) (m_source_pos z) z, d)
  else Ok (-1, z, []).

(** [send_one_chunk_mmap]: mmap(2) and munmap(2) refuse an empty range. *)
Definition send_one_chunk_mmap (a : chunk_answer) (z : ZeroCopier) (bytes_to_send : Z)
    : outcome (Z * ZeroCopier * bytes) :=
  o ← member (m_offset z);
  let page_offset := (o / PAGESIZE) * PAGESIZE in
  let gap := o - page_offset in
  let length := gap + bytes_to_send in
  if negb (a_mmap_ok a && (0 <? length)) then Ok (-1, z, [])
  else
    let start := drop (Z.to_nat gap) (sys_mmap (m_source z) page_offset length) in
    let '(n, d) := sys_transfer start bytes_to_send (a_send a) in
    if 0 <? n then
      let z' := advance (o + n) (m_source_pos z) z in
      if a_munmap_ok a && (0 <? bytes_to_send) then Ok (n, z', d) else Ok (-1, z', d)
    else Ok (-1, z, []).

(** [send_one_chunk_rw]: read(2) advances the position of the descriptor by
    what it read, [m_offset] advances by what write(2) took.  The static buffer
    has room for a chunk. *)
Definition send_one_chunk_rw (a : chunk_answer) (z : ZeroCopier) (bytes_to_send : Z)
    : outcome (Z * ZeroCopier * bytes) :=
  o ← member (m_offset z);
  let pos := m_source_pos z in
  let '(bytes_read, buffer) := sys_transfer (drop (Z.to_nat pos) (m_source z)) bytes_to_send (a_read a) in
  if bytes_read =? -1 then Ok (-1, z, [])
  else
    let '(sent, d) := sys_transfer buffer bytes_read (a_write a) in
    let z' := advance (if 0 <? sent then o + sent else o) (pos + bytes_read) z in
    Ok (sent, z', d).

(** The [switch (g_copy_mode)]. *)
Definition send_by_mode (mode : CopyMode) (a : chunk_answer) (z : ZeroCopier) (bytes_to_send : Z)
    : outcome (Z * ZeroCopier * bytes) :=
  match mode with
  | kZeroCopy => send_one_chunk_zerocopy a z bytes_to_send
  | kMMap => send_one_chunk_mmap a z bytes_to_send
  | kReadWrite => send_one_chunk_rw a z bytes_to_send
  end.

(** [send_one_chunk]: the result as [size_t], and what reached the socket. *)
Definition send_one_chunk (mode : CopyMode) (chunk_size : Z) (a : chunk_answer) (z : ZeroCopier)
    : outcome (Z * ZeroCopier * bytes) :=
  v ← is_valid z;
  if negb v || negb (m_started z) then Ok (u64 (-1), z, [])
  else
    r ← remaining_bytes z;
    if r <=? 0 then Ok (0, z, [])
    else
      let bytes_to_send := Z.min chunk_size r in
      '(n, z, sent) ← send_by_mode mode a z bytes_to_send;
      if n <? 0 then
        let z := set_failures (m_failure_counter z + 1) z in
        if kMaxTrial <=? m_failure_counter z then Ok (u64 (-1), mark_abort z, sent)
        else Ok (u64 n, z, sent)
      else Ok (n, set_failures 0 z, sent).

(** ** The settings of the class *)

Record copy_globals : Type := mkGlobals { g_chunk_size : Z; g_copy_mode : CopyMode }.

Definition initial_globals : copy_globals := mkGlobals 1024 kZeroCopy.
Definition set_chunk_size (chunk_size : Z) (g : copy_globals) : copy_globals := mkGlobals chunk_size (g_copy_mode g).
Definition set_g_copy_mode (on : CopyMode) (g : copy_globals) : copy_globals := mkGlobals (g_chunk_size g) on.

(** Whether [send_one_chunk] gets to its switch. *)
Definition reaches_switch (z : ZeroCopier) : outcome bool :=
  v ← is_valid z;
  if negb v || negb (m_started z) then Ok false
  else r ← remaining_bytes z; Ok (0 <? r).

(** [send_one_chunk] with the settings: the mmap branch sets [g_chunk_size]. *)
Definition send_with_globals (a : chunk_answer) (g : copy_globals) (z : ZeroCopier)
    : outcome (copy_globals * ZeroCopier * bytes) :=
  reached ← reaches_switch z;
  '(_, z, sent) ← send_one_chunk (g_copy_mode g) (g_chunk_size g) a z;
  let g := match g_copy_mode g with kMMap => if reached : bool then set_chunk_size (1 * 1024) g else g | _ => g end in
  Ok (g, z, sent).

(** * Sending the whole file *)

(** What happens to the settings and to a copier that is sending. *)
Inductive copier_event : Type :=
| CSetChunk (n : Z)
| CSetMode (m : CopyMode)
| CSend (a : chunk_answer).

Fixpoint run_copier (l : list copier_event) (g : copy_globals) (z : ZeroCopier) : outcome (ZeroCopier * bytes) :=
  match l with
  | [] => Ok (z, [])
  | CSetChunk n :: l => run_copier l (set_chunk_size n g) z
  | CSetMode m :: l => run_copier l (set_g_copy_mode m g) z
  | CSend a :: l =>
      '(g, z, sent) ← send_with_globals a g z;
      '(z, rest) ← run_copier l g z;
      Ok (z, sent ++ rest)
  end.

(** A chunk size is a [size_t], and the read/write mode is not used. *)
Definition globals_ok (g : copy_globals) : Prop := 0 <= g_chunk_size g < 2 ^ 64 /\ g_copy_mode g <> kReadWrite.
Definition copier_event_ok (ev : copier_event) : Prop :=
  match ev with CSetChunk n => 0 <= n < 2 ^ 64 | CSetMode m => m <> kReadWrite | CSend _ => True end.

(** Events that move the transfer on: a chunk size that is not zero, system
    calls that succeed and transfer something. *)
Definition moving (ev : copier_event) : Prop :=
  match ev with
  | CSetChunk n => 0 < n
  | CSetMode _ => True
  | CSend a => 0 < a_sendfile a /\ a_mmap_ok a = true /\ 0 < a_send a /\ a_munmap_ok a = true
  end.
Definition is_send (ev : copier_event) : bool := match ev with CSend _ => true | _ => false end.

(** A copier that is sending, at offset [o]. *)
Record sending (z : ZeroCopier) (o : Z) : Prop := {
  s_avail : m_source_available z = true;
  s_target : exists t, m_target_fd z = Some t /\ t <> -1;
  s_started : m_started z = true;
  s_total : m_total_bytes z = Some (len (m_source z));
  s_offset : m_offset z = Some o;
  s_range : 0 <= o <= len (m_source z);
  s_size : len (m_source z) < 2 ^ 63
}.

Lemma sending_valid z o : sending z o -> is_valid z = Ok true.
Proof.
  intros [A (t & T & Ht) _ _ _ _ _]. unfold is_valid. rewrite A, T. simpl.
  by rewrite (proj2 (Z.eqb_neq _ _)).
Qed.

Lemma sending_remaining z o : sending z o -> remaining_bytes z = Ok (len (m_source z) - o).
Proof.
  intros [_ _ _ T O R S]. unfold remaining_bytes. rewrite T, O. simpl.
  rewrite sw_small; [done|lia|unfold in_sw; lia].
Qed.

(** The copier gave up: it pretends to have finished. *)
Definition aborted (z : ZeroCopier) : Prop :=
  is_valid z = Ok true /\ m_started z = true /\ m_total_bytes z = Some 0 /\ m_offset z = Some 0.

(** [sent] is what the file has from [o] on. *)
Definition next_bytes (z : ZeroCopier) (o : Z) (sent : bytes) : Prop :=
  sent = slice (m_source z) o (o + len sent) /\ o + len sent <= len (m_source z).

Lemma nothing_sent z o : sending z o -> sending z (o + len (@nil byte)) /\ next_bytes z o [].
Proof.
  intros S. pose proof (s_range _ _ S). unfold next_bytes.
  rewrite len_nil, Z.add_0_r, slice_empty by lia. split_and!; [done|done|lia].
Qed.

(** The transfer of [n] bytes of the file from [o] on. *)
Lemma advance_sending z o n pos d :
  sending z o -> d = take (Z.to_nat n) (drop (Z.to_nat o) (m_source z)) ->
  sending (advance (o + len d) pos z) (o + len d) /\ next_bytes z o d.
Proof.
  intros S ->. pose proof (s_range _ _ S). set (d := take _ _).
  assert (len d <= len (m_source z) - o) as Hl.
  { subst d. unfold len in *. rewrite length_take, length_drop. lia. }
  split.
  - destruct S. constructor; simpl; try done. len_pose. lia.
  - split; [|lia]. unfold slice. replace (Z.to_nat (o + len d - o)) with (length d) by (unfold len; lia).
    subst d. rewrite length_take. rewrite <- firstn_firstn, firstn_all. done.
Qed.

(** Inside of the file the mapping shows the file. *)
Lemma sys_mmap_file file o count n :
  0 <= o <= len file -> 0 <= n <= count -> n <= len file - o ->
  let page_offset := o / PAGESIZE * PAGESIZE in
  take (Z.to_nat n) (drop (Z.to_nat (o - page_offset)) (sys_mmap file page_offset (o - page_offset + count)))
  = take (Z.to_nat n) (drop (Z.to_nat o) file).
Proof.
  intros Ho Hn Hle page_offset. unfold sys_mmap. set (gap := o - page_offset).
  assert (0 <= page_offset <= o) as Hp by (subst page_offset; unfold PAGESIZE; pose proof (Z.div_mod o 4096); pose proof (Z.mod_pos_bound o 4096); lia).
  assert (gap + count <= page_round (gap + count)) as Hr by (unfold page_round, PAGESIZE; pose proof (Z.div_mod (gap + count + 4096 - 1) 4096); pose proof (Z.mod_pos_bound (gap + count + 4096 - 1) 4096); lia).
  rewrite skipn_firstn_comm, firstn_firstn.
  replace (Nat.min (Z.to_nat n) (Z.to_nat (page_round (gap + count)) - Z.to_nat gap)) with (Z.to_nat n) by lia.
  rewrite drop_app_le by (unfold len in *; rewrite length_drop; lia).
  rewrite drop_drop. replace (Z.to_nat page_offset + Z.to_nat gap)%nat with (Z.to_nat o) by lia.
  rewrite take_app_le; [done|]. unfold len in *. rewrite length_drop. lia.
Qed.

Definition answer_moves (a : chunk_answer) : Prop := moving (CSend a).

Lemma sys_transfer_moves mem count k :
  0 < k -> 0 < count -> mem <> [] -> 0 < len (sys_transfer mem count k).2.
Proof.
  intros Hk Hc Hm. unfold sys_transfer. rewrite (proj2 (Z.ltb_ge _ _)) by lia. simpl.
  destruct mem as [|x mem]; [done|]. destruct (Z.to_nat (Z.min k count)) eqn:E; [lia|]. simpl. len_lia.
Qed.

Lemma rest_nonempty (l : bytes) o : 0 <= o < len l -> drop (Z.to_nat o) l <> [].
Proof. intros Ho E. apply (f_equal length) in E. rewrite length_drop in E. unfold len in Ho. simpl in E. lia. Qed.

Lemma zerocopy_spec a z o want :
  sending z o ->
  exists n z' sent, send_one_chunk_zerocopy a z want = Ok (n, z', sent) /\
    m_source z' = m_source z /\ sending z' (o + len sent) /\ next_bytes z o sent /\
    (answer_moves a -> 0 < want -> o < len (m_source z) -> 0 <= n /\ 0 < len sent).
Proof.
  intros S. unfold send_one_chunk_zerocopy. rewrite (s_offset _ _ S). cbn. pose proof (s_range _ _ S).
  pose proof (sys_transfer_moves (drop (Z.to_nat o) (m_source z)) want (a_sendfile a)) as Hmv.
  unfold sys_transfer in *. destruct (Z.ltb_spec (a_sendfile a) 0); simpl in *.
  - do 3 eexists. split; [done|]. split; [done|]. destruct (nothing_sent z o S). split_and!; [done..|].
    intros (Hk & _). lia.
  - rewrite (proj2 (Z.leb_le _ _)) by apply len_nonneg. do 3 eexists. split; [done|]. split; [done|].
    destruct (advance_sending z o (Z.min (a_sendfile a) want) (m_source_pos z) _ S eq_refl) as [Sd Nd]. split_and!; [done..|].
    intros (Hk & _) Hw Ho. split; [apply len_nonneg|]. apply Hmv; [done|done|]. apply rest_nonempty. lia.
Qed.

Lemma mmap_spec a z o want :
  sending z o -> 0 <= want <= len (m_source z) - o ->
  exists n z' sent, send_one_chunk_mmap a z want = Ok (n, z', sent) /\
    m_source z' = m_source z /\ sending z' (o + len sent) /\ next_bytes z o sent /\
    (answer_moves a -> 0 < want -> o < len (m_source z) -> 0 <= n /\ 0 < len sent).
Proof.
  intros S Hw. unfold send_one_chunk_mmap. rewrite (s_offset _ _ S). cbn. pose proof (s_range _ _ S) as Ho.
  pose proof (nothing_sent z o S) as [S0 N0].
  assert (0 <= o - o / PAGESIZE * PAGESIZE) as Hg by (unfold PAGESIZE; pose proof (Z.div_mod o 4096); pose proof (Z.mod_pos_bound o 4096); lia).
  destruct (a_mmap_ok a) eqn:Em; cbn.
  2:{ do 3 eexists. split_and!; [done..|]. intros (_ & ? & _). congruence. }
  destruct (Z.ltb_spec 0 (o - o / PAGESIZE * PAGESIZE + want)) as [Hl|Hl]; cbn.
  2:{ do 3 eexists. split_and!; [done..|]. lia. }
  unfold sys_transfer. destruct (Z.ltb_spec (a_send a) 0) as [Hk|Hk]; cbn.
  { do 3 eexists. split_and!; [done..|]. intros (_ & _ & ? & _). lia. }
  rewrite sys_mmap_file by lia. set (d := take _ _).
  pose proof (advance_sending z o (Z.min (a_send a) want) (m_source_pos z) d S eq_refl) as [Sd Nd].
  assert (answer_moves a -> 0 < want -> o < len (m_source z) -> 0 < len d) as Hmv.
  { intros (_ & _ & Hk2 & _) Hw2 Ho2. pose proof (rest_nonempty (m_source z) o ltac:(lia)) as Hne.
    pose proof (sys_transfer_moves _ want (a_send a) Hk2 Hw2 Hne) as Hmv. unfold sys_transfer in Hmv.
    by rewrite (proj2 (Z.ltb_ge _ _)) in Hmv by lia. }
  destruct (Z.ltb_spec 0 (len d)) as [Hd|Hd].
  - destruct (a_munmap_ok a && _) eqn:Eu; do 3 eexists; (split_and!; [done..|]); [intros; split; [lia|done]|].
    intros (_ & _ & _ & Hu) Hw2 _. rewrite Hu, (proj2 (Z.ltb_lt 0 want)) in Eu by done. done.
  - do 3 eexists. split_and!; [done..|]. intros (? & _ & ? & ?) Hw2 Ho2. assert (0 < len d) by (apply Hmv; done). lia.
Qed.

Lemma send_one_chunk_spec mode chunk a z o :
  mode <> kReadWrite -> sending z o -> 0 <= chunk ->
  exists r z' sent, send_one_chunk mode chunk a z = Ok (r, z', sent) /\ m_source z' = m_source z /\
    next_bytes z o sent /\ (sending z' (o + len sent) \/ aborted z') /\
    (answer_moves a -> 0 < chunk -> sending z' (o + len sent) /\ (o < len (m_source z) -> 0 < len sent)).
Proof.
  intros Hm S Hc. unfold send_one_chunk. rewrite (sending_valid z o S). cbn.
  rewrite (s_started _ _ S), (sending_remaining z o S). cbn.
  destruct (Z.leb_spec (len (m_source z) - o) 0) as [Hle|Hgt].
  { do 3 eexists. destruct (nothing_sent z o S). split_and!; [done..|by left|split; [done|lia]]. }
  assert (exists n z' sent, send_by_mode mode a z (Z.min chunk (len (m_source z) - o)) = Ok (n, z', sent) /\
    m_source z' = m_source z /\ sending z' (o + len sent) /\ next_bytes z o sent /\
    (answer_moves a -> 0 < chunk -> 0 <= n /\ 0 < len sent)) as (n & z1 & sent & -> & Hs1 & S1 & Hn & Hmv).
  { destruct mode; [| |done]; simpl;
      [destruct (zerocopy_spec a z o (Z.min chunk (len (m_source z) - o)) S) as (n & z1 & sent & E & ? & ? & ? & Hmv)
      |destruct (mmap_spec a z o (Z.min chunk (len (m_source z) - o)) S) as (n & z1 & sent & E & ? & ? & ? & Hmv); [lia|]];
      exists n, z1, sent; (split_and!; [done..|]); intros; apply Hmv; first [done | lia]. }
  cbn. destruct (Z.ltb_spec n 0); [destruct (kMaxTrial <=? _)|]; do 3 eexists;
    (split; [done|]; split; [done|]; split; [done|]); split; try (intros Ha Hc2; destruct (Hmv Ha Hc2)).
  - right. pose proof (sending_valid _ _ S1). destruct S1. by split_and!.
  - lia.
  - left. by destruct S1.
  - lia.
  - left. by destruct S1.
  - split; [|done]. by destruct S1.
Qed.

Lemma aborted_stays mode chunk a z :
  aborted z -> send_one_chunk mode chunk a z = Ok (0, z, []).
Proof.
  intros (V & St & T & O). unfold send_one_chunk. rewrite V. cbn. rewrite St.
  unfold remaining_bytes. rewrite T, O. done.
Qed.

Lemma aborted_run l g z : aborted z -> run_copier l g z = Ok (z, []).
Proof.
  intros A. revert g. induction l as [|[n|m|a] l IH]; intros g; cbn [run_copier]; [done|apply IH|apply IH|].
  unfold send_with_globals, reaches_switch. rewrite aborted_stays by done.
  destruct A as (V & St & T & O). rewrite V. cbn. rewrite St. unfold remaining_bytes. rewrite T, O. cbn.
  by rewrite IH.
Qed.

(** One [send_one_chunk] with the settings of the class. *)
Lemma send_with_globals_spec a g z o :
  globals_ok g -> sending z o ->
  exists g' z' sent, send_with_globals a g z = Ok (g', z', sent) /\ globals_ok g' /\
    (0 < g_chunk_size g -> 0 < g_chunk_size g') /\ m_source z' = m_source z /\ next_bytes z o sent /\
    (sending z' (o + len sent) \/ aborted z') /\
    (answer_moves a -> 0 < g_chunk_size g -> sending z' (o + len sent) /\ (o < len (m_source z) -> 0 < len sent)).
Proof.
  intros [Hc Hm] S. unfold send_with_globals, reaches_switch. rewrite (sending_valid z o S). cbn.
  rewrite (s_started _ _ S), (sending_remaining z o S). cbn.
  destruct (send_one_chunk_spec (g_copy_mode g) (g_chunk_size g) a z o Hm S ltac:(lia))
    as (r & z1 & sent & -> & Hs & Hn & Hz & Hmv). cbn.
  do 3 eexists. split; [done|]. split; [|split; [|done]].
  - destruct (g_copy_mode g) eqn:Eg; [by split; rewrite ?Eg|case_match; [split; simpl; [lia|by rewrite Eg]|by split; rewrite ?Eg]|done].
  - destruct (g_copy_mode g); [done|case_match; simpl; lia|done].
Qed.

(** The bytes of one step followed by those of the rest. *)
Lemma next_bytes_app z z1 o sent rest :
  0 <= o -> m_source z1 = m_source z -> next_bytes z o sent -> next_bytes z1 (o + len sent) rest ->
  next_bytes z o (sent ++ rest).
Proof.
  intros Ho Hs [Hn1 Hn2] [Hr1 Hr2]. rewrite Hs in *. unfold next_bytes. rewrite len_app, Z.add_assoc.
  split; [|lia]. rewrite (slice_split _ o (o + len sent)) by (len_pose; lia). by f_equal.
Qed.

Lemma run_copier_spec l g z o :
  globals_ok g -> Forall copier_event_ok l -> sending z o ->
  exists z' sent, run_copier l g z = Ok (z', sent) /\ m_source z' = m_source z /\ next_bytes z o sent /\
    (sending z' (o + len sent) \/ aborted z') /\
    (0 < g_chunk_size g -> Forall moving l -> len (m_source z) - o <= len (List.filter is_send l) ->
       o + len sent = len (m_source z) /\ sending z' (o + len sent)).
Proof.
  revert g z o. induction l as [|ev l IH]; intros g z o Hg Hl S.
  { do 2 eexists. destruct (nothing_sent z o S) as [S0 N0]. split_and!; [done..|by left|].
    intros _ _ Hle. split; [|done]. pose proof (s_range _ _ S). change (len (List.filter is_send [])) with 0 in Hle. rewrite len_nil. lia. }
  apply Forall_cons in Hl as [Hev Hl]. destruct ev as [n|m|a]; cbn [run_copier].
  - destruct (IH (set_chunk_size n g) z o) as (z' & sent & E & Hs & Hn & Hz & Hf); [by destruct Hg|done|done|].
    exists z', sent. split_and!; [done..|]. intros _ [? ?]%Forall_cons. by apply Hf.
  - destruct (IH (set_g_copy_mode m g) z o) as (z' & sent & E & Hs & Hn & Hz & Hf); [by destruct Hg|done|done|].
    exists z', sent. split_and!; [done..|]. intros Hc [? ?]%Forall_cons. by apply Hf.
  - destruct (send_with_globals_spec a g z o Hg S) as (g1 & z1 & sent & -> & Hg1 & Hc1 & Hs1 & Hn1 & Hz1 & Hmv). cbn.
    pose proof (s_range _ _ S) as Hr. destruct Hz1 as [S1|A1].
    + destruct (IH g1 z1 (o + len sent) Hg1 Hl S1) as (z2 & rest & -> & Hs2 & Hn2 & Hz2 & Hf). cbn.
      exists z2, (sent ++ rest). rewrite len_app, Z.add_assoc.
      split_and!; [done|congruence|by eapply next_bytes_app; [lia|..]|done|].
      intros Hc [Ha Hmvs]%Forall_cons Hle. rewrite <- Hs1. apply Hf; [by apply Hc1|done|].
      cbn [List.filter is_send] in Hle. rewrite len_cons in Hle. rewrite Hs1.
      destruct (Hmv Ha Hc) as [_ Hpos]. len_pose. lia.
    + rewrite (aborted_run l g1 z1 A1). cbn. exists z1, sent. rewrite app_nil_r. split_and!; [done..|by right|].
      intros Hc [Ha _]%Forall_cons _. destruct (Hmv Ha Hc) as [S1 _]. destruct A1 as (_ & _ & T & O).
      pose proof (s_offset _ _ S1) as O1. pose proof (s_total _ _ S1) as T1.
      rewrite O in O1. rewrite T, Hs1 in T1. injection O1 as O1. injection T1 as T1. split; [lia|done].
Qed.

Lemma sending_finished z o : sending z o -> has_finished z = Ok (o =? len (m_source z)).
Proof.
  intros S. unfold has_finished. rewrite (sending_valid z o S). cbn. rewrite (s_started _ _ S). cbn.
  rewrite (s_avail _ _ S). cbn. rewrite (s_offset _ _ S), (s_total _ _ S). cbn.
  rewrite uw_small; [done|]. destruct S. unfold in_uw. lia.
Qed.

(** C16: by sendfile or by mmap, a file arrives in order and complete.  A
    started copier whose file was opened is sent chunk by chunk, while the
    settings of the class are changed in any way between the modes sendfile and
    mmap and to any chunk sizes, and the system calls fail or transfer as few
    bytes as they like.  Every call returns; what reached the socket is a prefix
    of the file, never a byte behind its end; when the copier says that it has
    finished it is the whole file, unless the copier gave up after [kMaxTrial]
    failures in a row; and when the calls transfer something each, as many calls
    as the file has bytes send all of it. *)
Theorem copier_sends_file (l : list copier_event) (path content : bytes) (fd : Z) :
  Forall copier_event_ok l -> fd <> -1 -> len content < 2 ^ 63 ->
  let z := start (set_target_fd fd (new_ZeroCopier path (Opened content))) in
  exists z' sent, run_copier l initial_globals z = Ok (z', sent) /\ sent `prefix_of` content /\
    (has_finished z' = Ok true -> to_abort z' = Ok false -> sent = content) /\
    (Forall moving l -> len content <= len (List.filter is_send l) -> sent = content /\ has_finished z' = Ok true).
Proof.
  intros Hl Hfd Hlen z.
  assert (sending z 0) as S by (constructor; simpl; eauto; len_pose; lia).
  destruct (run_copier_spec l initial_globals z 0 ltac:(by split) Hl S) as (z' & sent & E & Hs & (Hn & Hle) & Hz & Hf).
  rewrite Z.add_0_l, ?Z.sub_0_r in *. change (m_source z) with content in *. exists z', sent. split; [done|].
  assert (sent = take (length sent) content) as Ht.
  { etransitivity; [exact Hn|]. unfold slice. change (Z.to_nat 0) with 0%nat.
    rewrite drop_0, Z.sub_0_r. unfold len. by rewrite Nat2Z.id. }
  assert (len sent = len content -> sent = content) as Hall.
  { intros Hl2. rewrite Ht. apply take_ge. unfold len in Hl2. lia. }
  split_and!; [rewrite Ht; apply prefix_take| |].
  - intros Hfin Hab. destruct Hz as [S'|(_ & _ & T & O)].
    + rewrite (sending_finished _ _ S') in Hfin. injection Hfin as Hfin. apply Z.eqb_eq in Hfin. rewrite Hs in Hfin. auto.
    + unfold to_abort in Hab. by rewrite T, O in Hab.
  - intros Hmv Hcount. destruct (Hf ltac:(done) Hmv Hcount) as [Hl2 S']. split; [auto|].
    rewrite (sending_finished _ _ S'), Hs, Hl2, Z.eqb_refl. done.
Qed.

(** Two chunks by sendfile, one by mmap. *)
Lemma copier_sends_file_witness :
  let a := mkAnswer 2 true 3 true 0 0 in
  let l := [CSetChunk 4; CSend a; CSend (mkAnswer 7 true 3 true 0 0); CSetMode kMMap; CSend a; CSend a; CSend a] in
  let z := start (set_target_fd 7 (new_ZeroCopier (lit "f") (Opened (lit "hello")))) in
  exists z' sent, run_copier l initial_globals z = Ok (z', sent) /\ sent = lit "hello" /\ has_finished z' = Ok true.
Proof.
  intros a l z. destruct (copier_sends_file l (lit "f") (lit "hello") 7) as (z' & sent & E & _ & _ & Hall).
  - subst l. repeat (apply Forall_cons; split; [simpl; first [lia | done]|]). by apply Forall_nil.
  - done.
  - done.
  - exists z', sent. split; [exact E|]. apply Hall; [|done].
    subst l. repeat (apply Forall_cons; split; [simpl; first [lia | done]|]). by apply Forall_nil.
Defined.

(** The constructor writes past its buffer exactly when a file that cannot be
    opened has a path of more than 80 bytes. *)
Theorem long_path_overflows path r :
  construct_ZeroCopier path r = Fail FBounds <-> r = OpenFailed /\ 80 < len path.
Proof.
  unfold construct_ZeroCopier, open_error_text, require. destruct r; [|simpl; by intuition..].
  rewrite !len_app. change (len (lit "Cannot open file: ")) with 18. change (len (lit "!")) with 1.
  destruct (Z.leb_spec (18 + (len path + 1) + 1) 100); cbn; intuition (congruence || lia).
Qed.

Lemma rw_step chunk z o k j a :
  sending z o -> 0 <= m_source_pos z -> a_read a = k -> a_write a = j -> 0 < j <= k ->
  k <= Z.min chunk (len (m_source z) - o) -> k <= len (m_source z) - m_source_pos z ->
  send_one_chunk kReadWrite chunk a z
  = Ok (j, set_failures 0 (advance (o + j) (m_source_pos z + k) z),
        slice (m_source z) (m_source_pos z) (m_source_pos z + j)).
Proof.
  intros S Hpos Hr Hw Hj Hk Hk2. unfold send_one_chunk. rewrite (sending_valid z o S). cbn.
  rewrite (s_started _ _ S), (sending_remaining z o S). cbn. rewrite (proj2 (Z.leb_gt _ _)) by lia.
  unfold send_one_chunk_rw, sys_transfer. rewrite (s_offset _ _ S). cbn. rewrite Hr, Hw.
  rewrite (proj2 (Z.ltb_ge k 0)), (proj2 (Z.ltb_ge j 0)) by lia. cbn.
  set (d := drop _ _). assert (length d = Z.to_nat (len (m_source z) - m_source_pos z)) as Hd.
  { subst d. rewrite length_drop. unfold len. lia. }
  assert (len (take (Z.to_nat (Z.min k (Z.min chunk (len (m_source z) - o)))) d) = k) as Hlk.
  { unfold len at 1. rewrite length_take. lia. }
  rewrite Hlk, (proj2 (Z.eqb_neq k (-1))) by lia. rewrite firstn_firstn.
  assert (len (take (Nat.min (Z.to_nat (Z.min j k)) (Z.to_nat (Z.min k (Z.min chunk (len (m_source z) - o))))) d) = j) as Hlj.
  { unfold len at 1. rewrite length_take. lia. }
  rewrite Hlj, (proj2 (Z.ltb_lt 0 j)), bind_ok, (proj2 (Z.ltb_ge j 0)) by lia.
  do 2 f_equal. unfold slice. fold d. f_equal. lia.
Qed.

(** By read and write, a short write loses data.  When the socket takes
    only [j] of the [k] bytes that were read, the descriptor is already past all
    [k] of them: the next chunk starts at [o + k] of the file, while
    [m_offset] says [o + j], and the [k - j] bytes in between are never sent. *)
Theorem rw_short_write_skips (chunk : Z) (z : ZeroCopier) (o k j n : Z) (a1 a2 : chunk_answer) :
  sending z o -> m_source_pos z = o ->
  a_read a1 = k -> a_write a1 = j -> 0 < j < k -> k <= Z.min chunk (len (m_source z) - o) ->
  a_read a2 = n -> a_write a2 = n -> 0 < n <= Z.min chunk (len (m_source z) - (o + k)) ->
  exists z1 z', send_one_chunk kReadWrite chunk a1 z = Ok (j, z1, slice (m_source z) o (o + j)) /\
    send_one_chunk kReadWrite chunk a2 z1 = Ok (n, z', slice (m_source z) (o + k) (o + k + n)) /\
    m_offset z' = Some (o + j + n) /\ m_source_pos z' = o + k + n.
Proof.
  intros S Hpos Hr1 Hw1 Hj Hk Hr2 Hw2 Hn. pose proof (s_range _ _ S).
  rewrite (rw_step chunk z o k j a1 S) by lia. rewrite Hpos.
  set (z1 := set_failures _ _).
  assert (sending z1 (o + j)) as S1 by (destruct S; constructor; simpl; try done; lia).
  do 2 eexists. split; [done|].
  rewrite (rw_step chunk z1 (o + j) n n a2 S1) by (simpl; lia). simpl. done.
Qed.

Lemma rw_short_write_skips_witness :
  let z := start (set_target_fd 7 (new_ZeroCopier (lit "f") (Opened (lit "abcdef")))) in
  exists z1 z', send_one_chunk kReadWrite 4 (mkAnswer 0 true 0 true 4 1) z = Ok (1, z1, lit "a") /\
    send_one_chunk kReadWrite 4 (mkAnswer 0 true 0 true 2 2) z1 = Ok (2, z', lit "ef").
Proof.
  intros z. destruct (rw_short_write_skips 4 z 0 4 1 2 (mkAnswer 0 true 0 true 4 1) (mkAnswer 0 true 0 true 2 2))
    as (z1 & z' & E1 & E2 & _); try done.
  - by constructor; simpl; eauto.
  - exists z1, z'. split; [exact E1|exact E2].
Defined.
