(* ===== verification/TcpConnection.v ===== *)
(** [flute/net/TcpConnection.{h,cc}]: one connection of a reactor: the state
    machine of the connection, the sending of the output buffer and of a file,
    and the shutdown sequences.

    [conn_env] is the connection with what it shares: the poller and the store
    of channels, the tasks and timers it hands to its reactor, what it has
    written to the socket, and the user callbacks that were called.  A callback
    is user code: it makes the calls that [react] gives, in the loop thread.
    Calls from other threads ([in_loop = false]) leave a task. *)

From Stdlib Require Import Floats.SpecFloat.
From S2P Require Import Prelude OrdContainers StringPiece Endian Buffer Channel Poller EPollPoller Format Timestamp ZeroCopier.

Inductive TCPConnectionState : Type := kDisconnected | kConnecting | kConnected | kDisconnecting.
Inductive TCPSendingState : Type := kSendingBuffer | kSendingFile | kNotSending | kSendingFinished.

#[global] Instance TCPConnectionState_eq_dec : EqDecision TCPConnectionState.
Proof. solve_decision. Defined.
#[global] Instance TCPSendingState_eq_dec : EqDecision TCPSendingState.
Proof. solve_decision. Defined.

Record TcpConnection : Type := mkTcpConnection {
  m_loop : pid_t;                        (* m_reactor *)
  m_conn_state : TCPConnectionState;
  m_sending_state : TCPSendingState;
  m_is_reading : bool;
  m_channel : chan_ptr;
  m_has_write_complete : bool;           (* m_write_complete_callback is set *)
  m_has_high_watermark : bool;           (* m_high_watermark_callback is set *)
  m_highwater_mark : Z;
  m_input_buffer : Buffer;
  m_output_buffer : Buffer;
  m_zero_copier_ptr : option ZeroCopier
}.

(** The user callbacks, as they are called. *)
Inductive notice : Type :=
| NConn (up : bool)      (* m_conn_callback; conn->connected() *)
| NMessage               (* m_message_callback *)
| NClose.                (* m_close_callback *)

(** Tasks given to the reactor. *)
Inductive conn_task : Type :=
| TSend (message : bytes)
| TShutdown
| TShutdownForceAfter (seconds : double)
| TForceClose
| TStartRead
| TStopRead
| TWriteComplete
| THighWater (n : Z).

(** Timers given to the reactor: the weak callbacks. *)
Inductive conn_timer : Type :=
| MForceCloseInReactor (seconds : double)
| MForceClose (seconds : double).

(** The calls that users make on a connection. *)
Inductive user_call : Type :=
| USend (data : bytes)
| UShutdown
| UShutdownForceAfter (seconds : double)
| UForceClose
| UForceCloseDelay (seconds : double)
| UStartRead
| UStopRead
| UZeroCopy (z : ZeroCopier)
| URetrieve (n : Z).     (* consuming the input buffer *)

Record conn_env (P : Type) : Type := mkEnv {
  e_conn : TcpConnection;
  e_poller : P;
  e_chans : chans;
  e_tasks : list conn_task;
  e_timers : list conn_timer;
  e_wire : list (bool * bytes);      (* written to the socket; true: from a file *)
  e_accepted : bytes;                (* put into the output buffer so far *)
  e_shut : option bytes;             (* e_accepted when shutdown_write was called *)
  e_trace : list notice
}.
Arguments mkEnv {P}.
Arguments e_conn {P}.
Arguments e_poller {P}.
Arguments e_chans {P}.
Arguments e_tasks {P}.
Arguments e_timers {P}.
Arguments e_wire {P}.
Arguments e_accepted {P}.
Arguments e_shut {P}.
Arguments e_trace {P}.

(** * Record updates *)

Definition set_state (s : TCPConnectionState) (c : TcpConnection) : TcpConnection :=
  mkTcpConnection (m_loop c) s (m_sending_state c) (m_is_reading c) (m_channel c) (m_has_write_complete c)
    (m_has_high_watermark c) (m_highwater_mark c) (m_input_buffer c) (m_output_buffer c) (m_zero_copier_ptr c).
Definition set_sending (s : TCPSendingState) (c : TcpConnection) : TcpConnection :=
  mkTcpConnection (m_loop c) (m_conn_state c) s (m_is_reading c) (m_channel c) (m_has_write_complete c)
    (m_has_high_watermark c) (m_highwater_mark c) (m_input_buffer c) (m_output_buffer c) (m_zero_copier_ptr c).
Definition set_reading (b : bool) (c : TcpConnection) : TcpConnection :=
  mkTcpConnection (m_loop c) (m_conn_state c) (m_sending_state c) b (m_channel c) (m_has_write_complete c)
    (m_has_high_watermark c) (m_highwater_mark c) (m_input_buffer c) (m_output_buffer c) (m_zero_copier_ptr c).
Definition set_input (b : Buffer) (c : TcpConnection) : TcpConnection :=
  mkTcpConnection (m_loop c) (m_conn_state c) (m_sending_state c) (m_is_reading c) (m_channel c)
    (m_has_write_complete c) (m_has_high_watermark c) (m_highwater_mark c) b (m_output_buffer c)
    (m_zero_copier_ptr c).
Definition set_output (b : Buffer) (c : TcpConnection) : TcpConnection :=
  mkTcpConnection (m_loop c) (m_conn_state c) (m_sending_state c) (m_is_reading c) (m_channel c)
    (m_has_write_complete c) (m_has_high_watermark c) (m_highwater_mark c) (m_input_buffer c) b
    (m_zero_copier_ptr c).
Definition set_copier (z : option ZeroCopier) (c : TcpConnection) : TcpConnection :=
  mkTcpConnection (m_loop c) (m_conn_state c) (m_sending_state c) (m_is_reading c) (m_channel c)
    (m_has_write_complete c) (m_has_high_watermark c) (m_highwater_mark c) (m_input_buffer c)
    (m_output_buffer c) z.

Definition set_write_complete_callback (c : TcpConnection) : TcpConnection :=
  mkTcpConnection (m_loop c) (m_conn_state c) (m_sending_state c) (m_is_reading c) (m_channel c) true
    (m_has_high_watermark c) (m_highwater_mark c) (m_input_buffer c) (m_output_buffer c) (m_zero_copier_ptr c).
Definition set_highwater_mark_callback (mark : Z) (c : TcpConnection) : TcpConnection :=
  mkTcpConnection (m_loop c) (m_conn_state c) (m_sending_state c) (m_is_reading c) (m_channel c)
    (m_has_write_complete c) true mark (m_input_buffer c) (m_output_buffer c) (m_zero_copier_ptr c).

Definition connected (c : TcpConnection) : bool := bool_decide (m_conn_state c = kConnected).
Definition disconnected (c : TcpConnection) : bool := bool_decide (m_conn_state c = kDisconnected).
Definition state_to_string (c : TcpConnection) : bytes :=
  match m_conn_state c with
  | kConnecting => lit "kConnecting"
  | kConnected => lit "kConnected"
  | kDisconnecting => lit "kDisconnecting"
  | kDisconnected => lit "kDisconnected"
  end.

Section env.
Context {P : Type}.
Implicit Types (e : conn_env P).

Definition on_conn (f : TcpConnection -> TcpConnection) e : conn_env P :=
  mkEnv (f (e_conn e)) (e_poller e) (e_chans e) (e_tasks e) (e_timers e) (e_wire e) (e_accepted e)
    (e_shut e) (e_trace e).
Definition with_poller (p : P) (cs : chans) e : conn_env P :=
  mkEnv (e_conn e) p cs (e_tasks e) (e_timers e) (e_wire e) (e_accepted e) (e_shut e) (e_trace e).
(** [Reactor::queue_in_reactor]. *)
Definition queue_task (t : conn_task) e : conn_env P :=
  mkEnv (e_conn e) (e_poller e) (e_chans e) (e_tasks e ++ [t]) (e_timers e) (e_wire e) (e_accepted e)
    (e_shut e) (e_trace e).
(** [Reactor::run_after]. *)
Definition add_timer_for (t : conn_timer) e : conn_env P :=
  mkEnv (e_conn e) (e_poller e) (e_chans e) (e_tasks e) (e_timers e ++ [t]) (e_wire e) (e_accepted e)
    (e_shut e) (e_trace e).
Definition wrote (from_file : bool) (d : bytes) e : conn_env P :=
  mkEnv (e_conn e) (e_poller e) (e_chans e) (e_tasks e) (e_timers e) (e_wire e ++ [(from_file, d)])
    (e_accepted e) (e_shut e) (e_trace e).
Definition accepted (d : bytes) e : conn_env P :=
  mkEnv (e_conn e) (e_poller e) (e_chans e) (e_tasks e) (e_timers e) (e_wire e) (e_accepted e ++ d)
    (e_shut e) (e_trace e).
(** [Socket::shutdown_write]; the first call on a connection that is not yet
    closed is recorded. *)
Definition shutdown_write e : conn_env P :=
  mkEnv (e_conn e) (e_poller e) (e_chans e) (e_tasks e) (e_timers e) (e_wire e) (e_accepted e)
    (match e_shut e with
     | Some a => Some a
     | None => if bool_decide (m_conn_state (e_conn e) = kDisconnected) then None else Some (e_accepted e)
     end) (e_trace e).
Definition notify (n : notice) e : conn_env P :=
  mkEnv (e_conn e) (e_poller e) (e_chans e) (e_tasks e) (e_timers e) (e_wire e) (e_accepted e)
    (e_shut e) (e_trace e ++ [n]).
End env.

(** * Operations *)

Section conn.
Context {P : Type} `{PollerOps P, CurrentThread}.
Context (react : notice -> conn_env P -> list user_call).
Implicit Types (e : conn_env P).

(** [m_reactor->assert_in_reactor_thread()]. *)
Definition in_loop_thread e : outcome unit := assert_in_thread (m_loop (e_conn e)).

Definition my_channel e : outcome Channel := of_option FNull (e_chans e !! m_channel (e_conn e)).

(** A member call on [m_channel] that goes through the reactor. *)
Definition channel_call (op : P -> chans -> chan_ptr -> outcome (P * chans)) e : outcome (conn_env P) :=
  '(p, cs) ← op (e_poller e) (e_chans e) (m_channel (e_conn e));
  Ok (with_poller p cs e).

(** [send_bytes_in_reactor].  The direct write at entry is commented out in
    the source, so [nwrote] is 0 and [fault_error] false. *)
Definition send_bytes_in_reactor (data : bytes) e : outcome (conn_env P) :=
  in_loop_thread e;;
  if bool_decide (m_conn_state (e_conn e) = kDisconnected) then Ok e
  else if 0 <? len data then
    let old_len := content_bytes_len (m_output_buffer (e_conn e)) in
    let hw := m_highwater_mark (e_conn e) in
    let e := if (hw <=? u64 (old_len + len data)) && (old_len <? hw) && m_has_high_watermark (e_conn e)
             then queue_task (THighWater (u64 (old_len + len data))) e else e in
    out ← append (m_output_buffer (e_conn e)) data;
    let e := accepted data (on_conn (set_output out) e) in
    ch ← my_channel e;
    if negb (is_writing ch) then channel_call want_to_write e else Ok e
  else Ok e.

(** [send] and [send_string_piece]: the bytes are those of the piece. *)
Definition send (in_loop : bool) (data : bytes) e : outcome (conn_env P) :=
  if bool_decide (m_conn_state (e_conn e) = kConnected) then
    if in_loop then send_bytes_in_reactor data e else Ok (queue_task (TSend data) e)
  else Ok e.

(** [send_buffer]: the buffer is emptied too. *)
Definition send_buffer (in_loop : bool) (buf : Buffer) e : outcome (Buffer * conn_env P) :=
  if bool_decide (m_conn_state (e_conn e) = kConnected) then
    if in_loop then
      d ← read_range buf (peek_base buf) (peek_base buf + content_bytes_len buf);
      e ← send_bytes_in_reactor d e; Ok (retrieve_all buf, e)
    else '(d, buf) ← readout_all_as_string buf; Ok (buf, queue_task (TSend d) e)
  else Ok (buf, e).

Definition enable_zero_copy (z : ZeroCopier) e : outcome (conn_env P) :=
  ch ← my_channel e;
  let z := start (set_target_fd (m_fd ch) z) in
  channel_call want_to_write (on_conn (set_copier (Some z)) e).

Definition shutdown_in_reactor e : outcome (conn_env P) :=
  in_loop_thread e;;
  ch ← my_channel e;
  Ok (if negb (is_writing ch) then shutdown_write e else e).

Definition shutdown (in_loop : bool) e : outcome (conn_env P) :=
  if bool_decide (m_conn_state (e_conn e) = kConnected) then
    let e := on_conn (set_state kDisconnecting) e in
    if in_loop then shutdown_in_reactor e else Ok (queue_task TShutdown e)
  else Ok e.

Definition shutdown_and_force_close_in_reactor_after (seconds : double) e : outcome (conn_env P) :=
  in_loop_thread e;;
  ch ← my_channel e;
  let e := if negb (is_writing ch) then shutdown_write e else e in
  Ok (add_timer_for (MForceCloseInReactor seconds) e).

Definition shutdown_and_force_close_after (in_loop : bool) (seconds : double) e : outcome (conn_env P) :=
  if bool_decide (m_conn_state (e_conn e) = kConnected) then
    let e := on_conn (set_state kDisconnecting) e in
    if in_loop then shutdown_and_force_close_in_reactor_after seconds e
    else Ok (queue_task (TShutdownForceAfter seconds) e)
  else Ok e.

Definition open_state (c : TcpConnection) : bool :=
  bool_decide (m_conn_state c = kConnected) || bool_decide (m_conn_state c = kDisconnecting).

Definition force_close e : outcome (conn_env P) :=
  if open_state (e_conn e) then Ok (queue_task TForceClose (on_conn (set_state kDisconnecting) e)) else Ok e.

Definition force_close_with_delay (seconds : double) e : outcome (conn_env P) :=
  if open_state (e_conn e)
  then Ok (add_timer_for (MForceClose seconds) (on_conn (set_state kDisconnecting) e)) else Ok e.

Definition start_read_in_reactor e : outcome (conn_env P) :=
  in_loop_thread e;;
  ch ← my_channel e;
  if negb (m_is_reading (e_conn e)) || negb (is_reading ch) then
    e ← channel_call wang_to_read e; Ok (on_conn (set_reading true) e)
  else Ok e.

Definition stop_read_in_reactor e : outcome (conn_env P) :=
  in_loop_thread e;;
  ch ← my_channel e;
  if m_is_reading (e_conn e) || is_reading ch then
    e ← channel_call end_reading e; Ok (on_conn (set_reading false) e)
  else Ok e.

Definition start_read (in_loop : bool) e : outcome (conn_env P) :=
  if in_loop then start_read_in_reactor e else Ok (queue_task TStartRead e).
Definition stop_read (in_loop : bool) e : outcome (conn_env P) :=
  if in_loop then stop_read_in_reactor e else Ok (queue_task TStopRead e).

(** User code consuming what it has seen of the input buffer. *)
Definition consume (n : Z) e : outcome (conn_env P) :=
  let inb := m_input_buffer (e_conn e) in
  inb ← retrieve inb (Z.min (Z.max 0 n) (content_bytes_len inb));
  Ok (on_conn (set_input inb) e).

Definition do_call (in_loop : bool) (c : user_call) e : outcome (conn_env P) :=
  match c with
  | USend d => send in_loop d e
  | UShutdown => shutdown in_loop e
  | UShutdownForceAfter s => shutdown_and_force_close_after in_loop s e
  | UForceClose => force_close e
  | UForceCloseDelay s => force_close_with_delay s e
  | UStartRead => start_read in_loop e
  | UStopRead => stop_read in_loop e
  | UZeroCopy z => enable_zero_copy z e
  | URetrieve n => consume n e
  end.

Fixpoint do_calls (l : list user_call) e : outcome (conn_env P) :=
  match l with [] => Ok e | c :: l => e ← do_call true c e; do_calls l e end.

(** A user callback: it is recorded, then it makes its calls. *)
Definition callback (n : notice) e : outcome (conn_env P) :=
  let e := notify n e in do_calls (react n e) e.

Definition handle_close e : outcome (conn_env P) :=
  in_loop_thread e;;
  assert_ (open_state (e_conn e));;
  let e := on_conn (set_state kDisconnected) e in
  e ← channel_call end_all e;
  e ← callback (NConn false) e;
  callback NClose e.

Definition force_close_in_reactor e : outcome (conn_env P) :=
  in_loop_thread e;;
  if open_state (e_conn e) then handle_close e else Ok e.

Definition connect_established e : outcome (conn_env P) :=
  in_loop_thread e;;
  assert_ (bool_decide (m_conn_state (e_conn e) = kConnecting));;
  let e := on_conn (set_state kConnected) e in
  ch ← my_channel e;
  let e := with_poller (e_poller e) (<[m_channel (e_conn e) := tie (m_channel (e_conn e)) ch]> (e_chans e)) e in
  e ← channel_call wang_to_read e;
  callback (NConn true) e.

(** [connect_destroyed], with the state of the dispatch of the reactor. *)
Definition connect_destroyed (handling : bool) (current : option chan_ptr) (active : list chan_ptr) e
    : outcome (conn_env P) :=
  in_loop_thread e;;
  e ← (if bool_decide (m_conn_state (e_conn e) = kConnected) then
         let e := on_conn (set_state kDisconnected) e in
         e ← channel_call end_all e;
         callback (NConn false) e
       else Ok e);
  channel_call (remove_self_from_reactor handling current active) e.

(** [handle_socket_readable]: [readv] is the system call on the socket. *)
Definition handle_socket_readable (readv : Z -> io_result) e : outcome (conn_env P) :=
  in_loop_thread e;;
  '(n, _, inb) ← read_all_from readv (m_input_buffer (e_conn e));
  let e := on_conn (set_input inb) e in
  if 0 <? n then callback NMessage e
  else if n =? 0 then handle_close e
  else Ok e.

(** [write_socket_from_buffer]: [n] is what write(2) answers. *)
Definition write_socket_from_buffer (n : Z) e : outcome (conn_env P) :=
  let out := m_output_buffer (e_conn e) in
  if content_bytes_len out =? 0 then Ok e
  else if n <? 0 then Ok e
  else
    d ← read_range out (peek_base out) (peek_base out + n);
    out ← retrieve out n;
    Ok (wrote false d (on_conn (set_output out) e)).

Definition copier_finished (c : TcpConnection) : outcome bool :=
  z ← of_option FNull (m_zero_copier_ptr c); has_finished z.

Definition transfer_sending_state (c : TcpConnection) : outcome TcpConnection :=
  let nonempty := negb (content_bytes_len (m_output_buffer c) =? 0) in
  match m_sending_state c with
  | kNotSending =>
      if nonempty then Ok (set_sending kSendingBuffer c)
      else match m_zero_copier_ptr c with
           | Some z => f ← has_finished z; Ok (if negb f then set_sending kSendingFile c else c)
           | None => Ok c
           end
  | kSendingBuffer => Ok (if negb nonempty then set_sending kNotSending c else c)
  | kSendingFile => f ← copier_finished c; Ok (if f : bool then set_sending kNotSending c else c)
  | kSendingFinished => Ok c
  end.

Definition transfer e : outcome (conn_env P) :=
  c ← transfer_sending_state (e_conn e); Ok (on_conn (fun _ => c) e).

Definition is_sending_state (s : TCPSendingState) (c : TcpConnection) : bool :=
  bool_decide (m_sending_state c = s).

(** The first block of [handle_socket_writable]: the output buffer. *)
Definition writable_buffer (n : Z) e : outcome (conn_env P) :=
  if is_sending_state kNotSending (e_conn e) || is_sending_state kSendingBuffer (e_conn e) then
    e ← write_socket_from_buffer n (on_conn (set_sending kSendingBuffer) e); transfer e
  else Ok e.

(** The second block: one chunk of the file, when the buffer is empty. *)
Definition writable_file (mode : CopyMode) (chunk : Z) (a : chunk_answer) e : outcome (conn_env P) :=
  match m_zero_copier_ptr (e_conn e) with
  | Some z =>
      if (content_bytes_len (m_output_buffer (e_conn e)) =? 0) &&
         (is_sending_state kNotSending (e_conn e) || is_sending_state kSendingFile (e_conn e)) then
        '(_, z, d) ← send_one_chunk mode chunk a z;
        let e := wrote true d (on_conn (fun c => set_copier (Some z) (set_sending kSendingFile c)) e) in
        e ← transfer e;
        f ← copier_finished (e_conn e);
        Ok (if f : bool then on_conn (set_copier None) e else e)
      else Ok e
  | None => Ok e
  end.

(** The third block: nothing left to send. *)
Definition writable_done e : outcome (conn_env P) :=
  if is_sending_state kNotSending (e_conn e) then
    e ← channel_call end_writing e;
    let e := if m_has_write_complete (e_conn e) then queue_task TWriteComplete e else e in
    if bool_decide (m_conn_state (e_conn e) = kDisconnecting) then shutdown_in_reactor e else Ok e
  else Ok e.

Definition handle_socket_writable (n : Z) (mode : CopyMode) (chunk : Z) (a : chunk_answer) e
    : outcome (conn_env P) :=
  in_loop_thread e;;
  ch ← my_channel e;
  if is_writing ch then
    e ← writable_buffer n e; e ← writable_file mode chunk a e; writable_done e
  else Ok e.

(** Tasks and timers that the reactor runs later; the callbacks of
    [TWriteComplete] and [THighWater] are user code: the calls they make are the
    [EvCall] events that follow. *)
Definition run_task (t : conn_task) e : outcome (conn_env P) :=
  match t with
  | TSend d => send_bytes_in_reactor d e
  | TShutdown => shutdown_in_reactor e
  | TShutdownForceAfter s => shutdown_and_force_close_in_reactor_after s e
  | TForceClose => force_close_in_reactor e
  | TStartRead => start_read_in_reactor e
  | TStopRead => stop_read_in_reactor e
  | TWriteComplete | THighWater _ => Ok e
  end.

Definition run_timer (t : conn_timer) e : outcome (conn_env P) :=
  match t with
  | MForceCloseInReactor _ => force_close_in_reactor e
  | MForceClose _ => force_close e
  end.

(** What happens to a connection: its channel's events, with what the system
    calls answer; the reactor taking the next task or running a due timer; a
    call by user code, in the loop thread or in another one; and the rest of
    the program, which changes the poller and the other channels. *)
Inductive conn_event : Type :=
| EvEstablished
| EvReadable (readv : Z -> io_result)
| EvWritable (n : Z) (mode : CopyMode) (chunk : Z) (a : chunk_answer)
| EvClose
| EvTask
| EvTimer (i : nat)
| EvCall (in_loop : bool) (c : user_call)
| EvOther (p : P) (cs : chans).

Definition take_tasks (l : list conn_task) e : conn_env P :=
  mkEnv (e_conn e) (e_poller e) (e_chans e) l (e_timers e) (e_wire e) (e_accepted e) (e_shut e) (e_trace e).
Definition take_timers (l : list conn_timer) e : conn_env P :=
  mkEnv (e_conn e) (e_poller e) (e_chans e) (e_tasks e) l (e_wire e) (e_accepted e) (e_shut e) (e_trace e).

Definition conn_step (ev : conn_event) e : outcome (conn_env P) :=
  match ev with
  | EvEstablished => connect_established e
  | EvReadable readv => handle_socket_readable readv e
  | EvWritable n mode chunk a => handle_socket_writable n mode chunk a e
  | EvClose => handle_close e
  | EvTask => match e_tasks e with t :: ts => run_task t (take_tasks ts e) | [] => Ok e end
  | EvTimer i =>
      match e_timers e !! i with Some t => run_timer t (take_timers (delete i (e_timers e)) e) | None => Ok e end
  | EvCall in_loop c => do_call in_loop c e
  | EvOther p cs => Ok (with_poller p cs e)
  end.

(** [TcpConnection::TcpConnection], with its channel at [c]. *)
Definition new_TcpConnection (loop : pid_t) (c : chan_ptr) (wc hw : bool) (inb outb : Buffer) : TcpConnection :=
  mkTcpConnection loop kConnecting kNotSending true c wc hw (64 * 1024 * 1024) inb outb None.

(** [TcpConnection::~TcpConnection]. *)
Definition destroy_TcpConnection e : outcome unit :=
  assert_ (bool_decide (m_conn_state (e_conn e) = kDisconnected)).

End conn.

(** * The invariant *)

(** ** Events *)

(** Everything the proofs need about the event masks, by enumeration. *)
Lemma event_masks e :
  valid_events e ->
  valid_events (Z.lor e kReadEvent) /\ valid_events (Z.land e (Z.lnot kReadEvent)) /\
  valid_events (Z.lor e kWriteEvent) /\ valid_events (Z.land e (Z.lnot kWriteEvent)) /\
  has (Z.lor e kReadEvent) kWriteEvent = has e kWriteEvent /\
  has (Z.land e (Z.lnot kReadEvent)) kWriteEvent = has e kWriteEvent /\
  has (Z.lor e kWriteEvent) kWriteEvent = true /\
  has (Z.land e (Z.lnot kWriteEvent)) kWriteEvent = false.
Proof.
  unfold valid_events. intros He.
  assert (e = 0 \/ e = 1 \/ e = 2 \/ e = 3 \/ e = 4 \/ e = 5 \/ e = 6 \/ e = 7) as Hc by lia.
  destruct Hc as [->|[->|[->|[->|[->|[->|[->| ->]]]]]]]; vm_compute; intuition congruence.
Qed.

(** ** File copiers *)

(** The members that the queries read are initialised. *)
Definition copier_ok (z : ZeroCopier) : Prop :=
  m_source_available z = true -> is_Some (m_total_bytes z) /\ is_Some (m_offset z).
Definition running (z : ZeroCopier) : Prop :=
  copier_ok z /\ is_Some (m_target_fd z) /\ m_started z = true.

Lemma new_copier_ok path r : copier_ok (new_ZeroCopier path r).
Proof. destruct r; intros ?; simpl in *; done. Qed.

Lemma start_running fd z : copier_ok z -> running (start (set_target_fd fd z)).
Proof. intros Hz. split_and!; [exact Hz|by eexists|done]. Qed.

Lemma running_valid z : running z -> exists b, is_valid z = Ok b /\ (b = true -> m_source_available z = true).
Proof.
  intros (_ & [t Ht] & _). unfold is_valid. destruct (m_source_available z); [|by eexists].
  rewrite Ht. simpl. eauto.
Qed.

Lemma running_finished z : running z -> exists b, has_finished z = Ok b.
Proof.
  intros R. destruct (running_valid z R) as (b & Hb & Ha). unfold has_finished. rewrite Hb. simpl.
  destruct R as (Hz & _ & Hs). rewrite Hs. destruct b; simpl; [|by eexists].
  rewrite Ha by done. destruct (Hz (Ha eq_refl)) as [[t ->] [o ->]]. simpl. eauto.
Qed.

Lemma advance_running z o p : running z -> running (advance o p z).
Proof. intros (Hz & Ht & Hs). split_and!; [|done|done]. intros Ha. destruct (Hz Ha). by split. Qed.

Lemma send_by_mode_running mode a z n :
  running z -> m_source_available z = true ->
  exists r z' d, send_by_mode mode a z n = Ok (r, z', d) /\ running z'.
Proof.
  intros R Ha. destruct R as (Hz & R'). destruct (Hz Ha) as [_ [o Ho]]. assert (running z) as R by done.
  destruct mode; simpl; unfold send_one_chunk_zerocopy, send_one_chunk_mmap, send_one_chunk_rw; rewrite Ho; cbn;
    repeat case_match; eauto 8 using advance_running.
Qed.

Lemma send_one_chunk_running mode chunk a z :
  running z -> exists r z' d, send_one_chunk mode chunk a z = Ok (r, z', d) /\ running z'.
Proof.
  intros R. unfold send_one_chunk. destruct (running_valid z R) as (b & -> & Ha). cbn.
  destruct (negb b || negb (m_started z)) eqn:Hb; [by eauto 8|].
  apply orb_false_elim in Hb as [Hb _]. destruct b; [|done]. specialize (Ha eq_refl).
  pose proof R as (Hz & _). destruct (Hz Ha) as [[t Ht] [o Ho]]. unfold remaining_bytes. rewrite Ht, Ho. cbn.
  destruct (s64 (t - o) <=? 0); [by eauto 8|].
  destruct (send_by_mode_running mode a z (Z.min chunk (s64 (t - o))) R Ha) as (r & z' & d & -> & R'). cbn.
  destruct (r <? 0); [destruct (kMaxTrial <=? _)|]; do 3 eexists; (split; [done|]);
    destruct R' as (Hz' & T' & S'); split_and!; try done; intros _; by split.
Qed.

(** ** The state of a connection *)

Section inv.
Context {P : Type} `{PollerLaws P}.
Implicit Types (e : conn_env P).

(** [strict]: the channel of a connection that is down delivers no event, and
    nobody asks for its events again.  Otherwise an event that was reported by
    the same poll may follow the close (of a timer, say), and user code may
    then ask for more. *)
Context {strict : bool}.

(** What the output buffer contributed to the socket. *)
Definition buffer_wire (w : list (bool * bytes)) : bytes := 
  concat ((fun x : bool * bytes => if x.1 then [] else x.2) <$> w).

Lemma buffer_wire_snoc w b d : buffer_wire (w ++ [(b, d)]) = buffer_wire w ++ (if b then [] else d).
Proof. unfold buffer_wire. rewrite fmap_app, concat_app. simpl. by rewrite app_nil_r. Qed.

Definition chan_inv e (ch : Channel) : Prop :=
  poller_inv (e_poller e) (e_chans e) /\ e_chans e !! m_channel (e_conn e) = Some ch /\
  attached (e_poller e) (m_channel (e_conn e)) ch /\ valid_events (m_concerned_events ch) /\
  m_loop (e_conn e) = cur_tid /\
  (m_conn_state (e_conn e) <> kConnecting -> m_channel_map (e_poller e) !! m_fd ch = Some (m_channel (e_conn e))) /\
  (strict = true -> m_conn_state (e_conn e) = kDisconnected -> removable (e_poller e) ch).

(** The connection has something to send. *)
Definition pending (c : TcpConnection) : Prop :=
  content (m_output_buffer c) <> [] \/ m_zero_copier_ptr c <> None.

Definition is_open (s : TCPConnectionState) : Prop := s = kConnected \/ s = kDisconnecting.

(** A connection whose channel may watch for events, and one whose channel
    does not. *)
Definition live (st : TCPConnectionState) : Prop := if strict then is_open st else st <> kConnecting.
Definition dead (st : TCPConnectionState) : Prop := if strict then ~ is_open st else st = kConnecting.

#[global] Instance is_open_dec st : Decision (is_open st).
Proof. unfold is_open. apply _. Defined.
#[global] Instance live_decision st : Decision (live st).
Proof. unfold live. destruct strict; apply _. Defined.
#[global] Instance dead_decision st : Decision (dead st).
Proof. unfold dead. destruct strict; apply _. Defined.

Lemma open_live st : is_open st -> live st.
Proof. unfold live. destruct strict; [done|]. intros [-> | ->]; done. Qed.
Lemma live_new st : live st -> st <> kConnecting.
Proof. unfold live. destruct strict; [|done]. intros [-> | ->]; done. Qed.
Lemma live_dead st : live st -> ~ dead st.
Proof. unfold live, dead. destruct strict; auto. Qed.
Lemma not_live_dead st : ~ live st -> dead st.
Proof. unfold live, dead. destruct strict; [done|]. destruct st; tauto || naive_solver. Qed.
Lemma dead_connecting : dead kConnecting.
Proof. unfold dead. destruct strict; [|done]. by intros []. Qed.
Lemma strict_dead st : strict = true -> ~ is_open st -> dead st.
Proof. unfold dead. by intros ->. Qed.
Lemma live_strict st : live st -> strict = true -> st <> kDisconnected.
Proof. unfold live. intros Hl ->. destruct Hl; congruence. Qed.

Record base_inv e : Prop := {
  b_in : wf (m_input_buffer (e_conn e));
  b_out : wf (m_output_buffer (e_conn e));
  b_copier : forall z, m_zero_copier_ptr (e_conn e) = Some z -> running z;
  b_state : m_sending_state (e_conn e) <> kSendingFinished;
  b_file : m_sending_state (e_conn e) = kSendingFile -> m_zero_copier_ptr (e_conn e) <> None;
  b_fresh : m_conn_state (e_conn e) = kConnecting -> e_tasks e = [] /\ e_timers e = [] /\ ~ pending (e_conn e);
  b_wire : buffer_wire (e_wire e) ++ content (m_output_buffer (e_conn e)) = e_accepted e;
  b_shut : forall a, e_shut e = Some a -> a `prefix_of` buffer_wire (e_wire e);
  b_tasks : forall d, TSend d ∈ e_tasks e -> len d <= PTRDIFF_MAX
}.

(** ... and its channel: while the connection is open it watches for writing
    exactly while something is to be sent, and when it is dead for nothing. *)
Record body_inv e (ch : Channel) : Prop := {
  b_base :> base_inv e;
  b_closed : dead (m_conn_state (e_conn e)) -> m_concerned_events ch = kNoneEvent;
  b_writing : is_open (m_conn_state (e_conn e)) -> is_writing ch = true <-> pending (e_conn e)
}.

Definition conn_core e : Prop := exists ch, chan_inv e ch /\ body_inv e ch.

(** What a call may change besides: nothing of the callback trace, and of the
    state only from connected to disconnecting. *)
Definition call_frame e e' : Prop :=
  e_trace e' = e_trace e /\
  (m_conn_state (e_conn e') = m_conn_state (e_conn e) \/
   m_conn_state (e_conn e) = kConnected /\ m_conn_state (e_conn e') = kDisconnecting).

#[global] Instance call_frame_preorder : PreOrder call_frame.
Proof.
  split; [intros e; split; [done|by left]|]. intros e1 e2 e3 [T1 S1] [T2 S2]. split; [congruence|].
  destruct S1 as [S1|[S1 S1']], S2 as [S2|[S2 S2']]; rewrite ?S1, ?S2, ?S2' in *; auto; congruence.
Qed.

Lemma is_open_bool c : open_state c = true <-> is_open (m_conn_state c).
Proof. unfold open_state, is_open. rewrite orb_true_iff, !bool_decide_eq_true. done. Qed.

Lemma in_loop_thread_ok e ch : chan_inv e ch -> in_loop_thread e = Ok tt.
Proof. intros (_ & _ & _ & _ & Hl & _). by apply in_thread_ok. Qed.

Lemma my_channel_ok e ch : chan_inv e ch -> my_channel e = Ok ch.
Proof. intros (_ & Hc & _). unfold my_channel. by rewrite Hc. Qed.

(** A channel operation through the reactor. *)
Definition updated_channel (f : Z -> Z) (idx : Z) (ch : Channel) : Channel :=
  set_index idx (set_in_reactor true (set_concerned (f (m_concerned_events ch)) ch)).

Lemma channel_call_spec f e ch :
  chan_inv e ch -> valid_events (f (m_concerned_events ch)) ->
  (strict = true -> m_conn_state (e_conn e) = kDisconnected -> f (m_concerned_events ch) = kNoneEvent) ->
  fine (fun e' => exists p' idx, e' = with_poller p' (<[m_channel (e_conn e) := updated_channel f idx ch]> (e_chans e)) e /\
          chan_inv e' (updated_channel f idx ch) /\
          (m_channel_map (e_poller e) !! m_fd ch = Some (m_channel (e_conn e)) ->
           f (m_concerned_events ch) = kNoneEvent -> removable p' (updated_channel f idx ch)))
    (channel_call (change_events f) e).
Proof.
  intros (I & Hc & Ha & Hv & Hl & Hreg & Hrem) Hf Hn. unfold channel_call.
  pose proof (change_events_spec f _ _ _ _ I Hc Ha Hf) as S.
  destruct (change_events _ _ _ _) as [[p' cs']|x]; simpl; [|by left].
  destruct S as (I' & M' & idx & -> & R'). exists p', idx. split; [done|]. split; [|done].
  split_and!; simpl; [done|apply lookup_insert_eq| |done|done| |].
  - destruct Ha as [Hr _]. split; simpl.
    + by rewrite Hr, (inv_thread _ _ I), (inv_thread _ _ I').
    + left. rewrite M'. apply lookup_insert_eq.
  - intros _. rewrite M'. apply lookup_insert_eq.
  - intros Hst Hs. apply R'; [apply Hreg; congruence|by apply Hn].
Qed.

(** ** The calls *)

Definition done_call e e' : Prop := conn_core e' /\ call_frame e e'.

Lemma core_intro e e' ch : chan_inv e' ch -> body_inv e' ch -> call_frame e e' -> done_call e e'.
Proof. intros. split; [by exists ch|done]. Qed.

(** Splits a goal [body_inv] with the old one in the context. *)
Ltac body := constructor; [constructor| |]; simpl; try done; try (by intros Hdd; exfalso; revert Hdd; apply live_dead; eauto using open_live).

Lemma pending_output e ch : body_inv e ch -> ~ pending (e_conn e) -> content (m_output_buffer (e_conn e)) = [].
Proof. intros _ Hp. apply dec_stable. intros Hc. apply Hp. by left. Qed.

Lemma queue_task_inv e ch t :
  body_inv e ch -> m_conn_state (e_conn e) <> kConnecting ->
  match t with TSend d => len d <= PTRDIFF_MAX | _ => True end -> body_inv (queue_task t e) ch.
Proof.
  intros [[] b_closed0 b_writing0] Hs Ht. body. intros d [Hd|Hd]%elem_of_app; [by eauto|].
  apply list_elem_of_singleton in Hd. by subst t.
Qed.

(** Data has been put into the output buffer; the channel is writing. *)
Lemma buffered_inv e ch ch' d out :
  body_inv e ch -> is_open (m_conn_state (e_conn e)) -> d <> [] ->
  wf out -> content out = content (m_output_buffer (e_conn e)) ++ d -> is_writing ch' = true ->
  body_inv (accepted d (on_conn (set_output out) e)) ch'.
Proof.
  intros [[] b_closed0 b_writing0] Ho Hd W C Hw.
  assert (content out <> []) as Hne by (rewrite C; intros [_ ->]%app_nil; done).
  body.
  - intros Hs. destruct Ho; congruence.
  - by rewrite C, app_assoc, b_wire0.
  - by intros _; split; [left|].
Qed.

Lemma send_bytes_spec d e :
  conn_core e -> m_conn_state (e_conn e) <> kConnecting -> len d <= PTRDIFF_MAX ->
  fine (done_call e) (send_bytes_in_reactor d e).
Proof.
  intros (ch & C & B) Hs Hd. unfold send_bytes_in_reactor. rewrite (in_loop_thread_ok e ch C). cbn.
  destruct (bool_decide_reflect (m_conn_state (e_conn e) = kDisconnected)) as [|Hnd]; [by eapply core_intro|].
  destruct (Z.ltb_spec 0 (len d)) as [Hpos|]; [|by eapply core_intro].
  assert (is_open (m_conn_state (e_conn e))) as Ho by (unfold is_open; destruct (m_conn_state (e_conn e)); auto; done).
  assert (d <> []) as Hne by (intros ->; done).
  set (e1 := if _ && _ && _ then _ else e).
  assert (body_inv e1 ch /\ chan_inv e1 ch /\ call_frame e e1 /\ e_conn e1 = e_conn e) as (B1 & C1 & F1 & Hc1).
  { subst e1. case_match; [|by split_and!]. split_and!; [by apply queue_task_inv|done| |done]. split; [done|by left]. }
  pose proof (append_safe _ d (b_out _ B1) Hd) as A.
  destruct (append (m_output_buffer (e_conn e1)) d) as [out|f]; simpl; [|by right]. destruct A as [W Ct].
  set (e2 := accepted d (on_conn (set_output out) e1)).
  assert (chan_inv e2 ch) as C2 by exact C1. assert (call_frame e e2) as F2 by exact F1.
  rewrite (my_channel_ok e2 ch C2). simpl. destruct (is_writing ch) eqn:Hw; simpl.
  - eapply core_intro; [exact C2| |exact F2]. eapply buffered_inv; try done. by rewrite Hc1.
  - destruct (event_masks (m_concerned_events ch)) as (_ & _ & Hv & _ & _ & _ & Hm & _); [apply C|].
    eapply fine_mono; [|apply (channel_call_spec (fun ev : Z => Z.lor ev kWriteEvent) e2 ch); [done..|]].
    2: { change (strict = true -> m_conn_state (e_conn e1) = kDisconnected -> Z.lor (m_concerned_events ch) kWriteEvent = kNoneEvent).
      by rewrite Hc1. }
    intros e' (p' & idx & -> & C' & _). eapply core_intro; [exact C'| |exact F2].
    eapply (buffered_inv (with_poller p' _ e1) ch); try done; [by destruct B1 as [[] ? ?]|by simpl; rewrite Hc1].
Qed.

Lemma send_spec in_loop d e :
  conn_core e -> len d <= PTRDIFF_MAX -> fine (done_call e) (send in_loop d e).
Proof.
  intros I Hd. unfold send. destruct (bool_decide_reflect (m_conn_state (e_conn e) = kConnected)) as [Hs|]; [|by split].
  destruct in_loop; [apply send_bytes_spec; [done|congruence|done]|].
  destruct I as (ch & C & B). eapply core_intro; [exact C| |split; [done|by left]].
  apply queue_task_inv; [done|congruence|done].
Qed.

(** Sending a buffer is sending its content and leaving it empty. *)
Lemma send_buffer_eq in_loop buf e :
  wf buf -> m_conn_state (e_conn e) = kConnected ->
  send_buffer in_loop buf e = (e' ← send in_loop (content buf) e; Ok (retrieve_all buf, e')).
Proof.
  intros W Hs. pose proof W as []. unfold send_buffer, send. rewrite bool_decide_eq_true_2 by done.
  destruct in_loop.
  - rewrite content_bytes_len_eq, (read_range_ok _ _ _ W) by (done || unfold peek_base; lia). simpl.
    unfold peek_base. by replace (m_read_idx buf + (m_write_idx buf - m_read_idx buf)) with (m_write_idx buf) by lia.
  - unfold readout_all_as_string, readout_as_string, retrieve. rewrite content_bytes_len_eq by done.
    rewrite (read_range_ok _ _ _ W) by (unfold peek_base; lia). rewrite Z.leb_refl, Z.ltb_irrefl. simpl.
    unfold peek_base. by replace (m_read_idx buf + (m_write_idx buf - m_read_idx buf)) with (m_write_idx buf) by lia.
Qed.

Lemma open_cases s : s <> kConnecting -> s <> kDisconnected -> is_open s.
Proof. unfold is_open. destruct s; auto; done. Qed.

Lemma not_writing_drained e ch :
  body_inv e ch -> is_open (m_conn_state (e_conn e)) -> is_writing ch = false ->
  buffer_wire (e_wire e) = e_accepted e.
Proof.
  intros B Ho Hw. rewrite <- (b_wire _ B), (pending_output e ch B); [by rewrite app_nil_r|].
  rewrite <- (b_writing _ _ B Ho). by rewrite Hw.
Qed.

Lemma shutdown_write_inv e ch :
  body_inv e ch -> is_writing ch = false -> m_conn_state (e_conn e) <> kConnecting ->
  body_inv (shutdown_write e) ch.
Proof.
  intros B Hw Hs. pose proof (not_writing_drained e ch B) as D. destruct B as [[] b_closed0 b_writing0]. body. intros a.
  destruct (e_shut e) as [a'|] eqn:Ha; [by eauto|]. case_bool_decide as Hd; [done|].
  intros [= <-]. rewrite D; [done|by apply open_cases|done].
Qed.

Lemma disconnecting_inv e ch :
  body_inv e ch -> is_open (m_conn_state (e_conn e)) -> body_inv (on_conn (set_state kDisconnecting) e) ch.
Proof.
  intros [[] b_closed0 b_writing0] Ho. body; [|intros _; by apply b_writing0].
  intros Hdd. destruct (live_dead kDisconnecting); [apply open_live; by right|done].
Qed.

Lemma disconnecting_chan e ch :
  chan_inv e ch -> is_open (m_conn_state (e_conn e)) -> chan_inv (on_conn (set_state kDisconnecting) e) ch.
Proof.
  intros (I & Hc & Ha & Hv & Hl & Hreg & _) Ho. split_and!; try done. intros _. apply Hreg.
  intros E. destruct Ho; congruence.
Qed.

Lemma add_timer_inv e ch t :
  body_inv e ch -> m_conn_state (e_conn e) <> kConnecting -> body_inv (add_timer_for t e) ch.
Proof. intros [[] b_closed0 b_writing0] Hs. body. Qed.

Lemma shutdown_in_reactor_spec e :
  conn_core e -> m_conn_state (e_conn e) <> kConnecting -> fine (done_call e) (shutdown_in_reactor e).
Proof.
  intros (ch & C & B) Hs. unfold shutdown_in_reactor. rewrite (in_loop_thread_ok e ch C), (my_channel_ok e ch C). cbn.
  destruct (is_writing ch) eqn:Hw; [by eapply core_intro|].
  eapply core_intro; [exact C|by apply shutdown_write_inv|split; [done|by left]].
Qed.

Lemma shutdown_force_spec x e :
  conn_core e -> m_conn_state (e_conn e) <> kConnecting ->
  fine (done_call e) (shutdown_and_force_close_in_reactor_after x e).
Proof.
  intros (ch & C & B) Hs. unfold shutdown_and_force_close_in_reactor_after.
  rewrite (in_loop_thread_ok e ch C), (my_channel_ok e ch C). cbn.
  destruct (is_writing ch) eqn:Hw; (eapply core_intro; [exact C| |split; [done|by left]]);
    apply add_timer_inv; try done. by apply shutdown_write_inv.
Qed.

(** The state becomes [kDisconnecting], then the call continues. *)
Lemma disconnecting_step e m :
  conn_core e -> is_open (m_conn_state (e_conn e)) ->
  (conn_core (on_conn (set_state kDisconnecting) e) -> fine (done_call (on_conn (set_state kDisconnecting) e)) m) ->
  fine (done_call e) m.
Proof.
  intros (ch & C & B) Ho K.
  eapply fine_mono; [|apply K; exists ch; split; [by apply disconnecting_chan|by apply disconnecting_inv]].
  intros e' [I' F']. split; [done|]. etrans; [|exact F']. split; [done|].
  destruct Ho as [-> | ->]; simpl; auto.
Qed.

Lemma queue_task_spec t e :
  conn_core e -> m_conn_state (e_conn e) <> kConnecting ->
  match t with TSend d => len d <= PTRDIFF_MAX | _ => True end -> done_call e (queue_task t e).
Proof.
  intros (ch & C & B) Hs Ht. eapply core_intro; [exact C|by apply queue_task_inv|split; [done|by left]].
Qed.

Lemma shutdown_spec in_loop e : conn_core e -> fine (done_call e) (shutdown in_loop e).
Proof.
  intros I. unfold shutdown. case_bool_decide as Hs; [|by split].
  apply disconnecting_step; [done|by left|]. intros I'.
  destruct in_loop; [by apply shutdown_in_reactor_spec|by apply queue_task_spec].
Qed.

Lemma shutdown_and_force_close_spec in_loop x e :
  conn_core e -> fine (done_call e) (shutdown_and_force_close_after in_loop x e).
Proof.
  intros I. unfold shutdown_and_force_close_after. case_bool_decide as Hs; [|by split].
  apply disconnecting_step; [done|by left|]. intros I'.
  destruct in_loop; [by apply shutdown_force_spec|by apply queue_task_spec].
Qed.

Lemma force_close_spec e : conn_core e -> fine (done_call e) (force_close e).
Proof.
  intros I. unfold force_close. destruct (open_state (e_conn e)) eqn:Ho; [|by split].
  apply is_open_bool in Ho. apply disconnecting_step; [done..|]. intros I'. by apply queue_task_spec.
Qed.

Lemma force_close_with_delay_spec x e : conn_core e -> fine (done_call e) (force_close_with_delay x e).
Proof.
  intros I. unfold force_close_with_delay. destruct (open_state (e_conn e)) eqn:Ho; [|by split].
  apply is_open_bool in Ho. apply disconnecting_step; [done..|]. intros (ch & C & B).
  eapply core_intro; [exact C|by apply add_timer_inv|split; [done|by left]].
Qed.

(** The channel changed, but not its interest in writing. *)
Lemma masked_inv e ch ch' p cs :
  body_inv e ch -> is_writing ch' = is_writing ch ->
  (dead (m_conn_state (e_conn e)) -> m_concerned_events ch' = kNoneEvent) ->
  body_inv (with_poller p cs e) ch'.
Proof. intros [[] b_closed0 b_writing0] Hw Hc. body. by rewrite Hw. Qed.

Lemma set_reading_inv e ch b : body_inv e ch -> body_inv (on_conn (set_reading b) e) ch.
Proof. intros [[] b_closed0 b_writing0]. body. Qed.

Lemma start_read_in_reactor_spec e :
  conn_core e -> live (m_conn_state (e_conn e)) -> fine (done_call e) (start_read_in_reactor e).
Proof.
  intros (ch & C & B) Ho. unfold start_read_in_reactor. rewrite (in_loop_thread_ok e ch C), (my_channel_ok e ch C). cbn.
  destruct (_ || _); [|by eapply core_intro].
  destruct (event_masks (m_concerned_events ch)) as (Hv & _ & _ & _ & Hm & _); [apply C|].
  eapply fine_bind; [apply (channel_call_spec (fun ev : Z => Z.lor ev kReadEvent) e ch); [done..|intros Hst E; by destruct (live_strict _ Ho Hst)]|].
  intros e' (p' & idx & -> & C' & _). simpl. eapply core_intro; [exact C'| |split; [done|by left]].
  eapply set_reading_inv, masked_inv; [done..|]. intros Hdd. by destruct (live_dead _ Ho).
Qed.

Lemma stop_read_in_reactor_spec e : conn_core e -> fine (done_call e) (stop_read_in_reactor e).
Proof.
  intros (ch & C & B). unfold stop_read_in_reactor. rewrite (in_loop_thread_ok e ch C), (my_channel_ok e ch C). cbn.
  destruct (_ || _); [|by eapply core_intro].
  destruct (event_masks (m_concerned_events ch)) as (_ & Hv & _ & _ & _ & Hm & _); [apply C|].
  eapply fine_bind; [apply (channel_call_spec (fun ev : Z => Z.land ev (Z.lnot kReadEvent)) e ch); [done..|]|].
  { intros Hst E. rewrite (b_closed _ _ B); [done|]. rewrite E. apply strict_dead; [done|by intros []]. }
  intros e' (p' & idx & -> & C' & _). simpl. eapply core_intro; [exact C'| |split; [done|by left]].
  eapply set_reading_inv, masked_inv; [done|exact Hm|]. intros Hn. simpl. by rewrite (b_closed _ _ B).
Qed.

Lemma enable_zero_copy_spec z e :
  conn_core e -> live (m_conn_state (e_conn e)) -> copier_ok z -> fine (done_call e) (enable_zero_copy z e).
Proof.
  intros (ch & C & B) Ho Hz. unfold enable_zero_copy. rewrite (my_channel_ok e ch C). cbn.
  destruct (event_masks (m_concerned_events ch)) as (_ & _ & Hv & _ & _ & _ & Hm & _); [apply C|].
  set (z' := start (set_target_fd (m_fd ch) z)). set (e1 := on_conn (set_copier (Some z')) e).
  eapply fine_mono; [|apply (channel_call_spec (fun ev : Z => Z.lor ev kWriteEvent) e1 ch); [done..|simpl; intros Hst E; by destruct (live_strict _ Ho Hst)]].
  intros e' (p' & idx & -> & C' & _). eapply core_intro; [exact C'| |split; [done|by left]].
  destruct B as [[] b_closed0 b_writing0]. body.
  - intros ? [= <-]. by apply start_running.
  - intros Hs. by destruct (live_new _ Ho).
  - by split; [right|].
Qed.

Lemma set_input_inv e ch b : body_inv e ch -> wf b -> body_inv (on_conn (set_input b) e) ch.
Proof. intros [[] b_closed0 b_writing0] W. body. Qed.

Lemma set_input_core b e : conn_core e -> wf b -> conn_core (on_conn (set_input b) e).
Proof. intros (ch & C & B) W. exists ch. split; [exact C|by apply set_input_inv]. Qed.

Lemma consume_spec n e : conn_core e -> fine (done_call e) (consume n e).
Proof.
  intros (ch & C & B). unfold consume. pose proof (b_in _ B) as W.
  rewrite (content_bytes_len_content _ W). pose proof (len_nonneg (content (m_input_buffer (e_conn e)))).
  destruct (retrieve_spec _ (Z.min (Z.max 0 n) (len (content (m_input_buffer (e_conn e))))) W)
    as (b' & -> & W' & _); [lia|].
  eapply core_intro; [exact C|by apply set_input_inv|split; [done|by left]].
Qed.

(** What user code may do: send data that fits a [std::string], hand over a
    constructed copier, and (un)register interest only on an open connection. *)
Definition call_ok (open : Prop) (c : user_call) : Prop :=
  match c with
  | USend d => len d <= PTRDIFF_MAX
  | UZeroCopy z => open /\ copier_ok z
  | UStartRead => open
  | _ => True
  end.

Lemma do_call_spec c e :
  conn_core e -> call_ok (live (m_conn_state (e_conn e))) c -> fine (done_call e) (do_call true c e).
Proof.
  intros I Hc. destruct c; simpl in *.
  - by apply send_spec.
  - by apply shutdown_spec.
  - by apply shutdown_and_force_close_spec.
  - by apply force_close_spec.
  - by apply force_close_with_delay_spec.
  - by apply start_read_in_reactor_spec.
  - by apply stop_read_in_reactor_spec.
  - destruct Hc. by apply enable_zero_copy_spec.
  - by apply consume_spec.
Qed.

Lemma call_frame_open e e' :
  call_frame e e' -> is_open (m_conn_state (e_conn e)) <-> is_open (m_conn_state (e_conn e')).
Proof. intros [_ [->|[-> ->]]]; unfold is_open; intuition congruence. Qed.

Lemma call_frame_live e e' : call_frame e e' -> live (m_conn_state (e_conn e)) <-> live (m_conn_state (e_conn e')).
Proof. unfold live. destruct strict; [apply call_frame_open|]. intros [_ [->|[-> ->]]]; intuition congruence. Qed.

Lemma do_calls_spec l e :
  conn_core e -> Forall (call_ok (live (m_conn_state (e_conn e)))) l -> fine (done_call e) (do_calls l e).
Proof.
  revert e. induction l as [|c l IH]; intros e I Hl; simpl; [done|]. inversion Hl as [|? ? Hc Hl']; subst.
  eapply fine_bind; [by apply do_call_spec|]. intros e1 [I1 F1].
  eapply fine_mono; [|apply IH; [done|]].
  - intros e2 [I2 F2]. split; [done|by etrans].
  - eapply Forall_impl; [exact Hl'|]. intros c' Hc'. destruct c'; simpl in *; try done;
      rewrite <- (call_frame_live e e1 F1); done.
Qed.

(** ** Callbacks *)

Context (react : notice -> conn_env P -> list user_call).

(** The user code behind the callbacks: when it is told that the connection is
    down it does not ask for its events again. *)
Definition react_ok : Prop :=
  forall n e, Forall (call_ok (n = NConn true \/ n = NMessage)) (react n e).

Lemma notify_core n e : conn_core e -> conn_core (notify n e).
Proof. intros (ch & C & [[] ? ?]). exists ch. split; [exact C|body]. Qed.

Lemma callback_spec n e :
  react_ok -> conn_core e -> (n = NConn true \/ n = NMessage -> live (m_conn_state (e_conn e))) ->
  fine (fun e' => conn_core e' /\ call_frame (notify n e) e') (callback react n e).
Proof.
  intros R I Ho. unfold callback. apply do_calls_spec; [by apply notify_core|].
  eapply Forall_impl; [apply R|]. intros [] Hc; simpl in *; try done; [by apply Ho|]. destruct Hc. split; [by apply Ho|done].
Qed.

(** The connection goes down: nothing is watched any more. *)
Lemma go_down_spec e :
  conn_core e -> is_open (m_conn_state (e_conn e)) ->
  fine (fun e' => conn_core e' /\ m_conn_state (e_conn e') = kDisconnected /\ e_trace e' = e_trace e)
    (channel_call end_all (on_conn (set_state kDisconnected) e)).
Proof.
  intros (ch & C & B) Ho.
  assert (m_conn_state (e_conn e) <> kConnecting) as Hnc by (intros E; destruct Ho; congruence).
  pose proof C as (I & Hc & Ha & Hv & Hl & Hreg & _). unfold end_all, channel_call. simpl.
  pose proof (change_events_spec (fun _ => kNoneEvent) _ _ _ _ I Hc Ha ltac:(done)) as S.
  destruct (change_events _ _ _ _) as [[p' cs']|x]; simpl; [|by left].
  destruct S as (I' & M' & idx & -> & R'). split_and!; [|done..].
  exists (updated_channel (fun _ => kNoneEvent) idx ch). split.
  - split_and!; simpl; [done|apply lookup_insert_eq| |done|done| |].
    + destruct Ha as [Hr _]. split; simpl; [by rewrite Hr, (inv_thread _ _ I), (inv_thread _ _ I')|].
      left. rewrite M'. apply lookup_insert_eq.
    + intros _. rewrite M'. apply lookup_insert_eq.
    + intros _ _. apply R'; [by apply Hreg|done].
  - destruct B as [[] b_closed0 b_writing0]. body. intros []; congruence.
Qed.

(** What [handle_close] does: the state is down, and the user was told twice. *)
Definition closed_from e e' : Prop :=
  conn_core e' /\ m_conn_state (e_conn e') = kDisconnected /\ e_trace e' = e_trace e ++ [NConn false; NClose].

Lemma call_frame_down e e' :
  call_frame e e' -> m_conn_state (e_conn e) = kDisconnected -> m_conn_state (e_conn e') = kDisconnected.
Proof. intros [_ [->|[E _]]]; congruence. Qed.

Lemma handle_close_spec e :
  react_ok -> conn_core e -> is_open (m_conn_state (e_conn e)) -> fine (closed_from e) (handle_close react e).
Proof.
  intros R I Ho. pose proof I as (ch & C & _). unfold handle_close. rewrite (in_loop_thread_ok e ch C).
  rewrite (proj2 (is_open_bool _) Ho). cbn.
  eapply fine_bind; [by apply go_down_spec|]. intros e1 (I1 & S1 & T1).
  eapply fine_bind; [apply (callback_spec (NConn false) e1); [done..|by intros [] ]|]. intros e2 (I2 & F2).
  eapply fine_mono; [|apply (callback_spec NClose e2); [done..|by intros [] ]]. intros e3 (I3 & F3).
  pose proof (call_frame_down _ _ F2 S1) as S2. pose proof (call_frame_down _ _ F3 S2) as S3. split_and!; [done..|].
  destruct F2 as [T2 _], F3 as [T3 _]. rewrite T3. simpl. rewrite T2. simpl. by rewrite T1, <- app_assoc.
Qed.

Lemma force_close_in_reactor_spec e :
  react_ok -> conn_core e -> fine (fun e' => e' = e \/ is_open (m_conn_state (e_conn e)) /\ closed_from e e')
    (force_close_in_reactor react e).
Proof.
  intros R I. pose proof I as (ch & C & _). unfold force_close_in_reactor. rewrite (in_loop_thread_ok e ch C). cbn.
  destruct (open_state (e_conn e)) eqn:Ho; [|by left]. apply is_open_bool in Ho.
  eapply fine_mono; [|by apply handle_close_spec]. auto.
Qed.

(** [readv] fills at most the two regions it is given. *)
Definition readv_ok (readv : Z -> io_result) (b : Buffer) : Prop :=
  match readv (read_capacity b) with IoBytes d => len d <= read_capacity b | _ => True end.

(** The socket has data. *)
Definition data_read (readv : Z -> io_result) e : Prop :=
  exists d, readv (read_capacity (m_input_buffer (e_conn e))) = IoBytes d /\ d <> [].
(** ... or is at its end. *)
Definition end_read (readv : Z -> io_result) e : Prop := readv (read_capacity (m_input_buffer (e_conn e))) = IoBytes [].

Lemma handle_socket_readable_spec readv e :
  react_ok -> conn_core e -> live (m_conn_state (e_conn e)) -> readv_ok readv (m_input_buffer (e_conn e)) ->
  (end_read readv e -> is_open (m_conn_state (e_conn e))) ->
  fine (fun e' => done_call e e' \/ data_read readv e /\ done_call (notify NMessage e) e' \/
          is_open (m_conn_state (e_conn e)) /\ closed_from e e')
    (handle_socket_readable react readv e).
Proof.
  intros R (ch & C & B) Hl Hk He. unfold handle_socket_readable. rewrite (in_loop_thread_ok e ch C). cbn.
  pose proof (b_in _ B) as W. unfold readv_ok in Hk.
  destruct (readv (read_capacity (m_input_buffer (e_conn e)))) as [en|d] eqn:Hr.
  { unfold read_all_from. unfold read_capacity in Hr. rewrite Hr. cbn. left.
       eapply core_intro; [exact C|by apply set_input_inv|split; [done|by left] ]. }
  pose proof (read_all_from_safe readv _ d W Hr Hk) as S.
  destruct (read_all_from _ _) as [[[n err] b']|f]; cbn; [|by right; destruct S].
  destruct S as (-> & -> & W' & _).
  assert (conn_core (on_conn (set_input b') e)) as I' by (exists ch; split; [exact C|by apply set_input_inv]).
  destruct (Z.ltb_spec 0 (len d)) as [Hd|Hd].
  - eapply fine_mono; [|by apply (callback_spec NMessage (on_conn (set_input b') e))]. intros e' D. right. left. split; [|done].
    exists d. split; [done|]. by intros ->.
  - assert (d = []) as -> by (destruct d; [done|unfold len in Hd; simpl in Hd; lia]).
    assert (is_open (m_conn_state (e_conn e))) as Ho by (by apply He).
    eapply fine_mono; [|by apply handle_close_spec]. auto.
Qed.

(** ** Writing *)

(** Nothing changes but what is sent, and what remains. *)
Definition same_conn e e' : Prop :=
  e_poller e' = e_poller e /\ e_chans e' = e_chans e /\ e_trace e' = e_trace e /\
  m_conn_state (e_conn e') = m_conn_state (e_conn e) /\ m_channel (e_conn e') = m_channel (e_conn e) /\
  m_loop (e_conn e') = m_loop (e_conn e).

#[global] Instance same_conn_preorder : PreOrder same_conn.
Proof. split; [done|]. intros e1 e2 e3 (?&?&?&?&?&?) (?&?&?&?&?&?). split_and!; congruence. Qed.

Lemma same_conn_chan e e' ch : same_conn e e' -> chan_inv e ch -> chan_inv e' ch.
Proof. intros (Hp & Hc & _ & Hs & Hch & Hl). unfold chan_inv. by rewrite Hp, Hc, Hs, Hch, Hl. Qed.

Lemma same_conn_frame e e' : same_conn e e' -> call_frame e e'.
Proof. intros (_ & _ & Ht & Hs & _). split; [done|by left]. Qed.

(** The first two fields that a step of the sending changes are consistent. *)
Definition settled (c : TcpConnection) : Prop :=
  match m_sending_state c with
  | kNotSending => content (m_output_buffer c) = []
  | kSendingBuffer => content (m_output_buffer c) <> []
  | kSendingFile => m_zero_copier_ptr c <> None
  | kSendingFinished => False
  end.

Lemma empty_content b : wf b -> (content_bytes_len b =? 0) = bool_decide (content b = []).
Proof.
  intros W. rewrite (content_bytes_len_content b W). apply eq_true_iff_eq.
  rewrite Z.eqb_eq, bool_decide_eq_true. destruct (content b); [done|]. unfold len. simpl. split; [lia|done].
Qed.

Lemma write_socket_spec n e :
  base_inv e -> live (m_conn_state (e_conn e)) -> n <= len (content (m_output_buffer (e_conn e))) ->
  exists e', write_socket_from_buffer n e = Ok e' /\ base_inv e' /\ same_conn e e' /\
    m_sending_state (e_conn e') = m_sending_state (e_conn e).
Proof.
  intros B Ho Hn. unfold write_socket_from_buffer. pose proof (b_out _ B) as W.
  destruct (_ =? 0); [by exists e; split_and!|]. destruct (Z.ltb_spec n 0); [by exists e; split_and!|].
  destruct (retrieve_spec _ n W) as (out & -> & W' & C' & _); [lia|].
  pose proof W as []. pose proof (len_content _ W).
  rewrite (read_range_ok _ _ _ W) by (unfold peek_base; lia). cbn. eexists. split; [done|]. split_and!; try done.
  destruct B. constructor; simpl; try done.
  - intros E. by destruct (live_new _ Ho).
  - rewrite buffer_wire_snoc, C', <- b_wire0, <- app_assoc. f_equal. 
    rewrite <- (take_drop (Z.to_nat n) (content (m_output_buffer (e_conn e)))) at 2. f_equal.
    unfold content, peek_base. rewrite take_slice by lia. done.
  - intros a Ha. rewrite buffer_wire_snoc. apply prefix_app_r. by apply b_shut0.
Qed.

Lemma set_sending_inv s e :
  base_inv e -> s = kSendingBuffer \/ s = kNotSending -> base_inv (on_conn (set_sending s) e).
Proof. intros [] Hs. constructor; simpl; try done; intros ->; by destruct Hs. Qed.

Lemma writable_buffer_spec n e :
  base_inv e -> live (m_conn_state (e_conn e)) -> n <= len (content (m_output_buffer (e_conn e))) ->
  exists e', writable_buffer n e = Ok e' /\ base_inv e' /\ same_conn e e' /\ settled (e_conn e').
Proof.
  intros B Ho Hn. unfold writable_buffer, is_sending_state.
  destruct (bool_decide _ || bool_decide _) eqn:Hs; rewrite ?orb_true_iff, ?orb_false_iff, ?bool_decide_eq_true,
    ?bool_decide_eq_false in Hs.
  - destruct (write_socket_spec n (on_conn (set_sending kSendingBuffer) e)) as (e1 & -> & B1 & S1 & Hs1);
      [by apply set_sending_inv; auto|done..|]. cbn. unfold transfer, transfer_sending_state. rewrite Hs1. cbn.
    rewrite (empty_content _ (b_out _ B1)). unfold settled.
    case_bool_decide as Hc; cbn; eexists; (split; [done|]); split_and!.
    + apply (set_sending_inv kNotSending); auto.
    + exact S1.
    + done.
    + by destruct B1.
    + exact S1.
    + simpl. by rewrite Hs1.
  - exists e. split_and!; [done..|]. unfold settled. pose proof (b_state _ B) as Hf. pose proof (b_file _ B).
    destruct (m_sending_state (e_conn e)); intuition.
Qed.

(** After the sending: nothing is pending exactly when the state says so. *)
Definition drained (c : TcpConnection) : Prop :=
  if decide (m_sending_state c = kNotSending) then ~ pending c else pending c.

Lemma settled_drained e :
  settled (e_conn e) -> (m_sending_state (e_conn e) = kNotSending -> m_zero_copier_ptr (e_conn e) = None) ->
  drained (e_conn e).
Proof.
  unfold settled, drained, pending. intros Hs Hn. destruct (m_sending_state (e_conn e)) eqn:E.
  - by left.
  - by right.
  - intros [Hc|Hc]; auto.
  - done.
Qed.

(** A chunk of the file was sent and [z] is the copier. *)
Lemma chunk_inv e z d :
  base_inv e -> running z -> live (m_conn_state (e_conn e)) ->
  base_inv (wrote true d (on_conn (fun c => set_copier (Some z) (set_sending kSendingFile c)) e)).
Proof.
  intros [] R Ho. constructor; simpl; try done.
  - by intros ? [= <-].
  - intros E. by destruct (live_new _ Ho).
  - by rewrite buffer_wire_snoc, app_nil_r.
  - intros a. rewrite buffer_wire_snoc, app_nil_r. apply b_shut0.
Qed.

Lemma no_copier_inv e :
  base_inv e -> m_sending_state (e_conn e) = kNotSending -> live (m_conn_state (e_conn e)) ->
  base_inv (on_conn (set_copier None) e).
Proof.
  intros [] Hs Ho. constructor; simpl; try done; intros E; [congruence|by destruct (live_new _ Ho)].
Qed.

Lemma writable_file_spec mode chunk a e :
  base_inv e -> live (m_conn_state (e_conn e)) -> settled (e_conn e) ->
  exists e', writable_file mode chunk a e = Ok e' /\ base_inv e' /\ same_conn e e' /\ drained (e_conn e').
Proof.
  intros B Ho Hs. unfold writable_file. destruct (m_zero_copier_ptr (e_conn e)) as [z|] eqn:Hz.
  2: { exists e. split_and!; [done..|]. by apply settled_drained. }
  rewrite (empty_content _ (b_out _ B)). case_bool_decide as Hc; cbn.
  2: { exists e. split_and!; [done..|]. apply settled_drained; [done|]. intros E. unfold settled in Hs. by rewrite E in Hs. }
  destruct (is_sending_state _ _ || is_sending_state _ _) eqn:Hm; unfold is_sending_state in Hm;
    rewrite ?orb_true_iff, ?orb_false_iff, ?bool_decide_eq_true, ?bool_decide_eq_false in Hm.
  2: { exfalso. destruct Hm. unfold settled in Hs. by destruct (m_sending_state (e_conn e)). }
  destruct (send_one_chunk_running mode chunk a z (b_copier _ B z Hz)) as (r & z' & d & -> & R). cbn.
  destruct (running_finished z' R) as [f Hf].
  unfold transfer, transfer_sending_state, copier_finished. cbn. rewrite Hf. cbn.
  pose proof (chunk_inv e z' d B R Ho) as B1. destruct f; cbn; unfold copier_finished; cbn; rewrite Hf; cbn;
    eexists; (split; [done|]).
  - split_and!; [|done..|].
    + apply no_copier_inv; [|done|done]. apply (set_sending_inv kNotSending) in B1; [|by right]. by destruct B1.
    + intros [Hc'|Hc']; by simpl in *.
  - split_and!; [|done..|]; [by destruct B1|by right].
Qed.

Lemma writable_done_spec e ch :
  chan_inv e ch -> base_inv e -> live (m_conn_state (e_conn e)) -> is_writing ch = true -> drained (e_conn e) ->
  fine (done_call e) (writable_done e).
Proof.
  intros C B Ho Hw Hd. unfold writable_done, is_sending_state, drained in *.
  destruct (decide (m_sending_state (e_conn e) = kNotSending)) as [Hs|Hs].
  2: { rewrite bool_decide_eq_false_2 by done. eapply core_intro; [exact C| |done]. constructor; [done|by intros ?; destruct (live_dead _ Ho)|done]. }
  rewrite bool_decide_eq_true_2 by done.
  destruct (event_masks (m_concerned_events ch)) as (_ & _ & _ & Hv & _ & _ & _ & Hm); [apply C|].
  eapply fine_bind; [apply (channel_call_spec (fun ev : Z => Z.land ev (Z.lnot kWriteEvent)) e ch); [done..|] |].
  { intros Hst E. by destruct (live_strict _ Ho Hst). }
  intros e1 (p' & idx & -> & C' & _). set (e1 := with_poller _ _ e) in *.
  assert (body_inv e1 (updated_channel (fun ev : Z => Z.land ev (Z.lnot kWriteEvent)) idx ch)) as B1.
  { constructor; [by destruct B|by intros ?; destruct (live_dead _ Ho)|]. intros _. unfold is_writing. simpl. by rewrite Hm. }
  assert (conn_core e1) as I1 by (eexists; by split). assert (call_frame e e1) as F1 by (split; [done|by left]).
  assert (m_conn_state (e_conn e1) <> kConnecting) as Hnc by (by apply live_new).
  set (e2 := if m_has_write_complete (e_conn e1) then queue_task TWriteComplete e1 else e1).
  assert (done_call e e2 /\ m_conn_state (e_conn e2) <> kConnecting) as ([I2 F2] & Hnc2).
  { subst e2. destruct (m_has_write_complete _); [|done].
    split; [|exact Hnc]. destruct (queue_task_spec TWriteComplete e1 I1 Hnc) as [I2 F2]; [done|]. split; [done|by etrans]. }
  case_bool_decide; [|by split]. eapply fine_mono; [|by apply shutdown_in_reactor_spec].
  intros e3 [I3 F3]. split; [done|by etrans].
Qed.

Lemma handle_socket_writable_spec n mode chunk a e :
  conn_core e -> n <= len (content (m_output_buffer (e_conn e))) ->
  fine (done_call e) (handle_socket_writable n mode chunk a e).
Proof.
  intros (ch & C & B) Hn. unfold handle_socket_writable.
  rewrite (in_loop_thread_ok e ch C), (my_channel_ok e ch C). cbn.
  destruct (is_writing ch) eqn:Hw; [|by eapply core_intro].
  assert (live (m_conn_state (e_conn e))) as Ho.
  { destruct (decide (dead (m_conn_state (e_conn e)))) as [Hd|Hd].
    - unfold is_writing in Hw. by rewrite (b_closed _ _ B Hd) in Hw.
    - destruct (decide (live (m_conn_state (e_conn e)))) as [|Hnl]; [done|]. by destruct Hd; apply not_live_dead. }
  destruct (writable_buffer_spec n e B Ho Hn) as (e1 & -> & B1 & S1 & Hs1). cbn.
  assert (forall e', same_conn e e' -> live (m_conn_state (e_conn e'))) as Ho' by (intros e' (_&_&_&->&_); done).
  destruct (writable_file_spec mode chunk a e1 B1 (Ho' _ S1) Hs1) as (e2 & -> & B2 & S2 & Hd2). cbn.
  assert (same_conn e e2) as S by by etrans.
  eapply fine_mono; [|apply (writable_done_spec e2 ch); [by eapply same_conn_chan|done|by apply Ho'|done..] ].
  intros e3 [I3 F3]. split; [done|]. etrans; [|exact F3]. by apply same_conn_frame.
Qed.

(** ** Life *)

Lemma connect_established_spec e :
  react_ok -> conn_core e -> m_conn_state (e_conn e) = kConnecting ->
  fine (fun e' => conn_core e' /\ is_open (m_conn_state (e_conn e')) /\ e_trace e' = e_trace e ++ [NConn true])
    (connect_established react e).
Proof.
  intros R (ch & C & B) Hs. unfold connect_established. rewrite (in_loop_thread_ok e ch C), Hs. cbn.
  change (my_channel (on_conn (set_state kConnected) e)) with (my_channel e). rewrite (my_channel_ok e ch C). cbn.
  destruct (b_fresh _ B Hs) as (Ht & Hm & Hp).
  assert (m_concerned_events ch = kNoneEvent) as He by (apply (b_closed _ _ B); rewrite Hs; apply dead_connecting).
  pose proof C as (I & Hc & Ha & _ & Hl & _). unfold channel_call, wang_to_read. cbn.
  pose proof (change_owned_spec (fun ev => Z.lor ev kReadEvent) _ _ _ ch (tie (m_channel (e_conn e)) ch) I Hc Ha
    eq_refl eq_refl eq_refl) as S. cbn in S. rewrite He in S. specialize (S ltac:(done)).
  destruct (change_events _ _ _ _) as [[p' cs']|x]; cbn; [|by left]. destruct S as (I' & M' & idx & -> & _).
  set (ch' := set_index _ _). set (e1 := with_poller p' _ _).
  assert (conn_core e1) as I1.
  { exists ch'. split.
    - split_and!; simpl; [done|apply lookup_insert_eq| |done|done| |done].
      + destruct Ha as [Hr _]. split; simpl; [by rewrite Hr, (inv_thread _ _ I), (inv_thread _ _ I')|].
        left. rewrite M'. apply lookup_insert_eq.
      + intros _. rewrite M'. apply lookup_insert_eq.
    - destruct B as [[] _ _]. assert (live kConnected) as Hlive by (apply open_live; by left). body. }
  eapply fine_mono; [|apply (callback_spec (NConn true) e1); [done..|intros _; apply open_live; by left] ].
  intros e2 (I2 & F2). split_and!; [done| |by destruct F2].
  apply (call_frame_open _ _ F2). by left.
Qed.

(** A closed connection can be removed from the poller. *)
Lemma closed_removal h cur act e ch :
  strict = true -> chan_inv e ch -> body_inv e ch -> m_conn_state (e_conn e) = kDisconnected ->
  may_remove h cur act (m_channel (e_conn e)) = true ->
  exists e', channel_call (remove_self_from_reactor h cur act) e = Ok e' /\ e_conn e' = e_conn e /\
    e_trace e' = e_trace e /\ poller_inv (e_poller e') (e_chans e') /\
    m_channel_map (e_poller e') = delete (m_fd ch) (m_channel_map (e_poller e)).
Proof.
  intros Hst (I & Hc & [Hr _] & _ & _ & Hreg & Hrem) B Hs Hm.
  destruct (remove_self_spec h cur act (e_poller e) (e_chans e) (m_channel (e_conn e)) ch)
    as (p' & cs' & E & I' & M' & _); [done..|apply Hreg; congruence|done| |by apply Hrem|done|].
  { apply (b_closed _ _ B). rewrite Hs. apply strict_dead; [done|by intros []]. }
  unfold channel_call. rewrite E. cbn. by eexists.
Qed.

Lemma run_task_spec t ts e :
  react_ok -> conn_core e -> e_tasks e = t :: ts -> (t = TStartRead -> live (m_conn_state (e_conn e))) ->
  fine (fun e' => done_call e e' \/ is_open (m_conn_state (e_conn e)) /\ closed_from e e')
    (run_task react t (take_tasks ts e)).
Proof.
  intros R (ch & C & B) Ht Hsr.
  assert (m_conn_state (e_conn e) <> kConnecting) as Hnc.
  { intros E. destruct (b_fresh _ B E) as (Ht' & _). by rewrite Ht' in Ht. }
  assert (conn_core (take_tasks ts e)) as I.
  { exists ch. split; [exact C|]. pose proof (b_tasks _ B) as Htl. rewrite Ht in Htl. destruct B as [[] ? ?]. body.
    intros d Hd. apply Htl. by right. }
  assert (forall m, fine (done_call (take_tasks ts e)) m ->
            fine (fun e' => done_call e e' \/ is_open (m_conn_state (e_conn e)) /\ closed_from e e') m) as K.
  { intros m. apply fine_mono. by left. }
  destruct t; simpl.
  - apply K, send_bytes_spec; [done..|]. apply (b_tasks _ B). rewrite Ht. by left.
  - by apply K, shutdown_in_reactor_spec.
  - by apply K, shutdown_force_spec.
  - eapply fine_mono; [|by apply force_close_in_reactor_spec]. intros e' [-> |[Ho D]]; [|by right].
    left. split; [done|split; [done|by left] ].
  - apply K, start_read_in_reactor_spec; [done|by apply Hsr].
  - by apply K, stop_read_in_reactor_spec.
  - left. split; [done|split; [done|by left] ].
  - left. split; [done|split; [done|by left] ].
Qed.

Lemma run_timer_spec i t e :
  react_ok -> conn_core e -> e_timers e !! i = Some t ->
  fine (fun e' => done_call e e' \/ is_open (m_conn_state (e_conn e)) /\ closed_from e e')
    (run_timer react t (take_timers (delete i (e_timers e)) e)).
Proof.
  intros R (ch & C & B) Ht. set (e1 := take_timers _ e).
  assert (conn_core e1) as I.
  { exists ch. split; [exact C|]. destruct B as [[] ? ?]. body. intros Hs.
    destruct (b_fresh0 Hs) as (_ & Hm & _). by rewrite Hm in Ht. }
  destruct t; simpl.
  - eapply fine_mono; [|by apply (force_close_in_reactor_spec e1)]. intros e' [-> |[Ho D]]; [|by right].
    left. split; [done|split; [done|by left] ].
  - eapply fine_mono; [|by apply (force_close_spec e1)]. by left.
Qed.

(** ** Reachable states *)

(** What the kernel, the reactor and the user guarantee of an event: the socket
    of a new connection has no events, the kernel transfers at most what it is
    asked for, and user code calls a connection that is established.  With
    [strict], events, the establishment and the wish for events come only in the
    states that the code expects. *)
Definition admitted (ev : conn_event (P := P)) e : Prop :=
  match ev with
  | EvEstablished => if strict then m_conn_state (e_conn e) = kConnecting else True
  | EvReadable readv => live (m_conn_state (e_conn e)) /\ readv_ok readv (m_input_buffer (e_conn e))
  | EvWritable n _ _ _ => n <= len (content (m_output_buffer (e_conn e)))
  | EvClose => live (m_conn_state (e_conn e))
  | EvTask => head (e_tasks e) = Some TStartRead -> live (m_conn_state (e_conn e))
  | EvTimer _ => True
  | EvCall in_loop c =>
      m_conn_state (e_conn e) <> kConnecting /\ call_ok (live (m_conn_state (e_conn e))) c /\
      (in_loop = false -> match c with UZeroCopy _ | URetrieve _ => False | _ => True end)
  | EvOther p cs => forall ch, chan_inv e ch -> chan_inv (with_poller p cs e) ch
  end.

(** The events that fail an assertion: a second establishment, and a hang-up or
    the end of the stream after the connection went down. *)
Definition conn_aborts (ev : conn_event (P := P)) e : Prop :=
  match ev with
  | EvEstablished => m_conn_state (e_conn e) <> kConnecting
  | EvReadable readv => m_conn_state (e_conn e) = kDisconnected /\ end_read readv e
  | EvClose => m_conn_state (e_conn e) = kDisconnected
  | _ => False
  end.

(** The callbacks so far: up once, messages, down and close once. *)
Definition life (st : TCPConnectionState) (t : list notice) : Prop :=
  match st with
  | kConnecting => t = []
  | kConnected | kDisconnecting => exists k, t = NConn true :: replicate k NMessage
  | kDisconnected => exists k, t = NConn true :: replicate k NMessage ++ [NConn false; NClose]
  end.

(** ... with [j] messages after the close. *)
Definition life_then (st : TCPConnectionState) (t : list notice) (j : nat) : Prop :=
  exists t', t = t' ++ replicate j NMessage /\ life st t' /\ (st <> kDisconnected -> j = 0%nat).

Definition lives (st : TCPConnectionState) (t : list notice) : Prop :=
  if strict then life st t else exists j, life_then st t j.

Definition conn_valid e : Prop := conn_core e /\ lives (m_conn_state (e_conn e)) (e_trace e).

Lemma life_then_open st t j : is_open st -> life_then st t j -> life st t.
Proof. intros Ho (t' & -> & L & Hj). rewrite Hj by (destruct Ho; congruence). by rewrite app_nil_r. Qed.

Lemma lives_open st t : is_open st -> lives st t -> life st t.
Proof. unfold lives. destruct strict; [done|]. intros Ho [j L]. by eapply life_then_open. Qed.

Lemma life_lives st t : life st t -> lives st t.
Proof. unfold lives. destruct strict; [done|]. intros L. exists 0%nat, t. by rewrite app_nil_r. Qed.

Lemma lives_frame e e' : call_frame e e' -> lives (m_conn_state (e_conn e)) (e_trace e) ->
  lives (m_conn_state (e_conn e')) (e_trace e').
Proof.
  intros [-> F] L. destruct F as [->|[E ->]]; [done|]. apply life_lives. rewrite E in L. apply lives_open in L; [done|by left].
Qed.

(** A message, while the connection is open or after it went down. *)
Lemma lives_message st t : live st -> lives st t -> lives st (t ++ [NMessage]).
Proof.
  intros Hl L. destruct (decide (is_open st)) as [Ho|Ho].
  - apply life_lives. apply lives_open in L; [|done]. destruct Ho as [-> | ->]; destruct L as [k ->]; exists (S k); by rewrite replicate_S_end.
  - unfold live, lives in *. destruct strict; [done|]. destruct L as (j & t' & -> & L & _). exists (S j), t'.
    rewrite replicate_S_end, app_assoc. split_and!; [done..|]. intros Hd. destruct Ho. unfold is_open. destruct st; auto; done.
Qed.

Lemma life_closed e e' :
  is_open (m_conn_state (e_conn e)) -> closed_from e e' -> lives (m_conn_state (e_conn e)) (e_trace e) -> conn_valid e'.
Proof.
  intros Ho (I & S & T) L%lives_open; [|done]. split; [done|]. apply life_lives. rewrite S, T.
  destruct Ho as [Ho|Ho]; rewrite Ho in L; destruct L as [k ->]; by exists k.
Qed.

Lemma life_done e e' : done_call e e' -> conn_valid e -> conn_valid e'.
Proof. intros [I F] [_ L]. split; [done|by eapply lives_frame]. Qed.

Lemma remote_call_spec c e :
  conn_core e -> m_conn_state (e_conn e) <> kConnecting -> call_ok (live (m_conn_state (e_conn e))) c ->
  match c with UZeroCopy _ | URetrieve _ => False | _ => True end -> fine (done_call e) (do_call false c e).
Proof.
  intros I Hnc Hc Hr. destruct c; simpl in *; try done.
  - by apply send_spec.
  - by apply shutdown_spec.
  - by apply shutdown_and_force_close_spec.
  - by apply force_close_spec.
  - by apply force_close_with_delay_spec.
  - by apply queue_task_spec.
  - by apply queue_task_spec.
Qed.

(** What a step may do: go up; or the calls of user code, a message and then
    such calls, or the way down. *)
Definition went_up e e' : Prop :=
  m_conn_state (e_conn e) = kConnecting /\ conn_core e' /\ is_open (m_conn_state (e_conn e')) /\ e_trace e' = e_trace e ++ [NConn true].
Definition step_effect (ev : conn_event (P := P)) e e' : Prop :=
  match ev with
  | EvEstablished => went_up e e'
  | _ => done_call e e' \/
         live (m_conn_state (e_conn e)) /\ (exists readv, ev = EvReadable readv /\ data_read readv e) /\ done_call (notify NMessage e) e' \/
         is_open (m_conn_state (e_conn e)) /\ closed_from e e'
  end.

Lemma conn_step_effect ev e : react_ok -> conn_core e -> admitted ev e -> ~ conn_aborts ev e ->
  fine (step_effect ev e) (conn_step react ev e).
Proof.
  intros R C Hev Hn. unfold step_effect, went_up. destruct ev as [|readv|n mode chunk a| | |i|in_loop c|p cs]; cbn [conn_step admitted conn_aborts] in *.
  - assert (m_conn_state (e_conn e) = kConnecting) as Hs by (by apply dec_stable).
    eapply fine_mono; [|by apply connect_established_spec]. auto.
  - destruct Hev as [Hl Hk]. eapply fine_mono; [|apply handle_socket_readable_spec; [done..|] ].
    + intros e' [D|[[Hd D]|[Ho D]]]; [by left| |by right; right]. right. left. split_and!; [done| |done]. by exists readv.
    + intros He. apply open_cases; [by apply live_new|]. intros Hs. by apply Hn.
  - eapply fine_mono; [|by apply handle_socket_writable_spec]. auto.
  - assert (is_open (m_conn_state (e_conn e))) as Ho by (apply open_cases; [by apply live_new|done]).
    eapply fine_mono; [|by apply handle_close_spec]. auto.
  - destruct (e_tasks e) as [|t ts] eqn:Ht; [by left|].
    eapply fine_mono; [|apply run_task_spec; [done..|by intros ->; apply Hev] ]. intros e' [D|D]; auto.
  - destruct (e_timers e !! i) as [t|] eqn:Ht; [|by left].
    eapply fine_mono; [|by apply run_timer_spec]. intros e' [D|D]; auto.
  - destruct Hev as (Hnc & Hc & Hr). eapply fine_mono; [by left|].
    destruct in_loop; [by apply do_call_spec|specialize (Hr eq_refl); by apply remote_call_spec].
  - left. destruct C as (ch & Cc & [[] ? ?]). split; [|by split; [|left] ]. exists ch. split; [by apply Hev|body].
Qed.

(** The events that abort do. *)
Lemma conn_aborts_fails ev e : conn_core e -> conn_aborts ev e -> conn_step react ev e = Fail FAssert.
Proof.
  intros (ch & C & B) Ha.
  assert (forall e', e_conn e' = e_conn e \/ m_conn_state (e_conn e') = m_conn_state (e_conn e) /\ m_loop (e_conn e') = m_loop (e_conn e) ->
    m_conn_state (e_conn e) = kDisconnected -> handle_close react e' = Fail FAssert) as Hclose.
  { intros e' He Hs. assert (m_conn_state (e_conn e') = kDisconnected /\ m_loop (e_conn e') = cur_tid) as [Hs' Hl'].
    { pose proof C as (_ & _ & _ & _ & Hl & _). destruct He as [->|[-> ->]]; done. }
    unfold handle_close, in_loop_thread. rewrite (in_thread_ok _ Hl'). cbn. unfold open_state. by rewrite Hs'. }
  destruct ev as [|readv| | | | | |]; try done; cbn [conn_step conn_aborts] in *.
  - unfold connect_established. rewrite (in_loop_thread_ok e ch C). cbn. by rewrite bool_decide_eq_false_2.
  - destruct Ha as [Hs Hr]. unfold handle_socket_readable. rewrite (in_loop_thread_ok e ch C). cbn.
    assert (read_all_from readv (m_input_buffer (e_conn e)) = read_all_from (fun _ => IoBytes []) (m_input_buffer (e_conn e))) as ->.
    { unfold read_all_from. unfold end_read, read_capacity in Hr. by rewrite Hr. }
    destruct (read_all_from_eof _ (b_in _ B)) as [b' ->]. cbn. apply Hclose; [by right|done].
  - apply Hclose; [by left|done].
Qed.

Lemma step_effect_cases ev e e' : step_effect ev e e' ->
  ev = EvEstablished /\ went_up e e' \/
  ev <> EvEstablished /\ (done_call e e' \/ live (m_conn_state (e_conn e)) /\ done_call (notify NMessage e) e' \/
    is_open (m_conn_state (e_conn e)) /\ closed_from e e').
Proof. destruct ev; intros S; [by left|right; split; [done|]; destruct S as [|[(? & ? & ?)|]]; auto..]. Qed.

Lemma step_effect_inv ev e e' : step_effect ev e e' -> conn_valid e -> conn_valid e'.
Proof.
  intros [[-> (Hs & I' & Ho & T)]|[_ [D|[[Hl D]|[Ho D]]]]]%step_effect_cases [C L].
  - split; [done|]. apply life_lives. assert (e_trace e = []) as E0.
    { rewrite Hs in L. unfold lives in L. destruct strict; [done|]. destruct L as (j & t & -> & -> & Hj). by rewrite Hj. }
    rewrite T, E0. destruct Ho as [-> | ->]; by exists 0%nat.
  - by eapply life_done.
  - apply (life_done _ _ D). split; [by apply notify_core|]. simpl. by apply lives_message.
  - by eapply life_closed.
Qed.

Lemma conn_step_valid ev e : react_ok -> conn_valid e -> admitted ev e -> ~ conn_aborts ev e -> fine conn_valid (conn_step react ev e).
Proof.
  intros R I Hev Hn. eapply fine_mono; [|apply conn_step_effect; [done|apply I|done..] ]. intros e' S. by apply (step_effect_inv ev e).
Qed.

(** A connection as it is after its constructor. *)
Definition new_env (loop : pid_t) (c : chan_ptr) (fd : Z) (wc hw : bool) (inb outb : Buffer) (p : P) (cs : chans)
    : conn_env P :=
  mkEnv (new_TcpConnection loop c wc hw inb outb) p (<[c := new_Channel loop fd]> cs) [] [] [] [] None [].

Definition fresh_buffers (inb outb : Buffer) : Prop := wf inb /\ wf outb /\ content outb = [].

Lemma new_env_inv c fd wc hw inb outb p cs :
  poller_inv p cs -> cs !! c = None -> m_channel_map p !! fd = None -> 0 <= fd -> fresh_buffers inb outb ->
  conn_valid (new_env (owner_thread p) c fd wc hw inb outb p cs).
Proof.
  intros I Hc Hm Hfd (Wi & Wo & Co). split; [|by apply life_lives]. exists (new_Channel (owner_thread p) fd). split.
  - assert (poller_inv p (<[c := new_Channel (owner_thread p) fd]> cs)) as I'.
    { apply (inv_frame p cs); [done|]. intros fd' c' M. destruct (registered_channel _ _ _ _ I M) as (ch & L & _).
      rewrite lookup_insert_ne by congruence. done. }
    split_and!; simpl; [done|apply lookup_insert_eq| |done|by apply (inv_thread _ _ I)|done|done].
    split; [done|]. by right.
  - constructor; [constructor| |]; simpl; try done.
    + intros _. split_and!; [done..|]. by intros [].
    + by intros d ?%not_elem_of_nil.
    + unfold is_open. intuition congruence.
Qed.

Inductive conn_next : conn_env P -> conn_env P -> Prop :=
| next_event ev e e' : admitted ev e -> conn_step react ev e = Ok e' -> conn_next e e'.

Lemma conn_rtc_inv e e' : react_ok -> conn_valid e -> rtc conn_next e e' -> conn_valid e'.
Proof.
  intros R I Hr. induction Hr as [|e e1 e2 [ev e0 e0' Hev E] _ IH]; [done|]. apply IH.
  pose proof (conn_step_valid ev e0 R I Hev) as S. rewrite E in S. apply S. intros Ha%conn_aborts_fails; [congruence|apply I].
Qed.

(** The states of a connection: from a new one, by any admissible events. *)
Definition starts e : Prop :=
  exists c fd wc hw inb outb p cs, poller_inv p cs /\ cs !! c = None /\ m_channel_map p !! fd = None /\ 0 <= fd /\
    fresh_buffers inb outb /\ e = new_env (owner_thread p) c fd wc hw inb outb p cs.

Definition reached e : Prop := exists e0, starts e0 /\ rtc conn_next e0 e.

Lemma reached_inv e : react_ok -> reached e -> conn_valid e.
Proof.
  intros R (e0 & (c & fd & wc & hw & inb & outb & p & cs & ? & ? & ? & ? & ? & ->) & Hr).
  eapply conn_rtc_inv; [done| |exact Hr]. by apply new_env_inv.
Qed.

Lemma reached_step ev e e' :
  reached e -> admitted ev e -> conn_step react ev e = Ok e' -> reached e'.
Proof. intros (e0 & S & Hr) Hev E. exists e0. split; [done|]. eapply rtc_r; [done|by econstructor]. Qed.

Lemma reached_next ev e : react_ok -> reached e -> admitted ev e -> ~ conn_aborts ev e -> fine reached (conn_step react ev e).
Proof.
  intros R Hr Hev Hn. pose proof (conn_step_valid ev e R (reached_inv e R Hr) Hev Hn) as S.
  destruct (conn_step react ev e) as [e'|f] eqn:E; [|exact S]. by eapply reached_step.
Qed.

Lemma send_accepts d e e' ch :
  chan_inv e ch -> m_conn_state (e_conn e) = kConnected -> send true d e = Ok e' -> e_accepted e' = e_accepted e ++ d.
Proof.
  intros C Hs. unfold send, send_bytes_in_reactor, channel_call.
  rewrite Hs, bool_decide_eq_true_2, bool_decide_eq_false_2, (in_loop_thread_ok e ch C) by done. cbn.
  destruct (Z.ltb_spec 0 (len d)).
  - set (e1 := if _ && _ && _ then _ else e). assert (e_accepted e1 = e_accepted e) as <- by (subst e1; by case_match).
    intros E. outcome_inv. destruct (negb _); outcome_inv; [|by subst]. destruct x1. outcome_inv. by subst.
  - intros [= <-]. destruct d; [by rewrite app_nil_r|]. unfold len in *. simpl in *. lia.
Qed.

End inv.

(** ** Two ways to use a connection *)

Abbreviation chan_ok := (chan_inv (strict := true)).
Abbreviation core_inv := (conn_core (strict := true)).
Abbreviation conn_inv := (conn_valid (strict := true)).
Abbreviation stepped := (step_effect (strict := true)).
(** The events in the states that the code expects. *)
Abbreviation event_ok := (admitted (strict := true)).
Abbreviation reachable := (reached (strict := true)).
(** ... and at any time. *)
Abbreviation any_event := (admitted (strict := false)).
Abbreviation late_reachable := (reached (strict := false)).

Section theorems.
Context {P : Type} `{PollerLaws P}.
Context (react : notice -> conn_env P -> list user_call).
Implicit Types (e : conn_env P).

(** Splits a goal [body_inv] with the old one in the context. *)
Ltac body := constructor; [constructor| |]; simpl; try done.

Lemma event_ok_safe (ev : conn_event (P := P)) e : event_ok ev e -> ~ conn_aborts ev e.
Proof.
  destruct ev; simpl; try tauto.
  - intros [Ho _] [Hs _]. destruct Ho; congruence.
  - intros Ho Hs. destruct Ho; congruence.
Qed.

Lemma reachable_inv e : react_ok react -> reachable react e -> conn_inv e.
Proof. apply reached_inv. Qed.

Lemma reachable_step ev e e' : reachable react e -> event_ok ev e -> conn_step react ev e = Ok e' -> reachable react e'.
Proof. apply reached_step. Qed.

Lemma conn_step_cases ev e : react_ok react -> core_inv e -> event_ok ev e -> fine (stepped ev e) (conn_step react ev e).
Proof. intros R C Hev. apply conn_step_effect; [done..|by apply event_ok_safe]. Qed.

Lemma conn_step_spec ev e : react_ok react -> conn_inv e -> event_ok ev e -> fine conn_inv (conn_step react ev e).
Proof. intros R C Hev. apply conn_step_valid; [done..|by apply event_ok_safe]. Qed.

(** C18: which events abort a connection.  After any order of events of the
    socket (also after the connection went down), tasks, timers, user calls (in
    the loop thread or in others), callbacks and calls of [connect_established],
    the next one fails an assertion exactly when it is one of [conn_aborts]: a
    second [connect_established], or a hang-up or the end of the stream that is
    delivered after the connection went down.  In all other cases it returns, in
    a state from which this holds again: no assertion fails, no member of a null
    or half-constructed object is used, no buffer is accessed out of bounds; at
    worst memory is exhausted, or the kernel refuses a registration.  When
    events come only while the connection is open, it is established once, and
    nobody asks for the events of a closed connection ([event_ok]), no event
    aborts. *)
Theorem connection_aborts_exactly (ev : conn_event) e :
  react_ok react ->
  (late_reachable react e -> any_event ev e ->
   (conn_aborts ev e -> conn_step react ev e = Fail FAssert) /\
   (~ conn_aborts ev e -> fine (late_reachable react) (conn_step react ev e))) /\
  (reachable react e -> event_ok ev e -> fine (reachable react) (conn_step react ev e)).
Proof.
  intros R. split; intros Hr Hev.
  - split; [|by apply reached_next]. apply (conn_aborts_fails (strict := false)). by apply (reached_inv react e R Hr).
  - apply reached_next; [done..|by apply event_ok_safe].
Qed.

(** C19: the byte stream is exact.  In every reachable state, what was written
    to the socket from the output buffer, followed by what the buffer still
    holds, is what was accepted for sending, in order, with nothing lost or
    duplicated; when the sending side was shut down, all that had been accepted
    by then had been written; and while the connection is open its channel
    waits for the socket to be writable exactly when something (data or a file)
    is still to be sent.  A [send] in the loop thread on a connected connection
    appends its data to the accepted stream. *)
Theorem connection_stream_exact e :
  react_ok react -> reachable react e ->
  buffer_wire (e_wire e) ++ content (m_output_buffer (e_conn e)) = e_accepted e /\
  (forall a, e_shut e = Some a -> a `prefix_of` buffer_wire (e_wire e)) /\
  (is_open (m_conn_state (e_conn e)) ->
   exists ch, my_channel e = Ok ch /\ (is_writing ch = true <-> pending (e_conn e))) /\
  (forall d e', m_conn_state (e_conn e) = kConnected -> send true d e = Ok e' -> e_accepted e' = e_accepted e ++ d).
Proof.
  intros R Hr. destruct (reachable_inv e R Hr) as [(ch & C & B) _].
  split_and!; [apply (b_wire _ B)|apply (b_shut _ B)| |].
  - intros Ho. exists ch. split; [by eapply my_channel_ok|by apply (b_writing _ _ B)].
  - intros d e' Hs. by eapply send_accepts.
Qed.

(** C20: what the user sees of a connection.  In every state, whatever order of
    events led to it, the callbacks so far are: none before the connection is
    established; then up once, followed by messages only, while it is open; and
    when it is down, down once and then the close callback once, followed at most
    by messages, and after the close a step adds nothing to the callbacks unless
    it is a readable event with data that is delivered after the connection went
    down, which adds one message.  When events come only while the connection is
    open ([event_ok]), nothing follows the close callback. *)
Theorem connection_life e :
  react_ok react ->
  (late_reachable react e ->
   (exists j, life_then (m_conn_state (e_conn e)) (e_trace e) j) /\
   (forall ev e', m_conn_state (e_conn e) = kDisconnected -> any_event ev e -> conn_step react ev e = Ok e' ->
      e_trace e' = e_trace e \/
      (exists readv, ev = EvReadable readv /\ data_read readv e) /\ e_trace e' = e_trace e ++ [NMessage])) /\
  (reachable react e -> life (m_conn_state (e_conn e)) (e_trace e)).
Proof.
  intros R. split; [|intros Hr; by apply (reachable_inv e R Hr)]. intros Hr. pose proof (reached_inv react e R Hr) as I.
  split; [apply I|]. intros ev e' Hs Hev E.
  assert (~ conn_aborts ev e) as Hn by (intros Ha%(conn_aborts_fails (strict := false) react); [congruence|apply I]).
  pose proof (conn_step_effect react ev e R (proj1 I) Hev Hn) as S. rewrite E in S. simpl in S.
  destruct ev; cbn [step_effect] in S; [destruct S as [S _]; congruence|..];
    destruct S as [[_ [T _]]|[(_ & Hd & _ & T & _)|[Ho _]]]; auto; destruct Ho; congruence.
Qed.

(** A closed connection is destroyed cleanly.  In every reachable state
    that is down, [connect_destroyed] returns and takes the channel out of the
    poller, whatever is being dispatched (as long as the reactor permits the
    removal), and the destructor's assertion holds. *)
Theorem closed_connection_destroyed h cur act e :
  react_ok react -> reachable react e -> m_conn_state (e_conn e) = kDisconnected ->
  may_remove h cur act (m_channel (e_conn e)) = true ->
  exists ch e', my_channel e = Ok ch /\ connect_destroyed react h cur act e = Ok e' /\
    poller_inv (e_poller e') (e_chans e') /\ m_channel_map (e_poller e') !! m_fd ch = None /\
    destroy_TcpConnection e' = Ok tt.
Proof.
  intros R Hr Hs Hm. destruct (reachable_inv e R Hr) as [(ch & C & B) _].
  destruct (closed_removal h cur act e ch eq_refl C B Hs Hm) as (e' & E & Hc' & _ & I' & M').
  exists ch, e'. unfold connect_destroyed, destroy_TcpConnection.
  rewrite (in_loop_thread_ok e ch C), Hs, Hc', Hs, (bool_decide_eq_false_2 (kDisconnected = kConnected)),
    (bool_decide_eq_true_2 (kDisconnected = kDisconnected)) by done. simpl. rewrite E, M'.
  split_and!; [by eapply my_channel_ok|done|done|apply lookup_delete_eq|done].
Qed.

Lemma removal_aborts h cur act e ch :
  my_channel e = Ok ch -> is_none_event ch = false -> channel_call (remove_self_from_reactor h cur act) e = Fail FAssert.
Proof.
  unfold my_channel, channel_call, remove_self_from_reactor.
  destruct (e_chans e !! _) as [ch'|]; [|done]. cbn. intros [= ->] ->. done.
Qed.

(** destroying a connection that is shutting down aborts.
    [connect_destroyed] only takes a [kConnected] connection down; on a
    [kDisconnecting] one whose channel still waits for anything, the assertion
    of [remove_self_from_reactor] fails. *)
Theorem destroy_while_disconnecting_aborts h cur act e ch :
  react_ok react -> reachable react e -> m_conn_state (e_conn e) = kDisconnecting ->
  my_channel e = Ok ch -> is_none_event ch = false -> connect_destroyed react h cur act e = Fail FAssert.
Proof.
  intros R Hr Hs Hc Hn. destruct (reachable_inv e R Hr) as [(ch' & C & B) _]. unfold connect_destroyed.
  rewrite (in_loop_thread_ok e ch' C), Hs, bool_decide_eq_false_2 by done. simpl. by eapply removal_aborts.
Qed.

Lemma handle_close_down e ch :
  chan_ok e ch -> m_conn_state (e_conn e) = kDisconnected -> handle_close react e = Fail FAssert.
Proof. intros C Hs. unfold handle_close. rewrite (in_loop_thread_ok e ch C). cbn. unfold open_state. by rewrite Hs. Qed.

(** A forced close by timer races with the socket's own events.  The
    timer of [shutdown_and_force_close_after] closes the connection while
    events are dispatched; if the same poll also reported a hang-up, or a
    readable socket that is at its end, [handle_close] runs a second time and
    its assertion aborts the process. *)
Theorem timer_close_then_event_aborts i x e e1 :
  react_ok react -> reachable react e -> is_open (m_conn_state (e_conn e)) ->
  e_timers e !! i = Some (MForceCloseInReactor x) -> conn_step react (EvTimer i) e = Ok e1 ->
  conn_step react EvClose e1 = Fail FAssert /\
  conn_step react (EvReadable (fun _ => IoBytes [])) e1 = Fail FAssert.
Proof.
  intros R Hr Ho Ht E. destruct (reachable_inv e R Hr) as [I _].
  assert (exists e2, core_inv e2 /\ is_open (m_conn_state (e_conn e2)) /\ force_close_in_reactor react e2 = Ok e1)
    as (e2 & I2 & Ho2 & E2).
  { simpl in E. rewrite Ht in E. eexists. split_and!; [| |exact E]; [|exact Ho].
    destruct I as (ch & C & [[] ? ?]). exists ch. split; [exact C|]. body. intros Hk. destruct Ho; congruence. }
  pose proof (force_close_in_reactor_spec react e2 R I2) as S. rewrite E2 in S.
  assert (core_inv e1 /\ m_conn_state (e_conn e1) = kDisconnected) as [(ch & C & B) Hs].
  { destruct S as [-> |[_ (? & ? & _)]]; [|done]. unfold force_close_in_reactor in E2.
    pose proof I2 as (ch & C & _). rewrite (in_loop_thread_ok e2 ch C), (proj2 (is_open_bool _) Ho2) in E2. cbn in E2.
    pose proof (handle_close_spec react e2 R I2 Ho2) as S. rewrite E2 in S. by destruct S as (? & ? & _). }
  split; [by apply (handle_close_down _ ch)|].
  destruct (read_all_from_eof _ (b_in _ B)) as [b' Eb]. unfold conn_step, handle_socket_readable.
  rewrite (in_loop_thread_ok e1 ch C), Eb. simpl. by apply (handle_close_down _ ch).
Qed.

(** Data behind a file is never sent.  While the sending state is
    [kSendingFile] and the output buffer is not empty (data was sent after the
    file transfer began), [handle_socket_writable] does nothing at all: neither
    the buffer nor the file advances, and the channel stays writable, so the
    loop spins. *)
Theorem file_and_data_livelock n mode chunk a e :
  react_ok react -> reachable react e -> m_sending_state (e_conn e) = kSendingFile ->
  content (m_output_buffer (e_conn e)) <> [] -> handle_socket_writable n mode chunk a e = Ok e.
Proof.
  intros R Hr Hs Hc. destruct (reachable_inv e R Hr) as [(ch & C & B) _]. unfold handle_socket_writable.
  rewrite (in_loop_thread_ok e ch C), (my_channel_ok e ch C). simpl. destruct (is_writing ch); [|done].
  pose proof (empty_content _ (b_out _ B)) as He. rewrite bool_decide_eq_false_2 in He by done.
  unfold writable_buffer, writable_file, writable_done, is_sending_state.
  rewrite Hs, !(bool_decide_eq_false_2 (kSendingFile = _)) by done. simpl. rewrite He. simpl.
  destruct (m_zero_copier_ptr (e_conn e)); simpl; by rewrite Hs.
Qed.

(** Reading can be resumed on a dead connection.  [start_read] has no
    guard on the state: on a connection that is down it registers the channel
    again, and the [connect_destroyed] that follows aborts. *)
Theorem start_read_after_close_aborts h cur act e e1 :
  react_ok react -> reachable react e -> m_conn_state (e_conn e) = kDisconnected ->
  start_read true e = Ok e1 -> connect_destroyed react h cur act e1 = Fail FAssert.
Proof.
  intros R Hr Hs E. destruct (reachable_inv e R Hr) as [(ch & C & B) _].
  assert (m_concerned_events ch = kNoneEvent) as Hn by (apply (b_closed _ _ B); rewrite Hs; apply strict_dead; [done|by intros []]).
  unfold start_read, start_read_in_reactor in E. rewrite (in_loop_thread_ok e ch C), (my_channel_ok e ch C) in E.
  simpl in E. unfold is_reading in E. rewrite Hn, orb_true_r in E. unfold channel_call, wang_to_read in E.
  pose proof C as (I & Hc & Ha & _ & Hl & _).
  pose proof (change_events_spec (fun ev => Z.lor ev kReadEvent) _ _ _ _ I Hc Ha) as S. rewrite Hn in S.
  specialize (S ltac:(done)). destruct (change_events _ _ _ _) as [[p' cs']|x]; [|done].
  destruct S as (_ & _ & idx & -> & _). simpl in E. injection E as <-.
  unfold connect_destroyed, in_loop_thread. simpl. rewrite (in_thread_ok _ Hl), Hs, bool_decide_eq_false_2 by done.
  simpl. eapply removal_aborts; [unfold my_channel; simpl; by rewrite lookup_insert_eq|done].
Qed.

End theorems.

(** * A connection on the epoll poller *)

#[local] Instance loop_thread : CurrentThread := 1.

Abbreviation demo_env := (conn_env (EPollPoller table_epoll)).

(** User code that does nothing in its callbacks. *)
Definition quiet : notice -> demo_env -> list user_call := fun _ _ => [].

Lemma quiet_ok : react_ok quiet.
Proof. intros n e. constructor. Qed.

Definition small_buffer : Buffer := mkBuffer (replicate 12 NUL) 8 8.

Definition demo_new : demo_env :=
  new_env 1 100 5 true true small_buffer small_buffer (new_EPollPoller 1 (∅ : table_epoll)) ∅.

(** The state after some events. *)
Fixpoint demo_run (l : list (conn_event (P := EPollPoller table_epoll))) (e : demo_env) : outcome demo_env :=
  match l with [] => Ok e | ev :: l => e ← conn_step quiet ev e; demo_run l e end.
Definition after (l : list (conn_event (P := EPollPoller table_epoll))) : demo_env :=
  match demo_run l demo_new with Ok e => e | Fail _ => demo_new end.

Lemma demo_starts : starts demo_new.
Proof.
  exists 100, 5, true, true, small_buffer, small_buffer, (new_EPollPoller 1 (∅ : table_epoll)), ∅.
  split_and!; [by apply epoll_inv_new|done|done|done| |done].
  split_and!; [constructor; vm_compute; discriminate..|reflexivity].
Qed.

(** The events are admissible one after the other. *)
Fixpoint all_admitted (strict : bool) (l : list (conn_event (P := EPollPoller table_epoll))) (e : demo_env) : Prop :=
  match l with
  | [] => True
  | ev :: l => admitted (strict := strict) ev e /\ match conn_step quiet ev e with Ok e' => all_admitted strict l e' | Fail _ => False end
  end.
Abbreviation all_ok := (all_admitted true).

Lemma demo_reached strict l : all_admitted strict l demo_new -> reached (strict := strict) quiet (after l).
Proof.
  intros Ha. unfold after.
  assert (forall e, reached (strict := strict) quiet e -> all_admitted strict l e ->
    reached (strict := strict) quiet (match demo_run l e with Ok e' => e' | Fail _ => demo_new end)) as K.
  { clear Ha. induction l as [|ev l IH]; intros e Hr; simpl; [done|]. intros [Hev Hl].
    destruct (conn_step quiet ev e) as [e'|] eqn:E; [|done]. simpl. apply IH; [by eapply reached_step|done]. }
  apply K; [|done]. exists demo_new. split; [apply demo_starts|apply rtc_refl].
Qed.

Lemma demo_reachable l : all_ok l demo_new -> reachable quiet (after l).
Proof. apply demo_reached. Qed.

Definition answer_none : chunk_answer := mkAnswer 0 true 0 true 0 0.

(** Established, "hello" sent and two bytes of it written, then a shutdown. *)
Definition talk : list (conn_event (P := EPollPoller table_epoll)) :=
  [EvEstablished; EvCall true (USend (lit "hello"));
   EvWritable 2 kZeroCopy 4096 answer_none; EvCall true UShutdown].

(** Discharges [all_ok] for a concrete list of events. *)
Ltac all_ok := vm_compute; intuition (discriminate || auto).

Lemma talk_ok : all_ok talk demo_new.
Proof. all_ok. Qed.

(** A shutdown with a forced close, its timer, and a readable socket in the same
    poll. *)
Definition forced_late : list (conn_event (P := EPollPoller table_epoll)) :=
  [EvEstablished; EvCall true (UShutdownForceAfter (S754_zero false)); EvTimer 0; EvReadable (fun _ => IoBytes (lit "x"))].

Lemma forced_late_ok : all_admitted false forced_late demo_new.
Proof. all_ok. Qed.

Lemma connection_aborts_exactly_witness :
  fine (reachable quiet) (conn_step quiet (EvReadable (fun _ => IoBytes (lit "ok"))) (after talk)) /\
  conn_step quiet EvClose (after forced_late) = Fail FAssert.
Proof.
  split.
  - apply (connection_aborts_exactly quiet (EvReadable (fun _ => IoBytes (lit "ok"))) (after talk));
      [exact quiet_ok|apply demo_reachable, talk_ok|split; [right; reflexivity|vm_compute; discriminate]].
  - apply (connection_aborts_exactly quiet EvClose (after forced_late));
      [exact quiet_ok|apply demo_reached, forced_late_ok|vm_compute; discriminate|vm_compute; reflexivity].
Defined.

Lemma connection_stream_exact_witness :
  buffer_wire (e_wire (after talk)) = lit "he" /\ content (m_output_buffer (e_conn (after talk))) = lit "llo" /\
  buffer_wire (e_wire (after talk)) ++ content (m_output_buffer (e_conn (after talk))) = e_accepted (after talk).
Proof.
  split; [vm_compute; reflexivity|]. split; [vm_compute; reflexivity|].
  apply (connection_stream_exact quiet (after talk)); [exact quiet_ok|apply demo_reachable, talk_ok].
Defined.

(** ... and after the rest is written, the peer closes. *)
Definition closing : list (conn_event (P := EPollPoller table_epoll)) :=
  talk ++ [EvWritable 3 kZeroCopy 4096 answer_none; EvTask; EvReadable (fun _ => IoBytes [])].

Lemma closing_ok : all_ok closing demo_new.
Proof. all_ok. Qed.

Lemma connection_life_witness :
  (e_shut (after closing) = Some (lit "hello") /\ e_trace (after closing) = [NConn true; NConn false; NClose] /\
   life (m_conn_state (e_conn (after closing))) (e_trace (after closing))) /\
  e_trace (after forced_late) = [NConn true; NConn false; NClose; NMessage] /\
  exists j, life_then (m_conn_state (e_conn (after forced_late))) (e_trace (after forced_late)) j.
Proof.
  split.
  - split; [vm_compute; reflexivity|]. split; [vm_compute; reflexivity|].
    apply (connection_life quiet (after closing)); [exact quiet_ok|apply demo_reachable, closing_ok].
  - split; [vm_compute; reflexivity|].
    apply (connection_life quiet (after forced_late)); [exact quiet_ok|apply demo_reached, forced_late_ok].
Defined.

Lemma closed_connection_destroyed_witness :
  exists ch e', my_channel (after closing) = Ok ch /\ connect_destroyed quiet false None [] (after closing) = Ok e' /\
    m_channel_map (e_poller e') !! m_fd ch = None.
Proof.
  destruct (closed_connection_destroyed quiet false None [] (after closing)) as (ch & e' & H1 & H2 & _ & H3 & _);
    [exact quiet_ok|apply demo_reachable, closing_ok|vm_compute; reflexivity|reflexivity|].
  exists ch, e'. split_and!; [exact H1|exact H2|exact H3].
Defined.

Lemma destroy_while_disconnecting_aborts_witness :
  connect_destroyed quiet false None [] (after talk) = Fail FAssert.
Proof.
  destruct (my_channel (after talk)) as [ch|] eqn:Hc; [|by vm_compute in Hc].
  apply (destroy_while_disconnecting_aborts quiet false None [] (after talk) ch);
    [exact quiet_ok|apply demo_reachable, talk_ok|vm_compute; reflexivity|exact Hc|].
  vm_compute in Hc. injection Hc as <-. vm_compute. reflexivity.
Defined.

(** A shutdown with a forced close, and its timer. *)
Definition forced : list (conn_event (P := EPollPoller table_epoll)) :=
  [EvEstablished; EvCall true (UShutdownForceAfter (S754_zero false))].

Lemma forced_ok : all_ok forced demo_new.
Proof. all_ok. Qed.

Lemma timer_close_then_event_aborts_witness :
  exists e1, conn_step quiet (EvTimer 0) (after forced) = Ok e1 /\ conn_step quiet EvClose e1 = Fail FAssert.
Proof.
  destruct (conn_step quiet (EvTimer 0) (after forced)) as [e1|] eqn:E; [|by vm_compute in E].
  exists e1. split; [reflexivity|].
  apply (timer_close_then_event_aborts quiet 0 (S754_zero false) (after forced) e1);
    [exact quiet_ok|apply demo_reachable, forced_ok|right; vm_compute; reflexivity|vm_compute; reflexivity|exact E].
Defined.

(** A file whose first chunk went out, then data. *)
Definition file_then_data : list (conn_event (P := EPollPoller table_epoll)) :=
  [EvEstablished; EvCall true (UZeroCopy (new_ZeroCopier (lit "f") (Opened (lit "abcd"))));
   EvWritable 0 kZeroCopy 2 (mkAnswer 2 true 0 true 0 0); EvCall true (USend (lit "x"))].

Lemma file_then_data_ok : all_ok file_then_data demo_new.
Proof. vm_compute; intuition (discriminate || eauto). Qed.

Lemma file_and_data_livelock_witness :
  m_sending_state (e_conn (after file_then_data)) = kSendingFile /\
  handle_socket_writable 1 kZeroCopy 2 (mkAnswer 2 true 0 true 0 0) (after file_then_data) = Ok (after file_then_data).
Proof.
  split; [vm_compute; reflexivity|].
  apply (file_and_data_livelock quiet); [exact quiet_ok|apply demo_reachable, file_then_data_ok|vm_compute; reflexivity|].
  vm_compute. discriminate.
Defined.

Lemma start_read_after_close_aborts_witness :
  exists e1, start_read true (after closing) = Ok e1 /\ connect_destroyed quiet false None [] e1 = Fail FAssert.
Proof.
  destruct (start_read true (after closing)) as [e1|] eqn:E; [|by vm_compute in E].
  exists e1. split; [reflexivity|].
  apply (start_read_after_close_aborts quiet false None [] (after closing) e1);
    [exact quiet_ok|apply demo_reachable, closing_ok|vm_compute; reflexivity|exact E].
Defined.
