(* ===== verification/Reactor.v ===== *)
(** [flute/net/Reactor.{h,cc}]: the event loop, and the tasks that other
    threads and the loop's own callbacks hand to it.

    [Reactor] has the members of the class.  The loop is cut at the points where
    other threads can interleave: each step function below is one stretch of
    [Reactor::loop], [queue_in_reactor], [mark_quit] or [do_queueing_tasks], and
    [reactor_step] lets the loop thread and the others take them in any order.
    User code (event callbacks and tasks) makes any of the calls that a loop
    thread may make.  [tid] is [CurrentThread::tid()] of the caller. *)

From S2P Require Import Prelude Channel Poller EPollPoller.

(** The largest value of an eventfd(2) counter. *)
Definition kEventFdMax : Z := 2 ^ 64 - 2.

Section reactor.
Context {P : Type} `{PollerOps P, CurrentThread}.
Context {Task : Type}.

Record Reactor : Type := mkReactor {
  m_is_looping : bool;
  m_going_to_quit : bool;
  m_is_handling_event : bool;
  m_is_calling_pending_tasks : bool;
  m_iter_count : Z;
  m_tid : pid_t;
  m_poller : P;
  m_wakeup_count : Z;                        (* the counter behind m_wakeup_fd *)
  m_wakeup_channel : chan_ptr;
  m_active_channels : list chan_ptr;
  m_current_active_channel : option chan_ptr;
  m_pending_tasks : list Task
}.

Implicit Types (r : Reactor) (cs : chans).

Definition is_in_reactor_thread (tid : pid_t) r : bool := m_tid r =? tid.
Definition assert_in_reactor_thread (tid : pid_t) r : outcome unit :=
  require FFatal (is_in_reactor_thread tid r).

(** ** Tasks *)

(** [wakeup_from_waiting_pool]: write(2) adds one to the counter, or fails with
    EAGAIN when it is at its maximum. *)
Definition wakeup_from_waiting_pool r : Reactor :=
  mkReactor (m_is_looping r) (m_going_to_quit r) (m_is_handling_event r) (m_is_calling_pending_tasks r)
    (m_iter_count r) (m_tid r) (m_poller r)
    (if m_wakeup_count r <? kEventFdMax then m_wakeup_count r + 1 else m_wakeup_count r)
    (m_wakeup_channel r) (m_active_channels r) (m_current_active_channel r) (m_pending_tasks r).

(** [handle_wakeup]: read(2) takes the whole counter. *)
Definition handle_wakeup r : Reactor :=
  mkReactor (m_is_looping r) (m_going_to_quit r) (m_is_handling_event r) (m_is_calling_pending_tasks r)
    (m_iter_count r) (m_tid r) (m_poller r) 0 (m_wakeup_channel r) (m_active_channels r)
    (m_current_active_channel r) (m_pending_tasks r).

Definition set_pending (l : list Task) r : Reactor :=
  mkReactor (m_is_looping r) (m_going_to_quit r) (m_is_handling_event r) (m_is_calling_pending_tasks r)
    (m_iter_count r) (m_tid r) (m_poller r) (m_wakeup_count r) (m_wakeup_channel r) (m_active_channels r)
    (m_current_active_channel r) l.

(** The two halves of [queue_in_reactor]: under the mutex, and after it. *)
Definition queue_push (t : Task) r : Reactor := set_pending (m_pending_tasks r ++ [t]) r.
Definition queue_notify (tid : pid_t) r : Reactor :=
  if negb (is_in_reactor_thread tid r) || m_is_calling_pending_tasks r then wakeup_from_waiting_pool r else r.
Definition queue_in_reactor (tid : pid_t) (t : Task) r : Reactor := queue_notify tid (queue_push t r).

(** [run_asap_in_reactor]: [Some t] when the caller runs the task itself. *)
Definition run_asap_in_reactor (tid : pid_t) (t : Task) r : option Task * Reactor :=
  if is_in_reactor_thread tid r then (Some t, r) else (None, queue_in_reactor tid t r).

Definition num_pending_tasks r : Z := len (m_pending_tasks r).

(** The two halves of [mark_quit]. *)
Definition quit_flag (b : bool) r : Reactor :=
  mkReactor (m_is_looping r) b (m_is_handling_event r) (m_is_calling_pending_tasks r)
    (m_iter_count r) (m_tid r) (m_poller r) (m_wakeup_count r) (m_wakeup_channel r) (m_active_channels r)
    (m_current_active_channel r) (m_pending_tasks r).
Definition quit_notify (tid : pid_t) r : Reactor :=
  if negb (is_in_reactor_thread tid r) then wakeup_from_waiting_pool r else r.
Definition mark_quit (tid : pid_t) r : Reactor := quit_notify tid (quit_flag true r).

(** ** The loop *)

(** Up to the [while]. *)
Definition loop_enter (tid : pid_t) r : outcome Reactor :=
  assert_ (negb (m_is_looping r));;
  assert_in_reactor_thread tid r;;
  Ok (mkReactor true false (m_is_handling_event r) (m_is_calling_pending_tasks r)
    (m_iter_count r) (m_tid r) (m_poller r) (m_wakeup_count r) (m_wakeup_channel r) (m_active_channels r)
    (m_current_active_channel r) (m_pending_tasks r)).

(** [m_active_channels.clear()] to [m_is_handling_event = true]. *)
Definition loop_poll (a : poll_answer) r cs : outcome (Reactor * chans) :=
  '(p, cs, active) ← poll (m_poller r) cs a;
  Ok (mkReactor (m_is_looping r) (m_going_to_quit r) true (m_is_calling_pending_tasks r)
        (m_iter_count r + 1) (m_tid r) p (m_wakeup_count r) (m_wakeup_channel r) active
        (m_current_active_channel r) (m_pending_tasks r), cs).

Definition set_current (c : option chan_ptr) r : Reactor :=
  mkReactor (m_is_looping r) (m_going_to_quit r) (m_is_handling_event r) (m_is_calling_pending_tasks r)
    (m_iter_count r) (m_tid r) (m_poller r) (m_wakeup_count r) (m_wakeup_channel r) (m_active_channels r)
    c (m_pending_tasks r).

(** One turn of the [for]: [handle_event] marks its channel while the
    callbacks run; a tied channel whose owner is gone ([guard] is false) is
    passed over. *)
Definition dispatch_begin (guard : bool) (c : chan_ptr) r cs : outcome (Reactor * chans) :=
  ch ← of_option FNull (cs !! c);
  Ok (set_current (Some c) r, if guard then <[c := set_handing true ch]> cs else cs).
Definition dispatch_end (c : chan_ptr) cs : outcome chans :=
  ch ← of_option FNull (cs !! c); Ok (<[c := set_handing false ch]> cs).

(** After the [for], and [do_queueing_tasks] up to its loop: the tasks to run
    are those that were pending. *)
Definition tasks_begin r : list Task * Reactor :=
  (m_pending_tasks r,
   mkReactor (m_is_looping r) (m_going_to_quit r) false true (m_iter_count r) (m_tid r) (m_poller r)
     (m_wakeup_count r) (m_wakeup_channel r) (m_active_channels r) None []).

Definition tasks_end r : Reactor :=
  mkReactor (m_is_looping r) (m_going_to_quit r) (m_is_handling_event r) false (m_iter_count r) (m_tid r)
    (m_poller r) (m_wakeup_count r) (m_wakeup_channel r) (m_active_channels r) (m_current_active_channel r)
    (m_pending_tasks r).

Definition loop_exit r : Reactor :=
  mkReactor false (m_going_to_quit r) (m_is_handling_event r) (m_is_calling_pending_tasks r) (m_iter_count r)
    (m_tid r) (m_poller r) (m_wakeup_count r) (m_wakeup_channel r) (m_active_channels r)
    (m_current_active_channel r) (m_pending_tasks r).

(** ** Channels *)

Definition set_poller (p : P) r : Reactor :=
  mkReactor (m_is_looping r) (m_going_to_quit r) (m_is_handling_event r) (m_is_calling_pending_tasks r)
    (m_iter_count r) (m_tid r) p (m_wakeup_count r) (m_wakeup_channel r) (m_active_channels r)
    (m_current_active_channel r) (m_pending_tasks r).

(** A change of the events of a channel, through [Reactor::update_channel]. *)
Definition reactor_change (f : Z -> Z) (c : chan_ptr) r cs : outcome (Reactor * chans) :=
  '(p, cs) ← change_events f (m_poller r) cs c; Ok (set_poller p r, cs).

(** [remove_self_from_reactor], through [Reactor::remove_channel]. *)
Definition reactor_remove (c : chan_ptr) r cs : outcome (Reactor * chans) :=
  '(p, cs) ← remove_self_from_reactor (m_is_handling_event r) (m_current_active_channel r) (m_active_channels r)
      (m_poller r) cs c;
  Ok (set_poller p r, cs).

(** [Reactor::has_channel]. *)
Definition reactor_has_channel (tid : pid_t) (c : chan_ptr) r cs : outcome bool :=
  ch ← of_option FNull (cs !! c);
  assert_ (m_reactor ch =? m_tid r);;
  assert_in_reactor_thread tid r;;
  has_channel (m_poller r) cs c.

(** ** Construction and destruction *)

(** [Reactor::Reactor]: [other] says that the thread has a reactor already;
    [wc] and [wfd] are the wake-up channel and the eventfd. *)
Definition new_Reactor (tid : pid_t) (other : bool) (p : P) (wc : chan_ptr) (wfd : Z) cs : outcome (Reactor * chans) :=
  let r := mkReactor false false false false 0 tid p 0 wc [] None [] in
  let cs := <[wc := new_Channel tid wfd]> cs in
  require FFatal (negb other);;
  reactor_change (fun e => Z.lor e kReadEvent) wc r cs.

Definition destroy_Reactor r cs : outcome (Reactor * chans) :=
  '(r, cs) ← reactor_change (fun _ => kNoneEvent) (m_wakeup_channel r) r cs;
  reactor_remove (m_wakeup_channel r) r cs.

End reactor.
Arguments Reactor : clear implicits.

(** * The loop and the other threads *)

(** Where the loop thread is. *)
Inductive loop_pc (Task : Type) : Type :=
| PcIdle                                           (* not in loop() *)
| PcCheck                                          (* at while (!m_going_to_quit) *)
| PcPoll                                           (* calling m_poller->poll *)
| PcDispatch (rest : list chan_ptr)                (* at the head of the for *)
| PcHandle (c : chan_ptr) (rest : list chan_ptr)   (* in a callback of c *)
| PcTasks (rest : list Task).                      (* in do_queueing_tasks *)
Arguments PcIdle {Task}.
Arguments PcCheck {Task}.
Arguments PcPoll {Task}.
Arguments PcDispatch {Task}.
Arguments PcHandle {Task}.
Arguments PcTasks {Task}.

Record config (P Task : Type) : Type := mkConfig {
  c_reactor : Reactor P Task;
  c_chans : chans;
  c_pc : loop_pc Task;
  c_mid : nat;              (* other threads that have yet to write the eventfd *)
  c_queued : list Task;     (* every task queued so far *)
  c_done : list Task;       (* every task run so far *)
  c_silent : nat            (* pending tasks that the loop thread queued outside of loop() *)
}.
Arguments mkConfig {P Task}.
Arguments c_reactor {P Task}.
Arguments c_chans {P Task}.
Arguments c_pc {P Task}.
Arguments c_mid {P Task}.
Arguments c_queued {P Task}.
Arguments c_done {P Task}.
Arguments c_silent {P Task}.

(** User code runs in the loop thread: in a callback, in a task, and before and
    after [loop()]. *)
Definition in_user_code {Task} (pc : loop_pc Task) : bool :=
  match pc with PcIdle | PcHandle _ _ | PcTasks _ => true | _ => false end.

Section steps.
Context {P Task : Type} `{PollerLaws P}.
Implicit Types (r : Reactor P Task) (cs : chans) (c : config P Task).

(** What user code does in the loop thread. *)
Inductive local_step : config P Task -> config P Task -> Prop :=
| local_queue t r cs pc m q d s :
    local_step (mkConfig r cs pc m q d s)
      (mkConfig (queue_in_reactor (m_tid r) t r) cs pc m (q ++ [t]) d (match pc with PcIdle => S s | _ => s end))
| local_quit r cs pc m q d s :
    local_step (mkConfig r cs pc m q d s) (mkConfig (mark_quit (m_tid r) r) cs pc m q d s)
| local_change f x ch r cs r' cs' pc m q d s :
    cs !! x = Some ch -> attached (m_poller r) x ch -> valid_events (f (m_concerned_events ch)) ->
    reactor_change f x r cs = Ok (r', cs') -> local_step (mkConfig r cs pc m q d s) (mkConfig r' cs' pc m q d s)
| local_remove x ch r cs r' cs' pc m q d s :
    cs !! x = Some ch -> m_channel_map (m_poller r) !! m_fd ch = Some x -> removable (m_poller r) ch ->
    reactor_remove x r cs = Ok (r', cs') -> local_step (mkConfig r cs pc m q d s) (mkConfig r' cs' pc m q d s)
| local_new x fd r cs pc m q d s :
    cs !! x = None ->
    local_step (mkConfig r cs pc m q d s) (mkConfig r (<[x := new_Channel (m_tid r) fd]> cs) pc m q d s)
| local_destroy x r cs cs' pc m q d s :
    destroy_Channel (m_poller r) cs x = Ok cs' -> local_step (mkConfig r cs pc m q d s) (mkConfig r cs' pc m q d s).

Inductive reactor_step : config P Task -> config P Task -> Prop :=
(* another thread: queue_in_reactor and mark_quit, each in two steps *)
| remote_push t r cs pc m q d s :
    reactor_step (mkConfig r cs pc m q d s) (mkConfig (queue_push t r) cs pc (S m) (q ++ [t]) d s)
| remote_quit r cs pc m q d s :
    reactor_step (mkConfig r cs pc m q d s) (mkConfig (quit_flag true r) cs pc (S m) q d s)
| remote_notify tid r cs pc m q d s :
    tid <> m_tid r -> reactor_step (mkConfig r cs pc (S m) q d s) (mkConfig (queue_notify tid r) cs pc m q d s)
(* the loop thread *)
| step_enter r r' cs m q d s :
    loop_enter cur_tid r = Ok r' -> reactor_step (mkConfig r cs PcIdle m q d s) (mkConfig r' cs PcCheck m q d s)
| step_check r cs m q d s :
    reactor_step (mkConfig r cs PcCheck m q d s)
      (if m_going_to_quit r then mkConfig (loop_exit r) cs PcIdle m q d s else mkConfig r cs PcPoll m q d s)
| step_poll_return a r r' cs cs' m q d s :
    answer_ok (m_poller r) a -> loop_poll a r cs = Ok (r', cs') ->
    reactor_step (mkConfig r cs PcPoll m q d s) (mkConfig r' cs' (PcDispatch (m_active_channels r')) m q d s)
| step_begin x rest r r' cs cs' m q d s :
    dispatch_begin true x r cs = Ok (r', cs') ->
    reactor_step (mkConfig r cs (PcDispatch (x :: rest)) m q d s) (mkConfig r' cs' (PcHandle x rest) m q d s)
| step_pass x rest r r' cs cs' m q d s :
    dispatch_begin false x r cs = Ok (r', cs') ->
    reactor_step (mkConfig r cs (PcDispatch (x :: rest)) m q d s) (mkConfig r' cs' (PcDispatch rest) m q d s)
| step_wakeup x rest r cs m q d s :
    x = m_wakeup_channel r ->
    reactor_step (mkConfig r cs (PcHandle x rest) m q d s) (mkConfig (handle_wakeup r) cs (PcHandle x rest) m q d s)
| step_local c c' : in_user_code (c_pc c) = true -> local_step c c' -> reactor_step c c'
| step_end x rest r cs cs' m q d s :
    dispatch_end x cs = Ok cs' ->
    reactor_step (mkConfig r cs (PcHandle x rest) m q d s) (mkConfig r cs' (PcDispatch rest) m q d s)
| step_tasks r cs m q d s :
    reactor_step (mkConfig r cs (PcDispatch []) m q d s)
      (mkConfig (tasks_begin r).2 cs (PcTasks (tasks_begin r).1) m q d 0)
| step_task t rest r cs m q d s :
    reactor_step (mkConfig r cs (PcTasks (t :: rest)) m q d s) (mkConfig r cs (PcTasks rest) m q (d ++ [t]) s)
| step_tasks_end r cs m q d s :
    reactor_step (mkConfig r cs (PcTasks []) m q d s) (mkConfig (tasks_end r) cs PcCheck m q d s).

(** ** The invariant *)

(** The tasks that were taken out of the queue and not run yet. *)
Definition batch (pc : loop_pc Task) : list Task := match pc with PcTasks l => l | _ => [] end.

Definition registered r cs (x : chan_ptr) : Prop :=
  exists ch, cs !! x = Some ch /\ m_channel_map (m_poller r) !! m_fd ch = Some x.

(** The channels still to be handled are registered (hence alive), and are
    active and distinct; the one being handled is alive and marked. *)
Definition dispatch_ok r cs (pc : loop_pc Task) : Prop :=
  match pc with
  | PcDispatch rest =>
      m_is_handling_event r = true /\ NoDup rest /\ rest ⊆ m_active_channels r /\ Forall (registered r cs) rest
  | PcHandle x rest =>
      m_is_handling_event r = true /\ NoDup (x :: rest) /\ rest ⊆ m_active_channels r /\ Forall (registered r cs) rest /\
      m_current_active_channel r = Some x /\ exists ch, cs !! x = Some ch /\ m_is_handing_event ch = true
  | _ => True
  end.

(** A pending task that was not queued silently (or a request to quit, while
    polling) has been announced by the eventfd, or is about to be. *)
Definition announced c : Prop :=
  match c_pc c with
  | PcDispatch _ | PcHandle _ _ => True
  | PcPoll =>
      (c_silent c < length (m_pending_tasks (c_reactor c)))%nat \/ m_going_to_quit (c_reactor c) = true ->
      0 < m_wakeup_count (c_reactor c) \/ (0 < c_mid c)%nat
  | _ => (c_silent c < length (m_pending_tasks (c_reactor c)))%nat ->
      0 < m_wakeup_count (c_reactor c) \/ (0 < c_mid c)%nat
  end.

Record reactor_inv c : Prop := {
  ri_tid : m_tid (c_reactor c) = cur_tid;
  ri_poller : poller_inv (m_poller (c_reactor c)) (c_chans c);
  ri_count : 0 <= m_wakeup_count (c_reactor c) <= kEventFdMax;
  ri_calling : m_is_calling_pending_tasks (c_reactor c) = (match c_pc c with PcTasks _ => true | _ => false end);
  ri_looping : m_is_looping (c_reactor c) = (match c_pc c with PcIdle => false | _ => true end);
  ri_fifo : c_done c ++ batch (c_pc c) ++ m_pending_tasks (c_reactor c) = c_queued c;
  ri_announced : announced c;
  ri_dispatch : dispatch_ok (c_reactor c) (c_chans c) (c_pc c)
}.

Lemma wakeup_positive r :
  0 <= m_wakeup_count r <= kEventFdMax -> 0 < m_wakeup_count (wakeup_from_waiting_pool r).
Proof. unfold wakeup_from_waiting_pool, kEventFdMax. simpl. destruct (Z.ltb_spec (m_wakeup_count r) (2 ^ 64 - 2)); lia. Qed.

Lemma wakeup_range r :
  0 <= m_wakeup_count r <= kEventFdMax -> 0 <= m_wakeup_count (wakeup_from_waiting_pool r) <= kEventFdMax.
Proof. unfold wakeup_from_waiting_pool, kEventFdMax. simpl. destruct (Z.ltb_spec (m_wakeup_count r) (2 ^ 64 - 2)); lia. Qed.

(** *** Channel operations *)

Lemma change_ok f x ch r cs r' cs' :
  poller_inv (m_poller r) cs -> cs !! x = Some ch -> attached (m_poller r) x ch ->
  valid_events (f (m_concerned_events ch)) -> reactor_change f x r cs = Ok (r', cs') ->
  exists p' idx, r' = set_poller p' r /\ poller_inv p' cs' /\
    m_channel_map p' = <[m_fd ch := x]> (m_channel_map (m_poller r)) /\
    cs' = <[x := set_index idx (set_in_reactor true (set_concerned (f (m_concerned_events ch)) ch))]> cs.
Proof.
  intros I Hx Ha Hv. unfold reactor_change. pose proof (change_events_spec f _ _ _ _ I Hx Ha Hv) as S.
  destruct (change_events _ _ _ _) as [[p' cs1]|]; [|done]. simpl. intros [= <- <-].
  destruct S as (I' & M' & idx & -> & _). by exists p', idx.
Qed.

Lemma remove_ok x ch r cs r' cs' :
  poller_inv (m_poller r) cs -> cs !! x = Some ch -> m_channel_map (m_poller r) !! m_fd ch = Some x ->
  removable (m_poller r) ch -> reactor_remove x r cs = Ok (r', cs') ->
  may_remove (m_is_handling_event r) (m_current_active_channel r) (m_active_channels r) x = true /\
  exists p', r' = set_poller p' r /\ poller_inv p' cs' /\
    m_channel_map p' = delete (m_fd ch) (m_channel_map (m_poller r)) /\
    (forall y, owner_part <$> cs' !! y = owner_part <$> (<[x := set_in_reactor false ch]> cs) !! y).
Proof.
  intros I Hx Hm Hr. unfold reactor_remove. intros E. outcome_inv. destruct x0 as [p' cs1]. injection E as <- <-.
  destruct (remove_self_ok _ _ _ _ _ _ _ Hx0) as (ch2 & Hx2 & Hn & Ho & Hmay).
  assert (ch2 = ch) as -> by congruence. split; [done|].
  destruct (remove_self_spec _ _ _ _ _ _ _ I Hx Hm Ho Hn Hr Hmay) as (p2 & cs2 & E2 & I2 & M2 & O2).
  rewrite E2 in Hx0. injection Hx0 as <- <-. by exists p2.
Qed.

Lemma owner_part_eq (o1 o2 : option Channel) ch :
  owner_part <$> o1 = owner_part <$> o2 -> o2 = Some ch ->
  exists ch', o1 = Some ch' /\ m_fd ch' = m_fd ch /\ m_is_handing_event ch' = m_is_handing_event ch.
Proof.
  intros E ->. destruct o1 as [ch'|]; [|done]. simpl in E. exists ch'. split; [done|].
  unfold owner_part in E. destruct ch, ch'; simpl in *. by simplify_eq.
Qed.

(** What keeps the rest of the dispatch intact: the registered channels other
    than [x] stay registered, and a marked one stays alive and marked. *)
Definition keeps r cs r' cs' (ok : chan_ptr -> Prop) : Prop :=
  (forall y, ok y -> registered r cs y -> registered r' cs' y) /\
  (forall y ch, cs !! y = Some ch -> m_is_handing_event ch = true ->
     exists ch', cs' !! y = Some ch' /\ m_is_handing_event ch' = true).

Lemma change_keeps f x ch r cs r' cs' :
  poller_inv (m_poller r) cs -> cs !! x = Some ch -> attached (m_poller r) x ch ->
  valid_events (f (m_concerned_events ch)) -> reactor_change f x r cs = Ok (r', cs') ->
  keeps r cs r' cs' (fun _ => True).
Proof.
  intros I Hx Ha Hv E. destruct (change_ok _ _ _ _ _ _ _ I Hx Ha Hv E) as (p' & idx & -> & I' & M' & ->).
  split.
  - intros y _ (chy & Hy & My). destruct (decide (x = y)) as [->|Hne].
    + assert (chy = ch) as -> by congruence. eexists. split; [apply lookup_insert_eq|]. simpl. rewrite M'.
      apply lookup_insert_eq.
    + exists chy. rewrite lookup_insert_ne by done. split; [done|]. simpl. rewrite M'.
      rewrite lookup_insert_ne; [done|]. intros Hf. destruct Ha as [_ [Mx|[Mx _]]]; rewrite Hf in Mx; congruence.
  - intros y chy Hy Hh. destruct (decide (x = y)) as [->|Hne].
    + assert (chy = ch) as -> by congruence. eexists. split; [apply lookup_insert_eq|done].
    + exists chy. by rewrite lookup_insert_ne.
Qed.

Lemma remove_keeps x ch r cs r' cs' :
  poller_inv (m_poller r) cs -> cs !! x = Some ch -> m_channel_map (m_poller r) !! m_fd ch = Some x ->
  removable (m_poller r) ch -> reactor_remove x r cs = Ok (r', cs') -> keeps r cs r' cs' (fun y => y <> x).
Proof.
  intros I Hx Hm Hr E. destruct (remove_ok _ _ _ _ _ _ I Hx Hm Hr E) as (_ & p' & -> & I' & M' & O). split.
  - intros y Hne (chy & Hy & My). destruct (owner_part_eq _ _ chy (O y)) as (ch' & Hy' & Hf & _).
    { by rewrite lookup_insert_ne by done. }
    exists ch'. split; [done|]. simpl. rewrite M', Hf, lookup_delete_ne; [done|]. intros Hf'. congruence.
  - intros y chy Hy Hh. destruct (decide (x = y)) as [->|Hne].
    + assert (chy = ch) as -> by congruence.
      destruct (owner_part_eq _ _ (set_in_reactor false ch) (O y)) as (ch' & Hy' & _ & Hh'); [apply lookup_insert_eq|].
      exists ch'. split; [done|]. by rewrite Hh'.
    + destruct (owner_part_eq _ _ chy (O y)) as (ch' & Hy' & _ & Hh'); [by rewrite lookup_insert_ne by done|].
      exists ch'. split; [done|]. by rewrite Hh'.
Qed.

Lemma destroy_keeps x r cs cs' :
  poller_inv (m_poller r) cs -> destroy_Channel (m_poller r) cs x = Ok cs' ->
  keeps r cs r cs' (fun _ => True) /\ poller_inv (m_poller r) cs'.
Proof.
  intros I E.
  assert (poller_inv (m_poller r) cs') as I' by exact (poller_step_inv _ _ (step_destroy _ _ _ _ E) I).
  unfold destroy_Channel in E. destruct (cs !! x) as [ch|] eqn:Hx; [|done]. simpl in E. outcome_inv. subst cs'.
  rewrite (inv_thread _ _ I), Z.eqb_refl in *. unfold has_channel in *.
  rewrite (in_thread_ok _ (inv_thread _ _ I)), Hx in *. simpl in *. outcome_inv.
  split; [|done]. split.
  - intros y _ (chy & Hy & My). exists chy. rewrite lookup_delete_ne; [done|]. intros ->.
    assert (chy = ch) as -> by congruence. rewrite My, Z.eqb_refl in *. done.
  - intros y chy Hy Hh. exists chy. rewrite lookup_delete_ne; [done|]. intros ->.
    assert (chy = ch) as -> by congruence. by rewrite Hh in *.
Qed.

Lemma new_keeps x fd r cs :
  poller_inv (m_poller r) cs -> cs !! x = None ->
  keeps r cs r (<[x := new_Channel (m_tid r) fd]> cs) (fun _ => True) /\
  poller_inv (m_poller r) (<[x := new_Channel (m_tid r) fd]> cs).
Proof.
  intros I Hx. split; [split|].
  - intros y _ (chy & Hy & My). exists chy. rewrite lookup_insert_ne by congruence. done.
  - intros y chy Hy Hh. exists chy. rewrite lookup_insert_ne by congruence. done.
  - apply (inv_frame _ cs); [done|]. intros fd' y M. destruct (registered_channel _ _ _ _ I M) as (ch & L & _).
    rewrite lookup_insert_ne by congruence. done.
Qed.

(** The dispatch survives an operation that keeps its channels. *)
Lemma dispatch_keeps ok r cs r' cs' pc :
  keeps r cs r' cs' ok -> dispatch_ok r cs pc -> in_user_code pc = true ->
  m_is_handling_event r' = m_is_handling_event r -> m_active_channels r' = m_active_channels r ->
  m_current_active_channel r' = m_current_active_channel r ->
  (forall x rest, pc = PcHandle x rest -> Forall ok rest) -> dispatch_ok r' cs' pc.
Proof.
  intros [K1 K2] D Hu Hh Ha Hc Hok. destruct pc as [| | |rest|x rest|l]; try done.
  destruct D as (D1 & D2 & D3 & D4 & D5 & ch & D6 & D7). simpl. rewrite Hh, Ha, Hc. split_and!; try done.
  - specialize (Hok x rest eq_refl). rewrite Forall_forall in *. intros y Hy. apply K1; [by apply Hok|by apply D4].
  - destruct (K2 _ _ D6 D7) as (ch' & ? & ?). by exists ch'.
Qed.

(** While [x] is handled, what may be removed is not among the rest. *)
Lemma removal_spares_rest r cs x rest y :
  dispatch_ok r cs (PcHandle x rest) ->
  may_remove (m_is_handling_event r) (m_current_active_channel r) (m_active_channels r) y = true ->
  Forall (fun z => z <> y) rest.
Proof.
  intros (D1 & D2 & D3 & _ & D5 & _) Hm. unfold may_remove in Hm. rewrite D1, D5 in Hm. simpl in Hm.
  apply Forall_forall. intros z Hz ->. apply NoDup_cons in D2 as [Hx _].
  rewrite orb_true_iff, negb_true_iff, bool_decide_eq_true, bool_decide_eq_false in Hm.
  destruct Hm as [[= ->]|Hm]; [done|]. by apply Hm, D3.
Qed.

(** *** Preservation *)

Lemma local_queue_inv t r cs pc m q d s :
  reactor_inv (mkConfig r cs pc m q d s) -> in_user_code pc = true ->
  reactor_inv (mkConfig (queue_in_reactor (m_tid r) t r) cs pc m (q ++ [t]) d (match pc with PcIdle => S s | _ => s end)).
Proof.
  intros [] Hu. simpl in *. unfold queue_in_reactor, queue_notify, is_in_reactor_thread. simpl.
  rewrite Z.eqb_refl. simpl. rewrite ri_calling0.
  destruct pc as [| | |rest|x rest|l]; try done; constructor; simpl; try done.
  - by rewrite <- ri_fifo0, <- !app_assoc.
  - unfold announced in *. simpl in *. rewrite length_app. simpl. intros. apply ri_announced0. lia.
  - by rewrite <- ri_fifo0, <- !app_assoc.
  - by apply (wakeup_range (queue_push t r)).
  - by rewrite <- ri_fifo0, <- !app_assoc.
  - intros _. left. by apply (wakeup_positive (queue_push t r)).
Qed.

Lemma poller_change_inv ok r r' cs cs' pc m q d s :
  reactor_inv (mkConfig r cs pc m q d s) -> in_user_code pc = true ->
  (exists p', r' = set_poller p' r) -> poller_inv (m_poller r') cs' -> keeps r cs r' cs' ok ->
  (forall x rest, pc = PcHandle x rest -> Forall ok rest) -> reactor_inv (mkConfig r' cs' pc m q d s).
Proof.
  intros [] Hu [p' ->] I' K Hok. constructor; simpl in *; try done. by eapply dispatch_keeps.
Qed.

Lemma local_step_inv c c' : local_step c c' -> in_user_code (c_pc c) = true -> reactor_inv c -> reactor_inv c'.
Proof.
  intros S Hu R. pose proof (ri_poller _ R) as I. pose proof (ri_dispatch _ R) as D.
  destruct S as [t r cs pc m q d s|r cs pc m q d s|f x ch r cs r' cs' pc m q d s Hx Ha Hv E
    |x ch r cs r' cs' pc m q d s Hx Hm Hr E|x fd r cs pc m q d s Hx|x r cs cs' pc m q d s E]; simpl in *.
  - by apply local_queue_inv.
  - unfold mark_quit, quit_notify, is_in_reactor_thread. simpl. rewrite Z.eqb_refl. simpl.
    destruct R. constructor; simpl in *; try done. unfold announced in *. simpl in *. by destruct pc.
  - pose proof (change_keeps _ _ _ _ _ _ _ I Hx Ha Hv E) as K.
    destruct (change_ok _ _ _ _ _ _ _ I Hx Ha Hv E) as (p' & idx & -> & I' & _).
    eapply poller_change_inv; [exact R|done|by exists p'|done|exact K|]. intros. by apply Forall_true.
  - pose proof (remove_keeps _ _ _ _ _ _ I Hx Hm Hr E) as K.
    destruct (remove_ok _ _ _ _ _ _ I Hx Hm Hr E) as (Hmay & p' & -> & I' & _).
    eapply poller_change_inv; [exact R|done|by exists p'|done|exact K|]. intros y rest ->.
    by eapply removal_spares_rest.
  - destruct (new_keeps x fd r cs I Hx) as [K I'].
    eapply poller_change_inv; [exact R|done|by exists (m_poller r); destruct r|done|exact K|]. intros. by apply Forall_true.
  - destruct (destroy_keeps x r cs cs' I E) as [K I'].
    eapply poller_change_inv; [exact R|done|by exists (m_poller r); destruct r|done|exact K|]. intros. by apply Forall_true.
Qed.

Lemma poll_return_inv a r r' cs cs' m q d s :
  reactor_inv (mkConfig r cs PcPoll m q d s) -> answer_ok (m_poller r) a -> loop_poll a r cs = Ok (r', cs') ->
  reactor_inv (mkConfig r' cs' (PcDispatch (m_active_channels r')) m q d s).
Proof.
  intros [] Ha. simpl in *. unfold loop_poll.
  destruct (poll_spec _ _ a ri_poller0 Ha) as (p' & cs1 & act & -> & I' & M' & Hnd & Ho & Hact). simpl.
  intros [= <- <-]. constructor; simpl; try done. split_and!; [done..|].
  apply Forall_forall. intros x Hx. destruct (Hact x Hx) as (ch & Hc & Hm & _). exists ch. split; [done|].
  simpl. by rewrite M'.
Qed.

(** Marking a channel, before and after its callbacks. *)
Lemma mark_handing b x ch r cs :
  poller_inv (m_poller r) cs -> cs !! x = Some ch ->
  poller_inv (m_poller r) (<[x := set_handing b ch]> cs) /\
  (forall y, registered r cs y -> registered r (<[x := set_handing b ch]> cs) y).
Proof.
  intros I Hx. split; [by apply (inv_owner _ _ _ ch)|]. intros y (chy & Hy & My).
  destruct (decide (x = y)) as [->|Hne].
  - assert (chy = ch) as -> by congruence. eexists. split; [apply lookup_insert_eq|done].
  - exists chy. by rewrite lookup_insert_ne.
Qed.

Lemma begin_inv x rest r r' cs cs' m q d s :
  reactor_inv (mkConfig r cs (PcDispatch (x :: rest)) m q d s) -> dispatch_begin true x r cs = Ok (r', cs') ->
  reactor_inv (mkConfig r' cs' (PcHandle x rest) m q d s).
Proof.
  intros [] E. simpl in *. destruct ri_dispatch0 as (D1 & D2 & D3 & D4). unfold dispatch_begin in E.
  destruct (cs !! x) as [ch|] eqn:Hx; [|done]. simpl in E. injection E as <- <-.
  destruct (mark_handing true x ch r cs ri_poller0 Hx) as [I' K].
  constructor; simpl; try done. split_and!; try done.
  - intros y Hy. apply D3. by right.
  - apply Forall_cons in D4 as [_ D4]. eapply Forall_impl; [exact D4|]. intros y. apply K.
  - eexists. split; [apply lookup_insert_eq|done].
Qed.

Lemma end_inv x rest r cs cs' m q d s :
  reactor_inv (mkConfig r cs (PcHandle x rest) m q d s) -> dispatch_end x cs = Ok cs' ->
  reactor_inv (mkConfig r cs' (PcDispatch rest) m q d s).
Proof.
  intros [] E. simpl in *. destruct ri_dispatch0 as (D1 & D2 & D3 & D4 & D5 & ch & Hx & _). unfold dispatch_end in E.
  rewrite Hx in E. simpl in E. injection E as <-. destruct (mark_handing false x ch r cs ri_poller0 Hx) as [I' K].
  constructor; simpl; try done. apply NoDup_cons in D2 as [_ D2]. split_and!; try done.
  eapply Forall_impl; [exact D4|]. intros y. apply K.
Qed.

Lemma reactor_step_inv c c' : reactor_step c c' -> reactor_inv c -> reactor_inv c'.
Proof.
  intros S. destruct S as [t r cs pc m q d s|r cs pc m q d s|tid r cs pc m q d s Htid|r r' cs m q d s E|r cs m q d s
    |a r r' cs cs' m q d s Ha E|x rest r r' cs cs' m q d s E|x rest r r' cs cs' m q d s E|x rest r cs m q d s ->|c c' Hu L
    |x rest r cs cs' m q d s E|r cs m q d s|t rest r cs m q d s|r cs m q d s].
  - intros []. constructor; simpl in *; try done; [by rewrite <- ri_fifo0, <- !app_assoc|].
    unfold announced in *. simpl in *. destruct pc; try done; intros _; right; lia.
  - intros []. constructor; simpl in *; try done. unfold announced in *. simpl in *.
    destruct pc; try done; intros _; right; lia.
  - intros []. unfold queue_notify, is_in_reactor_thread. simpl in *.
    rewrite (proj2 (Z.eqb_neq _ _)) by done. simpl.
    constructor; simpl; try done; [by apply wakeup_range|].
    unfold announced. simpl. destruct pc; try done; intros _; left; by apply wakeup_positive.
  - intros []. unfold loop_enter in E. outcome_inv. subst r'. by constructor.
  - intros []. simpl in *. unfold announced in ri_announced0. simpl in *.
    destruct (m_going_to_quit r) eqn:Hq; constructor; simpl; try done.
    unfold announced. simpl. rewrite Hq. intros [Hp|?]; [by apply ri_announced0|done].
  - intros R. by eapply poll_return_inv.
  - intros R. by eapply begin_inv.
  - intros []. simpl in *. destruct ri_dispatch0 as (D1 & D2 & D3 & D4). unfold dispatch_begin in E.
    destruct (cs !! x) as [ch|]; [|done]. simpl in E. injection E as <- <-.
    constructor; simpl; try done. apply NoDup_cons in D2 as [_ D2]. apply Forall_cons in D4 as [_ D4].
    split_and!; try done. intros y Hy. apply D3. by right.
  - intros []. constructor; simpl in *; try done.
  - by apply local_step_inv.
  - intros R. by eapply end_inv.
  - intros []. constructor; simpl in *; rewrite ?app_nil_r; try done. unfold announced. simpl. lia.
  - intros []. constructor; simpl in *; try done. by rewrite <- app_assoc.
  - intros []. constructor; simpl in *; try done.
Qed.

Lemma reactor_rtc_inv c c' : rtc reactor_step c c' -> reactor_inv c -> reactor_inv c'.
Proof. induction 1; eauto using reactor_step_inv. Qed.

(** A reactor just constructed: on a poller that does not know the wake-up
    descriptor, in the thread of that poller. *)
Definition reactor_starts c : Prop :=
  exists p wc wfd cs r cs', poller_inv p cs /\ cs !! wc = None /\ m_channel_map p !! wfd = None /\ 0 <= wfd /\
    new_Reactor (Task := Task) cur_tid false p wc wfd cs = Ok (r, cs') /\ c = mkConfig r cs' PcIdle 0 [] [] 0.

Definition reactor_reachable c : Prop := exists c0, reactor_starts c0 /\ rtc reactor_step c0 c.

Lemma reactor_starts_inv c : reactor_starts c -> reactor_inv c.
Proof.
  intros (p & wc & wfd & cs & r & cs' & I & Hw & Hm & Hfd & E & ->). unfold new_Reactor in E. simpl in E.
  set (r0 := mkReactor _ _ _ _ _ _ p _ _ _ _ _) in E.
  destruct (new_keeps wc wfd r0 cs I Hw) as [_ I1]. change (m_tid r0) with cur_tid in I1.
  destruct (change_ok (fun e => Z.lor e kReadEvent) wc (new_Channel cur_tid wfd) r0 _ r cs' I1) as (p' & idx & -> & I' & _);
    [apply lookup_insert_eq| |done|exact E|constructor; try done; unfold announced; simpl; lia].
  split; [symmetry; apply (inv_thread _ _ I)|]. right. by split_and!.
Qed.

Lemma reactor_reachable_inv c : reactor_reachable c -> reactor_inv c.
Proof. intros (c0 & S & R). eapply reactor_rtc_inv; [exact R|by apply reactor_starts_inv]. Qed.

(** C26: no wake-up is lost.  In every interleaving of the loop thread with
    any number of other threads that queue tasks or ask it to quit, and with
    anything that the loop thread itself does in callbacks, in tasks and before
    and after [loop()]: whenever the loop blocks in [poll] although it was told
    to quit, or although a task is pending that another thread queued or that the
    loop thread queued inside of [loop()], and no other thread is still between
    its store and its write to the eventfd, the counter of the eventfd is
    positive, so that the poll returns at once.  ([c_silent] counts the pending
    tasks that the loop thread queued outside of [loop()]: those are not
    announced, see [early_task_waits].) *)
Theorem no_lost_wakeup c :
  reactor_reachable c -> c_pc c = PcPoll -> c_mid c = 0%nat ->
  (c_silent c < length (m_pending_tasks (c_reactor c)))%nat \/ m_going_to_quit (c_reactor c) = true ->
  0 < m_wakeup_count (c_reactor c).
Proof.
  intros R Hpc Hm Hp. pose proof (ri_announced _ (reactor_reachable_inv c R)) as A. unfold announced in A.
  rewrite Hpc, Hm in A. destruct (A Hp); [done|lia].
Qed.

(** The tasks queued at some point have been run when the loop gets to its
    condition again. *)
Definition progressed (n : nat) c : Prop :=
  match c_pc c with
  | PcTasks l => (n <= length (c_done c) + length l)%nat
  | PcCheck => (n <= length (c_done c))%nat
  | _ => True
  end.

Lemma step_queued c c' : reactor_step c c' -> c_queued c `prefix_of` c_queued c'.
Proof.
  intros S. destruct S as [| | | | | | | | |? ? ? L| | | |]; simpl; try done; [by apply prefix_app_r|..].
  - by destruct (m_going_to_quit r).
  - destruct L; simpl; try done. by apply prefix_app_r.
Qed.

Lemma step_progressed n c c' :
  reactor_step c c' -> reactor_inv c -> (n <= length (c_queued c))%nat -> c_pc c <> PcIdle -> c_pc c' <> PcIdle ->
  progressed n c -> progressed n c'.
Proof.
  intros S R Hn Hi Hi'. destruct S as [| | | | | | | | |? ? ? L| | | |]; unfold progressed in *; simpl in *; try done.
  - by destruct (m_going_to_quit r).
  - by destruct L.
  - intros _. pose proof (ri_fifo _ R) as F. simpl in F. rewrite <- F, length_app in Hn. lia.
  - intros. rewrite length_app. simpl. lia.
  - intros. lia.
Qed.

Lemma rtc_progressed n c c' :
  rtc (fun c1 c2 => reactor_step c1 c2 /\ c_pc c2 <> PcIdle) c c' -> reactor_inv c ->
  (n <= length (c_queued c))%nat -> c_pc c <> PcIdle -> progressed n c -> reactor_inv c' /\ progressed n c'.
Proof.
  intros Hr. induction Hr as [|c1 c2 c3 [S Hi2] _ IH]; [done|]. intros R Hn Hi J. apply IH.
  - by eapply reactor_step_inv.
  - pose proof (prefix_length _ _ (step_queued _ _ S)). lia.
  - done.
  - by eapply step_progressed.
Qed.

(** C27: every task runs once, in order, and without delay.  In every
    reachable state the tasks run so far, those taken out to be run, and the
    pending ones are together exactly the tasks queued, in the order of their
    queueing; and from a poll to the next check of the loop's condition, all
    tasks that were queued when it polled have been run. *)
Theorem tasks_run_once_in_order c :
  reactor_reachable c ->
  c_done c ++ batch (c_pc c) ++ m_pending_tasks (c_reactor c) = c_queued c /\
  (forall c', c_pc c = PcPoll -> rtc (fun c1 c2 => reactor_step c1 c2 /\ c_pc c2 <> PcIdle) c c' -> c_pc c' = PcCheck ->
     c_queued c `prefix_of` c_done c').
Proof.
  intros R. pose proof (reactor_reachable_inv c R) as I. split; [by apply ri_fifo|].
  intros c' Hp Hr Hc. destruct (rtc_progressed (length (c_queued c)) c c' Hr I) as [I' J]; [done|by rewrite Hp| |].
  { unfold progressed. by rewrite Hp. }
  unfold progressed in J. rewrite Hc in J. pose proof (ri_fifo _ I') as F.
  assert (c_queued c `prefix_of` c_queued c') as Hq.
  { clear -Hr. induction Hr as [|? ? ? [S _] _ IH]; [done|]. etrans; [by apply step_queued|done]. }
  destruct (prefix_weak_total (c_queued c) (c_done c') (c_queued c')) as [?|Hd]; [done|rewrite <- F; by apply prefix_app_r|done|].
  by rewrite (prefix_length_eq _ _ Hd).
Qed.

(** C28: the dispatch never touches a dead channel.  Whatever the callbacks of
    the channels handled before did (create, change, remove and destroy
    channels, queue tasks), every channel still to be handled is alive and
    registered, and the one being handled is alive until its callbacks have
    returned. *)
Theorem dispatch_no_dangling c :
  reactor_reachable c ->
  (forall rest, c_pc c = PcDispatch rest ->
     Forall (registered (c_reactor c) (c_chans c)) rest /\
     (forall x rest' guard, rest = x :: rest' -> exists s, dispatch_begin guard x (c_reactor c) (c_chans c) = Ok s)) /\
  (forall x rest, c_pc c = PcHandle x rest ->
     Forall (registered (c_reactor c) (c_chans c)) rest /\ exists cs', dispatch_end x (c_chans c) = Ok cs').
Proof.
  intros R. pose proof (ri_dispatch _ (reactor_reachable_inv c R)) as D. split.
  - intros rest Hpc. rewrite Hpc in D. destruct D as (_ & _ & _ & Hreg). split; [done|]. intros x rest' guard ->.
    apply Forall_cons in Hreg as [(ch & Hx & _) _]. unfold dispatch_begin. rewrite Hx. by eexists.
  - intros x rest Hpc. rewrite Hpc in D. destruct D as (_ & _ & _ & Hreg & _ & ch & Hx & _). split; [done|].
    unfold dispatch_end. rewrite Hx. by eexists.
Qed.

End steps.

(** * A loop on the epoll poller *)

#[local] Instance loop_thread : CurrentThread := 1.

Abbreviation demo_config := (config (EPollPoller table_epoll) nat).

Definition demo_start : demo_config :=
  match new_Reactor 1 false (new_EPollPoller 1 (∅ : table_epoll)) 50 3 ∅ with
  | Ok (r, cs) => mkConfig r cs PcIdle 0 [] [] 0
  | Fail _ => mkConfig (mkReactor false false false false 0 1 (new_EPollPoller 1 (∅ : table_epoll)) 0 50 [] None [])
                ∅ PcIdle 0 [] [] 0
  end.

Lemma demo_reactor_starts : reactor_starts demo_start.
Proof.
  exists (new_EPollPoller 1 (∅ : table_epoll)), 50, 3, ∅. eexists _, _.
  split_and!; [by apply epoll_inv_new|done|done|done|vm_compute; reflexivity|vm_compute; reflexivity].
Qed.

(** The loop polls; another thread queues task 7. *)
Definition demo_queued : demo_config :=
  match loop_enter cur_tid (c_reactor demo_start) with
  | Ok r => mkConfig (queue_notify 2 (queue_push 7%nat r)) (c_chans demo_start) PcPoll 0 [7%nat] [] 0
  | Fail _ => demo_start
  end.

Lemma demo_queued_reachable : reactor_reachable demo_queued.
Proof.
  exists demo_start. split; [apply demo_reactor_starts|].
  destruct (loop_enter cur_tid (c_reactor demo_start)) as [r|] eqn:E; [|by vm_compute in E].
  unfold demo_queued. rewrite E.
  eapply rtc_l; [exact (step_enter _ r (c_chans demo_start) 0 [] [] 0 E)|].
  eapply rtc_l; [apply step_check|]. vm_compute in E. injection E as <-.
  eapply rtc_l; [apply (remote_push 7%nat)|]. apply rtc_once. by apply (remote_notify 2).
Qed.

Lemma no_lost_wakeup_witness : 0 < m_wakeup_count (c_reactor demo_queued).
Proof. apply no_lost_wakeup; [exact demo_queued_reachable|reflexivity|reflexivity|left; vm_compute; lia]. Defined.

(** The loop thread queues task 7 before it enters [loop()]: the first poll
    blocks with the task pending and nothing to wake it but the timeout. *)
Definition demo_early : demo_config :=
  match loop_enter cur_tid (queue_in_reactor 1 7%nat (c_reactor demo_start)) with
  | Ok r => mkConfig r (c_chans demo_start) PcPoll 0 [7%nat] [] 1
  | Fail _ => demo_start
  end.

Lemma early_task_waits :
  reactor_reachable demo_early /\ c_pc demo_early = PcPoll /\ c_mid demo_early = 0%nat /\
  m_pending_tasks (c_reactor demo_early) = [7%nat] /\ m_wakeup_count (c_reactor demo_early) = 0.
Proof.
  split; [|by vm_compute]. exists demo_start. split; [apply demo_reactor_starts|].
  destruct (loop_enter cur_tid (queue_in_reactor 1 7%nat (c_reactor demo_start))) as [r|] eqn:E; [|by vm_compute in E].
  unfold demo_early. rewrite E.
  eapply rtc_l; [apply (step_local demo_start _); [reflexivity|];
    exact (local_queue 7%nat (c_reactor demo_start) (c_chans demo_start) PcIdle 0 [] [] 0)|].
  eapply rtc_l; [apply (step_enter _ r (c_chans demo_start) 0 [7%nat] [] 1 E)|].
  eapply rtc_l; [apply step_check|]. vm_compute in E. injection E as <-. apply rtc_refl.
Qed.

Lemma tasks_run_once_in_order_witness :
  c_done demo_queued ++ batch (c_pc demo_queued) ++ m_pending_tasks (c_reactor demo_queued) = [7%nat].
Proof. apply (tasks_run_once_in_order demo_queued). exact demo_queued_reachable. Defined.

(** The poll reports the wake-up channel. *)
Definition demo_answer : @poll_answer (EPollPoller table_epoll) _ := WaitEvents [mk_epoll_event POLLIN 50].

Definition demo_dispatch : demo_config :=
  match loop_poll demo_answer (c_reactor demo_queued) (c_chans demo_queued) with
  | Ok (r, cs) => mkConfig r cs (PcDispatch (m_active_channels r)) 0 [7%nat] [] 0
  | Fail _ => demo_queued
  end.

Lemma dispatch_no_dangling_witness :
  c_pc demo_dispatch = PcDispatch [50] /\ Forall (registered (c_reactor demo_dispatch) (c_chans demo_dispatch)) [50].
Proof.
  split; [vm_compute; reflexivity|].
  apply (dispatch_no_dangling demo_dispatch); [|vm_compute; reflexivity].
  destruct demo_queued_reachable as (c0 & S & R). exists c0. split; [exact S|]. eapply rtc_r; [exact R|].
  destruct (loop_poll demo_answer (c_reactor demo_queued) (c_chans demo_queued))
    as [[r cs]|] eqn:E; [|by vm_compute in E].
  unfold demo_dispatch. rewrite E. apply (step_poll_return demo_answer _ r _ cs); [|exact E].
  split_and!; [vm_compute; discriminate|apply NoDup_singleton|].
  apply Forall_singleton. split; [done|]. exists 3, (mk_epoll_event kReadEvent 50). split; vm_compute; reflexivity.
Defined.
