(* ===== verification/HttpResponse.v ===== *)
(** [flute/net/http/HttpResponse.{h,cc}]: a response and its text. *)

From S2P Require Import Prelude OrdContainers StringPiece Endian Buffer Format ZeroCopier.

Inductive HttpResponseBodyType : Type := kHtml | kJPEG | kUnSupported.

#[global] Instance HttpResponseBodyType_eq_dec : EqDecision HttpResponseBodyType.
Proof. solve_decision. Defined.

(** [HttpStatusCode]. *)
Definition kUnknownStatus : Z := 0.
Definition k200Ok : Z := 200.
Definition k301MovedPermanently : Z := 301.
Definition k400BadRequest : Z := 400.
Definition k404NotFound : Z := 404.

Record HttpResponse : Type := mkHttpResponse {
  resp_headers : list (bytes * bytes);      (* m_headers, a std::map *)
  m_status_code : Z;
  m_status_message : bytes;
  resp_copier : option ZeroCopier;          (* m_zero_copier_ptr *)
  m_will_close : bool;
  m_body : bytes;
  m_response_body_type : HttpResponseBodyType
}.

Definition new_HttpResponse (close : bool) : HttpResponse :=
  mkHttpResponse [] kUnknownStatus [] None close [] kHtml.

Definition set_status_code (code : Z) (r : HttpResponse) : HttpResponse :=
  mkHttpResponse (resp_headers r) code (m_status_message r) (resp_copier r) (m_will_close r) (m_body r)
    (m_response_body_type r).
Definition set_status_message (m : bytes) (r : HttpResponse) : HttpResponse :=
  mkHttpResponse (resp_headers r) (m_status_code r) m (resp_copier r) (m_will_close r) (m_body r)
    (m_response_body_type r).
Definition set_close_conn (on : bool) (r : HttpResponse) : HttpResponse :=
  mkHttpResponse (resp_headers r) (m_status_code r) (m_status_message r) (resp_copier r) on (m_body r)
    (m_response_body_type r).
Definition add_resp_header (key value : bytes) (r : HttpResponse) : HttpResponse :=
  mkHttpResponse (map_assign key value (resp_headers r)) (m_status_code r) (m_status_message r) (resp_copier r)
    (m_will_close r) (m_body r) (m_response_body_type r).
Definition set_content_type (t : bytes) (r : HttpResponse) : HttpResponse :=
  add_resp_header (lit "Content-Type") t r.
Definition set_body (body : bytes) (r : HttpResponse) : HttpResponse :=
  mkHttpResponse (resp_headers r) (m_status_code r) (m_status_message r) None (m_will_close r) body kHtml.
(** [o] is what opening the file finds. *)
Definition set_zerocopy (path : bytes) (o : open_result) (r : HttpResponse) : outcome HttpResponse :=
  z ← construct_ZeroCopier path o;
  Ok (mkHttpResponse (resp_headers r) (m_status_code r) (m_status_message r) (Some z) (m_will_close r) [] kJPEG).

Definition content_length (r : HttpResponse) : outcome Z :=
  match m_response_body_type r with
  | kHtml => Ok (len (m_body r))
  | kJPEG => z ← of_option FNull (resp_copier r); source_size z
  | kUnSupported => Ok 0
  end.

(** [Buffer::append] of a C string and of a [std::string]: both become a
    [StringPiece]. *)
Definition append_cstr (b : Buffer) (s : bytes) : outcome Buffer :=
  sp ← StringPiece_cstr (s ++ [NUL]); append_piece b sp.
Definition append_string (b : Buffer) (s : bytes) : outcome Buffer := append_piece b (StringPiece_string s).

Fixpoint append_headers (l : list (bytes * bytes)) (b : Buffer) : outcome Buffer :=
  match l with
  | [] => Ok b
  | (k, v) :: l =>
      b ← append_string b k;
      b ← append_cstr b (lit ": ");
      b ← append_string b v;
      b ← append_cstr b kCRLF;
      append_headers l b
  end.

Definition append_to_buffer (r : HttpResponse) (b : Buffer) : outcome Buffer :=
  b ← append_cstr b (snprintf 32 (lit "HTTP/1.1 " ++ dec (m_status_code r) ++ lit " "));
  b ← append_string b (m_status_message r);
  b ← append_cstr b kCRLF;
  b ← (if m_will_close r then append_cstr b (lit "Connection: close" ++ kCRLF)
       else
         n ← content_length r;
         b ← append_cstr b (snprintf 32 (lit "Content-Length: " ++ dec n ++ kCRLF));
         append_cstr b (lit "Connection: Keep-Alive" ++ kCRLF));
  b ← append_headers (resp_headers r) b;
  b ← append_cstr b kCRLF;
  append_string b (m_body r).

Definition response_404 : HttpResponse :=
  set_status_message (lit "Not Found") (set_status_code k404NotFound (new_HttpResponse true)).
Definition response_400 : HttpResponse :=
  set_status_message (lit "Bad Request") (set_status_code k400BadRequest (new_HttpResponse true)).

(** * The text of a response *)

Definition render_resp_headers (l : list (bytes * bytes)) : bytes :=
  concat ((fun h : bytes * bytes => h.1 ++ lit ": " ++ h.2 ++ kCRLF) <$> l).

(** What a client should read, for a body (here or in a file) of [n] bytes. *)
Definition render_response (r : HttpResponse) (n : Z) : bytes :=
  lit "HTTP/1.1 " ++ dec (m_status_code r) ++ lit " " ++ m_status_message r ++ kCRLF ++
  (if m_will_close r then lit "Connection: close" ++ kCRLF
   else lit "Content-Length: " ++ dec n ++ kCRLF ++ lit "Connection: Keep-Alive" ++ kCRLF) ++
  render_resp_headers (resp_headers r) ++ kCRLF ++ m_body r.

Definition is_short (s : bytes) : Prop := len s < 2 ^ 31.

Definition appends (b : Buffer) (s : bytes) : Buffer -> Prop := fun b' => wf b' /\ content b' = content b ++ s.

Lemma append_string_safe b s : wf b -> is_short s -> fine (appends b s) (append_string b s).
Proof.
  unfold is_short. intros W Hs. len_pose. unfold append_string, append_piece, StringPiece_string. cbn [size data length_ ptr_].
  rewrite sw_small, uw_small by (unfold in_sw, in_uw in *; lia).
  unfold require. rewrite Z.leb_refl. simpl. unfold len at 1. rewrite Nat2Z.id, firstn_all.
  pose proof (append_safe b s W ltac:(unfold PTRDIFF_MAX; lia)) as A. by destruct (append b s); simpl; [|right].
Qed.

Lemma append_cstr_safe b s : wf b -> NUL ∉ s -> is_short s -> fine (appends b s) (append_cstr b s).
Proof.
  unfold is_short. intros W Hn Hs. len_pose. unfold append_cstr, StringPiece_cstr, strlen, memchr.
  rewrite std_find_head by done. rewrite (proj2 (Z.eqb_neq _ _)) by len_lia. simpl.
  unfold append_piece. cbn [size data length_ ptr_].
  rewrite sw_small, uw_small by (unfold in_sw, in_uw in *; lia).
  unfold require. rewrite (proj2 (Z.leb_le _ _)) by len_lia. simpl. unfold len at 1. rewrite Nat2Z.id, take_app_length.
  pose proof (append_safe b s W ltac:(unfold PTRDIFF_MAX; lia)) as A. by destruct (append b s); simpl; [|right].
Qed.

Lemma appends_bind b s t m (k : Buffer -> outcome Buffer) :
  fine (appends b s) m -> (forall b', wf b' -> fine (appends b' t) (k b')) -> fine (appends b (s ++ t)) (m ≫= k).
Proof.
  intros Hm Hk. eapply fine_bind; [exact Hm|]. intros b1 [W1 C1]. eapply fine_mono; [|by apply Hk].
  intros b2 [W2 C2]. split; [done|]. by rewrite C2, C1, app_assoc.
Qed.

Lemma append_headers_safe l b :
  wf b -> Forall (fun h : bytes * bytes => is_short h.1 /\ is_short h.2) l ->
  fine (appends b (render_resp_headers l)) (append_headers l b).
Proof.
  intros W Hl. revert b W. induction Hl as [|[k v] l [Hk Hv] _ IH]; intros b W.
  { split; [done|]. by rewrite app_nil_r. }
  unfold render_resp_headers. rewrite fmap_cons, concat_cons. simpl fst; simpl snd.
  rewrite <- !app_assoc. cbn [append_headers].
  apply appends_bind; [by apply append_string_safe|]. intros b1 W1.
  apply appends_bind; [apply append_cstr_safe; [done|by not_in_lit|done]|]. intros b2 W2.
  apply appends_bind; [by apply append_string_safe|]. intros b3 W3.
  apply appends_bind; [apply append_cstr_safe; [done|by not_in_lit|done]|]. intros b4 W4. by apply IH.
Qed.

Lemma dec_no_nul n : 0 <= n -> NUL ∉ dec n.
Proof.
  intros Hn. unfold dec. rewrite (proj2 (Z.ltb_ge _ _)) by done. intros Hin.
  pose proof (dec_abs_digits n Hn) as Hd. rewrite Forall_forall in Hd. specialize (Hd _ Hin).
  unfold is_digit in Hd. change (Z_of_byte NUL) with 0 in Hd. lia.
Qed.

Lemma len_dec n k : 0 < k -> 0 <= n < 10 ^ k -> len (dec n) <= k.
Proof. intros Hk Hn. unfold dec. rewrite (proj2 (Z.ltb_ge _ _)) by lia. by apply len_dec_abs. Qed.

(** A formatted line that fits its 32 bytes. *)
Lemma append_line_safe b pre suf n :
  wf b -> NUL ∉ pre -> NUL ∉ suf -> 0 <= n -> len pre + len (dec n) + len suf < 32 ->
  fine (appends b (pre ++ dec n ++ suf)) (append_cstr b (snprintf 32 (pre ++ dec n ++ suf))).
Proof.
  intros W Hp Hs Hn Hl. assert (len (pre ++ dec n ++ suf) < 32) as Hl' by (rewrite !len_app; lia).
  rewrite snprintf_fits by done. apply append_cstr_safe; [done| |unfold is_short; lia].
  rewrite !not_elem_of_app. split_and!; [done|by apply dec_no_nul|done].
Qed.

Lemma response_spec (r : HttpResponse) (b : Buffer) (n : Z) :
  wf b -> 0 <= m_status_code r < 1000 -> is_short (m_status_message r) -> is_short (m_body r) ->
  Forall (fun h : bytes * bytes => is_short h.1 /\ is_short h.2) (resp_headers r) ->
  content_length r = Ok n -> 0 <= n < 10 ^ 13 ->
  fine (appends b (render_response r n)) (append_to_buffer r b) /\
  (m_response_body_type r = kHtml -> n = len (m_body r)).
Proof.
  intros W Hc Hm Hb Hh Hn Hr. split.
  2: { unfold content_length in Hn. intros E. rewrite E in Hn. by injection Hn as <-. }
  pose proof (len_dec (m_status_code r) 3 ltac:(lia) ltac:(lia)). pose proof (len_dec n 13 ltac:(lia) Hr).
  unfold append_to_buffer, render_response. rewrite (assoc_L app (dec _) (lit " ")), (assoc_L app (lit "HTTP/1.1 ")).
  apply appends_bind.
  { apply append_line_safe; [done|by not_in_lit|by not_in_lit|lia|]. vm_compute (len (lit "HTTP/1.1 ")). vm_compute (len (lit " ")). lia. }
  intros b1 W1. apply appends_bind; [by apply append_string_safe|].
  intros b2 W2. apply appends_bind; [apply append_cstr_safe; [done|by not_in_lit|done]|].
  intros b3 W3. apply appends_bind.
  { destruct (m_will_close r); [apply append_cstr_safe; [done|by not_in_lit|done]|]. rewrite Hn, bind_ok.
    rewrite (assoc_L app (dec _) kCRLF), (assoc_L app (lit "Content-Length: ")). apply appends_bind.
    - apply append_line_safe; [done|by not_in_lit|by not_in_lit|lia|].
      vm_compute (len (lit "Content-Length: ")). vm_compute (len kCRLF). lia.
    - intros b4 W4. apply append_cstr_safe; [done|by not_in_lit|done]. }
  intros b4 W4. apply appends_bind; [by apply append_headers_safe|].
  intros b5 W5. apply appends_bind; [apply append_cstr_safe; [done|by not_in_lit|done]|].
  intros b6 W6. by apply append_string_safe.
Qed.

(** The text of a response is complete.  For every response whose parts
    are shorter than 2 GiB and whose body (in memory or in a file) is shorter
    than 10^13 bytes, [append_to_buffer] appends exactly the status line, the
    connection headers, the user's headers, an empty line and the body: the
    32-byte buffers never truncate, and a connection that is kept alive is told
    the length of the body.  Only running out of memory can stop it. *)
Theorem response_text (r : HttpResponse) (b : Buffer) (n : Z) :
  wf b -> 0 <= m_status_code r < 1000 -> is_short (m_status_message r) -> is_short (m_body r) ->
  Forall (fun h : bytes * bytes => is_short h.1 /\ is_short h.2) (resp_headers r) ->
  content_length r = Ok n -> 0 <= n < 10 ^ 13 ->
  fine (appends b (render_response r n)) (append_to_buffer r b) /\
  (m_response_body_type r = kHtml -> n = len (m_body r)).
Proof. apply response_spec. Qed.

Lemma response_text_witness :
  let r := set_body (lit "hi") (set_status_message (lit "OK") (set_status_code k200Ok (new_HttpResponse false))) in
  render_response r 2 = lit "HTTP/1.1 200 OK" ++ kCRLF ++ lit "Content-Length: 2" ++ kCRLF ++
    lit "Connection: Keep-Alive" ++ kCRLF ++ kCRLF ++ lit "hi" /\
  fine (appends (mkBuffer (replicate 1032 NUL) 8 8) (render_response r 2))
    (append_to_buffer r (mkBuffer (replicate 1032 NUL) 8 8)).
Proof.
  intros r. split; [vm_compute; reflexivity|].
  apply (response_text r (mkBuffer (replicate 1032 NUL) 8 8) 2); [|done|done|done|constructor|reflexivity|done].
  constructor; vm_compute; discriminate.
Defined.

(** Serving a file that cannot be opened is undefined behaviour.  With a
    path of more than 80 bytes the constructor of the copier overflows its
    buffer; otherwise the length of the body is read from a member that was
    never initialised. *)
Theorem missing_file_undefined (path : bytes) (o : open_result) (r : HttpResponse) :
  (forall c, o <> Opened c) ->
  (o = OpenFailed -> 80 < len path -> set_zerocopy path o r = Fail FBounds) /\
  (forall r', set_zerocopy path o r = Ok r' -> content_length r' = Fail FUninit).
Proof.
  intros Ho. split.
  - intros E Hl. unfold set_zerocopy. by rewrite (proj2 (long_path_overflows path o)).
  - intros r' E. unfold set_zerocopy, construct_ZeroCopier in E. outcome_inv. subst r'.
    destruct o as [| |c]; [..|by destruct (Ho c)]; by subst.
Qed.

Lemma missing_file_undefined_witness :
  exists r', set_zerocopy (lit "/no") OpenFailed (new_HttpResponse false) = Ok r' /\ content_length r' = Fail FUninit.
Proof.
  eexists. split; [vm_compute; reflexivity|].
  apply (missing_file_undefined (lit "/no") OpenFailed (new_HttpResponse false)); [done|vm_compute; reflexivity].
Defined.
