(* ===== verification/HttpServer.v ===== *)
(** [flute/net/http/HttpServer.{h,cc}]: what the server does with the input
    buffer of a connection.  The calls it makes on the connection are the
    [user_call]s of [TcpConnection]; [cb] is the user's [m_response_callback]. *)

From S2P Require Import Prelude OrdContainers StringPiece Endian Buffer HttpRequest HttpContext Format ZeroCopier Channel Poller EPollPoller Timestamp TcpConnection HttpResponse.

Definition dummy_404_callback (_ : HttpRequest) (resp : HttpResponse) : outcome HttpResponse :=
  Ok (set_close_conn true (set_status_message (lit "Not Found") (set_status_code k404NotFound resp))).

(** [on_connection]: the context of a connection that is up. *)
Definition on_connection (up : bool) (context : option HttpContext) : option HttpContext :=
  if up then Some new_HttpContext else context.

Section server.
Context (cb : HttpRequest -> HttpResponse -> outcome HttpResponse).

(** The whole content of a buffer, as [send_buffer] sends it. *)
Definition buffer_bytes (b : Buffer) : outcome bytes :=
  read_range b (peek_base b) (peek_base b + content_bytes_len b).

(** The text of a response, in a buffer of its own. *)
Definition response_bytes (response : HttpResponse) : outcome bytes :=
  buf ← new_Buffer kInitialSize; buf ← append_to_buffer response buf; buffer_bytes buf.

Definition should_close (req : HttpRequest) : bool :=
  let connection := get_header req (lit "Connection") in
  bool_decide (connection = lit "close") ||
  (bool_decide (m_version req = kHttp10) && negb (bool_decide (connection = lit "Keep-Alive"))).

Definition on_good_request (req : HttpRequest) : outcome (list user_call) :=
  response ← cb req (new_HttpResponse (should_close req));
  d ← response_bytes response;
  file ← (if bool_decide (m_response_body_type response = kJPEG)
          then z ← of_option FNull (resp_copier response); Ok [UZeroCopy z] else Ok []);
  Ok ([USend d] ++ file ++ (if m_will_close response then [UShutdown] else [])).

Definition reply_400 : outcome (list user_call) :=
  d ← response_bytes response_400;
  Ok [USend d; UShutdown].

Definition default_on_request (request_context : HttpContext) (buf : Buffer) (receiveTime : Z)
    : outcome (HttpContext * Buffer * list user_call) :=
  end_ ← peek_last_as_string buf 4;
  if negb (bool_decide (end_ = kCRLF ++ kCRLF)) then Ok (request_context, buf, [])
  else
    '(ok, request_context, buf) ← parse_request request_context buf receiveTime;
    calls ← (if ok : bool then Ok [] else reply_400);
    if got_all request_context then
      answer ← on_good_request (m_request request_context);
      Ok (reset request_context, buf, calls ++ answer)
    else Ok (request_context, buf, calls).

(** * Theorems *)

Definition ends_with_blank_line (l : bytes) : Prop := exists k, l = k ++ kCRLF ++ kCRLF.

Lemma last_four b : wf b -> ends_with_blank_line (content b) -> peek_last_as_string b 4 = Ok (kCRLF ++ kCRLF).
Proof.
  intros W [k Hk]. rewrite peek_last_as_string_spec by done.
  assert (len (content b) = len k + 4) as Hl by (rewrite Hk, len_app; done). len_pose.
  destruct (Z.gtb_spec 4 (len (content b))); [lia|]. f_equal. rewrite Hl, Hk.
  replace (Z.to_nat (len k + 4 - 4)) with (length k) by (unfold len; lia). apply drop_app_length.
Qed.

(** Without the empty line the server waits. *)
Lemma not_ready t c b : wf b -> ~ ends_with_blank_line (content b) -> default_on_request c b t = Ok (c, b, []).
Proof.
  intros W Hb. unfold default_on_request. rewrite peek_last_as_string_spec by done. rewrite bind_ok.
  rewrite bool_decide_eq_false_2; [done|]. intros E. apply Hb.
  destruct (Z.gtb_spec 4 (len (content b))) as [Hl|Hl]; [done|].
  exists (take (Z.to_nat (len (content b) - 4)) (content b)). rewrite <- E. by rewrite take_drop.
Qed.

Lemma buffer_bytes_content b : wf b -> buffer_bytes b = Ok (content b).
Proof.
  intros W. pose proof W as []. unfold buffer_bytes, peek_base. rewrite content_bytes_len_eq by done.
  rewrite read_range_ok by (done || lia). unfold content. do 2 f_equal. lia.
Qed.

(** A response that [append_to_buffer] prints completely. *)
Record response_ok (r : HttpResponse) (n : Z) : Prop := {
  ro_code : 0 <= m_status_code r < 1000;
  ro_message : is_short (m_status_message r);
  ro_body : is_short (m_body r);
  ro_headers : Forall (fun h : bytes * bytes => is_short h.1 /\ is_short h.2) (resp_headers r);
  ro_length : content_length r = Ok n;
  ro_range : 0 <= n < 10 ^ 13
}.

(** The calls that send a response. *)
Definition answer_calls (r : HttpResponse) (n : Z) : list user_call :=
  [USend (render_response r n)] ++
  (if bool_decide (m_response_body_type r = kJPEG) then UZeroCopy <$> option_list (resp_copier r) else []) ++
  (if m_will_close r then [UShutdown] else []).

Lemma initial_buffer : exists b, new_Buffer kInitialSize = Ok b /\ wf b /\ content b = [].
Proof. eexists. split; [vm_compute; reflexivity|]. split; [constructor; vm_compute; discriminate|reflexivity]. Qed.

Lemma response_bytes_spec r n : response_ok r n -> fine (fun d => d = render_response r n) (response_bytes r).
Proof.
  intros [????? ?]. unfold response_bytes. destruct initial_buffer as (b0 & -> & W0 & C0). rewrite bind_ok.
  destruct (response_spec r b0 n) as [Hr _]; try done. eapply fine_bind; [exact Hr|].
  intros b [W C]. rewrite (buffer_bytes_content b W), C, C0. done.
Qed.

Lemma on_good_request_spec req r n :
  cb req (new_HttpResponse (should_close req)) = Ok r -> response_ok r n ->
  fine (fun calls => calls = answer_calls r n) (on_good_request req).
Proof.
  intros Hcb Hr. unfold on_good_request. rewrite Hcb, bind_ok.
  eapply fine_bind; [by apply response_bytes_spec|]. intros d ->.
  unfold answer_calls. case_bool_decide as Ht; [|done].
  pose proof (ro_length _ _ Hr) as Hn. unfold content_length in Hn. rewrite Ht in Hn.
  by destruct (resp_copier r).
Qed.

(** A request is answered once, and only it is consumed.  When the buffer
    holds a request (in the sense of the parser's round trip) and ends with an
    empty line, [default_on_request] hands exactly that request to the
    callback, sends the complete text of the callback's response (and its file,
    and shuts down when the response says so), leaves the context ready for the
    next request and in the buffer the bytes behind the request.  Those are not
    looked at, even when they are a complete request: only the next read of the
    connection will. *)
Theorem request_answered (q : HttpRequest) (hs : list (bytes * bytes)) (rest : bytes) (b : Buffer)
    (r : HttpResponse) (n : Z) :
  wire_ok q hs -> wf b -> content b = render q hs ++ rest -> ends_with_blank_line (content b) ->
  cb q (new_HttpResponse (should_close q)) = Ok r -> response_ok r n ->
  fine (fun '(c, b', calls) => c = new_HttpContext /\ wf b' /\ content b' = rest /\ calls = answer_calls r n)
    (default_on_request new_HttpContext b (m_receive_time q)).
Proof.
  intros Hq W C Hend Hcb Hr. unfold default_on_request. rewrite (last_four b W Hend), bind_ok. cbn -[parse_request].
  destruct (parse_render q hs rest b Hq W C) as (b' & -> & W' & C'). rewrite !bind_ok.
  eapply fine_bind; [by eapply on_good_request_spec|]. intros calls ->. done.
Qed.

(** Two malformed messages abort the server.  A first line with a known method
    and no valid target and version, in a message that ends with an empty line, is answered with the 400 page
    and a shutdown; nothing is consumed.  Whatever the client sends next, as
    long as it ends with an empty line, fails the assertion of
    [HttpRequest::set_method] and the process dies. *)
Theorem second_bad_request_aborts (b b2 : Buffer) (m tail rest more : bytes) (t t' : Z) :
  wf b -> split_line (content b) = Some (m ++ SP :: tail, rest) -> ends_with_blank_line (content b) ->
  SP ∉ m -> method_of_string m <> kInvalid -> ~ line_tail_ok tail ->
  wf b2 -> content b2 = content b ++ more -> ends_with_blank_line (content b2) ->
  fine (fun '(c, b1, calls) => content b1 = content b /\
          calls = [USend (render_response response_400 0); UShutdown] /\
          default_on_request c b2 t' = Fail FAssert)
    (default_on_request new_HttpContext b t).
Proof.
  intros W C Hend Hm Hv Ht W2 C2 Hend2.
  destruct (rejected_line_state b m tail rest more t t' b2) as (c & b1 & E1 & C1 & S1 & E2); try done.
  unfold default_on_request at 2. rewrite (last_four b W Hend), bind_ok. cbn -[parse_request reply_400 default_on_request].
  rewrite E1, bind_ok.
  eapply (fine_bind (fun calls => calls = [USend (render_response response_400 0); UShutdown])).
  - unfold reply_400. eapply fine_bind; [apply (response_bytes_spec _ 0); by constructor|]. by intros d ->.
  - intros calls ->. unfold got_all. rewrite S1, bool_decide_eq_false_2 by done. split_and!; [done|done|].
    unfold default_on_request. rewrite (last_four b2 W2 Hend2), bind_ok. cbn -[parse_request].
    by rewrite E2.
Qed.

End server.

(** ** Witnesses *)

Definition hello_callback (_ : HttpRequest) (resp : HttpResponse) : outcome HttpResponse :=
  Ok (set_body (lit "hello") (set_status_message (lit "OK") (set_status_code k200Ok resp))).

(** Two requests in one buffer: the first is answered, the second waits. *)
Lemma request_answered_witness :
  let one := render sample_request [(lit "Host", lit "h:80")] in
  fine (fun '(c, b', calls) => c = new_HttpContext /\ wf b' /\ content b' = one /\
          calls = answer_calls (set_body (lit "hello") (set_status_message (lit "OK")
                    (set_status_code k200Ok (new_HttpResponse false)))) 5)
    (default_on_request hello_callback new_HttpContext (buffer_of (one ++ one)) 7).
Proof.
  intros one.
  apply (request_answered hello_callback sample_request [(lit "Host", lit "h:80")] one (buffer_of (one ++ one)));
    [apply sample_request_ok|by apply wf_buffer_of|by rewrite content_buffer_of| |vm_compute; reflexivity|by constructor].
  rewrite content_buffer_of. exists (take (length (one ++ one) - 4) (one ++ one)). vm_compute. reflexivity.
Defined.

Lemma second_bad_request_aborts_witness :
  let l := lit "GET /" ++ kCRLF ++ kCRLF in
  fine (fun '(c, b1, calls) => content b1 = l /\
          calls = [USend (render_response response_400 0); UShutdown] /\
          default_on_request hello_callback c (buffer_of (l ++ kCRLF ++ kCRLF)) 2 = Fail FAssert)
    (default_on_request hello_callback new_HttpContext (buffer_of l) 1).
Proof.
  intros l. pose proof (second_bad_request_aborts hello_callback (buffer_of l) (buffer_of (l ++ kCRLF ++ kCRLF))
    (lit "GET") (lit "/") kCRLF (kCRLF ++ kCRLF) 1 2) as T. rewrite !content_buffer_of in T.
  apply T; [by apply wf_buffer_of|vm_compute; reflexivity|by exists (lit "GET /")|by not_in_lit|vm_compute; discriminate|
    |by apply wf_buffer_of|reflexivity|by exists l].
  intros ([|x target] & v & E & _); [done|]. by apply (f_equal length) in E; rewrite length_app in E; simpl in E; lia.
Defined.
