(* ===== verification/HttpConnection.v ===== *)
(** An HTTP server on its connections: [flute/net/http/HttpServer.cc] composed
    with [flute/net/TcpConnection.cc].

    [http_readable] is [handle_socket_readable] of a connection whose message
    callback is [HttpServer::default_on_request], with the [HttpContext] that
    [on_connection] attached to it.  A request may arrive in any number of
    pieces; when it is complete, the connection has accepted the response. *)

From S2P Require Import Prelude OrdContainers StringPiece Endian Buffer HttpRequest HttpContext Format ZeroCopier Channel Poller EPollPoller Timestamp TcpConnection HttpResponse HttpServer.

Section http.
Context {P : Type} `{PollerLaws P}.
Context (cb : HttpRequest -> HttpResponse -> outcome HttpResponse).
Implicit Types (e : conn_env P).

(** [on_connection] does nothing when the connection is down. *)
Definition http_react : notice -> conn_env P -> list user_call := fun _ _ => [].

Definition http_readable (t : Z) (readv : Z -> io_result) (j : HttpContext * conn_env P) : outcome (HttpContext * conn_env P) :=
  let '(context, e) := j in
  in_loop_thread e;;
  '(n, _, inb) ← read_all_from readv (m_input_buffer (e_conn e));
  let e := on_conn (set_input inb) e in
  if 0 <? n then
    '(context, inb, calls) ← default_on_request cb context (m_input_buffer (e_conn e)) t;
    e ← do_calls calls (on_conn (set_input inb) (notify NMessage e));
    Ok (context, e)
  else if n =? 0 then e ← handle_close http_react e; Ok (context, e)
  else Ok (context, e).

(** Data arrives piece by piece, each with the time it came. *)
Fixpoint http_reads (l : list (Z * bytes)) (j : HttpContext * conn_env P) : outcome (HttpContext * conn_env P) :=
  match l with
  | [] => Ok j
  | (t, d) :: l => j ← http_readable t (fun _ => IoBytes d) j; http_reads l j
  end.

(** ** What the calls of the server change *)

(** The members that matter here, as they are before and after a call. *)
Definition call_effect (d : bytes) e e' : Prop :=
  e_accepted e' = e_accepted e ++ d /\ m_input_buffer (e_conn e') = m_input_buffer (e_conn e).

Lemma channel_call_eff op e e' : channel_call op e = Ok e' -> e_conn e' = e_conn e /\ e_accepted e' = e_accepted e.
Proof. unfold channel_call. intros E. apply bind_ok_inv in E as ([p cs] & _ & E). by injection E as <-. Qed.

Lemma send_effect d e e' : core_inv e -> m_conn_state (e_conn e) = kConnected -> send true d e = Ok e' ->
  call_effect d e e' /\ m_conn_state (e_conn e') = kConnected /\ m_zero_copier_ptr (e_conn e') = m_zero_copier_ptr (e_conn e).
Proof.
  intros (ch & C & _) Hs E. pose proof (send_accepts d e e' ch C Hs E) as A. split; [split; [done|]|].
  all: unfold send, send_bytes_in_reactor in E; rewrite Hs, bool_decide_eq_true_2 in E by done; repeat (case_match || outcome_inv);
    repeat match goal with H : channel_call _ _ = Ok _ |- _ => apply channel_call_eff in H as [H _] end; simplify_eq/=;
    repeat match goal with H : e_conn _ = _ |- _ => rewrite H end; done.
Qed.

Lemma zero_copy_effect z e e' : enable_zero_copy z e = Ok e' ->
  call_effect [] e e' /\ m_conn_state (e_conn e') = m_conn_state (e_conn e) /\ m_zero_copier_ptr (e_conn e') <> None.
Proof.
  unfold enable_zero_copy. intros E. apply bind_ok_inv in E as (ch & _ & E). apply channel_call_eff in E as [E A].
  unfold call_effect. rewrite A, E. simpl. by rewrite app_nil_r.
Qed.

Lemma shutdown_effect e e' : TcpConnection.shutdown true e = Ok e' -> m_conn_state (e_conn e) = kConnected ->
  call_effect [] e e' /\ m_conn_state (e_conn e') = kDisconnecting /\ m_zero_copier_ptr (e_conn e') = m_zero_copier_ptr (e_conn e).
Proof.
  unfold TcpConnection.shutdown, shutdown_in_reactor, call_effect. intros E Hs. rewrite Hs, bool_decide_eq_true_2 in E by done.
  outcome_inv. subst e'. rewrite app_nil_r. by case_match.
Qed.

(** ** One response *)

(** The connection after a response was accepted. *)
Definition answered (r : HttpResponse) (n : Z) (rest : bytes) e e' : Prop :=
  core_inv e' /\ e_accepted e' = e_accepted e ++ render_response r n /\ content (m_input_buffer (e_conn e')) = rest /\
  m_conn_state (e_conn e') = (if m_will_close r then kDisconnecting else kConnected) /\
  (m_response_body_type r = kJPEG -> m_zero_copier_ptr (e_conn e') <> None).

Definition copiers_ok (r : HttpResponse) : Prop := forall z, resp_copier r = Some z -> copier_ok z.

Lemma do_calls_app l1 l2 e : do_calls (l1 ++ l2) e = (e' ← do_calls l1 e; do_calls l2 e').
Proof. revert e. induction l1 as [|u l1 IH]; intros e; simpl; [done|]. destruct (do_call true u e); simpl; [apply IH|done]. Qed.

(** The outcome of a call with its invariant and its effect. *)
Lemma do_call_fine u e (Q : conn_env P -> Prop) :
  core_inv e -> call_ok (is_open (m_conn_state (e_conn e))) u ->
  (forall e', do_call true u e = Ok e' -> core_inv e' -> Q e') -> fine Q (do_calls [u] e).
Proof.
  intros I Hu HQ. simpl. pose proof (do_call_spec u e I Hu) as S. destruct (do_call true u e) as [e'|f]; [|exact S].
  simpl in *. apply HQ; [done|apply S].
Qed.

Lemma answer_spec r n e :
  core_inv e -> m_conn_state (e_conn e) = kConnected -> response_ok r n -> copiers_ok r -> len (render_response r n) <= PTRDIFF_MAX ->
  fine (answered r n (content (m_input_buffer (e_conn e))) e) (do_calls (answer_calls r n) e).
Proof.
  intros I Hs Hr Hz Hl. unfold answer_calls. rewrite do_calls_app.
  eapply (fine_bind (fun e1 => core_inv e1 /\ call_effect (render_response r n) e e1 /\ m_conn_state (e_conn e1) = kConnected)).
  { apply do_call_fine; [done|done|]. intros e1 E I1. by destruct (send_effect _ _ _ I Hs E) as (? & ? & _). }
  intros e1 (I1 & [A1 B1] & S1). rewrite do_calls_app.
  eapply (fine_bind (fun e2 => core_inv e2 /\ call_effect [] e1 e2 /\ m_conn_state (e_conn e2) = kConnected /\
    (m_response_body_type r = kJPEG -> m_zero_copier_ptr (e_conn e2) <> None))).
  { case_bool_decide as Ht; [|simpl; unfold call_effect; by rewrite app_nil_r].
    pose proof (ro_length _ _ Hr) as Hn. unfold content_length in Hn. rewrite Ht in Hn.
    destruct (resp_copier r) as [z|] eqn:Ez; [|done]. apply do_call_fine; [done|split; [by left|by apply Hz]|].
    intros e2 E I2. destruct (zero_copy_effect _ _ _ E) as (? & S2 & ?). split_and!; [done|done|congruence|done]. }
  intros e2 (I2 & [A2 B2] & S2 & Z2). unfold answered. destruct (m_will_close r).
  - apply do_call_fine; [done|done|]. intros e3 E I3. destruct (shutdown_effect _ _ E S2) as ([A3 B3] & S3 & Z3).
    rewrite A3, A2, A1, B3, B2, B1, Z3, !app_nil_r. done.
  - simpl. rewrite A2, A1, B2, B1, app_nil_r. done.
Qed.

(** ** Reading *)

Lemma capacity_large b : wf b -> kExtraBuf <= read_capacity b.
Proof. intros W. pose proof W as []. unfold read_capacity. rewrite writable_bytes_len_eq by done. case_match; lia. Qed.

(** A piece that does not end with an empty line is only stored. *)
Lemma http_read_stores d e :
  core_inv e -> len d <= kExtraBuf ->
  fine (fun '(n, _, inb) => n = len d /\ core_inv (on_conn (set_input inb) e) /\ content inb = content (m_input_buffer (e_conn e)) ++ d)
    (read_all_from (fun _ => IoBytes d) (m_input_buffer (e_conn e))).
Proof.
  intros (ch & C & B) Hd. pose proof (b_in _ B) as W. pose proof (capacity_large _ W).
  pose proof (read_all_from_safe (fun _ => IoBytes d) _ d W eq_refl ltac:(lia)) as S.
  destruct (read_all_from _ _) as [[[n err] inb]|f]; [|by right; destruct S]. destruct S as (-> & _ & W' & C').
  split_and!; [done| |done]. apply set_input_core; [by exists ch|done].
Qed.

Lemma http_more t d context e :
  core_inv e -> 0 < len d <= kExtraBuf -> ~ ends_with_blank_line (content (m_input_buffer (e_conn e)) ++ d) ->
  fine (fun '(context', e') => context' = context /\ core_inv e' /\ m_conn_state (e_conn e') = m_conn_state (e_conn e) /\
      e_accepted e' = e_accepted e /\ content (m_input_buffer (e_conn e')) = content (m_input_buffer (e_conn e)) ++ d)
    (http_readable t (fun _ => IoBytes d) (context, e)).
Proof.
  intros I Hd Hb. pose proof I as (ch & C & _). unfold http_readable. rewrite (in_loop_thread_ok e ch C), bind_ok.
  eapply fine_bind; [by apply http_read_stores; [|lia]|]. intros [[n err] inb] (-> & I' & C'). simpl e_conn. simpl m_input_buffer.
  rewrite (proj2 (Z.ltb_lt _ _)) by lia. rewrite <- C' in Hb. 
  assert (wf inb) as W by (destruct I' as (ch' & _ & B'); exact (b_in _ B')).
  rewrite (not_ready cb t context inb W Hb), !bind_ok. simpl. split_and!; [done| |done..].
  apply set_input_core; [by apply notify_core|done].
Qed.

Lemma http_reads_app l1 l2 j : http_reads (l1 ++ l2) j = (j' ← http_reads l1 j; http_reads l2 j').
Proof.
  revert j. induction l1 as [|[t d] l1 IH]; intros j; cbn [http_reads app]; [done|].
  destruct (http_readable t _ j); [apply IH|done].
Qed.

(** Pieces that do not complete anything. *)
Lemma http_early l : forall context e,
  core_inv e -> Forall (fun x : Z * bytes => 0 < len x.2 <= kExtraBuf) l ->
  (forall k, (0 < k <= length l)%nat -> ~ ends_with_blank_line (content (m_input_buffer (e_conn e)) ++ concat (take k l).*2)) ->
  fine (fun '(context', e') => context' = context /\ core_inv e' /\ m_conn_state (e_conn e') = m_conn_state (e_conn e) /\
      e_accepted e' = e_accepted e /\ content (m_input_buffer (e_conn e')) = content (m_input_buffer (e_conn e)) ++ concat l.*2)
    (http_reads l (context, e)).
Proof.
  induction l as [|[t d] l IH]; intros context e I Hl Hk; cbn [http_reads]; [simpl; by rewrite app_nil_r|].
  apply Forall_cons in Hl as [Hd Hl]. pose proof (Hk 1%nat ltac:(simpl; lia)) as Hfst. simpl in Hfst. rewrite app_nil_r in Hfst.
  eapply fine_bind; [by apply http_more|]. intros [context1 e1] (-> & I1 & S1 & A1 & C1).
  eapply fine_mono; [|apply IH; [done|done|] ].
  - intros [context2 e2] (-> & I2 & S2 & A2 & C2). split_and!; [done|done|congruence|congruence|].
    rewrite C2, C1. simpl. by rewrite <- app_assoc.
  - intros k Hkl. specialize (Hk (S k) ltac:(simpl; lia)). simpl in Hk. by rewrite C1, <- app_assoc.
Qed.

(** The last piece of a request. *)
Lemma http_last q hs rest r n t d e :
  wire_ok q hs -> m_receive_time q = t -> core_inv e -> m_conn_state (e_conn e) = kConnected -> 0 < len d <= kExtraBuf ->
  content (m_input_buffer (e_conn e)) ++ d = render q hs ++ rest -> ends_with_blank_line (render q hs ++ rest) ->
  cb q (new_HttpResponse (should_close q)) = Ok r -> response_ok r n -> copiers_ok r -> len (render_response r n) <= PTRDIFF_MAX ->
  fine (fun '(context', e') => context' = new_HttpContext /\ answered r n rest e e')
    (http_readable t (fun _ => IoBytes d) (new_HttpContext, e)).
Proof.
  intros Hq <- I Hs Hd Hc Hend Hcb Hr Hz Hl. pose proof I as (ch & C & _). unfold http_readable. rewrite (in_loop_thread_ok e ch C), bind_ok.
  eapply fine_bind; [by apply http_read_stores; [|lia]|]. intros [[k err] inb] (-> & I' & C'). simpl e_conn. simpl m_input_buffer.
  rewrite (proj2 (Z.ltb_lt _ _)) by lia.
  assert (wf inb) as W by (destruct I' as (ch' & _ & B'); exact (b_in _ B')). rewrite Hc in C'.
  eapply fine_bind; [apply (request_answered cb q hs rest inb r n); try done; by rewrite C'|].
  intros [[context' inb'] calls] (-> & W' & Cr & ->).
  eapply fine_bind; [apply answer_spec; try done|].
  - apply (set_input_core inb' (notify NMessage (on_conn (set_input inb) e))); [by apply notify_core|done].
  - intros e' A. simpl. split; [done|]. simpl in A. by rewrite Cr in A.
Qed.

(** A request in pieces; stated again as the theorem below. *)
Lemma http_reads_answered q hs rest r n early t d e :
  wire_ok q hs -> m_receive_time q = t -> ends_with_blank_line (render q hs ++ rest) ->
  cb q (new_HttpResponse (should_close q)) = Ok r -> response_ok r n -> copiers_ok r -> len (render_response r n) <= PTRDIFF_MAX ->
  core_inv e -> m_conn_state (e_conn e) = kConnected -> content (m_input_buffer (e_conn e)) = [] ->
  Forall (fun x : Z * bytes => 0 < len x.2 <= kExtraBuf) (early ++ [(t, d)]) ->
  concat early.*2 ++ d = render q hs ++ rest ->
  (forall k, (0 < k <= length early)%nat -> ~ ends_with_blank_line (concat (take k early).*2)) ->
  fine (fun '(context', e') => context' = new_HttpContext /\ answered r n rest e e') (http_reads (early ++ [(t, d)]) (new_HttpContext, e)).
Proof.
  intros Hq Ht Hend Hcb Hr Hz Hl I Hs Hin Hlen Hcat Hearly. rewrite http_reads_app. apply Forall_app in Hlen as [Hle Hld].
  apply Forall_cons in Hld as [Hld _]. eapply fine_bind; [by apply (http_early early new_HttpContext e); rewrite ?Hin|].
  intros [context1 e1] (-> & I1 & S1 & A1 & C1). rewrite Hin in C1. cbn [http_reads].
  eapply fine_bind; [apply (http_last q hs rest r n t d e1); try done; [congruence|by rewrite C1]|].
  intros [context' e'] [-> A]. split; [done|]. unfold answered in *. by rewrite A1 in A.
Qed.

(** C31: a request that arrives in pieces is answered on the wire's side of
    the connection.  On a connection that is up, let the bytes of a request
    (followed by any more, up to an empty line at the end) arrive in any
    number of reads, none but the last of which ends with an empty line.  Then
    all reads return; the context is ready for the next request and exactly the
    request was consumed; the connection has accepted the complete text of the
    callback's response right behind what it had accepted before (from where
    [connection_stream_exact] says that it goes out unchanged), has started the
    transfer of the response's file, if any, and is shutting down exactly when
    the response says so.  (Two failures remain: memory is exhausted, or the
    kernel refuses a registration.) *)
Theorem http_request_served q hs rest r n early t d e :
  wire_ok q hs -> m_receive_time q = t -> ends_with_blank_line (render q hs ++ rest) ->
  cb q (new_HttpResponse (should_close q)) = Ok r -> response_ok r n -> copiers_ok r -> len (render_response r n) <= PTRDIFF_MAX ->
  core_inv e -> m_conn_state (e_conn e) = kConnected -> content (m_input_buffer (e_conn e)) = [] ->
  Forall (fun x : Z * bytes => 0 < len x.2 <= kExtraBuf) (early ++ [(t, d)]) ->
  concat early.*2 ++ d = render q hs ++ rest ->
  (forall k, (0 < k <= length early)%nat -> ~ ends_with_blank_line (concat (take k early).*2)) ->
  fine (fun '(context', e') => context' = new_HttpContext /\ answered r n rest e e') (http_reads (early ++ [(t, d)]) (new_HttpContext, e)).
Proof. apply http_reads_answered. Qed.

End http.

(** * A run *)

#[local] Existing Instance loop_thread.

(** The request in three pieces: a connection answers and stays open. *)
Definition request_pieces : list (Z * bytes) :=
  let l := render sample_request [(lit "Host", lit "h:80")] in [(1, take 10 l); (2, take 9 (drop 10 l)); (7, drop 19 l)].

Definition hello : HttpResponse := set_body (lit "hello") (set_status_message (lit "OK") (set_status_code k200Ok (new_HttpResponse false))).

Lemma ends_last_four l : ends_with_blank_line l -> drop (length l - 4) l = kCRLF ++ kCRLF.
Proof.
  intros [k ->]. rewrite length_app. change (length (kCRLF ++ kCRLF)) with 4%nat.
  replace (length k + 4 - 4)%nat with (length k) by lia. apply drop_app_length.
Qed.

Lemma http_request_served_witness :
  exists context e', http_reads hello_callback request_pieces (new_HttpContext, after [EvEstablished]) = Ok (context, e') /\
    context = new_HttpContext /\ e_accepted e' = render_response hello 5 /\ m_conn_state (e_conn e') = kConnected.
Proof.
  pose proof (http_request_served hello_callback sample_request [(lit "Host", lit "h:80")] [] hello 5
    (take 2 request_pieces) 7 (drop 19 (render sample_request [(lit "Host", lit "h:80")])) (after [EvEstablished])) as T.
  change (take 2 request_pieces ++ [_]) with request_pieces in T.
  destruct (http_reads hello_callback request_pieces (new_HttpContext, after [EvEstablished])) as [[context e']|f] eqn:E;
    [|by vm_compute in E].
  exists context, e'. split; [reflexivity|].
  destruct T as (Hc & _ & Ha & _ & Hs & _).
  - apply sample_request_ok.
  - reflexivity.
  - exists (take (length (render sample_request [(lit "Host", lit "h:80")]) - 4) (render sample_request [(lit "Host", lit "h:80")])).
    vm_compute. reflexivity.
  - vm_compute. reflexivity.
  - constructor; [split; [by vm_compute|reflexivity]|reflexivity|reflexivity|exact (Forall_nil_2 _)|reflexivity|split; [by vm_compute|reflexivity]].
  - intros z Hz. discriminate Hz.
  - vm_compute. discriminate.
  - apply (reachable_inv quiet), demo_reachable; [exact quiet_ok|all_ok].
  - vm_compute. reflexivity.
  - vm_compute. reflexivity.
  - repeat constructor; vm_compute; congruence.
  - vm_compute. reflexivity.
  - intros k Hk Hb. apply ends_last_four in Hb. change (length (take 2 request_pieces)) with 2%nat in Hk.
    destruct k as [|[|[|k]]]; [lia|vm_compute in Hb; discriminate..|lia].
  - split; [exact Hc|]. split; [|exact Hs]. rewrite Ha. vm_compute. reflexivity.
Defined.
