(* ===== verification/Date.v ===== *)
(** [flute/common/Date.{h,cc}]: Julian day numbers and the Gregorian calendar.
    [int] is 32 bits wide: every intermediate result is checked ([int_ck]), and
    division truncates ([Z.quot], [Z.rem]). *)

From S2P Require Import Prelude Format.

(** A result of [int] arithmetic; overflow is undefined behaviour. *)
Definition int_ck (z : Z) : outcome Z := require FOverflow ((- 2 ^ 31 <=? z) && (z <? 2 ^ 31));; Ok z.

Definition get_julian_day_number (year month day : Z) : outcome Z :=
  a ← int_ck (14 - month);
  let a := a ÷ 12 in
  y ← int_ck (year + 4800);
  y ← int_ck (y - a);
  t ← int_ck (12 * a);
  m ← int_ck (month + t);
  m ← int_ck (m - 3);
  u ← int_ck (153 * m);
  u ← int_ck (u + 2);
  r ← int_ck (day + u ÷ 5);
  v ← int_ck (y * 365);
  r ← int_ck (r + v);
  r ← int_ck (r + y ÷ 4);
  r ← int_ck (r - y ÷ 100);
  r ← int_ck (r + y ÷ 400);
  int_ck (r - 32045).

Record YearMonthDay : Type := mkYMD { ymd_year : Z; ymd_month : Z; ymd_day : Z }.

Definition get_year_month_day (julianDayNumber : Z) : outcome YearMonthDay :=
  a ← int_ck (julianDayNumber + 32044);
  t ← int_ck (4 * a);
  t ← int_ck (t + 3);
  let b := t ÷ 146097 in
  u ← int_ck (b * 146097);
  c ← int_ck (a - u ÷ 4);
  t ← int_ck (4 * c);
  t ← int_ck (t + 3);
  let d := t ÷ 1461 in
  u ← int_ck (1461 * d);
  e ← int_ck (c - u ÷ 4);
  t ← int_ck (5 * e);
  t ← int_ck (t + 2);
  let m := t ÷ 153 in
  u ← int_ck (153 * m);
  u ← int_ck (u + 2);
  day ← int_ck (e - u ÷ 5);
  day ← int_ck (day + 1);
  month ← int_ck (m + 3);
  month ← int_ck (month - 12 * (m ÷ 10));
  year ← int_ck (b * 100);
  year ← int_ck (year + d);
  year ← int_ck (year - 4800);
  year ← int_ck (year + m ÷ 10);
  Ok (mkYMD year month day).

Record Date : Type := mkDate { m_julian_day_number : Z }.

Definition Date_default : Date := mkDate 0.
Definition Date_ymd (y m d : Z) : outcome Date := n ← get_julian_day_number y m d; Ok (mkDate n).
Definition kJulianDayOf1970_01_01 : outcome Z := get_julian_day_number 1970 1 1.
Definition kDaysPerWeek : Z := 7.

Definition date_swap (a b : Date) : Date * Date := (b, a).
Definition date_valid (d : Date) : bool := 0 <? m_julian_day_number d.
Definition year_month_day (d : Date) : outcome YearMonthDay := get_year_month_day (m_julian_day_number d).
Definition week_day (d : Date) : outcome Z := n ← int_ck (m_julian_day_number d + 1); Ok (Z.rem n kDaysPerWeek).
Definition date_ltb (x y : Date) : bool := m_julian_day_number x <? m_julian_day_number y.
Definition date_eqb (x y : Date) : bool := m_julian_day_number x =? m_julian_day_number y.

(** ["%4d-%02d-%02d"] in 32 bytes. *)
Definition toIsoString (d : Date) : outcome bytes :=
  ymd ← year_month_day d;
  Ok (snprintf 32 (dec_w 4 (ymd_year ymd) ++ lit "-" ++ dec_0 2 (ymd_month ymd) ++ lit "-" ++ dec_0 2 (ymd_day ymd))).

(** * The Gregorian calendar *)

Definition leap (y : Z) : bool := ((y mod 4 =? 0) && negb (y mod 100 =? 0)) || (y mod 400 =? 0).

Definition days_in_month (y m : Z) : Z :=
  if m =? 2 then if leap y then 29 else 28
  else if (m =? 4) || (m =? 6) || (m =? 9) || (m =? 11) then 30 else 31.

Definition valid_ymd (d : YearMonthDay) : Prop :=
  1 <= ymd_month d <= 12 /\ 1 <= ymd_day d <= days_in_month (ymd_year d) (ymd_month d).

Definition next_day (d : YearMonthDay) : YearMonthDay :=
  if ymd_day d <? days_in_month (ymd_year d) (ymd_month d) then mkYMD (ymd_year d) (ymd_month d) (ymd_day d + 1)
  else if ymd_month d <? 12 then mkYMD (ymd_year d) (ymd_month d + 1) 1
  else mkYMD (ymd_year d + 1) 1 1.

(** ** Without overflow *)

(** Years for which nothing overflows. *)
Definition year_ok (y : Z) : Prop := -4799 <= y <= 1000000.

Lemma int_ck_ok z : - 2 ^ 31 <= z < 2 ^ 31 -> int_ck z = Ok z.
Proof.
  intros H. unfold int_ck. rewrite (proj2 (Z.leb_le _ _)), (proj2 (Z.ltb_lt _ _)) by lia. done.
Qed.

Lemma int_bind {B} z (k : Z -> outcome B) : - 2 ^ 31 <= z < 2 ^ 31 -> (int_ck z ≫= k) = k z.
Proof. intros H. by rewrite int_ck_ok. Qed.

(** [A] is 1 in January and February; [Y] and [M] count from March. *)
Definition jdn (y m d : Z) : Z :=
  let a := (14 - m) / 12 in
  let Y := y + 4800 - a in
  let M := m + 12 * a - 3 in
  d + (153 * M + 2) / 5 + Y * 365 + Y / 4 - Y / 100 + Y / 400 - 32045.

(** One checked operation that cannot overflow, by the linear facts at hand. *)
Ltac int_step := first [rewrite int_bind by lia | rewrite int_ck_ok by lia]; cbv beta zeta.

Lemma div_bounds a b : 0 <= a -> 0 < b -> 0 <= a / b <= a.
Proof. intros. split; [by apply Z.div_pos|]. apply Z.div_le_upper_bound; nia. Qed.

Lemma julian_day_ok y m d :
  year_ok y -> 1 <= m <= 12 -> 1 <= d <= 31 -> get_julian_day_number y m d = Ok (jdn y m d).
Proof.
  unfold year_ok. intros Hy Hm Hd. unfold get_julian_day_number, jdn. int_step.
  rewrite Z.quot_div_nonneg by lia. set (a := (14 - m) / 12).
  assert (0 <= a <= 1 /\ 3 <= m + 12 * a <= 14) as [Ha Hma] by (subst a; Z.to_euclidean_division_equations; lia).
  do 7 int_step. set (Y := y + 4800 - a). set (M := m + 12 * a - 3).
  assert (0 <= Y <= 1004800) by lia. assert (0 <= M <= 11) by lia.
  rewrite !Z.quot_div_nonneg by lia.
  pose proof (div_bounds (153 * M + 2) 5). pose proof (div_bounds Y 4). pose proof (div_bounds Y 100).
  pose proof (div_bounds Y 400). by do 7 int_step.
Qed.

(** ** The calendar *)

(** Splits on the month, so that its part of the formula is a number. *)
Lemma month_cases m : 1 <= m <= 12 ->
  m = 1 \/ m = 2 \/ m = 3 \/ m = 4 \/ m = 5 \/ m = 6 \/ m = 7 \/ m = 8 \/ m = 9 \/ m = 10 \/ m = 11 \/ m = 12.
Proof. lia. Qed.

Lemma leap_spec y : leap y = true <-> (y mod 4 = 0 /\ y mod 100 <> 0) \/ y mod 400 = 0.
Proof. unfold leap. rewrite orb_true_iff, andb_true_iff, negb_true_iff, !Z.eqb_eq, Z.eqb_neq. done. Qed.

(** The day after the last of February is the first of March. *)
Lemma jdn_march y : jdn y 3 1 = jdn y 2 28 + (if leap y then 2 else 1).
Proof.
  unfold jdn. change ((14 - 3) / 12) with 0. change ((14 - 2) / 12) with 1. cbn [Z.mul].
  pose proof (leap_spec y) as L. destruct (leap y).
  - destruct L as [L _]. specialize (L eq_refl). Z.to_euclidean_division_equations; lia.
  - destruct L as [_ L]. assert (~ ((y mod 4 = 0 /\ y mod 100 <> 0) \/ y mod 400 = 0)) by (intros X; discriminate (L X)).
    clear L. Z.to_euclidean_division_equations; lia.
Qed.

Definition jdn_ymd (d : YearMonthDay) : Z := jdn (ymd_year d) (ymd_month d) (ymd_day d).

Lemma jdn_next d : valid_ymd d -> jdn_ymd (next_day d) = jdn_ymd d + 1.
Proof.
  destruct d as [y m d]. unfold valid_ymd, next_day, jdn_ymd. cbn [ymd_year ymd_month ymd_day]. intros [Hm Hd].
  destruct (Z.ltb_spec d (days_in_month y m)) as [|Hlast]; cbn [ymd_year ymd_month ymd_day]; [unfold jdn; lia|].
  assert (d = days_in_month y m) as -> by lia. clear Hd Hlast.
  pose proof (jdn_march y) as Hmar.
  destruct (month_cases m Hm) as [->|[->|[->|[->|[->|[->|[->|[->|[->|[->|[->| ->]]]]]]]]]]];
    cbn [Z.ltb Z.compare Pos.compare Pos.compare_cont ymd_year ymd_month ymd_day Z.add Pos.add Pos.succ];
    unfold days_in_month; cbn [Z.eqb Pos.eqb orb];
    try (unfold jdn; Z.to_euclidean_division_equations; lia).
  change (2 + 1) with 3. destruct (leap y); rewrite Hmar; unfold jdn; lia.
Qed.

(** Days since the first of March. *)
Definition march_day (m d : Z) : Z :=
  let a := (14 - m) / 12 in d - 1 + (153 * (m + 12 * a - 3) + 2) / 5.

(** The calendar year in which the year that starts in March [Y - 4800] ends. *)
Lemma march_day_range y m d :
  valid_ymd (mkYMD y m d) ->
  let a := (14 - m) / 12 in
  let M := m + 12 * a - 3 in
  let N := march_day m d in
  0 <= N <= 364 + (if leap (y + 1 - a) then 1 else 0) /\ 0 <= M <= 11 /\ (5 * N + 2) / 153 = M /\
  M / 10 = a /\ 0 <= a <= 1.
Proof.
  unfold valid_ymd, march_day. cbn [ymd_year ymd_month ymd_day]. intros [Hm Hd].
  destruct (month_cases m Hm) as [->|[->|[->|[->|[->|[->|[->|[->|[->|[->|[->| ->]]]]]]]]]]];
    unfold days_in_month in Hd; cbn [Z.eqb Pos.eqb orb] in Hd.
  all: try (repeat match goal with |- context [(14 - ?k) / 12] =>
         let v := eval vm_compute in ((14 - k) / 12) in change ((14 - k) / 12) with v end;
       destruct (leap _); Z.to_euclidean_division_equations; lia).
  change ((14 - 2) / 12) with 1. replace (y + 1 - 1) with y by lia.
  destruct (leap y); Z.to_euclidean_division_equations; lia.
Qed.

(** The inverse, one division at a time. *)
Lemma jdn_unfold y m d :
  let a := (14 - m) / 12 in
  let Y := y + 4800 - a in
  jdn y m d + 32044 = march_day m d + 365 * Y + Y / 4 - Y / 100 + Y / 400.
Proof. unfold jdn, march_day. lia. Qed.

Lemma leap_march Y : leap (Y - 4800 + 1) = true <-> ((Y + 1) mod 4 = 0 /\ (Y + 1) mod 100 <> 0) \/ (Y + 1) mod 400 = 0.
Proof. rewrite leap_spec. Z.to_euclidean_division_equations; lia. Qed.

(** The century, ... *)
Lemma century_div Y N :
  0 <= Y -> 0 <= N <= 364 + (if leap (Y - 4800 + 1) then 1 else 0) ->
  let a := N + 365 * Y + Y / 4 - Y / 100 + Y / 400 in
  (4 * a + 3) / 146097 = Y / 100 /\
  a - (Y / 100 * 146097) / 4 = N + 365 * (Y mod 100) + (Y mod 100) / 4.
Proof.
  intros HY HN a. pose proof (leap_march Y) as L.
  assert (Y / 4 = 25 * (Y / 100) + (Y mod 100) / 4) as E4 by (Z.to_euclidean_division_equations; lia).
  assert (Y / 400 = Y / 100 / 4) as E400 by (Z.to_euclidean_division_equations; lia).
  assert (Y = 100 * (Y / 100) + Y mod 100 /\ 0 <= Y mod 100 < 100) as [EY HY'] by (Z.to_euclidean_division_equations; lia).
  assert (N + 365 * (Y mod 100) + (Y mod 100) / 4 <= 36524 /\
          (N + 365 * (Y mod 100) + (Y mod 100) / 4 = 36524 -> (Y / 100) mod 4 = 3)) as [HB HB'].
  { destruct (leap (Y - 4800 + 1)); [destruct L as [L _]; specialize (L eq_refl)|]; Z.to_euclidean_division_equations; lia. }
  set (c := Y mod 100) in *. set (b := Y / 100) in *. subst a. rewrite E4, E400. clear E4 E400 L. destruct HN as [HN _].
  replace (365 * Y) with (36500 * b + 365 * c) by lia. clear EY.
  set (r := N + 365 * c + c / 4) in *. replace (N + (36500 * b + 365 * c) + (25 * b + c / 4) - b + b / 4) with (r + 36524 * b + b / 4) by lia.
  assert (0 <= r) by (subst r; pose proof (Z.div_pos c 4); lia).
  assert (r <= 36523 \/ r = 36524 /\ b mod 4 = 3) as HR by lia. clear HB HB'. clearbody r b.
  pose proof (Z.div_mod b 4). pose proof (Z.mod_pos_bound b 4).
  split; [symmetry; apply (Z.div_unique _ _ b (4 * r + 3 - b mod 4)); lia|].
  assert (b * 146097 / 4 = 36524 * b + b / 4) as ->; [|lia]. symmetry. apply (Z.div_unique _ _ _ (b mod 4)); lia.
Qed.

(** ... the year in it, ... *)
Lemma year_div c N :
  0 <= c < 100 -> 0 <= N <= 365 -> (N = 365 -> c mod 4 = 3) ->
  (4 * (N + 365 * c + c / 4) + 3) / 1461 = c /\ N + 365 * c + c / 4 - (1461 * c) / 4 = N.
Proof.
  intros Hc HN H365. pose proof (Z.div_mod c 4). pose proof (Z.mod_pos_bound c 4).
  assert (N <= 364 \/ N = 365 /\ c mod 4 = 3) as HN' by lia. clear H365.
  split; [symmetry; apply (Z.div_unique _ _ c (4 * N + 3 - c mod 4)); lia|].
  assert (1461 * c / 4 = 365 * c + c / 4) as ->; [|lia]. symmetry. apply (Z.div_unique _ _ _ (c mod 4)); lia.
Qed.

Lemma year_month_day_ok y m d :
  year_ok y -> valid_ymd (mkYMD y m d) -> get_year_month_day (jdn y m d) = Ok (mkYMD y m d).
Proof.
  intros Hy Hv. destruct (march_day_range y m d Hv) as (HN & HM & EM & EA & HA). cbv zeta in *.
  pose proof (jdn_unfold y m d) as EJ. cbv zeta in EJ. unfold year_ok in Hy.
  assert (march_day m d = d - 1 + (153 * (m + 12 * ((14 - m) / 12) - 3) + 2) / 5) as ED by done.
  set (a0 := (14 - m) / 12) in *. set (Y := y + 4800 - a0) in *. set (M := m + 12 * a0 - 3) in *.
  set (N := march_day m d) in *. replace (y + 1 - a0) with (Y - 4800 + 1) in HN by lia.
  assert (0 <= Y <= 1004800) as HY by lia.
  destruct (century_div Y N) as [Eb Ec]; [lia|done|]. cbv zeta in Eb, Ec.
  assert (0 <= N <= 365) as HN' by (destruct (leap _); lia).
  assert (0 <= Y mod 100 < 100 /\ Y = 100 * (Y / 100) + Y mod 100 /\ 0 <= Y / 100 <= 10048) as (Hc & EY & Hb)
    by (Z.to_euclidean_division_equations; lia).
  destruct (year_div (Y mod 100) N) as [Ed Ee]; [lia|done| |].
  { intros E365. pose proof (leap_march Y) as L. destruct (leap _); [|lia]. destruct L as [L _]. specialize (L eq_refl).
    Z.to_euclidean_division_equations; lia. }
  pose proof (div_bounds Y 4). pose proof (div_bounds Y 100). pose proof (div_bounds Y 400).
  assert (0 <= (Y mod 100) / 4 <= 24) by (Z.to_euclidean_division_equations; lia).
  unfold get_year_month_day. rewrite EJ.
  set (a := N + 365 * Y + Y / 4 - Y / 100 + Y / 400) in *.
  assert (0 <= a /\ 146097 * (Y / 100) <= 4 * a + 3 <= 4 * 369000000) as [Ha Ha'].
  { split; [lia|]. rewrite <- Eb. split; [apply Z.mul_div_le; lia|lia]. }
  do 3 int_step. rewrite (Z.quot_div_nonneg (4 * a + 3)), Eb by lia. int_step.
  rewrite (Z.quot_div_nonneg (_ * 146097)), Ec by lia. set (c := N + 365 * (Y mod 100) + (Y mod 100) / 4) in *.
  assert (0 <= c <= 36900) by lia. do 3 int_step. rewrite (Z.quot_div_nonneg (4 * c + 3)), Ed by lia. int_step.
  rewrite (Z.quot_div_nonneg (1461 * _)), Ee by lia. do 3 int_step.
  rewrite (Z.quot_div_nonneg (5 * N + 2)), EM by lia. do 2 int_step.
  pose proof (div_bounds (153 * M + 2) 5). rewrite (Z.quot_div_nonneg (153 * M + 2)) by lia.
  rewrite (Z.quot_div_nonneg M 10), EA by lia. do 8 int_step. do 2 f_equal; lia.
Qed.

(** C33: the date arithmetic is the Gregorian calendar.  For every date of the
    years -4799 to 1000000, nothing overflows; the day number of the next day of
    the calendar (with its month lengths and leap years) is the next number; the
    two conversions are inverse to each other; and the first of January 1970 is
    day 2440588. *)
Theorem julian_day_is_gregorian (d : YearMonthDay) :
  valid_ymd d -> year_ok (ymd_year d) -> year_ok (ymd_year d + 1) ->
  exists n, get_julian_day_number (ymd_year d) (ymd_month d) (ymd_day d) = Ok n /\
    get_year_month_day n = Ok d /\
    get_julian_day_number (ymd_year (next_day d)) (ymd_month (next_day d)) (ymd_day (next_day d)) = Ok (n + 1) /\
    kJulianDayOf1970_01_01 = Ok 2440588.
Proof.
  intros Hv Hy Hy'. exists (jdn_ymd d).
  assert (1 <= ymd_day d <= 31) as Hd.
  { destruct Hv as [_ Hd]. unfold days_in_month in Hd. repeat case_match; lia. }
  pose proof (jdn_next d Hv) as Hn. split_and!; [|destruct d; by apply year_month_day_ok| |done].
  - apply julian_day_ok; [done|apply Hv|done].
  - rewrite <- Hn. apply julian_day_ok; unfold next_day; repeat case_match; simpl; try done; destruct Hv; try lia.
    unfold days_in_month in *. repeat case_match; lia.
Qed.

Lemma julian_day_is_gregorian_witness :
  exists n, get_julian_day_number 2000 2 29 = Ok n /\ get_year_month_day n = Ok (mkYMD 2000 2 29) /\
    get_julian_day_number 2000 3 1 = Ok (n + 1).
Proof.
  destruct (julian_day_is_gregorian (mkYMD 2000 2 29)) as (n & H1 & H2 & H3 & _);
    [split; vm_compute; split; discriminate|split; vm_compute; discriminate..|].
  exists n. split_and!; [exact H1|exact H2|exact H3].
Defined.

(** Every day number belongs to a date. *)
Lemma date_exists k :
  0 <= k -> exists d, valid_ymd d /\ jdn_ymd d = jdn (-4799) 3 1 + k /\ -4799 <= ymd_year d.
Proof.
  revert k. apply natlike_ind.
  - exists (mkYMD (-4799) 3 1). split_and!; [split; vm_compute; split; discriminate|done|done].
  - intros k Hk (d & Hv & Hj & Hy). exists (next_day d). pose proof (jdn_next d Hv). split_and!; [|lia|].
    + destruct Hv as [Hm Hd]. unfold next_day, valid_ymd.
      destruct (Z.ltb_spec (ymd_day d) (days_in_month (ymd_year d) (ymd_month d))); [simpl; lia|].
      destruct (Z.ltb_spec (ymd_month d) 12); simpl; (split; [lia|]); unfold days_in_month; repeat case_match; lia.
    + unfold next_day. repeat case_match; simpl; lia.
Qed.

Lemma jdn_year_bound d : valid_ymd d -> -4799 <= ymd_year d -> 365 * (ymd_year d + 4799) - 32045 <= jdn_ymd d.
Proof.
  intros [Hm Hd] Hy. unfold jdn_ymd, jdn.
  assert (0 <= (14 - ymd_month d) / 12 <= 1 /\ 3 <= ymd_month d + 12 * ((14 - ymd_month d) / 12) <= 14) as [Ha Hma]
    by (Z.to_euclidean_division_equations; lia).
  set (a := (14 - ymd_month d) / 12) in *. set (Y := ymd_year d + 4800 - a).
  assert (0 <= Y / 4 - Y / 100 /\ 0 <= Y / 400) by (Z.to_euclidean_division_equations; lia).
  assert (0 <= (153 * (ymd_month d + 12 * a - 3) + 2) / 5) by (apply Z.div_pos; lia). lia.
Qed.

(** ... and the conversion finds it. *)
Lemma day_number_date n :
  jdn (-4799) 3 1 <= n <= 365000000 ->
  exists d, valid_ymd d /\ year_ok (ymd_year d) /\ jdn_ymd d = n /\ get_year_month_day n = Ok d.
Proof.
  intros Hn. destruct (date_exists (n - jdn (-4799) 3 1)) as (d & Hv & Hj & Hy); [lia|].
  replace (jdn (-4799) 3 1 + (n - jdn (-4799) 3 1)) with n in Hj by lia.
  assert (year_ok (ymd_year d)) as Hyo by (pose proof (jdn_year_bound d Hv Hy); unfold year_ok; lia).
  exists d. split_and!; [done|done|done|]. rewrite <- Hj. destruct d. by apply year_month_day_ok.
Qed.
