(* ===== verification/Timezone.v ===== *)
(** [flute/common/Timezone.{h,cc}]: time zones from TZif files or with a fixed
    offset, and the conversions to and from UTC.  [gmtime_r] and [timegm] are
    the library's functions.  A [logic_error] that is caught in
    [read_timezone_file] leaves the data read so far, which the monad [zread]
    threads through. *)

From S2P Require Import Prelude Format Date.

Record Transition : Type := mkTransition { gmttime : Z; localtime : Z; localtime_idx : Z }.
Record Localtime : Type := mkLocaltime { gmt_offset : Z; is_dst : bool; arrb_idx : Z }.

(** [Timezone::TimeData]; [names] is not used. *)
Record TimeData : Type := mkTimeData {
  transitions : list Transition;
  localtimes : list Localtime;
  abbreviation : bytes
}.

Definition empty_data : TimeData := mkTimeData [] [] [].

(** ** Reading *)

(** On the data and the rest of the file: a value, or [None] when a
    [logic_error] was thrown. *)
Definition zread (A : Type) : Type := TimeData -> bytes -> outcome (option A * TimeData * bytes).

#[global] Instance zread_ret : MRet zread := fun A a d f => Ok (Some a, d, f).
#[global] Instance zread_bind : MBind zread := fun A B k m d f =>
  match m d f with
  | Ok (Some a, d, f) => k a d f
  | Ok (None, d, f) => Ok (None, d, f)
  | Fail x => Fail x
  end.
Definition zthrow {A} : zread A := fun d f => Ok (None, d, f).

(** [File::read_bytes]: [char buf[n]] with a negative [n] is undefined. *)
Definition read_bytes (n : Z) : zread bytes := fun d f =>
  if n <? 0 then Fail FBounds
  else if n <=? len f then Ok (Some (take (Z.to_nat n) f), d, drop (Z.to_nat n) f) else Ok (None, d, []).

(** [be32toh] of four bytes, as a signed number. *)
Definition be32 (l : bytes) : Z := s32 (foldl (fun a c => a * 256 + Z_of_byte c) 0 l).

Definition read_int32 : zread Z := x ← read_bytes 4; mret (be32 x).
Definition read_uint8 : zread Z := x ← read_bytes 1; mret (foldl (fun a c => a * 256 + Z_of_byte c) 0 x).

Fixpoint ztimes {A} (n : nat) (m : zread A) : zread (list A) :=
  match n with
  | O => mret []
  | S n => a ← m; l ← ztimes n m; mret (a :: l)
  end.

(** [trans.reserve(n)]: a negative [n] is a huge [size_t]; the
    [std::length_error] is a [logic_error]. *)
Definition reserve (n : Z) : zread unit := if n <? 0 then zthrow else mret tt.

Definition push_localtime (l : Localtime) : zread unit := fun d f =>
  Ok (Some tt, mkTimeData (transitions d) (localtimes d ++ [l]) (abbreviation d), f).

Definition read_localtime : zread unit :=
  gmtoff ← read_int32;
  isdst ← read_uint8;
  abbrind ← read_uint8;
  push_localtime (mkLocaltime gmtoff (negb (isdst =? 0)) abbrind).

(** One turn of the loop over the transitions: [data->localtimes[local_idx]]
    is not checked. *)
Definition push_transition (t local_idx : Z) : zread unit := fun d f =>
  match localtimes d !! Z.to_nat local_idx with
  | Some l =>
      Ok (Some tt, mkTimeData (transitions d ++ [mkTransition t (t + gmt_offset l) local_idx]) (localtimes d)
                     (abbreviation d), f)
  | None => Fail FBounds
  end.

Fixpoint push_transitions (trans idxs : list Z) : zread unit :=
  match trans, idxs with
  | t :: trans, i :: idxs => _ ← push_transition t i; push_transitions trans idxs
  | _, _ => mret tt
  end.

Definition set_abbreviation (s : bytes) : zread unit := fun d f =>
  Ok (Some tt, mkTimeData (transitions d) (localtimes d) s, f).

(** The body of the [try]. *)
Definition read_zone : zread unit :=
  head ← read_bytes 4;
  if negb (bool_decide (head = lit "TZif")) then zthrow
  else
    _ ← read_bytes 1;
    _ ← read_bytes 15;
    _ ← read_int32;
    _ ← read_int32;
    _ ← read_int32;
    timecnt ← read_int32;
    typecnt ← read_int32;
    charcnt ← read_int32;
    _ ← reserve timecnt;
    trans ← ztimes (Z.to_nat timecnt) read_int32;
    idxs ← ztimes (Z.to_nat timecnt) read_uint8;
    _ ← ztimes (Z.to_nat typecnt) read_localtime;
    _ ← push_transitions trans idxs;
    s ← read_bytes charcnt;
    set_abbreviation s.

(** [file] is the content of the file, if it could be opened.  The result is
    always [true]. *)
Definition read_timezone_file (file : option bytes) : outcome (bool * TimeData) :=
  match file with
  | None => Ok (true, empty_data)
  | Some f => '(_, d, _) ← read_zone empty_data f; Ok (true, d)
  end.

(** ** Local time *)

Definition key (compare_gmt : bool) (t : Transition) : Z := if compare_gmt then gmttime t else localtime t.

(** [std::lower_bound] on a sorted range: the first element that is not less. *)
Fixpoint lower_bound (gmt : bool) (t : Z) (l : list Transition) : nat :=
  match l with
  | [] => O
  | x :: l => if key gmt x <? t then S (lower_bound gmt t l) else O
  end.

Definition localtime_at (d : TimeData) (i : Z) : outcome Localtime := of_option FBounds (localtimes d !! Z.to_nat i).

(** [front()] of an empty vector is undefined. *)
Definition find_local_time (d : TimeData) (t : Z) (gmt : bool) : outcome Localtime :=
  match transitions d with
  | [] => of_option FBounds (head (localtimes d))
  | first :: _ =>
      if t <? key gmt first then of_option FBounds (head (localtimes d))
      else
        let i := lower_bound gmt t (transitions d) in
        match transitions d !! i with
        | Some tr =>
            if negb (t =? key gmt tr) then
              assert_ (negb (Nat.eqb i 0));;
              prev ← of_option FBounds (transitions d !! (i - 1)%nat);
              localtime_at d (localtime_idx prev)
            else localtime_at d (localtime_idx tr)
        | None =>
            back ← of_option FBounds (last (transitions d)); localtime_at d (localtime_idx back)
        end
  end.

Record tm : Type := mkTm {
  tm_sec : Z; tm_min : Z; tm_hour : Z; tm_mday : Z; tm_mon : Z; tm_year : Z; tm_wday : Z; tm_yday : Z;
  tm_isdst : bool; tm_gmtoff : Z; tm_zone : bytes
}.

Definition Timezone : Type := option TimeData.   (* m_data *)

Definition Timezone_file (zonefile : option bytes) : outcome Timezone :=
  '(ok, d) ← read_timezone_file zonefile; Ok (if ok : bool then Some d else None).
Definition Timezone_fixed (eastOfUtc : Z) (name : bytes) : Timezone :=
  Some (mkTimeData [] [mkLocaltime eastOfUtc false 0] name).
Definition tz_valid (z : Timezone) : bool := match z with Some _ => true | None => false end.

Section local.
(** [gmtime_r(3)] and [timegm(3)]. *)
Context (gmtime : Z -> tm) (timegm : tm -> Z).

Definition to_local_time (z : Timezone) (seconds : Z) : outcome tm :=
  assert_ (tz_valid z);;
  let d := default empty_data z in
  local ← find_local_time d seconds true;
  let u := gmtime (seconds + gmt_offset local) in
  require FBounds (arrb_idx local <=? len (abbreviation d));;
  Ok (mkTm (tm_sec u) (tm_min u) (tm_hour u) (tm_mday u) (tm_mon u) (tm_year u) (tm_wday u) (tm_yday u)
        (is_dst local) (gmt_offset local) (drop (Z.to_nat (arrb_idx local)) (abbreviation d))).

Definition from_local_time (z : Timezone) (localTm : tm) : outcome Z :=
  assert_ (tz_valid z);;
  let d := default empty_data z in
  let seconds := timegm localTm in
  local ← find_local_time d seconds false;
  seconds ← (if tm_isdst localTm then
               tryTm ← to_local_time z (seconds - gmt_offset local);
               Ok (if negb (tm_isdst tryTm) && (tm_hour tryTm =? tm_hour localTm) && (tm_min tryTm =? tm_min localTm)
                   then seconds - 3600 else seconds)
             else Ok seconds);
  Ok (seconds - gmt_offset local).

End local.

(** ** UTC *)

Definition kSecondsPerDay : Z := 86400.

(** [fill_hms], on an [unsigned]. *)
Definition fill_hms (seconds : Z) : Z * Z * Z :=
  let minutes := seconds / 60 in (seconds mod 60, minutes mod 60, minutes / 60).

Definition to_utc_time (secondsSinceEpoch : Z) (yday : bool) : outcome tm :=
  let seconds := s32 (Z.rem secondsSinceEpoch kSecondsPerDay) in
  let days := s32 (secondsSinceEpoch ÷ kSecondsPerDay) in
  '(seconds, days) ← (if seconds <? 0 then d ← int_ck (days - 1); Ok (seconds + kSecondsPerDay, d)
                      else Ok (seconds, days));
  let '(sec, min, hour) := fill_hms (u32 seconds) in
  epoch ← kJulianDayOf1970_01_01;
  n ← int_ck (days + epoch);
  let date := mkDate n in
  ymd ← year_month_day date;
  wday ← week_day date;
  yd ← (if yday then start ← Date_ymd (ymd_year ymd) 1 1; int_ck (n - m_julian_day_number start) else Ok 0);
  year ← int_ck (ymd_year ymd - 1900);
  Ok (mkTm sec min hour (ymd_day ymd) (ymd_month ymd - 1) year wday yd false 0 (lit "GMT")).

Definition from_utc_fields (year month day hour minute seconds : Z) : outcome Z :=
  date ← Date_ymd year month day;
  h ← int_ck (hour * 3600);
  m ← int_ck (minute * 60);
  t ← int_ck (h + m);
  secondsInDay ← int_ck (t + seconds);
  epoch ← kJulianDayOf1970_01_01;
  days ← int_ck (m_julian_day_number date - epoch);
  Ok (days * kSecondsPerDay + secondsInDay).

Definition from_utc_time (u : tm) : outcome Z :=
  year ← int_ck (tm_year u + 1900);
  month ← int_ck (tm_mon u + 1);
  from_utc_fields year month (tm_mday u) (tm_hour u) (tm_min u) (tm_sec u).

(** * UTC round trip *)

Definition time_ok (t : Z) : Prop := -200000000000 <= t <= 30000000000000.

(** Truncating division and the correction are the floor. *)
Lemma day_split t :
  time_ok t ->
  (let seconds := s32 (Z.rem t kSecondsPerDay) in
   let days := s32 (t ÷ kSecondsPerDay) in
   if seconds <? 0 then d ← int_ck (days - 1); Ok (seconds + kSecondsPerDay, d) else Ok (seconds, days))
  = Ok (t mod kSecondsPerDay, t / kSecondsPerDay).
Proof.
  unfold time_ok, kSecondsPerDay. intros Ht.
  assert (-86400 < Z.rem t 86400 < 86400 /\ -2400000 <= t ÷ 86400 <= 350000000) as [Hr Hq]
    by (Z.to_euclidean_division_equations; lia).
  cbv zeta. rewrite !sw_small by (unfold in_sw; lia).
  destruct (Z.ltb_spec (Z.rem t 86400) 0).
  - rewrite int_bind by lia. do 2 f_equal; Z.to_euclidean_division_equations; lia.
  - do 2 f_equal; Z.to_euclidean_division_equations; lia.
Qed.

Lemma hms_split s :
  0 <= s < kSecondsPerDay ->
  let '(sec, min, hour) := fill_hms s in
  0 <= sec < 60 /\ 0 <= min < 60 /\ 0 <= hour < 24 /\ hour * 3600 + min * 60 + sec = s.
Proof. unfold fill_hms, kSecondsPerDay. intros. Z.to_euclidean_division_equations; lia. Qed.

Lemma epoch_day : kJulianDayOf1970_01_01 = Ok 2440588.
Proof. vm_compute. reflexivity. Qed.

Lemma base_day : jdn (-4799) 3 1 = -31679.
Proof. vm_compute. reflexivity. Qed.

Lemma yday_range d : valid_ymd d -> 0 <= jdn_ymd d - jdn (ymd_year d) 1 1 <= 365.
Proof.
  destruct d as [y m d]. unfold valid_ymd, jdn_ymd. cbn [ymd_year ymd_month ymd_day]. intros [Hm Hd].
  pose proof (jdn_march y) as Hmar. assert (jdn y 2 28 = jdn y 1 1 + 58) as Hfeb
    by (unfold jdn; change ((14 - 2) / 12) with 1; change ((14 - 1) / 12) with 1; Z.to_euclidean_division_equations; lia).
  assert (3 <= m -> 0 <= jdn y m d - jdn y 3 1 <= 305).
  { intros H3. unfold jdn. replace ((14 - m) / 12) with 0 by (Z.to_euclidean_division_equations; lia).
    change ((14 - 3) / 12) with 0.
    destruct (month_cases m Hm) as [->|[->|[->|[->|[->|[->|[->|[->|[->|[->|[->| ->]]]]]]]]]]];
      unfold days_in_month in Hd; simpl in Hd; Z.to_euclidean_division_equations; lia. }
  destruct (Z.le_gt_cases 3 m); [destruct (leap y); lia|].
  assert (m = 1 \/ m = 2) as [->| ->] by lia; unfold days_in_month in Hd; simpl in Hd; unfold jdn;
    change ((14 - 2) / 12) with 1; change ((14 - 1) / 12) with 1; destruct (leap y); Z.to_euclidean_division_equations; lia.
Qed.

(** C34: UTC conversion loses nothing.  For every time from the year -4367 to
    the year 950000, [to_utc_time] returns a real date and time of day (with the
    right day of the week, and the day of the year when asked for), without
    overflow, and [from_utc_time] of it is the time again. *)
Theorem utc_roundtrip (t : Z) (yday : bool) :
  time_ok t ->
  exists u, to_utc_time t yday = Ok u /\ from_utc_time u = Ok t /\
    valid_ymd (mkYMD (tm_year u + 1900) (tm_mon u + 1) (tm_mday u)) /\
    0 <= tm_hour u < 24 /\ 0 <= tm_min u < 60 /\ 0 <= tm_sec u < 60 /\
    tm_wday u = (t / kSecondsPerDay + 4) mod 7 /\ (yday = true -> 0 <= tm_yday u <= 365).
Proof.
  intros Ht. unfold to_utc_time. pose proof (day_split t Ht) as S. cbv zeta in S. rewrite S, bind_ok. clear S.
  unfold time_ok in Ht. pose proof (Z.mod_pos_bound t kSecondsPerDay ltac:(done)) as Hm.
  assert (-2314815 <= t / kSecondsPerDay <= 347222223) as Hd by (unfold kSecondsPerDay; Z.to_euclidean_division_equations; lia).
  cbv beta iota. rewrite (uw_small 32) by (unfold in_uw, kSecondsPerDay in *; lia).
  pose proof (hms_split (t mod kSecondsPerDay) Hm) as Hs.
  destruct (fill_hms (t mod kSecondsPerDay)) as [[sec min] hour]. destruct Hs as (Hs1 & Hs2 & Hs3 & Hs4).
  rewrite epoch_day, bind_ok, int_bind by lia.
  destruct (day_number_date (t / kSecondsPerDay + 2440588)) as (d & Hv & Hy & Hj & Eg); [rewrite base_day; lia|].
  unfold year_month_day, week_day. cbn [m_julian_day_number]. rewrite Eg, bind_ok, int_bind, bind_ok by lia.
  pose proof (yday_range d Hv) as Hyd. rewrite Hj in Hyd. unfold year_ok in Hy.
  pose proof Hv as [Hmon Hday]. assert (1 <= ymd_day d <= 31) as Hday'.
  { clear -Hday. unfold days_in_month in Hday. repeat case_match; lia. }
  set (n := t / kSecondsPerDay + 2440588) in *.
  exists (mkTm sec min hour (ymd_day d) (ymd_month d - 1) (ymd_year d - 1900) (Z.rem (n + 1) kDaysPerWeek)
            (if yday then n - jdn (ymd_year d) 1 1 else 0) false 0 (lit "GMT")).
  cbn [tm_sec tm_min tm_hour tm_mday tm_mon tm_year tm_wday tm_yday].
  replace (ymd_year d - 1900 + 1900) with (ymd_year d) by lia. replace (ymd_month d - 1 + 1) with (ymd_month d) by lia.
  split_and!; [| |by destruct d|lia|lia|lia|lia|lia|lia| |intros ->; lia].
  - destruct yday; [|by rewrite bind_ok, int_bind by lia].
    unfold Date_ymd. rewrite julian_day_ok, !bind_ok by (unfold year_ok; lia). cbn [m_julian_day_number].
    by rewrite int_bind, int_bind by lia.
  - unfold from_utc_time, from_utc_fields, Date_ymd. cbn [tm_sec tm_min tm_hour tm_mday tm_mon tm_year].
    replace (ymd_year d - 1900 + 1900) with (ymd_year d) by lia. replace (ymd_month d - 1 + 1) with (ymd_month d) by lia.
    rewrite !int_bind, julian_day_ok, !bind_ok by (unfold year_ok; lia). cbn [m_julian_day_number].
    rewrite !int_bind by lia. rewrite epoch_day, bind_ok.
    fold (jdn_ymd d). rewrite Hj, int_bind by lia. f_equal. rewrite Hs4. subst n.
    unfold kSecondsPerDay in *. Z.to_euclidean_division_equations; lia.
  - unfold kDaysPerWeek. subst n. Z.to_euclidean_division_equations; lia.
Qed.

Lemma utc_roundtrip_witness : exists u, to_utc_time 951782400 true = Ok u /\ from_utc_time u = Ok 951782400.
Proof.
  destruct (utc_roundtrip 951782400 true) as (u & H1 & H2 & _); [split; discriminate|].
  exists u. split; [exact H1|exact H2].
Defined.

(** * The offset in force *)

(** Transition times strictly increase, and every index is in range. *)
Record data_ok (d : TimeData) : Prop := {
  d_sorted : forall i j a b, transitions d !! i = Some a -> transitions d !! j = Some b -> (i < j)%nat -> gmttime a < gmttime b;
  d_index : forall i a, transitions d !! i = Some a -> is_Some (localtimes d !! Z.to_nat (localtime_idx a));
  d_types : localtimes d <> []
}.

Lemma lower_bound_below gmt t l i a : (i < lower_bound gmt t l)%nat -> l !! i = Some a -> key gmt a < t.
Proof.
  revert i. induction l as [|x l IH]; intros i; simpl; [lia|]. destruct (Z.ltb_spec (key gmt x) t); [|lia].
  destruct i as [|i]; simpl; [by intros _ [= ->]|]. intros Hi. apply IH. lia.
Qed.

Lemma lower_bound_at gmt t l a : l !! lower_bound gmt t l = Some a -> t <= key gmt a.
Proof.
  induction l as [|x l IH]; simpl; [done|]. destruct (Z.ltb_spec (key gmt x) t); simpl; [done|]. by intros [= <-].
Qed.

Lemma lower_bound_length gmt t l : (lower_bound gmt t l <= length l)%nat.
Proof. induction l as [|x l IH]; simpl; [done|]. destruct (_ <? _); lia. Qed.

(** The transition that is in force at [t]: the last one not after it. *)
Definition in_force (d : TimeData) (t : Z) (i : nat) : Prop :=
  exists a, transitions d !! i = Some a /\ gmttime a <= t /\
    (forall j b, transitions d !! j = Some b -> (i < j)%nat -> t < gmttime b).

(** The local time type found is the one in force.  For zone data with
    increasing transition times and valid indices, [find_local_time] never
    fails; it gives the type of the last transition that is not after the time,
    and the first type when all transitions are later. *)
Theorem find_local_time_in_force (d : TimeData) (t : Z) :
  data_ok d ->
  exists l, find_local_time d t true = Ok l /\
    ((forall i a, transitions d !! i = Some a -> t < gmttime a) /\ head (localtimes d) = Some l \/
     exists i a, in_force d t i /\ transitions d !! i = Some a /\ localtimes d !! Z.to_nat (localtime_idx a) = Some l).
Proof.
  intros [Hs Hi Ht]. unfold find_local_time. destruct (transitions d) as [|first rest] eqn:El.
  { destruct (localtimes d) as [|l ls]; [done|]. exists l. split; [done|]. left. split; [|done]. by intros i a. }
  rewrite <- El in *. assert (transitions d !! 0%nat = Some first) as E0 by by rewrite El.
  destruct (Z.ltb_spec t (key true first)) as [Hlt|Hge]; simpl in *.
  { destruct (localtimes d) as [|l ls]; [done|]. exists l. split; [done|]. left. split; [|done].
    intros [|i] a Ha; [congruence|]. pose proof (Hs _ _ _ _ E0 Ha ltac:(lia)). lia. }
  set (k := lower_bound true t (transitions d)). pose proof (lower_bound_length true t (transitions d)) as Hk. fold k in Hk.
  (* the last transition not after t *)
  assert (forall i a, transitions d !! i = Some a -> gmttime a <= t ->
    (forall j b, transitions d !! j = Some b -> (i < j)%nat -> t < gmttime b) ->
    exists l, localtime_at d (localtime_idx a) = Ok l /\
      exists i a, in_force d t i /\ transitions d !! i = Some a /\ localtimes d !! Z.to_nat (localtime_idx a) = Some l) as K.
  { intros i a Ha Hle Hnext. destruct (Hi i a Ha) as [l Hl]. exists l. unfold localtime_at. rewrite Hl. split; [done|].
    exists i, a. split; [|done]. by exists a. }
  destruct (transitions d !! k) as [tr|] eqn:Ek.
  - pose proof (lower_bound_at true t (transitions d) tr Ek) as Htr. simpl in Htr.
    destruct (Z.eqb_spec t (gmttime tr)) as [->|Hne]; simpl.
    + destruct (K k tr Ek) as (l & E & HL); [lia| |by exists l; split; [|right]].
      intros j b Hb Hkj. by apply (Hs k j).
    + destruct k as [|k'] eqn:Hk'; [exfalso; assert (tr = first) as -> by congruence; lia|]. simpl. rewrite Nat.sub_0_r.
      destruct (lookup_lt_is_Some_2 (transitions d) k') as [p Hp]; [lia|]. rewrite Hp. simpl.
      destruct (K k' p Hp) as (l & E & HL); [| |by exists l; split; [|right]].
      * pose proof (lower_bound_below true t (transitions d) k' p ltac:(lia) Hp). simpl in *. lia.
      * intros j b Hb Hkj. destruct (decide (j = S k')) as [->|]; [assert (b = tr) as -> by congruence; lia|].
        pose proof (Hs _ _ _ _ Ek Hb ltac:(lia)). lia.
  - apply lookup_ge_None_1 in Ek. rewrite last_lookup.
    destruct (lookup_lt_is_Some_2 (transitions d) (Nat.pred (length (transitions d)))) as [b Hb];
      [rewrite El; simpl; lia|]. rewrite Hb. simpl.
    destruct (K _ b Hb) as (l & E & HL); [| |by exists l; split; [|right]].
    + assert (0 < length (transitions d))%nat by (rewrite El; simpl; lia).
      pose proof (lower_bound_below true t (transitions d) (Nat.pred (length (transitions d))) b ltac:(fold k; lia) Hb). simpl in *. lia.
    + intros j x Hx Hj. apply lookup_lt_Some in Hx. lia.
Qed.

(** Two types: standard until 100, then summer time. *)
Definition demo_data : TimeData :=
  mkTimeData [mkTransition 100 3700 1] [mkLocaltime 0 false 0; mkLocaltime 3600 true 4] (lit "GMT BST").

Lemma find_local_time_in_force_witness :
  data_ok demo_data /\ exists l, find_local_time demo_data 250 true = Ok l /\ gmt_offset l = 3600.
Proof.
  assert (data_ok demo_data) as D.
  { constructor; [|by intros [|[]] a [= <-]; eexists|done]. intros [|[]] [|[]] a b; simpl; try done; lia. }
  split; [exact D|]. destruct (find_local_time_in_force demo_data 250 D) as (l & E & _).
  exists l. split; [exact E|]. vm_compute in E. injection E as <-. reflexivity.
Defined.

(** A zone file that cannot be opened gives a "valid" zone whose use is
    undefined.  [read_timezone_file] returns true in every case, so the zone is
    valid with no local time types, and every conversion takes the [front()] of
    an empty vector. *)
Theorem missing_zone_file_undefined (gmtime : Z -> tm) (timegm : tm -> Z) (t : Z) (u : tm) :
  exists z, Timezone_file None = Ok z /\ tz_valid z = true /\
    to_local_time gmtime z t = Fail FBounds /\ from_local_time gmtime timegm z u = Fail FBounds.
Proof. exists (Some empty_data). done. Qed.

(** * Zone files *)

Definition be32_bytes (z : Z) : bytes :=
  [byte_of_Z (z / 2 ^ 24); byte_of_Z (z / 2 ^ 16); byte_of_Z (z / 2 ^ 8); byte_of_Z z].

Definition encode_localtime (l : Localtime) : bytes :=
  be32_bytes (gmt_offset l) ++ [byte_of_Z (if is_dst l then 1 else 0); byte_of_Z (arrb_idx l)].

(** A TZif file of version 1. *)
Definition encode_zone (head20 : bytes) (d : TimeData) (rest : bytes) : bytes :=
  lit "TZif" ++ head20 ++ be32_bytes 0 ++ be32_bytes 0 ++ be32_bytes 0 ++
  be32_bytes (len (transitions d)) ++ be32_bytes (len (localtimes d)) ++ be32_bytes (len (abbreviation d)) ++
  concat (be32_bytes ∘ gmttime <$> transitions d) ++ (byte_of_Z ∘ localtime_idx <$> transitions d) ++
  concat (encode_localtime <$> localtimes d) ++ abbreviation d ++ rest.

Lemma be32_roundtrip z : in_sw 32 z -> be32 (be32_bytes z) = z.
Proof.
  intros Hz. unfold be32, be32_bytes. cbn [foldl]. rewrite !Z_of_byte_of_Z.
  transitivity (s32 (u32 z)); [|by rewrite sw_uw, sw_small by (done || lia)]. f_equal. unfold uw.
  Z.to_euclidean_division_equations; lia.
Qed.

(** ** Reading back what was written *)

(** [m] reads [s] and gives [a], whatever follows, and changes the data by
    [g]. *)
Definition parses {A} (m : zread A) (s : bytes) (a : A) (g : TimeData -> TimeData) : Prop :=
  forall d f, m d (s ++ f) = Ok (Some a, g d, f).

Lemma parses_bind {A B} (m : zread A) (k : A -> zread B) s t a b g h :
  parses m s a g -> parses (k a) t b h -> parses (m ≫= k) (s ++ t) b (h ∘ g).
Proof. intros Hm Hk d f. unfold mbind, zread_bind. rewrite <- app_assoc, Hm. apply Hk. Qed.

Lemma parses_ret {A} (a : A) : parses (mret a) [] a id.
Proof. done. Qed.

Lemma parses_bytes s : parses (read_bytes (len s)) s s id.
Proof.
  intros d f. unfold read_bytes. len_pose. rewrite (proj2 (Z.ltb_ge _ _)), (proj2 (Z.leb_le _ _)) by len_lia.
  unfold len. by rewrite Nat2Z.id, take_app_length, drop_app_length.
Qed.

Lemma parses_int32 z : in_sw 32 z -> parses read_int32 (be32_bytes z) z id.
Proof.
  intros Hz d f. unfold read_int32, mbind, zread_bind.
  rewrite (parses_bytes (be32_bytes z) d f : read_bytes 4 d (be32_bytes z ++ f) = _). unfold mret, zread_ret.
  by rewrite be32_roundtrip.
Qed.

Lemma parses_uint8 z : in_uw 8 z -> parses read_uint8 [byte_of_Z z] z id.
Proof.
  intros Hz d f. unfold read_uint8, mbind, zread_bind.
  rewrite (parses_bytes [byte_of_Z z] d f : read_bytes 1 d ([byte_of_Z z] ++ f) = _). unfold mret, zread_ret.
  cbn [foldl]. rewrite Z_of_byte_of_Z, Z.mod_small by exact Hz. done.
Qed.

(** Reading a sequence. *)
Lemma parses_list {A B} (m : zread A) (enc : B -> bytes) (val : B -> A) (eff : B -> TimeData -> TimeData) l :
  (forall x, x ∈ l -> parses m (enc x) (val x) (eff x)) ->
  parses (ztimes (length l) m) (concat (enc <$> l)) (val <$> l) (fun d => foldl (fun d x => eff x d) d l).
Proof.
  induction l as [|x l IH]; intros Hl; [apply parses_ret|]. intros d f. cbn [length ztimes fmap list_fmap concat].
  unfold mbind, zread_bind. rewrite <- app_assoc, (Hl x ltac:(by left) d). cbn [foldl].
  by rewrite (IH ltac:(intros y Hy; apply Hl; by right) (eff x d) f).
Qed.

Lemma parses_localtime l :
  in_sw 32 (gmt_offset l) -> in_uw 8 (arrb_idx l) ->
  parses read_localtime (encode_localtime l) tt
    (fun d => mkTimeData (transitions d) (localtimes d ++ [l]) (abbreviation d)).
Proof.
  intros Ho Ha d f. unfold read_localtime, encode_localtime, mbind, zread_bind. rewrite <- app_assoc.
  rewrite (parses_int32 _ Ho d). cbn [id].
  change ([byte_of_Z (if is_dst l then 1 else 0); byte_of_Z (arrb_idx l)] ++ f)
    with ([byte_of_Z (if is_dst l then 1 else 0)] ++ [byte_of_Z (arrb_idx l)] ++ f).
  rewrite (parses_uint8 (if is_dst l then 1 else 0)) by (destruct (is_dst l); done). cbn [id].
  rewrite (parses_uint8 (arrb_idx l) Ha). cbn [id]. unfold push_localtime. do 4 f_equal. destruct l as [o [] a]; done.
Qed.

Lemma push_localtimes_eq l d :
  foldl (fun d x => mkTimeData (transitions d) (localtimes d ++ [x]) (abbreviation d)) d l
  = mkTimeData (transitions d) (localtimes d ++ l) (abbreviation d).
Proof.
  revert d. induction l as [|x l IH]; intros d; simpl; [rewrite app_nil_r; by destruct d|].
  rewrite IH. simpl. by rewrite <- app_assoc.
Qed.

(** Zone data that a file can hold. *)
Record zone_ok (d : TimeData) : Prop := {
  z_trans : Forall (fun t => in_sw 32 (gmttime t) /\ in_uw 8 (localtime_idx t) /\
    exists l, localtimes d !! Z.to_nat (localtime_idx t) = Some l /\ localtime t = gmttime t + gmt_offset l) (transitions d);
  z_types : Forall (fun l => in_sw 32 (gmt_offset l) /\ in_uw 8 (arrb_idx l)) (localtimes d);
  z_sizes : len (transitions d) < 2 ^ 31 /\ len (localtimes d) < 2 ^ 31 /\ len (abbreviation d) < 2 ^ 31
}.

Lemma push_transitions_ok l d f :
  Forall (fun t => exists lt, localtimes d !! Z.to_nat (localtime_idx t) = Some lt /\ localtime t = gmttime t + gmt_offset lt) l ->
  push_transitions (gmttime <$> l) (localtime_idx <$> l) d f
  = Ok (Some tt, mkTimeData (transitions d ++ l) (localtimes d) (abbreviation d), f).
Proof.
  intros Hl. revert d Hl. induction l as [|t l IH]; intros d Hl; cbn [fmap list_fmap push_transitions].
  { rewrite app_nil_r. by destruct d. }
  apply Forall_cons in Hl as [(lt & Hlt & Ht) Hl]. unfold mbind, zread_bind, push_transition. rewrite Hlt.
  rewrite IH by done. cbn [transitions localtimes abbreviation]. rewrite <- app_assoc, <- Ht. by destruct t.
Qed.

Lemma foldl_id {A B} (d : A) (l : list B) : foldl (fun d _ => id d) d l = d.
Proof. by induction l. Qed.

Lemma concat_singletons {A B} (f : A -> B) (l : list A) : concat ((fun x => [f x]) <$> l) = f <$> l.
Proof. induction l as [|x l IH]; [done|]. cbn. by rewrite <- IH. Qed.

(** A zone file is read completely.  For every zone data that a version 1
    TZif file can express, reading the file (with any contents of the unused
    header fields, and anything behind) gives exactly the transitions, the
    types and the abbreviations that were written. *)
Theorem zone_file_roundtrip (d : TimeData) (version reserved rest : bytes) :
  zone_ok d -> len version = 1 -> len reserved = 15 ->
  read_timezone_file (Some (encode_zone (version ++ reserved) d rest)) = Ok (true, d).
Proof.
  intros [Ht Hl (Hn1 & Hn2 & Hn3)] Hv Hr. unfold read_timezone_file.
  assert (read_zone empty_data (encode_zone (version ++ reserved) d rest) = Ok (Some tt, d, rest)) as ->; [|done].
  unfold read_zone, encode_zone, mbind, zread_bind. len_pose.
  rewrite (parses_bytes (lit "TZif") _ _ : read_bytes 4 _ _ = _). rewrite bool_decide_eq_true_2 by done. cbn [negb id].
  rewrite <- !app_assoc, <- Hv, (parses_bytes version), <- Hr, (parses_bytes reserved). cbn [id].
  do 3 (rewrite (parses_int32 0) by done; cbn [id]).
  do 3 (rewrite parses_int32 by (unfold in_sw; lia); cbn [id]).
  unfold reserve at 1. rewrite (proj2 (Z.ltb_ge _ _)) by lia. unfold mret at 1, zread_ret at 1.
  unfold len at 1 2 3. rewrite !Nat2Z.id. rewrite Forall_forall in Ht. rewrite Forall_forall in Hl.
  rewrite (parses_list read_int32 (be32_bytes ∘ gmttime) gmttime (fun _ => id)) by (intros x Hx; by apply parses_int32, Ht).
  rewrite foldl_id, <- (concat_singletons (byte_of_Z ∘ localtime_idx)).
  rewrite (parses_list read_uint8 (fun t => [byte_of_Z (localtime_idx t)]) localtime_idx (fun _ => id))
    by (intros x Hx; by apply parses_uint8, Ht).
  rewrite foldl_id.
  rewrite (parses_list read_localtime encode_localtime (fun _ => tt)
    (fun l d => mkTimeData (transitions d) (localtimes d ++ [l]) (abbreviation d)))
    by (intros x Hx; by apply parses_localtime; apply Hl).
  rewrite push_localtimes_eq, push_transitions_ok by (apply Forall_forall; intros x Hx; by apply Ht).
  rewrite (parses_bytes (abbreviation d)). unfold set_abbreviation. by destruct d.
Qed.

Lemma zone_file_roundtrip_witness :
  zone_ok demo_data /\
  read_timezone_file (Some (encode_zone (lit "2" ++ replicate 15 NUL) demo_data (lit "more"))) = Ok (true, demo_data).
Proof.
  assert (zone_ok demo_data) as Z.
  { constructor; [|repeat constructor; done|done]. apply Forall_singleton. split_and!; [done..|]. by eexists. }
  split; [exact Z|]. apply zone_file_roundtrip; [exact Z|reflexivity|reflexivity].
Defined.
