(* ===== verification/Connector.v ===== *)
(** [flute/net/Connector.{h,cc}]: connecting to a server, with retries at
    growing intervals.

    [connector_env] is the connector with the poller and the channels it
    shares, its tasks and retry timers in the reactor, the sockets it handed to
    its user and those it closed.  What the system calls answer is an argument
    of the step. *)

From S2P Require Import Prelude Channel Poller EPollPoller.

Inductive ConnectStates : Type := kcDisconnected | kcConnecting | kcConnected.

#[global] Instance ConnectStates_eq_dec : EqDecision ConnectStates.
Proof. solve_decision. Defined.

Definition kMaxRetryDelayMs : Z := 30 * 1000.
Definition kInitRetryDelayMs : Z := 500.

Record Connector : Type := mkConnector {
  m_connector_loop : pid_t;                  (* m_reactor *)
  m_is_connected : bool;
  m_connect_state : ConnectStates;           (* m_state *)
  m_connect_channel : option chan_ptr;       (* m_channel *)
  m_retry_delay_ms : Z
}.

Inductive connector_task : Type := KStart | KStop | KReset.

#[global] Instance connector_task_eq_dec : EqDecision connector_task.
Proof. solve_decision. Defined.

Record connector_env (P : Type) : Type := mkKEnv {
  k_conn : Connector;
  k_poller : P;
  k_chans : chans;
  k_tasks : list connector_task;
  k_timers : list Z;       (* pending retries, with their delay in ms *)
  k_new : list Z;          (* descriptors given to m_new_conn_callback *)
  k_closed : list Z;       (* descriptors closed *)
  k_opened : list Z        (* sockets created *)
}.
Arguments mkKEnv {P}.
Arguments k_conn {P}.
Arguments k_poller {P}.
Arguments k_chans {P}.
Arguments k_tasks {P}.
Arguments k_timers {P}.
Arguments k_new {P}.
Arguments k_closed {P}.
Arguments k_opened {P}.

(** Linux error numbers of connect(2). *)
Definition EINTR : Z := 4.
Definition EAGAIN : Z := 11.
Definition EADDRINUSE : Z := 98.
Definition EADDRNOTAVAIL : Z := 99.
Definition ENETUNREACH : Z := 101.
Definition EISCONN : Z := 106.
Definition ECONNREFUSED : Z := 111.
Definition EINPROGRESS : Z := 115.

Definition new_Connector (loop : pid_t) : Connector := mkConnector loop false kcDisconnected None kInitRetryDelayMs.
Definition destroy_Connector (k : Connector) : outcome unit := assert_ (bool_decide (m_connect_channel k = None)).

Section connector.
Context {P : Type} `{PollerOps P, CurrentThread}.
Implicit Types (e : connector_env P) (k : Connector).

Definition kset_state (s : ConnectStates) k : Connector :=
  mkConnector (m_connector_loop k) (m_is_connected k) s (m_connect_channel k) (m_retry_delay_ms k).
Definition kset_connected (b : bool) k : Connector :=
  mkConnector (m_connector_loop k) b (m_connect_state k) (m_connect_channel k) (m_retry_delay_ms k).
Definition kset_channel (c : option chan_ptr) k : Connector :=
  mkConnector (m_connector_loop k) (m_is_connected k) (m_connect_state k) c (m_retry_delay_ms k).
Definition kset_delay (d : Z) k : Connector :=
  mkConnector (m_connector_loop k) (m_is_connected k) (m_connect_state k) (m_connect_channel k) d.

Definition on_k (f : Connector -> Connector) e : connector_env P :=
  mkKEnv (f (k_conn e)) (k_poller e) (k_chans e) (k_tasks e) (k_timers e) (k_new e) (k_closed e) (k_opened e).
Definition k_with (p : P) (cs : chans) e : connector_env P :=
  mkKEnv (k_conn e) p cs (k_tasks e) (k_timers e) (k_new e) (k_closed e) (k_opened e).
Definition k_queue (t : connector_task) e : connector_env P :=
  mkKEnv (k_conn e) (k_poller e) (k_chans e) (k_tasks e ++ [t]) (k_timers e) (k_new e) (k_closed e) (k_opened e).
Definition k_close (fd : Z) e : connector_env P :=
  mkKEnv (k_conn e) (k_poller e) (k_chans e) (k_tasks e) (k_timers e) (k_new e) (k_closed e ++ [fd]) (k_opened e).
Definition k_timer (ms : Z) e : connector_env P :=
  mkKEnv (k_conn e) (k_poller e) (k_chans e) (k_tasks e) (k_timers e ++ [ms]) (k_new e) (k_closed e) (k_opened e).
Definition k_give (fd : Z) e : connector_env P :=
  mkKEnv (k_conn e) (k_poller e) (k_chans e) (k_tasks e) (k_timers e) (k_new e ++ [fd]) (k_closed e) (k_opened e).

Definition k_open (fd : Z) e : connector_env P :=
  mkKEnv (k_conn e) (k_poller e) (k_chans e) (k_tasks e) (k_timers e) (k_new e) (k_closed e) (k_opened e ++ [fd]).

Definition k_in_thread e : outcome unit := assert_in_thread (m_connector_loop (k_conn e)).

Definition retry (sockfd : Z) e : connector_env P :=
  let e := on_k (kset_state kcDisconnected) (k_close sockfd e) in
  if m_is_connected (k_conn e) then
    let e := k_timer (m_retry_delay_ms (k_conn e)) e in
    on_k (kset_delay (Z.min (m_retry_delay_ms (k_conn e) * 2) kMaxRetryDelayMs)) e
  else e.

(** [c] is the address of the new channel. *)
Definition connecting (sockfd : Z) (c : chan_ptr) e : outcome (connector_env P) :=
  let e := on_k (kset_state kcConnecting) e in
  assert_ (bool_decide (m_connect_channel (k_conn e) = None));;
  let cs := <[c := new_Channel (m_connector_loop (k_conn e)) sockfd]> (k_chans e) in
  '(p, cs) ← want_to_write (k_poller e) cs c;
  Ok (k_with p cs (on_k (kset_channel (Some c)) e)).

(** [sockfd] is the new socket and [err] what connect(2) says, 0 for none. *)
Definition connect (sockfd err : Z) (c : chan_ptr) e : outcome (connector_env P) :=
  let e := k_open sockfd e in
  if bool_decide (err ∈ [0; EINPROGRESS; EINTR; EISCONN]) then connecting sockfd c e
  else if bool_decide (err ∈ [EAGAIN; EADDRINUSE; EADDRNOTAVAIL; ECONNREFUSED; ENETUNREACH]) then Ok (retry sockfd e)
  else Ok (k_close sockfd e).

Definition start_in_reactor (sockfd err : Z) (c : chan_ptr) e : outcome (connector_env P) :=
  k_in_thread e;;
  assert_ (bool_decide (m_connect_state (k_conn e) = kcDisconnected));;
  if m_is_connected (k_conn e) then connect sockfd err c e else Ok e.

Definition start_connector (in_loop : bool) (sockfd err : Z) (c : chan_ptr) e : outcome (connector_env P) :=
  let e := on_k (kset_connected true) e in
  if in_loop then start_in_reactor sockfd err c e else Ok (k_queue KStart e).

Definition stop_connector e : connector_env P := k_queue KStop (on_k (kset_connected false) e).

(** With the state of the dispatch of the reactor. *)
Definition remove_and_reset_channel (handling : bool) (current : option chan_ptr) (active : list chan_ptr) e
    : outcome (Z * connector_env P) :=
  c ← of_option FNull (m_connect_channel (k_conn e));
  '(p, cs) ← end_all (k_poller e) (k_chans e) c;
  '(p, cs) ← remove_self_from_reactor handling current active p cs c;
  ch ← of_option FNull (cs !! c);
  Ok (m_fd ch, k_queue KReset (k_with p cs e)).

Definition stop_in_reactor e : outcome (connector_env P) :=
  k_in_thread e;;
  if bool_decide (m_connect_state (k_conn e) = kcConnecting) then
    '(fd, e) ← remove_and_reset_channel false None [] (on_k (kset_state kcDisconnected) e);
    Ok (retry fd e)
  else Ok e.

(** [m_channel.reset()]. *)
Definition reset_channel e : outcome (connector_env P) :=
  match m_connect_channel (k_conn e) with
  | Some c => cs ← destroy_Channel (k_poller e) (k_chans e) c; Ok (k_with (k_poller e) cs (on_k (kset_channel None) e))
  | None => Ok e
  end.

Definition restart_connector (sockfd err : Z) (c : chan_ptr) e : outcome (connector_env P) :=
  k_in_thread e;;
  start_in_reactor sockfd err c
    (on_k (fun k => kset_connected true (kset_delay kInitRetryDelayMs (kset_state kcDisconnected k))) e).

(** [so_error] and [self] are what the socket says about itself. *)
Definition connector_handle_write (active : list chan_ptr) (so_error : Z) (self : bool) e : outcome (connector_env P) :=
  if bool_decide (m_connect_state (k_conn e) = kcConnecting) then
    '(fd, e) ← remove_and_reset_channel true (m_connect_channel (k_conn e)) active e;
    if negb (so_error =? 0) then Ok (retry fd e)
    else if self then Ok (retry fd e)
    else
      let e := on_k (kset_state kcConnected) e in
      Ok (if m_is_connected (k_conn e) then k_give fd e else k_close fd e)
  else assert_ (bool_decide (m_connect_state (k_conn e) = kcDisconnected));; Ok e.

Definition connector_handle_error (active : list chan_ptr) e : outcome (connector_env P) :=
  if bool_decide (m_connect_state (k_conn e) = kcConnecting) then
    '(fd, e) ← remove_and_reset_channel true (m_connect_channel (k_conn e)) active e; Ok (retry fd e)
  else Ok e.

(** What happens to a connector.  [sockfd], [err] and [c] are for the call of
    connect(2), if there is one. *)
Inductive connector_event : Type :=
| KvStart (in_loop : bool) (sockfd err : Z) (c : chan_ptr)
| KvStop
| KvRestart (sockfd err : Z) (c : chan_ptr)
| KvTask (sockfd err : Z) (c : chan_ptr)
| KvTimer (sockfd err : Z) (c : chan_ptr)
| KvWrite (active : list chan_ptr) (so_error : Z) (self : bool)
| KvError (active : list chan_ptr).

Definition k_pop_task (l : list connector_task) e : connector_env P :=
  mkKEnv (k_conn e) (k_poller e) (k_chans e) l (k_timers e) (k_new e) (k_closed e) (k_opened e).
Definition k_pop_timer (l : list Z) e : connector_env P :=
  mkKEnv (k_conn e) (k_poller e) (k_chans e) (k_tasks e) l (k_new e) (k_closed e) (k_opened e).

Definition connector_step (ev : connector_event) e : outcome (connector_env P) :=
  match ev with
  | KvStart in_loop fd err c => start_connector in_loop fd err c e
  | KvStop => Ok (stop_connector e)
  | KvRestart fd err c => restart_connector fd err c e
  | KvTask fd err c =>
      match k_tasks e with
      | [] => Ok e
      | t :: l =>
          let e := k_pop_task l e in
          match t with
          | KStart => start_in_reactor fd err c e
          | KStop => stop_in_reactor e
          | KReset => reset_channel e
          end
      end
  | KvTimer fd err c =>
      match k_timers e with [] => Ok e | _ :: l => start_in_reactor fd err c (k_pop_timer l e) end
  | KvWrite active so self => connector_handle_write active so self e
  | KvError active => connector_handle_error active e
  end.

End connector.

(** * The invariant *)

Fixpoint resets (l : list connector_task) : nat :=
  match l with [] => 0 | KReset :: l => S (resets l) | _ :: l => resets l end.
Fixpoint starts_queued (l : list connector_task) : nat :=
  match l with [] => 0 | KStart :: l => S (starts_queued l) | _ :: l => starts_queued l end.

Lemma resets_snoc l t : resets (l ++ [t]) = (resets l + resets [t])%nat.
Proof. destruct t; induction l as [|[] l IH]; simpl in *; lia. Qed.
Lemma starts_snoc l t : starts_queued (l ++ [t]) = (starts_queued l + starts_queued [t])%nat.
Proof. destruct t; induction l as [|[] l IH]; simpl in *; lia. Qed.

Section inv.
Context {P : Type} `{PollerLaws P}.
Implicit Types (e : connector_env P).

(** The channel is registered, for the attempt in progress. *)
Definition attempt_chan (p : P) (c : chan_ptr) (ch : Channel) : Prop :=
  m_channel_map p !! m_fd ch = Some c /\ m_reactor ch = cur_tid /\ m_is_handing_event ch = false.
(** The channel was removed and waits for its destruction. *)
Definition spent_chan (p : P) (ch : Channel) : Prop :=
  m_channel_map p !! m_fd ch = None /\ m_is_in_reactor ch = false /\ m_is_handing_event ch = false.

(** The socket of the attempt in progress. *)
Definition in_attempt e : list Z :=
  if decide (m_connect_state (k_conn e) = kcConnecting) then
    match m_connect_channel (k_conn e) with
    | Some c => match k_chans e !! c with Some ch => [m_fd ch] | None => [] end
    | None => []
    end
  else [].

Record connector_inv e : Prop := {
  ki_poller : poller_inv (k_poller e) (k_chans e);
  ki_loop : m_connector_loop (k_conn e) = cur_tid;
  ki_delay : kInitRetryDelayMs <= m_retry_delay_ms (k_conn e) <= kMaxRetryDelayMs;
  ki_chan : match m_connect_channel (k_conn e) with
            | None => resets (k_tasks e) = 0%nat /\ m_connect_state (k_conn e) <> kcConnecting
            | Some c => exists ch, k_chans e !! c = Some ch /\
                if decide (m_connect_state (k_conn e) = kcConnecting)
                then resets (k_tasks e) = 0%nat /\ attempt_chan (k_poller e) c ch
                else resets (k_tasks e) = 1%nat /\ spent_chan (k_poller e) ch
            end;
  ki_timers : (length (k_timers e) <= 1)%nat /\ (k_timers e <> [] -> m_connect_state (k_conn e) = kcDisconnected);
  ki_start : (starts_queued (k_tasks e) <= 1)%nat /\
    (starts_queued (k_tasks e) = 1%nat ->
     m_connect_state (k_conn e) = kcDisconnected /\ m_connect_channel (k_conn e) = None /\ k_timers e = []);
  ki_sockets : k_opened e ≡ₚ k_new e ++ k_closed e ++ in_attempt e
}.

(** A new socket and a new channel. *)
Definition fresh_socket e (fd : Z) (c : chan_ptr) : Prop :=
  k_chans e !! c = None /\ m_channel_map (k_poller e) !! fd = None /\ 0 <= fd.

(** What the reactor, the kernel and the user guarantee: one [start] at a time
    on an idle connector, [restart] after a connection is gone, retry timers
    (half a second at least) after the queued destruction of the old channel,
    and events only from a registered channel. *)
Definition kev_ok (ev : connector_event) e : Prop :=
  match ev with
  | KvStart _ fd _ c =>
      m_connect_state (k_conn e) = kcDisconnected /\ m_connect_channel (k_conn e) = None /\ k_timers e = [] /\
      starts_queued (k_tasks e) = 0%nat /\ fresh_socket e fd c
  | KvStop => True
  | KvRestart fd _ c =>
      m_connect_state (k_conn e) = kcConnected /\ m_connect_channel (k_conn e) = None /\ fresh_socket e fd c
  | KvTask fd _ c => fresh_socket e fd c
  | KvTimer fd _ c => resets (k_tasks e) = 0%nat /\ fresh_socket e fd c
  | KvWrite _ _ _ | KvError _ => m_connect_state (k_conn e) = kcConnecting
  end.

Lemma k_in_thread_ok e : connector_inv e -> k_in_thread e = Ok tt.
Proof. intros I. apply in_thread_ok, I. Qed.

(** No channel: an attempt may begin. *)
Definition idle e : Prop :=
  connector_inv e /\ m_connect_state (k_conn e) = kcDisconnected /\ m_connect_channel (k_conn e) = None /\
  k_timers e = [] /\ starts_queued (k_tasks e) = 0%nat.

Lemma delay_doubles d :
  kInitRetryDelayMs <= d <= kMaxRetryDelayMs -> kInitRetryDelayMs <= Z.min (d * 2) kMaxRetryDelayMs <= kMaxRetryDelayMs.
Proof. unfold kInitRetryDelayMs, kMaxRetryDelayMs. lia. Qed.

(** No attempt is in progress; the channel of the last one may still wait. *)
Definition at_rest e : Prop :=
  connector_inv e /\ m_connect_state (k_conn e) = kcDisconnected /\ k_timers e = [] /\ starts_queued (k_tasks e) = 0%nat.

Lemma idle_at_rest e : idle e <-> at_rest e /\ m_connect_channel (k_conn e) = None.
Proof. unfold idle, at_rest. tauto. Qed.

Lemma rest_sockets e : at_rest e -> k_opened e ≡ₚ k_new e ++ k_closed e.
Proof.
  intros (I & Hs & _). rewrite (ki_sockets _ I). unfold in_attempt. rewrite decide_False by congruence. by rewrite app_nil_r.
Qed.

Lemma retry_sockets fd e : k_opened e ≡ₚ k_new e ++ k_closed e ++ [fd] ->
  k_opened (retry fd e) ≡ₚ k_new (retry fd e) ++ k_closed (retry fd e) ++ in_attempt (retry fd e).
Proof.
  intros E. unfold retry, in_attempt. simpl. destruct (m_is_connected (k_conn e)); simpl; by rewrite E, app_nil_r.
Qed.

Lemma retry_rest fd e : at_rest e -> connector_inv (retry fd (k_open fd e)).
Proof.
  intros Hi. pose proof (rest_sockets _ Hi) as Hso. destruct Hi as (I & Hs & Ht & Hq). destruct I. rewrite Hs in *.
  assert (k_opened (k_open fd e) ≡ₚ k_new (k_open fd e) ++ k_closed (k_open fd e) ++ [fd]) as Hok.
  { simpl. by rewrite Hso, <- app_assoc. }
  apply retry_sockets in Hok. constructor; [..|done]; clear Hok; unfold retry; simpl.
  all: destruct (m_is_connected (k_conn e)); simpl; rewrite ?Ht, ?Hq; try done.
  - by apply delay_doubles.
  - by split; [simpl; lia|].
  - by split; [lia|].
  - by split; [lia|].
Qed.

Lemma connecting_idle fd c e : idle e -> fresh_socket e fd c -> fine connector_inv (connecting fd c (k_open fd e)).
Proof.
  intros Hi (Fc & Fm & Ffd). pose proof (rest_sockets e ltac:(by apply idle_at_rest)) as Hso. destruct Hi as (I & Hs & Hc & Ht & Hq). destruct I. unfold connecting. simpl. rewrite Hc in *. simpl.
  set (ch := new_Channel (m_connector_loop (k_conn e)) fd).
  assert (poller_inv (k_poller e) (<[c := ch]> (k_chans e))) as I1.
  { apply (inv_frame _ (k_chans e)); [done|]. intros fd' y M.
    destruct (registered_channel _ _ _ _ ki_poller0 M) as (chy & L & _). rewrite lookup_insert_ne by congruence. done. }
  pose proof (change_events_spec (fun ev => Z.lor ev kWriteEvent) (k_poller e) _ c ch I1 (lookup_insert_eq _ _ _)) as S.
  specialize (S ltac:(split; [simpl; rewrite (inv_thread _ _ I1); done|right; by split_and!]) ltac:(done)).
  unfold want_to_write. destruct (change_events _ _ _ _) as [[p' cs']|x]; simpl; [|by left].
  destruct S as (I' & M' & idx & -> & _). constructor; simpl; rewrite ?Ht, ?Hq; try done.
  - eexists. split; [apply lookup_insert_eq|]. destruct ki_chan0 as [-> _]. split; [done|].
    split_and!; simpl; [rewrite M'; apply lookup_insert_eq|done|done].
  - by split; [simpl; lia|].
  - by split; [lia|].
  - unfold in_attempt. simpl. rewrite lookup_insert_eq. simpl. by rewrite Hso, <- app_assoc.
Qed.

Lemma close_rest fd e : at_rest e -> connector_inv (k_close fd (k_open fd e)).
Proof.
  intros Hi. pose proof (rest_sockets _ Hi) as Hso. destruct Hi as (I & Hs & _). destruct I. constructor; try done.
  unfold in_attempt. simpl. rewrite decide_False by congruence. by rewrite Hso, app_nil_r, app_assoc.
Qed.

Lemma connect_idle fd err c e : idle e -> fresh_socket e fd c -> fine connector_inv (connect fd err c e).
Proof.
  intros I F. unfold connect. case_bool_decide; [by apply connecting_idle|]. apply idle_at_rest in I as [R _].
  case_bool_decide; [by apply retry_rest|by apply close_rest].
Qed.

Lemma start_in_reactor_idle fd err c e : idle e -> fresh_socket e fd c -> fine connector_inv (start_in_reactor fd err c e).
Proof.
  intros I F. unfold start_in_reactor. rewrite (k_in_thread_ok e) by apply I. simpl.
  destruct I as (I & Hs & R). rewrite bool_decide_eq_true_2 by done. simpl.
  destruct (m_is_connected (k_conn e)); [|done]. by apply connect_idle.
Qed.

(** Removing the channel of an attempt, whatever the state says meanwhile. *)
Lemma remove_and_reset_spec h cur act c ch e :
  poller_inv (k_poller e) (k_chans e) -> m_connect_channel (k_conn e) = Some c -> k_chans e !! c = Some ch ->
  attempt_chan (k_poller e) c ch -> may_remove h cur act c = true ->
  fine (fun r => r.1 = m_fd ch /\ exists p' cs' ch', r.2 = k_queue KReset (k_with p' cs' e) /\ poller_inv p' cs' /\
          cs' !! c = Some ch' /\ spent_chan p' ch')
    (remove_and_reset_channel h cur act e).
Proof.
  intros I Hc Hch (Hm & Hr & Hh) Hmay. unfold remove_and_reset_channel. rewrite Hc. simpl.
  pose proof (change_events_spec (fun _ => kNoneEvent) _ _ _ _ I Hch) as S.
  specialize (S ltac:(split; [rewrite Hr, (inv_thread _ _ I); done|by left]) ltac:(done)).
  unfold end_all. destruct (change_events _ _ _ _) as [[p1 cs1]|x]; simpl; [|by left].
  destruct S as (I1 & M1 & idx & -> & R1). set (ch1 := set_index _ _) in *.
  destruct (remove_self_spec h cur act p1 (<[c := ch1]> (k_chans e)) c ch1) as (p2 & cs2 & -> & I2 & M2 & O2); try done.
  { apply lookup_insert_eq. }
  { rewrite M1. apply lookup_insert_eq. }
  { simpl. by rewrite Hr, (inv_thread _ _ I1). }
  { by apply R1. }
  simpl. specialize (O2 c). rewrite !lookup_insert_eq in O2.
  destruct (cs2 !! c) as [ch2|] eqn:Hc2; [|done]. simpl in *.
  assert (m_fd ch2 = m_fd ch /\ m_is_in_reactor ch2 = false /\ m_is_handing_event ch2 = m_is_handing_event ch) as (Ef & Er & Eh).
  { unfold owner_part in O2. subst ch1. destruct ch, ch2; simpl in *. by simplify_eq. }
  split; [done|]. exists p2, cs2, ch2. split_and!; [done|done|done|].
  split_and!; [rewrite M2, Ef; apply lookup_delete_eq|done|by rewrite Eh].
Qed.

(** After the removal: what the attempt leaves behind. *)
Definition spent (fd : Z) e : Prop :=
  poller_inv (k_poller e) (k_chans e) /\ m_connector_loop (k_conn e) = cur_tid /\
  kInitRetryDelayMs <= m_retry_delay_ms (k_conn e) <= kMaxRetryDelayMs /\ k_timers e = [] /\
  starts_queued (k_tasks e) = 0%nat /\ resets (k_tasks e) = 1%nat /\
  k_opened e ≡ₚ k_new e ++ k_closed e ++ [fd] /\
  exists c ch, m_connect_channel (k_conn e) = Some c /\ k_chans e !! c = Some ch /\ spent_chan (k_poller e) ch.

Lemma spent_give fd e : spent fd e -> connector_inv (k_give fd (on_k (kset_state kcConnected) e)).
Proof.
  intros (I & Hl & Hd & Ht & Hq & Hr & Hso & c & ch & Hc & Hch & Hs).
  constructor; simpl; rewrite ?Hc, ?Ht, ?Hq; try done.
  - by exists ch.
  - by split; [simpl; lia|].
  - by split; [lia|].
  - unfold in_attempt. simpl. rewrite Hso. solve_Permutation.
Qed.

Lemma spent_close fd e : spent fd e -> connector_inv (k_close fd (on_k (kset_state kcConnected) e)).
Proof.
  intros (I & Hl & Hd & Ht & Hq & Hr & Hso & c & ch & Hc & Hch & Hs).
  constructor; simpl; rewrite ?Hc, ?Ht, ?Hq; try done.
  - by exists ch.
  - by split; [simpl; lia|].
  - by split; [lia|].
  - unfold in_attempt. simpl. rewrite Hso. solve_Permutation.
Qed.

Lemma spent_retry fd e : spent fd e -> connector_inv (retry fd e).
Proof.
  intros (I & Hl & Hd & Ht & Hq & Hr & Hso & c & ch & Hc & Hch & Hs).
  apply retry_sockets in Hso. constructor; [..|done]; clear Hso; unfold retry; simpl.
  all: destruct (m_is_connected (k_conn e)); simpl; rewrite ?Hc, ?Ht, ?Hq; try done.
  - by apply delay_doubles.
  - by exists ch.
  - by exists ch.
  - by split; [simpl; lia|].
  - by split; [lia|].
  - by split; [lia|].
Qed.

Lemma attempt_removed h cur act e f :
  connector_inv e -> m_connect_state (k_conn e) = kcConnecting ->
  (forall c, m_connect_channel (k_conn e) = Some c -> may_remove h cur act c = true) ->
  (forall k, m_connect_channel (f k) = m_connect_channel k /\ m_connector_loop (f k) = m_connector_loop k /\
     m_retry_delay_ms (f k) = m_retry_delay_ms k) ->
  fine (fun r => spent r.1 r.2) (remove_and_reset_channel h cur act (on_k f e)).
Proof.
  intros I Hs Hm Hf. destruct I. destruct (Hf (k_conn e)) as (F1 & F2 & F3).
  destruct (m_connect_channel (k_conn e)) as [c|] eqn:Hc; [|by destruct ki_chan0].
  destruct ki_chan0 as (ch & Hch & Hd). rewrite decide_True in Hd by done. destruct Hd as [Hr Ha].
  eapply fine_mono; [|apply (remove_and_reset_spec h cur act c ch (on_k f e)); simpl; try done; try congruence; by apply Hm ].
  intros [fd e'] (Hfd & p' & cs' & ch' & -> & I' & Hc' & Hs'). simpl in *. subst fd.
  unfold in_attempt in ki_sockets0. rewrite decide_True, Hc, Hch in ki_sockets0 by done.
  destruct ki_timers0 as [_ Ht]. destruct ki_start0 as [Hq Hq'].
  split_and!; simpl; rewrite ?F1, ?F2, ?F3, ?starts_snoc, ?resets_snoc, ?Hr; try done; try apply ki_delay0.
  - destruct (k_timers e); [done|]. specialize (Ht ltac:(done)). congruence.
  - destruct (starts_queued (k_tasks e)) as [|[|n]]; [done| |lia]. destruct (Hq' eq_refl) as [? _]. congruence.
  - by exists c, ch'.
Qed.

Lemma set_state_id e : e = on_k id e.
Proof. by destruct e. Qed.

Lemma handle_write_inv act so self e :
  connector_inv e -> m_connect_state (k_conn e) = kcConnecting -> fine connector_inv (connector_handle_write act so self e).
Proof.
  intros I Hs. unfold connector_handle_write. rewrite bool_decide_eq_true_2 by done.
  eapply fine_bind.
  { rewrite (set_state_id e) at 2. apply (attempt_removed true (m_connect_channel (k_conn e)) act e id I Hs); [|done].
    intros c ->. unfold may_remove. simpl. by rewrite bool_decide_eq_true_2. }
  intros [fd e'] S. simpl in S. destruct (negb (so =? 0)); [by apply spent_retry|]. destruct self; [by apply spent_retry|].
  simpl. destruct (m_is_connected _); [by apply spent_give|by apply spent_close].
Qed.

Lemma handle_error_inv act e :
  connector_inv e -> m_connect_state (k_conn e) = kcConnecting -> fine connector_inv (connector_handle_error act e).
Proof.
  intros I Hs. unfold connector_handle_error. rewrite bool_decide_eq_true_2 by done.
  eapply fine_bind.
  { rewrite (set_state_id e) at 2. apply (attempt_removed true (m_connect_channel (k_conn e)) act e id I Hs); [|done].
    intros c ->. unfold may_remove. simpl. by rewrite bool_decide_eq_true_2. }
  intros [fd e'] S. by apply spent_retry.
Qed.

Lemma stop_in_reactor_inv e : connector_inv e -> fine connector_inv (stop_in_reactor e).
Proof.
  intros I. unfold stop_in_reactor. rewrite (k_in_thread_ok e I). simpl. case_bool_decide as Hs; [|done].
  eapply fine_bind; [by apply (attempt_removed false None [] e (kset_state kcDisconnected) I Hs)|].
  intros [fd e'] S. by apply spent_retry.
Qed.

Lemma destroy_spent p cs c ch :
  poller_inv p cs -> cs !! c = Some ch -> spent_chan p ch ->
  destroy_Channel p cs c = Ok (delete c cs) /\ poller_inv p (delete c cs).
Proof.
  intros I Hc (Hm & Hr & Hh).
  assert (destroy_Channel p cs c = Ok (delete c cs)) as E.
  { unfold destroy_Channel, has_channel. rewrite Hc. simpl. rewrite Hh, Hr. simpl.
    rewrite (in_thread_ok _ (inv_thread _ _ I)). simpl. rewrite Hm. by destruct (_ =? _). }
  split; [done|]. exact (poller_step_inv _ _ (step_destroy _ _ _ _ E) I).
Qed.

Lemma reset_channel_inv l e : connector_inv e -> k_tasks e = KReset :: l -> fine connector_inv (reset_channel (k_pop_task l e)).
Proof.
  intros [] Ht. rewrite Ht in *. unfold reset_channel. simpl in *.
  destruct (m_connect_channel (k_conn e)) as [c|] eqn:Hc; [|by destruct ki_chan0].
  destruct ki_chan0 as (ch & Hch & Hd). case_decide as Hs; [by destruct Hd|]. destruct Hd as [Hr Hsp].
  destruct (destroy_spent _ _ _ _ ki_poller0 Hch Hsp) as [-> I']. simpl.
  constructor; simpl; try done.
  - split; [lia|done].
  - destruct ki_start0 as [Hq Hq']. split; [done|]. intros H'. by destruct (Hq' H') as (_ & ? & _).
  - unfold in_attempt in *. simpl. by rewrite decide_False in * by done.
Qed.

(** A task that is neither a start nor a reset leaves the invariant. *)
Lemma pop_stop_inv l e : connector_inv e -> k_tasks e = KStop :: l -> connector_inv (k_pop_task l e).
Proof. intros [] Ht. rewrite Ht in *. constructor; simpl in *; try apply ki_delay0; try done. Qed.

Lemma pop_start_idle l e : connector_inv e -> k_tasks e = KStart :: l -> idle (k_pop_task l e).
Proof.
  intros [] Ht. rewrite Ht in *. simpl in *. destruct ki_start0 as [Hq Hq'].
  assert (starts_queued l = 0%nat) as H0' by lia. destruct (Hq' ltac:(lia)) as (Hs & Hc & Htm).
  split_and!; try done. constructor; simpl; try apply ki_delay0; try done.
  rewrite H0'. by split; [lia|].
Qed.

Lemma pop_timer_idle d l e :
  connector_inv e -> k_timers e = d :: l -> resets (k_tasks e) = 0%nat -> idle (k_pop_timer l e).
Proof.
  intros [] Ht Hr. rewrite Ht in *. destruct ki_timers0 as [Hl Hs]. specialize (Hs ltac:(done)).
  destruct l; simpl in Hl; [|lia].
  assert (starts_queued (k_tasks e) = 0%nat) as Hq.
  { destruct ki_start0 as [Hq Hq']. destruct (starts_queued (k_tasks e)) as [|[|n]]; [done| |lia].
    by destruct (Hq' eq_refl) as (_ & _ & ?). }
  assert (m_connect_channel (k_conn e) = None) as Hc.
  { destruct (m_connect_channel (k_conn e)) as [c|]; [|done]. destruct ki_chan0 as (ch & _ & Hd).
    rewrite decide_False in Hd by congruence. destruct Hd. lia. }
  split_and!; try done. constructor; simpl; rewrite ?Hc, ?Hq in *; try done.
  all: by split; [simpl; lia|].
Qed.

Lemma connected_no_pending e :
  connector_inv e -> m_connect_state (k_conn e) = kcConnected -> k_timers e = [] /\ starts_queued (k_tasks e) = 0%nat.
Proof.
  intros [] Hs. split.
  - destruct (k_timers e); [done|]. destruct ki_timers0 as [_ Hd]. specialize (Hd ltac:(done)). congruence.
  - destruct ki_start0 as [Hq Hq']. destruct (starts_queued (k_tasks e)) as [|[|n]]; [done| |lia].
    destruct (Hq' eq_refl) as (? & _). congruence.
Qed.

(** The members that [start] and [restart] write. *)
Lemma restart_idle e : connector_inv e -> m_connect_state (k_conn e) = kcConnected -> m_connect_channel (k_conn e) = None ->
  idle (on_k (fun k => kset_connected true (kset_delay kInitRetryDelayMs (kset_state kcDisconnected k))) e).
Proof.
  intros I Hs Hc. destruct (connected_no_pending _ I Hs) as [Ht Hq]. destruct I. rewrite Hc in *.
  split_and!; try done. constructor; simpl; rewrite ?Hc, ?Ht, ?Hq; try done.
  - by destruct ki_chan0.
  - by split; [simpl; lia|].
  - by split; [lia|].
  - unfold in_attempt in *. simpl. by rewrite decide_False in ki_sockets0 by congruence.
Qed.

Lemma set_connected_inv b e : connector_inv e -> connector_inv (on_k (kset_connected b) e).
Proof. intros []. constructor; simpl in *; try apply ki_delay0; try done. Qed.

Lemma queue_stop_inv e : connector_inv e -> connector_inv (k_queue KStop e).
Proof. intros []. constructor; simpl; rewrite ?resets_snoc, ?starts_snoc; simpl; rewrite ?Nat.add_0_r; done. Qed.

Lemma queue_start_inv e : idle e -> connector_inv (k_queue KStart e).
Proof.
  intros (I & Hs & Hc & Ht & Hq). destruct I.
  constructor; simpl; rewrite ?resets_snoc, ?starts_snoc, ?Hq; simpl; rewrite ?Nat.add_0_r; try done.
Qed.

Lemma connector_step_inv ev e : connector_inv e -> kev_ok ev e -> fine connector_inv (connector_step ev e).
Proof.
  intros I Hok. destruct ev as [il fd err c| |fd err c|fd err c|fd err c|act so self|act]; simpl in Hok; simpl.
  - destruct Hok as (Hs & Hc & Ht & Hq & F). unfold start_connector.
    assert (idle (on_k (kset_connected true) e)) as Hi by (split; [by apply set_connected_inv|done]).
    destruct il; [by apply start_in_reactor_idle|by apply queue_start_inv].
  - by apply queue_stop_inv, set_connected_inv.
  - destruct Hok as (Hs & Hc & F). unfold restart_connector. rewrite (k_in_thread_ok e I). simpl.
    apply start_in_reactor_idle; [by apply restart_idle|done].
  - destruct (k_tasks e) as [|[] l] eqn:Ht; [done| | |].
    + apply start_in_reactor_idle; [by apply pop_start_idle|done].
    + by apply stop_in_reactor_inv, pop_stop_inv.
    + by apply reset_channel_inv.
  - destruct (k_timers e) as [|d l] eqn:Ht; [done|]. destruct Hok as [Hr F].
    apply start_in_reactor_idle; [by eapply pop_timer_idle|done].
  - by apply handle_write_inv.
  - by apply handle_error_inv.
Qed.

(** ** Calls at any time

    [mask] forgets the starts and the retries that wait: no operation looks at
    them, so what [connector_inv] says of the rest of the connector also holds
    when [start] is called at any time. *)

Definition mask e : connector_env P :=
  mkKEnv (k_conn e) (k_poller e) (k_chans e) (filter (.≠ KStart) (k_tasks e)) [] (k_new e) (k_closed e) (k_opened e).

Definition hides (m1 m2 : outcome (connector_env P)) : Prop :=
  match m1, m2 with Ok e1, Ok e2 => mask e1 = mask e2 | Fail f1, Fail f2 => f1 = f2 | _, _ => False end.

Lemma resets_mask l : resets (filter (.≠ KStart) l) = resets l.
Proof. induction l as [|[] l IH]; simpl; [done|done| |]; rewrite ?filter_cons_True by done; simpl; congruence. Qed.
Lemma starts_mask l : starts_queued (filter (.≠ KStart) l) = 0%nat.
Proof. induction l as [|[] l IH]; simpl; [done|done| |]; rewrite ?filter_cons_True by done; done. Qed.

Lemma mask_mask e : mask (mask e) = mask e.
Proof. unfold mask. simpl. f_equal. rewrite list_filter_filter. apply list_filter_iff. naive_solver. Qed.

Lemma mask_inv e : connector_inv e -> connector_inv (mask e).
Proof.
  intros []. constructor; simpl; rewrite ?resets_mask, ?starts_mask; try done.
  - by split; [simpl; lia|].
  - by split; [lia|].
Qed.

Ltac unmask := intros; repeat match goal with e : connector_env P |- _ => destruct e end; unfold mask in *; simpl in *;
  repeat match goal with E : mkKEnv _ _ _ _ _ _ _ _ = _ |- _ => injection E as; subst end.

Lemma retry_mask fd e1 e2 : mask e1 = mask e2 -> mask (retry fd e1) = mask (retry fd e2).
Proof. unmask. unfold retry, mask. simpl. destruct (m_is_connected _); simpl; congruence. Qed.

Lemma connect_mask fd err c e1 e2 : mask e1 = mask e2 -> hides (connect fd err c e1) (connect fd err c e2).
Proof.
  intros E. unfold connect. case_bool_decide.
  - unmask. unfold connecting. simpl. destruct (assert_ _); simpl; [|done].
    destruct (want_to_write _ _ _) as [[]|]; simpl; [|done]. unfold mask. simpl. congruence.
  - case_bool_decide; simpl; [apply retry_mask|]; unmask; unfold mask; simpl; congruence.
Qed.

Lemma start_mask fd err c e1 e2 : mask e1 = mask e2 -> hides (start_in_reactor fd err c e1) (start_in_reactor fd err c e2).
Proof.
  intros E. pose proof (connect_mask fd err c e1 e2 E) as C. assert (k_conn e1 = k_conn e2) as Ek by by unmask.
  unfold start_in_reactor, k_in_thread. rewrite Ek in *. destruct (assert_in_thread _); simpl; [|done].
  destruct (assert_ _); simpl; [|done]. by destruct (m_is_connected _).
Qed.

Lemma remove_mask h cur act e1 e2 : mask e1 = mask e2 ->
  match remove_and_reset_channel h cur act e1, remove_and_reset_channel h cur act e2 with
  | Ok (f1, e1), Ok (f2, e2) => f1 = f2 /\ mask e1 = mask e2 | Fail f1, Fail f2 => f1 = f2 | _, _ => False end.
Proof.
  unmask. unfold remove_and_reset_channel. simpl. destruct (of_option _ _) as [c|]; simpl; [|done].
  destruct (end_all _ _ _) as [[p cs]|]; simpl; [|done]. destruct (remove_self_from_reactor _ _ _ _ _ _) as [[p' cs']|]; simpl; [|done].
  destruct (cs' !! c); simpl; [|done]. split; [done|]. unfold mask. simpl. rewrite !filter_app. congruence.
Qed.

Lemma stop_mask e1 e2 : mask e1 = mask e2 -> hides (stop_in_reactor e1) (stop_in_reactor e2).
Proof.
  intros E. assert (k_conn e1 = k_conn e2) as Ek by by unmask. unfold stop_in_reactor, k_in_thread. rewrite Ek.
  destruct (assert_in_thread _); simpl; [|done]. case_bool_decide; [|done].
  pose proof (remove_mask false None [] (on_k (kset_state kcDisconnected) e1) (on_k (kset_state kcDisconnected) e2)) as R.
  specialize (R ltac:(unmask; unfold mask; simpl; congruence)).
  destruct (remove_and_reset_channel _ _ _ _) as [[]|], (remove_and_reset_channel _ _ _ _) as [[]|]; simpl in *; try done.
  destruct R as [-> R]. by apply retry_mask.
Qed.

Lemma reset_mask e1 e2 : mask e1 = mask e2 -> hides (reset_channel e1) (reset_channel e2).
Proof.
  unmask. unfold reset_channel. simpl. destruct (m_connect_channel _); simpl; [|by unfold mask; simpl; congruence].
  destruct (destroy_Channel _ _ _); simpl; [|done]. unfold mask. simpl. congruence.
Qed.

Lemma write_mask act so self e1 e2 :
  mask e1 = mask e2 -> hides (connector_handle_write act so self e1) (connector_handle_write act so self e2).
Proof.
  intros E. assert (k_conn e1 = k_conn e2) as Ek by by unmask. unfold connector_handle_write. rewrite Ek.
  case_bool_decide; [|by destruct (assert_ _)].
  pose proof (remove_mask true (m_connect_channel (k_conn e2)) act e1 e2 E) as R.
  destruct (remove_and_reset_channel _ _ _ _) as [[]|], (remove_and_reset_channel _ _ _ _) as [[]|]; simpl in *; try done.
  destruct R as [-> R]. destruct (negb _); [by apply retry_mask|]. destruct self; [by apply retry_mask|].
  clear E Ek. unmask. destruct (m_is_connected _); unfold mask; simpl; congruence.
Qed.

Lemma error_mask act e1 e2 : mask e1 = mask e2 -> hides (connector_handle_error act e1) (connector_handle_error act e2).
Proof.
  intros E. assert (k_conn e1 = k_conn e2) as Ek by by unmask. unfold connector_handle_error. rewrite Ek. case_bool_decide; [|done].
  pose proof (remove_mask true (m_connect_channel (k_conn e2)) act e1 e2 E) as R.
  destruct (remove_and_reset_channel _ _ _ _) as [[]|], (remove_and_reset_channel _ _ _ _) as [[]|]; simpl in *; try done.
  destruct R as [-> R]. by apply retry_mask.
Qed.

(** What holds after any history: the invariant, without the starts and retries. *)
Definition connector_core e : Prop := connector_inv (mask e).

Lemma hides_core m1 m2 : hides m1 m2 -> fine connector_inv m2 -> fine connector_core m1.
Proof.
  unfold hides, connector_core. destruct m1, m2; simpl; try done; [|by intros ->]. intros -> I. by apply mask_inv.
Qed.

(** The environment: new sockets and new channels are new, and [restart] is not
    called during an attempt (its caller, the client, calls it when a connection
    is gone). *)
Definition kev_any (ev : connector_event) e : Prop :=
  match ev with
  | KvStart _ fd _ c | KvTask fd _ c | KvTimer fd _ c => fresh_socket e fd c
  | KvRestart fd _ c => m_connect_state (k_conn e) <> kcConnecting /\ fresh_socket e fd c
  | KvStop | KvWrite _ _ _ | KvError _ => True
  end.

(** [start_in_reactor] during or after an attempt, or [connecting] with the
    channel of the last attempt. *)
Definition start_aborts (err : Z) (on : bool) e : Prop :=
  m_connect_state (k_conn e) <> kcDisconnected \/
  on = true /\ m_connect_channel (k_conn e) <> None /\ err ∈ [0; EINPROGRESS; EINTR; EISCONN].
Definition connector_aborts (ev : connector_event) e : Prop :=
  match ev with
  | KvStart in_loop _ err _ => in_loop = true /\ start_aborts err true e
  | KvRestart _ err _ => m_connect_channel (k_conn e) <> None /\ err ∈ [0; EINPROGRESS; EINTR; EISCONN]
  | KvTask _ err _ => head (k_tasks e) = Some KStart /\ start_aborts err (m_is_connected (k_conn e)) e
  | KvTimer _ err _ => k_timers e <> [] /\ start_aborts err (m_is_connected (k_conn e)) e
  | KvWrite _ _ _ => m_connect_state (k_conn e) = kcConnected
  | KvStop | KvError _ => False
  end.

Lemma core_rest e : connector_core e -> m_connect_state (k_conn e) = kcDisconnected -> at_rest (mask e).
Proof. intros I Hs. split_and!; [done..|apply starts_mask]. Qed.

Lemma start_core fd err c e :
  connector_core e -> fresh_socket e fd c ->
  (start_aborts err (m_is_connected (k_conn e)) e -> start_in_reactor fd err c e = Fail FAssert) /\
  (~ start_aborts err (m_is_connected (k_conn e)) e -> fine connector_core (start_in_reactor fd err c e)).
Proof.
  intros I F. pose proof (start_mask fd err c e (mask e) (eq_sym (mask_mask e))) as M. split.
  - intros Hab. unfold start_in_reactor. assert (k_in_thread e = Ok tt) as -> by exact (k_in_thread_ok _ I). simpl.
    case_bool_decide as Hs; [|done]. destruct Hab as [|(-> & Hc & Herr)]; [done|]. simpl.
    unfold connect. rewrite bool_decide_eq_true_2 by done. unfold connecting. simpl. by rewrite bool_decide_eq_false_2.
  - intros Hn. eapply hides_core; [exact M|]. unfold start_in_reactor. rewrite (k_in_thread_ok _ I). simpl.
    destruct (decide (m_connect_state (k_conn e) = kcDisconnected)) as [Hs|]; [|by destruct Hn; left].
    rewrite bool_decide_eq_true_2 by done. simpl. pose proof (core_rest _ I Hs) as Rs.
    destruct (m_is_connected _) eqn:Hon; [|done]. unfold connect. case_bool_decide as Herr.
    + apply connecting_idle; [apply idle_at_rest; split; [done|]|done]. apply dec_stable. intros Hc. apply Hn. by right.
    + case_bool_decide; [by apply retry_rest|by apply close_rest].
Qed.

Lemma restart_core e : connector_core e -> m_connect_state (k_conn e) <> kcConnecting ->
  connector_core (on_k (fun k => kset_connected true (kset_delay kInitRetryDelayMs (kset_state kcDisconnected k))) e).
Proof.
  intros [] Hs. simpl in *. constructor; simpl; try done.
  - destruct (m_connect_channel (k_conn e)); [|by destruct ki_chan0].
    destruct ki_chan0 as (ch & Hch & Hd). rewrite decide_False in Hd by done. by exists ch.
  - by split; [simpl; lia|].
  - rewrite starts_mask. by split; [lia|].
  - unfold in_attempt in *. simpl in *. by rewrite decide_False in ki_sockets0.
Qed.

Lemma connector_step_core ev e :
  connector_core e -> kev_any ev e ->
  (connector_aborts ev e -> connector_step ev e = Fail FAssert) /\
  (~ connector_aborts ev e -> fine connector_core (connector_step ev e)).
Proof.
  intros I Hok. pose proof (mask_mask e) as Hm. symmetry in Hm.
  destruct ev as [il fd err c| |fd err c|fd err c|fd err c|act so self|act]; cbn [kev_any connector_aborts connector_step] in *.
  - unfold start_connector. assert (connector_core (on_k (kset_connected true) e)) as I' by exact (set_connected_inv true _ I).
    destruct il; [|split; [by intros [? _]|intros _]].
    + destruct (start_core fd err c _ I' Hok) as [A B]. split; [by intros [_ ?]; apply A|]. intros Hn. apply B. intros ?. by apply Hn.
    + unfold connector_core in *. cbn. eapply eq_ind; [exact I'|]. unfold mask. cbn. by rewrite filter_app, filter_cons_False, app_nil_r by naive_solver.
  - split; [done|intros _]. unfold connector_core, stop_connector in *. cbn.
    eapply eq_ind; [exact (queue_stop_inv _ (set_connected_inv false _ I))|]. unfold mask. cbn. by rewrite filter_app.
  - destruct Hok as [Hs F]. unfold restart_connector.
    assert (k_in_thread e = Ok tt) as -> by exact (k_in_thread_ok _ I). rewrite bind_ok.
    destruct (start_core fd err c _ (restart_core e I Hs) F) as [A B]. unfold start_aborts in A, B. cbn in A, B. split; [intros []; apply A; by right|].
    intros Hn. apply B. intros [|(_ & Hc & Herr)]; [done|]. by apply Hn.
  - destruct (k_tasks e) as [|[] l] eqn:Ht; cbn [head].
    + split; [by intros [? _]|done].
    + assert (mask (k_pop_task l e) = mask e) as Hp by (unfold mask; cbn; rewrite Ht; by rewrite filter_cons_False by naive_solver).
      assert (connector_core (k_pop_task l e)) as I' by (unfold connector_core; by rewrite Hp).
      destruct (start_core fd err c _ I' Hok) as [A B]. split; [by intros [_ ?]; apply A|]. intros Hn. apply B. intros ?. by apply Hn.
    + split; [by intros [? _]|intros _]. eapply hides_core; [apply stop_mask, eq_sym, mask_mask|].
      apply stop_in_reactor_inv, (pop_stop_inv _ (mask e)); [done|]. cbn. by rewrite Ht.
    + split; [by intros [? _]|intros _]. eapply hides_core; [apply reset_mask, eq_sym, mask_mask|].
      apply (reset_channel_inv _ (mask e)); [done|]. cbn. by rewrite Ht.
  - destruct (k_timers e) as [|d l] eqn:Ht; [by split; [intros []|]|].
    assert (connector_core (k_pop_timer l e)) as I' by exact I.
    destruct (start_core fd err c _ I' Hok) as [A B]. split; [by intros [_ ?]; apply A|]. intros Hn. apply B. intros ?. by apply Hn.
  - split.
    + intros Hs. unfold connector_handle_write. rewrite Hs. done.
    + intros Hs. destruct (decide (m_connect_state (k_conn e) = kcConnecting)) as [Hc|Hc].
      * eapply hides_core; [apply write_mask, Hm|]. by apply handle_write_inv.
      * unfold connector_handle_write. rewrite bool_decide_eq_false_2 by done. by destruct (m_connect_state (k_conn e)).
  - split; [done|intros _]. destruct (decide (m_connect_state (k_conn e) = kcConnecting)) as [Hc|Hc].
    + eapply hides_core; [apply error_mask, Hm|]. by apply handle_error_inv.
    + unfold connector_handle_error. by rewrite bool_decide_eq_false_2.
Qed.

End inv.

(** * Theorems *)

Section theorems.
Context {P : Type} `{PollerLaws P}.
Implicit Types (e : connector_env P).

(** A new connector in a reactor with any channels. *)
Definition connector_start (p : P) (cs : chans) : connector_env P := mkKEnv (new_Connector cur_tid) p cs [] [] [] [] [].

Inductive kstep : connector_env P -> connector_env P -> Prop :=
| kstep_ev ev e e' : kev_ok ev e -> connector_step ev e = Ok e' -> kstep e e'
| kstep_other e p' cs' :
    poller_inv p' cs' -> (forall c, m_connect_channel (k_conn e) = Some c ->
      owner_part <$> cs' !! c = owner_part <$> k_chans e !! c /\
      (forall ch, k_chans e !! c = Some ch -> m_channel_map p' !! m_fd ch = m_channel_map (k_poller e) !! m_fd ch)) ->
    kstep e (k_with p' cs' e).

Lemma connector_start_inv p cs : poller_inv p cs -> connector_inv (connector_start p cs).
Proof. intros I. constructor; simpl; try done; unfold kInitRetryDelayMs, kMaxRetryDelayMs; try lia. all: split; [lia|done]. Qed.

(** The other channels of the reactor do not matter. *)
Lemma other_inv e p' cs' :
  connector_inv e -> poller_inv p' cs' -> (forall c, m_connect_channel (k_conn e) = Some c ->
      owner_part <$> cs' !! c = owner_part <$> k_chans e !! c /\
      (forall ch, k_chans e !! c = Some ch -> m_channel_map p' !! m_fd ch = m_channel_map (k_poller e) !! m_fd ch)) ->
  connector_inv (k_with p' cs' e).
Proof.
  intros [] I' Ho. unfold in_attempt in ki_sockets0. constructor; simpl; try done.
  - destruct (m_connect_channel (k_conn e)) as [c|] eqn:Hc; [|done]. destruct (Ho c eq_refl) as [Ow Om].
    destruct ki_chan0 as (ch & Hch & Hd). specialize (Om ch Hch). rewrite Hch in Ow.
    destruct (cs' !! c) as [ch'|] eqn:Hc'; [|done]. exists ch'. split; [done|].
    unfold owner_part in Ow. unfold attempt_chan, spent_chan in *. destruct ch, ch'; simpl in *; simplify_eq.
    case_decide; destruct Hd as (? & ? & ? & ?); split_and!; congruence.
  - unfold in_attempt. simpl. rewrite ki_sockets0.
    destruct (m_connect_channel (k_conn e)) as [c|] eqn:Hc; [|done]. destruct (Ho c eq_refl) as [Ow _].
    destruct ki_chan0 as (ch & Hch & _). rewrite Hch in *. destruct (cs' !! c) as [ch'|]; [|done].
    unfold owner_part in Ow. by destruct ch, ch'; simpl in *; simplify_eq.
Qed.

Lemma kstep_inv e e' : kstep e e' -> connector_inv e -> connector_inv e'.
Proof.
  intros [ev e1 e2 Hok E|e1 p' cs' I' Ho] I; [|by apply other_inv].
  pose proof (connector_step_inv ev e1 I Hok) as F. by rewrite E in F.
Qed.

Lemma ksteps_inv e e' : rtc kstep e e' -> connector_inv e -> connector_inv e'.
Proof. induction 1; eauto using kstep_inv. Qed.

(** The same with calls at any time. *)
Inductive kstep_any : connector_env P -> connector_env P -> Prop :=
| kstep_any_ev ev e e' : kev_any ev e -> connector_step ev e = Ok e' -> kstep_any e e'
| kstep_any_other e p' cs' :
    poller_inv p' cs' -> (forall c, m_connect_channel (k_conn e) = Some c ->
      owner_part <$> cs' !! c = owner_part <$> k_chans e !! c /\
      (forall ch, k_chans e !! c = Some ch -> m_channel_map p' !! m_fd ch = m_channel_map (k_poller e) !! m_fd ch)) ->
    kstep_any e (k_with p' cs' e).

Lemma kstep_any_core e e' : kstep_any e e' -> connector_core e -> connector_core e'.
Proof.
  intros [ev e1 e2 Hok E|e1 p' cs' I' Ho] I; [|exact (other_inv (mask e1) p' cs' I I' Ho)].
  destruct (connector_step_core ev e1 I Hok) as [A B]. rewrite E in A, B. apply B. intros Hab. by specialize (A Hab).
Qed.

Lemma ksteps_any_core e e' : rtc kstep_any e e' -> connector_core e -> connector_core e'.
Proof. induction 1; eauto using kstep_any_core. Qed.


(** One retry that is refused again. *)
Lemma retry_round d fd c e :
  m_connector_loop (k_conn e) = cur_tid -> m_is_connected (k_conn e) = true ->
  m_connect_state (k_conn e) = kcDisconnected -> k_timers e = [d] ->
  connector_step (KvTimer fd ECONNREFUSED c) e =
  Ok (mkKEnv (kset_delay (Z.min (m_retry_delay_ms (k_conn e) * 2) kMaxRetryDelayMs) (k_conn e)) (k_poller e) (k_chans e)
        (k_tasks e) [m_retry_delay_ms (k_conn e)] (k_new e) (k_closed e ++ [fd]) (k_opened e ++ [fd])).
Proof.
  intros Hl Hc Hs Ht. unfold connector_step. rewrite Ht. unfold start_in_reactor.
  unfold k_in_thread. simpl. rewrite (in_thread_ok _ Hl). simpl. rewrite bool_decide_eq_true_2 by done. simpl.
  rewrite Hc. unfold connect, retry. simpl. rewrite Hc. f_equal.
  destruct e as [k p cs t l n cl o]. unfold on_k, kset_delay, kset_state. simpl in *. by rewrite Hs.
Qed.

Definition refusals (fds : list Z) (c : chan_ptr) : list connector_event :=
  (fun fd => KvTimer fd ECONNREFUSED c) <$> fds.

Fixpoint connector_run (evs : list connector_event) e : outcome (connector_env P) :=
  match evs with [] => Ok e | ev :: evs => e ← connector_step ev e; connector_run evs e end.

Lemma backoff_runs fds : forall c n d e,
  m_connector_loop (k_conn e) = cur_tid -> m_is_connected (k_conn e) = true ->
  m_connect_state (k_conn e) = kcDisconnected -> k_timers e = [d] ->
  d = Z.min (kInitRetryDelayMs * 2 ^ n) kMaxRetryDelayMs -> 0 <= n ->
  m_retry_delay_ms (k_conn e) = Z.min (kInitRetryDelayMs * 2 ^ (n + 1)) kMaxRetryDelayMs ->
  exists e', connector_run (refusals fds c) e = Ok e' /\ k_closed e' = k_closed e ++ fds /\
    k_timers e' = [Z.min (kInitRetryDelayMs * 2 ^ (n + Z.of_nat (length fds))) kMaxRetryDelayMs] /\
    k_chans e' = k_chans e /\ k_new e' = k_new e.
Proof.
  induction fds as [|fd fds IH]; intros c n d e Hl Hc Hs Ht Hd Hn Hm.
  - exists e. simpl. rewrite app_nil_r, Ht, Hd, Z.add_0_r. done.
  - unfold refusals. cbn [fmap list_fmap connector_run]. rewrite (retry_round d) by done. rewrite bind_ok.
    edestruct (IH c (n + 1)) as (e' & R & C & T & S); cycle 7.
    + exists e'. split; [exact R|]. rewrite C, T. simpl. rewrite <- app_assoc. split_and!; [done| |apply S..].
      do 4 f_equal. lia.
    + done.
    + done.
    + done.
    + done.
    + done.
    + lia.
    + simpl. rewrite Hm. unfold kInitRetryDelayMs, kMaxRetryDelayMs. rewrite (Z.pow_add_r 2 (n + 1) 1) by lia. lia.
Qed.

(** The back-off.  When the first connect of a [start] in the loop and all
    the following ones are refused, every attempt closes its socket, no channel
    is made, and after [n] more refusals exactly one retry is pending, with
    delay [min(500 * 2^n, 30000)] ms. *)
Theorem connector_backoff p cs fd fds c :
  exists e', connector_run (KvStart true fd ECONNREFUSED c :: refusals fds c) (connector_start p cs) = Ok e' /\
    k_closed e' = fd :: fds /\ k_timers e' = [Z.min (500 * 2 ^ Z.of_nat (length fds)) 30000] /\
    k_chans e' = cs /\ k_new e' = [].
Proof.
  cbn [connector_run connector_step]. unfold start_connector, start_in_reactor, k_in_thread. simpl.
  rewrite (in_thread_ok _ eq_refl). simpl. unfold connect, retry. simpl.
  edestruct (backoff_runs fds c 0 500) as (e' & R & C & T & S); cycle 7; [exists e'; by rewrite R, C, T|done..].
Qed.

End theorems.

(** * Runs *)

Section demo.
#[local] Instance loop_thread : CurrentThread := 1.

Definition demo_poller : EPollPoller table_epoll := new_EPollPoller 1 (∅ : table_epoll).
Definition demo_connector : connector_env (EPollPoller table_epoll) := connector_start demo_poller ∅.

(** Two descriptors are refused, the third connection is made. *)
Definition demo_events : list connector_event :=
  [KvStart true 5 ECONNREFUSED 0; KvTimer 6 EINPROGRESS 1; KvWrite [1] ECONNREFUSED false; KvTask 7 0 2;
   KvTimer 7 EINPROGRESS 2].

Fixpoint all_kok (l : list connector_event) (e : connector_env (EPollPoller table_epoll)) : Prop :=
  match l with
  | [] => True
  | ev :: l => kev_ok ev e /\ match connector_step ev e with Ok e' => all_kok l e' | Fail _ => False end
  end.

Lemma all_kok_run l : forall e, all_kok l e -> exists e', connector_run l e = Ok e' /\ rtc kstep e e'.
Proof.
  induction l as [|ev l IH]; intros e Hl; [exists e; split; [done|apply rtc_refl]|].
  destruct Hl as [Hok Hl]. simpl. destruct (connector_step ev e) as [e1|x] eqn:E; [|done]. simpl.
  destruct (IH _ Hl) as (e' & R & T). exists e'. split; [done|]. eapply rtc_l; [|exact T]. by eapply kstep_ev.
Qed.

Lemma demo_events_ok : all_kok demo_events demo_connector.
Proof. by vm_compute. Qed.

Definition demo_after : connector_env (EPollPoller table_epoll) :=
  match connector_run demo_events demo_connector with Ok e => e | Fail _ => demo_connector end.

Lemma demo_after_reachable : rtc kstep demo_connector demo_after.
Proof.
  destruct (all_kok_run _ _ demo_events_ok) as (e' & R & T). unfold demo_after. by rewrite R.
Qed.

Lemma demo_poller_ok : poller_inv demo_poller ∅.
Proof. by apply epoll_inv_new. Qed.

(** A start while a retry is pending: the state before the timer fires. *)
Definition demo_early : connector_env (EPollPoller table_epoll) :=
  match connector_run [KvStart true 5 ECONNREFUSED 9; KvStart true 6 EINPROGRESS 9] demo_connector with Ok e => e | Fail _ => demo_connector end.

Lemma demo_early_reachable : rtc kstep_any demo_connector demo_early.
Proof.
  eapply rtc_l; [eapply (kstep_any_ev (KvStart true 5 ECONNREFUSED 9)); by vm_compute|].
  apply rtc_once. eapply (kstep_any_ev (KvStart true 6 EINPROGRESS 9)); by vm_compute.
Qed.


Example demo_backoff :
  exists e, connector_run (KvStart true 5 ECONNREFUSED 9 :: refusals [5; 5; 5; 5; 5; 5; 5] 9) demo_connector = Ok e /\
    k_timers e = [30000].
Proof. eexists. split; [vm_compute; reflexivity|reflexivity]. Qed.

(** [start] while a retry is pending: the attempt it makes is still in progress
    when the timer fires, and [assert(m_state == kDisconnected)] fails. *)
Example start_during_retry_aborts :
  connector_run [KvStart true 5 ECONNREFUSED 9; KvStart true 6 EINPROGRESS 9; KvTimer 7 0 8] demo_connector = Fail FAssert.
Proof. vm_compute. reflexivity. Qed.

End demo.
