(* ===== verification/LogStream.v ===== *)
(** [flute/common/Digital.h], [FixedBuffer.h] and [LogStream.{h,cc}]: the text
    of a log line, built in a buffer of fixed size.

    The array of a [FixedBuffer] is its bytes, of length [BUF_SIZE]; a new one
    holds indeterminate bytes, an argument of the constructor.  [m_cur] is an
    offset.  Writes outside the array are the fault [FBounds]. *)

From S2P Require Import Prelude StringPiece Format.

(** * Digital.h *)

Definition digits_table : bytes := lit "9876543210123456789".
(** [zero[i]], with [zero] at offset 9 of the table. *)
Definition zero_at (i : Z) : outcome byte :=
  require FBounds ((-9 <=? i) && (i <=? 9));; of_option FBounds (digits_table !! Z.to_nat (9 + i)).

(** The do-while loops: what they store, first store first. *)
Fixpoint integer_loop (fuel : nat) (i : Z) : outcome bytes :=
  match fuel with
  | O => Fail FFuel
  | S fuel' =>
      let lsd := Z.rem i 10 in
      let i := Z.quot i 10 in
      c ← zero_at lsd;
      if i =? 0 then Ok [c] else l ← integer_loop fuel' i; Ok (c :: l)
  end.

(** The bytes it leaves at [buf]: the text and a NUL that is not counted. *)
Definition integer_to_string (value : Z) : outcome bytes :=
  l ← integer_loop 20 value;
  let l := if value <? 0 then l ++ ["-"%char] else l in
  Ok (rev l).

Definition digits_hex : bytes := lit "0123456789ABCDEF".

Fixpoint hex_loop (fuel : nat) (i : Z) : outcome bytes :=
  match fuel with
  | O => Fail FFuel
  | S fuel' =>
      let lsd := i mod 16 in
      let i := i / 16 in
      c ← of_option FBounds (digits_hex !! Z.to_nat lsd);
      if i =? 0 then Ok [c] else l ← hex_loop fuel' i; Ok (c :: l)
  end.

Definition hex_to_string (value : Z) : outcome bytes := l ← hex_loop 16 value; Ok (rev l).

(** * FixedBuffer.h *)

Record FixedBuffer : Type := mkFixedBuffer {
  fb_data : bytes;     (* m_data *)
  fb_cur : Z           (* m_cur - m_data *)
}.

Definition new_FixedBuffer (garbage : bytes) : FixedBuffer := mkFixedBuffer garbage 0.
Definition fb_length (b : FixedBuffer) : Z := s32 (fb_cur b).
Definition fb_avail (b : FixedBuffer) : Z := s32 (len (fb_data b) - fb_cur b).
Definition fb_text (b : FixedBuffer) : bytes := slice (fb_data b) 0 (fb_cur b).

(** Bytes stored at [m_cur + k]. *)
Definition fb_store (b : FixedBuffer) (k : Z) (d : bytes) : outcome FixedBuffer :=
  require FBounds ((0 <=? fb_cur b + k) && (fb_cur b + k + len d <=? len (fb_data b)));;
  Ok (mkFixedBuffer (overwrite (fb_data b) (fb_cur b + k) d) (fb_cur b)).

(** Moving the pointer past the end of the array is undefined. *)
Definition fb_cur_add (b : FixedBuffer) (n : Z) : outcome FixedBuffer :=
  require FBounds ((0 <=? fb_cur b + n) && (fb_cur b + n <=? len (fb_data b)));;
  Ok (mkFixedBuffer (fb_data b) (fb_cur b + n)).

(** [append(buf, n)], [n] a size_t and [buf] the memory at the pointer. *)
Definition fb_append (b : FixedBuffer) (buf : bytes) (n : Z) : outcome FixedBuffer :=
  if n <? u64 (fb_avail b) then
    require FBounds (n <=? len buf);;
    b ← fb_store b 0 (take (Z.to_nat n) buf);
    fb_cur_add b n
  else Ok b.

Definition fb_reset_cur (b : FixedBuffer) : FixedBuffer := mkFixedBuffer (fb_data b) 0.
Definition fb_reset_buffer (b : FixedBuffer) : FixedBuffer := mkFixedBuffer (replicate (length (fb_data b)) NUL) (fb_cur b).
Definition fb_reset (b : FixedBuffer) : FixedBuffer := fb_reset_buffer (fb_reset_cur b).

Definition fb_to_string (b : FixedBuffer) : outcome bytes := make_string (fb_data b) (fb_length b).
Definition fb_to_string_piece (b : FixedBuffer) : StringPiece := StringPiece_range (fb_data b) (fb_length b).

(** * LogStream *)

Definition kLogBufferSize : Z := 1000.
Definition kMaxNumericCharNum : Z := 32.

(** A formatted number: [text] is what the format gives, [length_0] the value
    of snprintf, the length without truncation. *)
Record FormattedString : Type := mkFormatted { m_chars : bytes; m_len_0 : Z }.
Definition new_FormattedString (text : bytes) : outcome FormattedString :=
  let chars := snprintf 32 text in
  assert_ (len text <=? 32);;
  Ok (mkFormatted (chars ++ replicate (32 - length chars) NUL) (len text)).

Definition stream_append (b : FixedBuffer) (d : bytes) (n : Z) : outcome FixedBuffer := fb_append b d (u64 n).

Definition put_bool (b : FixedBuffer) (v : bool) : outcome FixedBuffer := fb_append b (lit (if v then "1" else "0")) 1.

Definition put_pointer (b : FixedBuffer) (v : Z) : outcome FixedBuffer :=
  if kMaxNumericCharNum <=? fb_avail b then
    b ← fb_store b 0 (lit "0"); b ← fb_store b 1 (lit "x");
    t ← hex_to_string v;
    b ← fb_store b 2 (t ++ [NUL]);
    fb_cur_add b (len t + 2)
  else Ok b.

Definition log_integer (b : FixedBuffer) (v : Z) : outcome FixedBuffer :=
  if kMaxNumericCharNum <=? fb_avail b then
    t ← integer_to_string v;
    b ← fb_store b 0 (t ++ [NUL]);
    fb_cur_add b (len t)
  else Ok b.

(** The integer types: [short] and [unsigned short] go through [int] and
    [unsigned int]. *)
Definition put_int (b : FixedBuffer) (v : Z) : outcome FixedBuffer := log_integer b v.
Definition put_uint (b : FixedBuffer) (v : Z) : outcome FixedBuffer := log_integer b v.
Definition put_short (b : FixedBuffer) (v : Z) : outcome FixedBuffer := put_int b (s32 v).
Definition put_ushort (b : FixedBuffer) (v : Z) : outcome FixedBuffer := put_uint b (u32 v).
Definition put_long (b : FixedBuffer) (v : Z) : outcome FixedBuffer := log_integer b v.
Definition put_ulong (b : FixedBuffer) (v : Z) : outcome FixedBuffer := log_integer b v.

(** [text] is what [%.12g] gives for the number. *)
Definition put_double (b : FixedBuffer) (text : bytes) : outcome FixedBuffer :=
  if kMaxNumericCharNum <=? fb_avail b then
    b ← fb_store b 0 (snprintf kMaxNumericCharNum text ++ [NUL]);
    fb_cur_add b (len text)
  else Ok b.

Definition put_char (b : FixedBuffer) (v : byte) : outcome FixedBuffer := fb_append b [v] 1.

(** A pointer to the memory [str], or null. *)
Definition put_cstr (b : FixedBuffer) (str : option bytes) : outcome FixedBuffer :=
  match str with
  | Some str => n ← strlen str; fb_append b str n
  | None => fb_append b (lit "(null)") 6
  end.

Definition put_string (b : FixedBuffer) (v : bytes) : outcome FixedBuffer := fb_append b v (len v).
Definition put_piece (b : FixedBuffer) (v : StringPiece) : outcome FixedBuffer := fb_append b (data v) (u64 (size v)).
Definition put_buffer (b : FixedBuffer) (v : FixedBuffer) : outcome FixedBuffer := put_piece b (fb_to_string_piece v).

(** One use of [operator<<]. *)
Inductive log_item : Type :=
| IBool (v : bool)
| IPointer (v : Z)
| IShort (v : Z) | IUshort (v : Z) | IInt (v : Z) | IUint (v : Z) | ILong (v : Z) | IUlong (v : Z)
| IDouble (text : bytes)
| IChar (v : byte)
| ICstr (str : option bytes)
| IString (v : bytes)
| IPiece (v : StringPiece)
| IBuffer (v : FixedBuffer).

Definition put (b : FixedBuffer) (i : log_item) : outcome FixedBuffer :=
  match i with
  | IBool v => put_bool b v
  | IPointer v => put_pointer b v
  | IShort v => put_short b v
  | IUshort v => put_ushort b v
  | IInt v => put_int b v
  | IUint v => put_uint b v
  | ILong v => put_long b v
  | IUlong v => put_ulong b v
  | IDouble text => put_double b text
  | IChar v => put_char b v
  | ICstr str => put_cstr b str
  | IString v => put_string b v
  | IPiece v => put_piece b v
  | IBuffer v => put_buffer b v
  end.

Fixpoint put_all (b : FixedBuffer) (l : list log_item) : outcome FixedBuffer :=
  match l with [] => Ok b | i :: l => b ← put b i; put_all b l end.

(** * What the items say *)

Fixpoint hex_digits (fuel : nat) (n : Z) : bytes :=
  match fuel with
  | O => []
  | S fuel' =>
      let d := default NUL (lit "0123456789ABCDEF" !! Z.to_nat (n mod 16)) in
      if n <? 16 then [d] else hex_digits fuel' (n / 16) ++ [d]
  end.
(** An address in hexadecimal, without leading zeros. *)
Definition hex (n : Z) : bytes := hex_digits 16 n.

Definition item_text (i : log_item) : bytes :=
  match i with
  | IBool v => if v then lit "1" else lit "0"
  | IPointer v => lit "0x" ++ hex v
  | IShort v | IUshort v | IInt v | IUint v | ILong v | IUlong v => dec v
  | IDouble text => text
  | IChar v => [v]
  | ICstr (Some s) => take (Z.to_nat (std_find NUL s)) s
  | ICstr None => lit "(null)"
  | IString v => v
  | IPiece v => piece_bytes v
  | IBuffer v => fb_text v
  end.

Definition numeric (i : log_item) : bool :=
  match i with
  | IPointer _ | IShort _ | IUshort _ | IInt _ | IUint _ | ILong _ | IUlong _ | IDouble _ => true
  | _ => false
  end.

Definition fb_wf (b : FixedBuffer) : Prop := 0 <= fb_cur b <= len (fb_data b) /\ len (fb_data b) < 2 ^ 31.

(** A value of its type.  [%.12g] takes 19 characters at most. *)
Definition item_ok (i : log_item) : Prop :=
  match i with
  | IBool _ | IChar _ | ICstr None => True
  | IPointer v | IUlong v => in_uw 64 v
  | IShort v => in_sw 16 v
  | IUshort v => in_uw 16 v
  | IInt v => in_sw 32 v
  | IUint v => in_uw 32 v
  | ILong v => in_sw 64 v
  | IDouble text => len text <= 19
  | ICstr (Some s) => NUL ∈ s /\ len s < 2 ^ 63
  | IString v => len v < 2 ^ 63
  | IPiece v => piece_wf v
  | IBuffer v => fb_wf v
  end.

(** An item is dropped as a whole when it may not fit in the room left. *)
Definition fits (room : Z) (i : log_item) : bool :=
  if numeric i then 32 <=? room else len (item_text i) <? room.

Fixpoint line_text (size : Z) (acc : bytes) (l : list log_item) : bytes :=
  match l with
  | [] => acc
  | i :: l => line_text size (if fits (size - len acc) i then acc ++ item_text i else acc) l
  end.

(** * Numbers *)

Lemma ten_cases d : 0 <= d < 10 -> d ∈ [0; 1; 2; 3; 4; 5; 6; 7; 8; 9].
Proof. intros. rewrite !elem_of_cons. lia. Qed.

Lemma zero_at_digit d : 0 <= d < 10 -> zero_at d = Ok (digit d) /\ zero_at (- d) = Ok (digit d).
Proof.
  intros Hd. apply ten_cases in Hd. revert Hd. rewrite !elem_of_cons, elem_of_nil.
  intros Hd. repeat destruct Hd as [->|Hd]; try done; by vm_compute.
Qed.

Lemma integer_loop_digits f : forall n, 0 <= n < 10 ^ Z.of_nat f ->
  (0 < f)%nat -> integer_loop f n = Ok (rev (digits f n)) /\ integer_loop f (- n) = Ok (rev (digits f n)).
Proof.
  induction f as [|f IH]; intros n Hn Hf; [lia|]. rewrite Nat2Z.inj_succ, Z.pow_succ_r in Hn by lia.
  cbn [integer_loop digits].
  rewrite Z.rem_opp_l, Z.quot_opp_l, Z.rem_mod_nonneg, Z.quot_div_nonneg by lia.
  pose proof (Z.mod_pos_bound n 10). destruct (zero_at_digit (n mod 10)) as [-> ->]; [lia|]. rewrite !bind_ok.
  destruct (Z.ltb_spec n 10) as [Hl|Hl].
  - rewrite Z.div_small, Z.mod_small by lia. done.
  - assert (1 <= n / 10) by (apply Z.div_le_lower_bound; lia).
    assert (n / 10 < 10 ^ Z.of_nat f) by (apply Z.div_lt_upper_bound; lia).
    assert (0 < f)%nat by (destruct f; [simpl in *; lia|lia]).
    destruct (IH (n / 10)) as [E1 E2]; [lia|done|]. rewrite E1, E2. simpl.
    destruct (Z.eqb_spec (n / 10) 0); [lia|]. destruct (Z.eqb_spec (- (n / 10)) 0); [lia|].
    by rewrite rev_app_distr.
Qed.

Lemma digits_fuel f : forall g n,
  0 <= n < 10 ^ Z.of_nat (S f) -> n < 10 ^ Z.of_nat (S g) -> digits (S f) n = digits (S g) n.
Proof.
  induction f as [|f IH]; intros g n Hf Hg; (destruct (Z.ltb_spec n 10) as [Hl|Hl];
    [cbn [digits]; by rewrite (proj2 (Z.ltb_lt n 10) Hl)|]).
  - change (10 ^ Z.of_nat 1) with 10 in Hf. lia.
  - destruct g as [|g]; [change (10 ^ Z.of_nat 1) with 10 in Hg; lia|].
    rewrite Nat2Z.inj_succ, Z.pow_succ_r in Hf, Hg by lia.
    change (digits (S (S f)) n) with (if n <? 10 then [digit n] else digits (S f) (n / 10) ++ [digit (n mod 10)]).
    change (digits (S (S g)) n) with (if n <? 10 then [digit n] else digits (S g) (n / 10) ++ [digit (n mod 10)]).
    rewrite (IH g); [done|split; [apply Z.div_pos; lia|]|]; apply Z.div_lt_upper_bound; lia.
Qed.

Lemma dec_abs_fuel f n : 0 <= n < 10 ^ Z.of_nat (S f) -> digits (S f) n = dec_abs n.
Proof.
  intros Hn. unfold dec_abs. apply digits_fuel; [done|]. destruct (Z.eq_dec n 0) as [->|Hz]; [lia|].
  pose proof (Z.log2_nonneg n). rewrite Nat2Z.inj_succ, Z2Nat.id by lia.
  pose proof (Z.log2_spec n ltac:(lia)). pose proof (Z.pow_le_mono_l 2 10 (Z.succ (Z.log2 n))). lia.
Qed.

Lemma word_digits : 2 ^ 64 < 10 ^ Z.of_nat 20.
Proof. by vm_compute. Qed.

Lemma integer_to_string_dec v : - 2 ^ 63 <= v < 2 ^ 64 -> integer_to_string v = Ok (dec v).
Proof.
  intros Hv. pose proof word_digits. unfold integer_to_string, dec. destruct (Z.ltb_spec v 0) as [Hn|Hn].
  - destruct (integer_loop_digits 20 (- v)) as [_ E]; [lia|lia|]. rewrite Z.opp_involutive in E. rewrite E, bind_ok.
    rewrite rev_app_distr, rev_involutive, (dec_abs_fuel 19) by lia. done.
  - destruct (integer_loop_digits 20 v) as [E _]; [lia|lia|]. by rewrite E, bind_ok, rev_involutive, (dec_abs_fuel 19) by lia.
Qed.

Lemma len_dec_word v : - 2 ^ 63 <= v < 2 ^ 64 -> len (dec v) <= 21.
Proof.
  intros Hv. pose proof word_digits. unfold dec. destruct (Z.ltb_spec v 0); rewrite ?len_cons.
  - pose proof (len_dec_abs (- v) 20). change (Z.of_nat 20) with 20 in *. lia.
  - pose proof (len_dec_abs v 20). change (Z.of_nat 20) with 20 in *. lia.
Qed.

Lemma hex_digit_at n : exists c, digits_hex !! Z.to_nat (n mod 16) = Some c.
Proof. pose proof (Z.mod_pos_bound n 16). apply lookup_lt_is_Some. change (length digits_hex) with 16%nat. lia. Qed.

Lemma hex_loop_digits f : forall n, 0 <= n < 16 ^ Z.of_nat (S f) -> hex_loop (S f) n = Ok (rev (hex_digits (S f) n)).
Proof.
  induction f as [|f IH]; intros n Hn; cbn [hex_loop hex_digits]; destruct (hex_digit_at n) as [c Hc]; rewrite Hc;
    change (lit _) with digits_hex; rewrite Hc; simpl of_option; rewrite bind_ok.
  - change (16 ^ Z.of_nat 1) with 16 in Hn. rewrite Z.div_small by lia. by rewrite (proj2 (Z.ltb_lt n 16)) by lia.
  - rewrite Nat2Z.inj_succ, Z.pow_succ_r in Hn by lia. destruct (Z.ltb_spec n 16) as [Hl|Hl]; [by rewrite Z.div_small by lia|].
    assert (1 <= n / 16) by (apply Z.div_le_lower_bound; lia). destruct (Z.eqb_spec (n / 16) 0); [lia|].
    change (hex_loop (S f) (n / 16) ≫= (fun l => Ok (c :: l)) = Ok (rev (hex_digits (S f) (n / 16) ++ [c]))).
    rewrite IH; [by rewrite bind_ok, rev_app_distr|]. split; [lia|]. apply Z.div_lt_upper_bound; lia.
Qed.

Lemma hex_to_string_hex v : in_uw 64 v -> hex_to_string v = Ok (hex v).
Proof.
  intros Hv. unfold hex_to_string. rewrite (hex_loop_digits 15); [by rewrite bind_ok, rev_involutive|].
  change (16 ^ Z.of_nat 16) with (2 ^ 64). exact Hv.
Qed.

Lemma len_hex_digits f : forall n, len (hex_digits f n) <= Z.of_nat f.
Proof.
  induction f as [|f IH]; intros n; cbn [hex_digits]; [done|]. destruct (n <? 16); len_lia || idtac.
  specialize (IH (n / 16)). len_lia.
Qed.

(** The number that a hexadecimal text denotes. *)
Definition hex_value (l : bytes) : Z := foldl (fun a c => a * 16 + std_find c digits_hex) 0 l.

Lemma hex_digit_value n c : digits_hex !! Z.to_nat (n mod 16) = Some c -> std_find c digits_hex = n mod 16.
Proof.
  pose proof (Z.mod_pos_bound n 16 ltac:(lia)) as Hm. revert Hm. generalize (n mod 16). intros d Hd Hc.
  assert (Forall (fun k => forall c, digits_hex !! k = Some c -> std_find c digits_hex = Z.of_nat k) (seq 0 16)) as F.
  { repeat constructor; intros x [= <-]; by vm_compute. }
  rewrite Forall_forall in F. rewrite (F (Z.to_nat d)) with (c := c); [lia| |done]. apply elem_of_seq. lia.
Qed.

Lemma hex_digits_value f : forall n, 0 <= n < 16 ^ Z.of_nat f -> hex_value (hex_digits f n) = n.
Proof.
  induction f as [|f IH]; intros n Hn; cbn [hex_digits]; [change (16 ^ Z.of_nat 0) with 1 in Hn; unfold hex_value; simpl; lia|].
  change (lit _) with digits_hex. destruct (hex_digit_at n) as [c Hc]. rewrite Hc. simpl default.
  pose proof (hex_digit_value n c Hc) as V. rewrite Nat2Z.inj_succ, Z.pow_succ_r in Hn by lia.
  destruct (Z.ltb_spec n 16) as [Hl|Hl].
  - unfold hex_value. cbn [foldl]. rewrite V, Z.mod_small by lia. lia.
  - unfold hex_value in *. rewrite foldl_app, IH; [|split; [apply Z.div_pos; lia|apply Z.div_lt_upper_bound; lia]].
    cbn [foldl]. rewrite V. pose proof (Z.div_mod n 16). lia.
Qed.

(** * The buffer *)

(** What an operation of the stream leaves: the text and the array's size. *)
Definition leaves (b : FixedBuffer) (t : bytes) (b' : FixedBuffer) : Prop :=
  fb_wf b' /\ len (fb_data b') = len (fb_data b) /\ fb_text b' = t.

Lemma fb_avail_wf b : fb_wf b -> fb_avail b = len (fb_data b) - fb_cur b.
Proof. intros []. apply sw_small; [lia|]. change (2 ^ 31) with 2147483648 in *. split; simpl; lia. Qed.

Lemma len_fb_text b : fb_wf b -> len (fb_text b) = fb_cur b.
Proof. intros []. unfold fb_text. rewrite len_slice; lia. Qed.

(** Storing [t] and some more behind it, and moving the pointer over [t]. *)
Lemma store_add_spec b t x n :
  fb_wf b -> fb_cur b + len t + len x <= len (fb_data b) -> n = len t ->
  returns (leaves b (fb_text b ++ t)) (b ← fb_store b 0 (t ++ x); fb_cur_add b n).
Proof.
  intros [Hc Hs] Hf ->. unfold fb_store, fb_cur_add. pose proof (len_nonneg x). pose proof (len_nonneg t).
  assert (len (overwrite (fb_data b) (fb_cur b + 0) (t ++ x)) = len (fb_data b)) as L by (apply len_overwrite; rewrite ?len_app; lia).
  rewrite require_true by (rewrite len_app; lia). rewrite !bind_ok. cbn [fb_cur fb_data]. rewrite L.
  rewrite require_true by lia. rewrite bind_ok. unfold returns, leaves, fb_wf. cbn [fb_cur fb_data]. rewrite L.
  split_and!; [lia|lia|lia|done|]. unfold fb_text. cbn [fb_cur fb_data]. rewrite Z.add_0_r in *. rewrite (slice_split _ 0 (fb_cur b)) by lia. f_equal.
  - apply slice_overwrite_before; rewrite ?len_app; lia.
  - rewrite <- (take_slice _ (fb_cur b) (fb_cur b + len (t ++ x)) (len t)) by (rewrite ?len_app; lia).
    rewrite slice_overwrite_same by (rewrite ?len_app; lia). unfold len. by rewrite Nat2Z.id, take_app_length.
Qed.

Lemma fb_append_spec b d n :
  fb_wf b -> 0 <= n <= len d ->
  returns (leaves b (if n <? len (fb_data b) - fb_cur b then fb_text b ++ take (Z.to_nat n) d else fb_text b)) (fb_append b d n).
Proof.
  intros W Hn. unfold fb_append. rewrite fb_avail_wf by done.
  assert (u64 (len (fb_data b) - fb_cur b) = len (fb_data b) - fb_cur b) as ->.
  { apply uw_small. destruct W as [? ?]. change (2 ^ 31) with 2147483648 in *. split; simpl; lia. }
  destruct (Z.ltb_spec n (len (fb_data b) - fb_cur b)); [|by destruct W].
  rewrite require_true by lia. rewrite bind_ok. 
  assert (len (take (Z.to_nat n) d) = n) as L by (rewrite len_take; lia).
  pose proof (store_add_spec b (take (Z.to_nat n) d) [] n W) as S. rewrite app_nil_r in S. apply S; [|done].
  rewrite len_nil. lia.
Qed.

(** A numeric item: [t] and its NUL fit in 32 bytes. *)
Lemma numeric_spec b t i :
  fb_wf b -> numeric i = true -> item_text i = t -> len t <= 31 ->
  returns (leaves b (if fits (len (fb_data b) - fb_cur b) i then fb_text b ++ item_text i else fb_text b))
    (if kMaxNumericCharNum <=? fb_avail b then b ← fb_store b 0 (t ++ [NUL]); fb_cur_add b (len t) else Ok b).
Proof.
  intros W Hn <- Hl. unfold fits, kMaxNumericCharNum. rewrite Hn, fb_avail_wf by done.
  destruct (Z.leb_spec 32 (len (fb_data b) - fb_cur b)); [|by destruct W].
  apply store_add_spec; [done| |done]. rewrite len_cons, len_nil. lia.
Qed.

Lemma log_integer_spec b v i :
  fb_wf b -> - 2 ^ 63 <= v < 2 ^ 64 -> numeric i = true -> item_text i = dec v ->
  returns (leaves b (if fits (len (fb_data b) - fb_cur b) i then fb_text b ++ item_text i else fb_text b)) (log_integer b v).
Proof.
  intros W Hv Hn Ht. unfold log_integer. rewrite integer_to_string_dec by done. rewrite bind_ok.
  pose proof (len_dec_word v Hv). apply numeric_spec; try done. lia.
Qed.

Lemma put_pointer_spec b v :
  fb_wf b -> in_uw 64 v ->
  returns (leaves b (if fits (len (fb_data b) - fb_cur b) (IPointer v) then fb_text b ++ item_text (IPointer v) else fb_text b))
    (put_pointer b v).
Proof.
  intros W Hv. pose proof (len_hex_digits 16 v) as Lx. change (hex_digits 16 v) with (hex v) in Lx.
  assert (len (lit "0") = 1) as Z0 by done. assert (len (lit "x") = 1) as Z1 by done.
  unfold put_pointer, fits, kMaxNumericCharNum. rewrite fb_avail_wf by done. simpl numeric. cbv iota.
  destruct (Z.leb_spec 32 (len (fb_data b) - fb_cur b)) as [Hr|]; [|by destruct W].
  destruct b as [d cur]. destruct W as [Hc Hs]. cbn [fb_data fb_cur] in *.
  unfold fb_store. cbn [fb_data fb_cur]. rewrite require_true by (lia). rewrite !bind_ok. cbn [fb_data fb_cur].
  assert (len (overwrite d (cur + 0) (lit "0")) = len d) as L0 by (apply len_overwrite; lia).
  rewrite require_true by (rewrite L0; lia). rewrite bind_ok, hex_to_string_hex, !bind_ok by done.
  cbn [fb_data fb_cur]. set (d1 := overwrite _ (cur + 1) _).
  assert (len d1 = len d) as L1 by (unfold d1; rewrite len_overwrite; rewrite ?L0; lia).
  assert (leaves (mkFixedBuffer d cur) (fb_text (mkFixedBuffer d cur) ++ lit "0x") (mkFixedBuffer d1 (cur + 2))) as Lv.
  { unfold leaves, fb_wf, fb_text. cbn [fb_data fb_cur]. rewrite L1. split_and!; [lia|lia|lia|done|].
    rewrite (slice_split _ 0 cur), (slice_split _ cur (cur + 1)) by lia. change (lit "0x") with (lit "0" ++ lit "x").
    unfold d1. f_equal; [|f_equal].
    - rewrite slice_overwrite_before by (rewrite ?L0; lia). apply slice_overwrite_before; lia.
    - rewrite slice_overwrite_before by (rewrite ?L0; lia). rewrite Z.add_0_r.
      rewrite <- Z0. apply slice_overwrite_same; lia.
    - replace (cur + 2) with (cur + 1 + len (lit "x")) by lia. apply slice_overwrite_same; rewrite ?L0; lia. }
  destruct Lv as (W2 & Ls & Ht).
  pose proof (store_add_spec (mkFixedBuffer d1 (cur + 2)) (hex v) [NUL] (len (hex v)) W2) as S.
  cbn [fb_data fb_cur] in S. rewrite len_cons, len_nil, L1 in S. specialize (S ltac:(lia) eq_refl). rewrite Ht in S.
  unfold fb_store, fb_cur_add in *. cbn [fb_data fb_cur] in *. rewrite Z.add_0_r in S.
  rewrite require_true in * by (rewrite ?L1; len_lia). rewrite !bind_ok in *. cbn [fb_data fb_cur] in *.
  replace (cur + (len (hex v) + 2)) with (cur + 2 + len (hex v)) by lia.
  unfold leaves in *. cbn [fb_data fb_cur] in *. rewrite L1 in S. cbn [item_text]. rewrite app_assoc. exact S.
Qed.

Lemma text_spec b d n i :
  fb_wf b -> numeric i = false -> 0 <= n <= len d -> item_text i = take (Z.to_nat n) d ->
  returns (leaves b (if fits (len (fb_data b) - fb_cur b) i then fb_text b ++ item_text i else fb_text b)) (fb_append b d n).
Proof.
  intros W Hn Hd Ht. unfold fits. rewrite Hn, Ht, len_take.
  replace (Z.min _ _) with n by lia. by apply fb_append_spec.
Qed.

Lemma take_len {A} (l : list A) : take (Z.to_nat (len l)) l = l.
Proof. apply take_ge. unfold len. lia. Qed.

Lemma put_piece_spec b sp i :
  fb_wf b -> piece_wf sp -> numeric i = false -> item_text i = piece_bytes sp ->
  returns (leaves b (if fits (len (fb_data b) - fb_cur b) i then fb_text b ++ item_text i else fb_text b)) (put_piece b sp).
Proof.
  intros W [Hp Hs] Hn Ht. unfold put_piece, data, size. 
  rewrite uw_small by (change (2 ^ 31) with 2147483648 in *; split; simpl; lia).
  apply text_spec; [done|done|lia|done].
Qed.

Lemma put_cstr_spec b o :
  fb_wf b -> item_ok (ICstr o) ->
  returns (leaves b (if fits (len (fb_data b) - fb_cur b) (ICstr o) then fb_text b ++ item_text (ICstr o) else fb_text b))
    (put_cstr b o).
Proof.
  intros W Hi. destruct o as [s|]; [|by apply text_spec]. cbn [put_cstr]. destruct Hi as [Hz _].
  apply std_find_elem in Hz. unfold strlen, memchr. destruct (Z.eqb_spec (std_find NUL s) (len s)); [lia|]. cbn [of_option]. rewrite bind_ok.
  pose proof (std_find_range NUL s). apply text_spec; [done|done|lia|done].
Qed.

Lemma put_spec b i :
  fb_wf b -> item_ok i ->
  returns (leaves b (if fits (len (fb_data b) - fb_cur b) i then fb_text b ++ item_text i else fb_text b)) (put b i).
Proof.
  intros W Hi. destruct i; simpl in Hi.
  - destruct v; by apply text_spec.
  - by apply put_pointer_spec.
  - destruct Hi. simpl in *. unfold put, put_short. rewrite sw_small by (split; simpl; lia). apply log_integer_spec; simpl; try done; lia.
  - destruct Hi. simpl in *. unfold put, put_ushort. rewrite uw_small by (split; simpl; lia). apply log_integer_spec; simpl; try done; lia.
  - destruct Hi. simpl in *. apply log_integer_spec; simpl; try done; lia.
  - destruct Hi. simpl in *. apply log_integer_spec; simpl; try done; lia.
  - destruct Hi. simpl in *. apply log_integer_spec; simpl; try done; lia.
  - destruct Hi. simpl in *. apply log_integer_spec; simpl; try done; lia.
  - unfold put, put_double. rewrite snprintf_fits by (unfold kMaxNumericCharNum; lia). apply numeric_spec; try done. lia.
  - by apply text_spec.
  - by apply put_cstr_spec.
  - apply text_spec; [done|done|split; [apply len_nonneg|lia]|]. by rewrite take_len.
  - by apply put_piece_spec.
  - destruct Hi as [Hc Hl]. apply put_piece_spec; [done| |done|].
    + unfold piece_wf, fb_to_string_piece, fb_length. simpl. change (2 ^ 31) with 2147483648 in *.
      rewrite sw_small; [lia|lia|split; simpl; lia].
    + cbn [item_text]. unfold piece_bytes, fb_to_string_piece, fb_length, fb_text, slice. cbn [length_ ptr_ StringPiece_range].
      change (2 ^ 31) with 2147483648 in *. rewrite sw_small by (lia || (split; simpl; lia)). by rewrite Z.sub_0_r.
Qed.

Lemma put_all_spec l : forall b, fb_wf b -> Forall item_ok l ->
  returns (leaves b (line_text (len (fb_data b)) (fb_text b) l)) (put_all b l).
Proof.
  induction l as [|i l IH]; intros b W Hl; [by destruct W|]. apply Forall_cons in Hl as [Hi Hl]. simpl.
  pose proof (put_spec b i W Hi) as S. rewrite len_fb_text by done.
  eapply returns_bind; [exact S|]. intros b1 (W1 & L1 & T1).
  eapply returns_mono; [|by apply IH]. rewrite T1, L1. intros b2 (W2 & L2 & T2). split_and!; [done|congruence|done].
Qed.

(** * Theorems *)

Lemma line_text_short size l : forall acc,
  len (acc ++ concat (item_text <$> l)) + 32 <= size -> line_text size acc l = acc ++ concat (item_text <$> l).
Proof.
  induction l as [|i l IH]; intros acc Hl; [by rewrite app_nil_r|]. simpl in *. rewrite !len_app in Hl. len_pose.
  assert (fits (size - len acc) i = true) as ->.
  { unfold fits. destruct (numeric i); [apply Z.leb_le|apply Z.ltb_lt]; lia. }
  change (list_fmap log_item bytes item_text l) with (item_text <$> l) in *.
  rewrite IH, <- app_assoc; [done|]. rewrite !len_app. lia.
Qed.

Lemma line_text_bound size l : forall acc, Forall item_ok l -> len acc < size -> len (line_text size acc l) < size.
Proof.
  induction l as [|i l IH]; intros acc Hl Ha; [done|]. apply Forall_cons in Hl as [Hi Hl]. simpl. apply IH; [done|].
  destruct (fits (size - len acc) i) eqn:F; [|done]. rewrite len_app. unfold fits in F.
  destruct (numeric i) eqn:Hn; [apply Z.leb_le in F|apply Z.ltb_lt in F; lia].
  destruct i; simpl in Hi, Hn; try done; cbn [item_text];
    try (pose proof (len_dec_word v); unfold in_uw, in_sw in Hi; simpl in Hi, H; lia); [|lia].
  rewrite len_app. pose proof (len_hex_digits 16 v). unfold hex. change (len (lit "0x")) with 2. lia.
Qed.

(** C40: a log line.  Any sequence of [operator<<] on a new stream returns
    without writing outside its 1000 bytes, and the buffer then holds the
    texts of the items in order, each whole or, when it might not fit, dropped
    whole; integers of every type are their decimal text, the smallest ones
    included, and pointers hexadecimal.  At least one byte stays free, and when
    all the texts together leave 32 bytes free, nothing is dropped. *)
Theorem log_stream_text garbage l :
  len garbage = kLogBufferSize -> Forall item_ok l ->
  exists b, put_all (new_FixedBuffer garbage) l = Ok b /\
    fb_text b = line_text kLogBufferSize [] l /\ fb_length b = len (fb_text b) /\ fb_length b < kLogBufferSize /\
    (len (concat (item_text <$> l)) + 32 <= kLogBufferSize -> fb_text b = concat (item_text <$> l)).
Proof.
  intros Hg Hl. assert (fb_wf (new_FixedBuffer garbage)) as W by (split; simpl; rewrite Hg; unfold kLogBufferSize; lia).
  destruct (returns_ok _ _ (put_all_spec l _ W Hl)) as (b & E & Wb & Lb & Tb). simpl in Lb, Tb. rewrite Hg in *.
  change (fb_text (new_FixedBuffer garbage)) with (@nil byte) in Tb.
  pose proof (line_text_bound kLogBufferSize l [] Hl ltac:(done)) as B. exists b.
  pose proof (len_fb_text b Wb) as L. rewrite <- Tb in B.
  assert (fb_length b = len (fb_text b)) as Hlen.
  { unfold fb_length. rewrite sw_small, L; [done|lia|]. unfold kLogBufferSize in *. len_pose. split; simpl; lia. }
  split_and!; [done|done|done|lia|]. intros Hs. rewrite Tb. by apply line_text_short.
Qed.

Lemma log_stream_text_witness :
  exists b, put_all (new_FixedBuffer (replicate 1000 NUL))
      [ICstr (Some (lit "x=" ++ [NUL])); IInt (-2147483648); IPointer 48879; IChar " "%char; IUlong 18446744073709551615] = Ok b /\
    fb_text b = lit "x=-21474836480xBEEF 18446744073709551615".
Proof.
  destruct (log_stream_text (replicate 1000 NUL)
    [ICstr (Some (lit "x=" ++ [NUL])); IInt (-2147483648); IPointer 48879; IChar " "%char; IUlong 18446744073709551615])
    as (b & E & _ & _ & _ & T).
  - by vm_compute.
  - repeat constructor; by vm_compute.
  - exists b. split; [done|]. rewrite T by (by vm_compute). by vm_compute.
Defined.
