(* ===== verification/LogLine.v ===== *)
(** [flute/common/LogLine.{h,cc}]: a log statement, from the macro to the
    bytes given to the output function.

    [log_globals] holds the static members and the thread-local time cache of
    the logging thread.  The C library's [gmtime_r] and [strerror_r] are
    parameters; [errno], the clock and the indeterminate bytes of the new
    stream are arguments of the statement. *)

From S2P Require Import Prelude StringPiece Format Timestamp Timezone LogStream.

(** * BaseName *)

(** [strrchr(3)]: the last position of [c] before the NUL. *)
Definition strrchr (s : bytes) (c : byte) : outcome (option Z) :=
  n ← strlen s;
  let t := take (Z.to_nat n) s in
  let i := std_find c (rev t) in
  Ok (if i =? len t then None else Some (len t - 1 - i)).

Record BaseName : Type := mkBaseName { bn_data : bytes; bn_size : Z }.

(** From an array of [N] characters, NUL included. *)
Definition BaseName_array (arr : bytes) : outcome BaseName :=
  slash ← strrchr arr "/"%char;
  match slash with
  | Some k => Ok (mkBaseName (drop (Z.to_nat (k + 1)) arr) (len arr - 1 - (k + 1)))
  | None => Ok (mkBaseName arr (len arr - 1))
  end.

Definition BaseName_pointer (filename : bytes) : outcome BaseName :=
  slash ← strrchr filename "/"%char;
  let d := match slash with Some k => drop (Z.to_nat (k + 1)) filename | None => filename end in
  n ← strlen d; Ok (mkBaseName d n).

(** * Levels and globals *)

Inductive LogLevel : Type := TRACE | DEBUG | INFO | WARN | ERROR | FATAL.

#[global] Instance LogLevel_eq_dec : EqDecision LogLevel.
Proof. solve_decision. Defined.

Definition level_num (l : LogLevel) : Z :=
  match l with TRACE => 0 | DEBUG => 1 | INFO => 2 | WARN => 3 | ERROR => 4 | FATAL => 5 end.

Record log_globals : Type := mkLogGlobals {
  g_log_level : LogLevel;
  g_log_timezone : Timezone;
  t_time : bytes;
  t_last_second : Z;
  g_written : list bytes;     (* what g_output was given *)
  g_flushed : nat             (* calls of g_flush *)
}.

Definition initial_globals : log_globals :=
  mkLogGlobals INFO (Timezone_fixed (8 * 3600) (lit "CST")) (replicate 64 NUL) 0 [] 0.

Definition set_log_level (l : LogLevel) (g : log_globals) : log_globals :=
  mkLogGlobals l (g_log_timezone g) (t_time g) (t_last_second g) (g_written g) (g_flushed g).
Definition set_timezone (z : Timezone) (g : log_globals) : log_globals :=
  mkLogGlobals (g_log_level g) z (t_time g) (t_last_second g) (g_written g) (g_flushed g).
Definition set_cache (t : bytes) (s : Z) (g : log_globals) : log_globals :=
  mkLogGlobals (g_log_level g) (g_log_timezone g) t s (g_written g) (g_flushed g).
Definition output (d : bytes) (g : log_globals) : log_globals :=
  mkLogGlobals (g_log_level g) (g_log_timezone g) (t_time g) (t_last_second g) (g_written g ++ [d]) (g_flushed g).
Definition flush (g : log_globals) : log_globals :=
  mkLogGlobals (g_log_level g) (g_log_timezone g) (t_time g) (t_last_second g) (g_written g) (S (g_flushed g)).

(** * Data and LogLine *)

Record Data : Type := mkData {
  m_timestamp : Timestamp;
  m_log_stream : FixedBuffer;
  m_basename : BaseName;
  m_level : LogLevel;
  m_line : Z
}.

(** How a statement ends: it returns, or [abort()] is called. *)
Inductive log_end : Type := Returned (g : log_globals) | Aborted (g : log_globals).

Section logline.
Context (gmtime : Z -> tm) (strerror : Z -> bytes).

(** ["%4d%02d%02d %02d:%02d:%02d"]. *)
Definition time_format (u : tm) : bytes :=
  dec_w 4 (tm_year u + 1900) ++ dec_0 2 (tm_mon u + 1) ++ dec_0 2 (tm_mday u) ++ lit " " ++
  dec_0 2 (tm_hour u) ++ lit ":" ++ dec_0 2 (tm_min u) ++ lit ":" ++ dec_0 2 (tm_sec u).

(** The time cache, when it is of another second. *)
Definition refresh_time (seconds : Z) (g : log_globals) : outcome log_globals :=
  if negb (seconds =? t_last_second g) then
    tm_time ← (if tz_valid (g_log_timezone g) then to_local_time gmtime (g_log_timezone g) seconds
               else Ok (gmtime seconds));
    let text := time_format tm_time in
    let g := set_cache (overwrite (t_time g) 0 (snprintf 64 text ++ [NUL])) seconds g in
    assert_ (len text =? 17);;
    Ok g
  else Ok g.

Definition log_time (d : Data) (g : log_globals) : outcome (Data * log_globals) :=
  let us_since_epoch := m_timestamp d in
  let seconds := Z.quot us_since_epoch kMicroSecondsPerSecond in
  let microseconds := Z.rem us_since_epoch kMicroSecondsPerSecond in
  g ← refresh_time seconds g;
  b ← (if tz_valid (g_log_timezone g) then
         us ← new_FormattedString (lit "." ++ dec_0 6 microseconds ++ lit " ");
         assert_ (m_len_0 us =? 8);;
         put_all (m_log_stream d) [IPiece (StringPiece_range (t_time g) 17); IPiece (StringPiece_range (m_chars us) 8)]
       else
         us ← new_FormattedString (lit "." ++ dec_0 6 microseconds ++ lit "Z ");
         assert_ (m_len_0 us =? 9);;
         put_all (m_log_stream d) [IPiece (StringPiece_range (t_time g) 17); IPiece (StringPiece_range (m_chars us) 9)]);
  Ok (mkData (m_timestamp d) b (m_basename d) (m_level d) (m_line d), g).

(** [Data::Data]: [now] is [Timestamp::now()], [type] a string or null. *)
Definition new_Data (level : LogLevel) (file : BaseName) (line : Z) (type : option bytes)
    (now : Timestamp) (garbage : bytes) (g : log_globals) : outcome (Data * log_globals) :=
  b ← (match type with
       | Some _ => put_all (new_FixedBuffer garbage) [ICstr type]
       | None => Ok (new_FixedBuffer garbage)
       end);
  log_time (mkData now b file level line) g.

(** The constructors of [LogLine], by their arguments. *)
Inductive line_ctor : Type :=
| CtorInfo (type : option bytes)
| CtorLevel (level : LogLevel) (type : option bytes)
| CtorFunc (level : LogLevel) (func type : option bytes)
| CtorErrno (to_abort : bool) (type : option bytes).

Definition new_LogLine (c : line_ctor) (file : BaseName) (line : Z) (now : Timestamp) (garbage : bytes) (g : log_globals)
    : outcome (Data * log_globals) :=
  match c with
  | CtorInfo type => new_Data INFO file line type now garbage g
  | CtorLevel level type => new_Data level file line type now garbage g
  | CtorFunc level func type =>
      '(d, g) ← new_Data level file line type now garbage g;
      b ← put_all (m_log_stream d) [ICstr func; ICstr (Some (lit ": " ++ [NUL]))];
      Ok (mkData (m_timestamp d) b (m_basename d) (m_level d) (m_line d), g)
  | CtorErrno to_abort type => new_Data (if to_abort then FATAL else ERROR) file line type now garbage g
  end.

(** A string literal, as memory. *)
Definition literal (s : string) : option bytes := Some (lit s ++ [NUL]).
Arguments literal s%_string.

(** [LogLine::~LogLine]. *)
Definition destroy_LogLine (errno : Z) (d : Data) (g : log_globals) : outcome log_end :=
  b ← (if negb (errno =? 0) then
         put_all (m_log_stream d)
           [ICstr (literal " [ERRNO:"); IInt errno; ICstr (literal "]"); ICstr (Some (strerror errno)); ICstr (literal " ")]
       else Ok (m_log_stream d));
  b ← put_all b [ICstr (literal " - ")];
  b ← stream_append b (bn_data (m_basename d)) (bn_size (m_basename d));
  b ← put_all b [IChar ":"%char; IInt (m_line d); IChar LF];
  let g := output (fb_text b) g in
  Ok (if bool_decide (m_level d = FATAL) then Aborted (flush g) else Returned g).

(** The macros. *)
Inductive log_macro : Type :=
| LOG_TRACE | LOG_DEBUG | LOG_INFO | LOG_WARN | LOG_ERROR | LOG_IF_ERROR | LOG_FATAL | LOG_SYSERR | LOG_SYSFATAL.

Definition log_enabled (m : log_macro) (errno : Z) (g : log_globals) : bool :=
  match m with
  | LOG_TRACE => level_num (g_log_level g) <=? level_num TRACE
  | LOG_DEBUG => level_num (g_log_level g) <=? level_num DEBUG
  | LOG_INFO => level_num (g_log_level g) <=? level_num INFO
  | LOG_IF_ERROR => negb (errno =? 0)
  | _ => true
  end.

Definition macro_ctor (m : log_macro) (func : option bytes) : line_ctor :=
  match m with
  | LOG_TRACE => CtorFunc TRACE func (literal "[TRACE] ")
  | LOG_DEBUG => CtorFunc DEBUG func (literal "[DEBUG] ")
  | LOG_INFO => CtorInfo (literal "[INFO]  ")
  | LOG_WARN => CtorLevel WARN (literal "[WARN]  ")
  | LOG_ERROR | LOG_IF_ERROR => CtorLevel ERROR (literal "[ERROR] ")
  | LOG_FATAL => CtorLevel FATAL (literal "[FATAL] ")
  | LOG_SYSERR => CtorErrno false (literal "[SERROR]")
  | LOG_SYSFATAL => CtorErrno true (literal "[SFATAL]")
  end.

(** A whole statement [MACRO << items;]: [errno0] is [errno] before it, [errno]
    when the temporary dies. *)
Definition log_statement (m : log_macro) (file : bytes) (line : Z) (func : option bytes) (items : list log_item)
    (now : Timestamp) (garbage : bytes) (errno0 errno : Z) (g : log_globals) : outcome log_end :=
  if log_enabled m errno0 g then
    bn ← BaseName_array file;
    '(d, g) ← new_LogLine (macro_ctor m func) bn line now garbage g;
    b ← put_all (m_log_stream d) items;
    destroy_LogLine errno (mkData (m_timestamp d) b (m_basename d) (m_level d) (m_line d)) g
  else Ok (Returned g).

(** [CheckNotNull]. *)
Definition CheckNotNull (file : BaseName) (line : Z) (names : bytes) (null : bool)
    (now : Timestamp) (garbage : bytes) (errno : Z) (g : log_globals) : outcome log_end :=
  if null then
    '(d, g) ← new_LogLine (CtorLevel FATAL (literal "[FATAL] ")) file line now garbage g;
    b ← put_all (m_log_stream d) [ICstr (Some names)];
    destroy_LogLine errno (mkData (m_timestamp d) b (m_basename d) (m_level d) (m_line d)) g
  else Ok (Returned g).

End logline.

(** * The name of the file *)

Lemma strlen_lit s x : NUL ∉ s -> strlen (s ++ NUL :: x) = Ok (len s).
Proof.
  intros Hs. unfold strlen, memchr. rewrite std_find_head by done.
  destruct (Z.eqb_spec (len s) (len (s ++ NUL :: x))) as [E|]; [|done]. exfalso. revert E. len_lia.
Qed.

Lemma take_len_app {A} (s x : list A) : take (Z.to_nat (len s)) (s ++ x) = s.
Proof. unfold len. by rewrite Nat2Z.id, take_app_length. Qed.

Lemma drop_len_app {A} (s x : list A) n : n = len s -> drop (Z.to_nat n) (s ++ x) = x.
Proof. intros ->. unfold len. by rewrite Nat2Z.id, drop_app_length. Qed.

(** The part behind the last slash. *)
Definition in_dir (dir : bytes) : Prop := dir = [] \/ exists d, dir = d ++ ["/"%char].

Lemma BaseName_array_spec dir base :
  in_dir dir -> NUL ∉ dir -> NUL ∉ base -> "/"%char ∉ base ->
  BaseName_array (dir ++ base ++ [NUL]) = Ok (mkBaseName (base ++ [NUL]) (len base)).
Proof.
  intros Hd Hnd Hnb Hb. unfold BaseName_array, strrchr. rewrite app_assoc, strlen_lit by (rewrite elem_of_app; tauto).
  rewrite !bind_ok, take_len_app, rev_app_distr. assert ("/"%char ∉ rev base) as Hr by (by rewrite list_elem_of_In, <- in_rev, <- list_elem_of_In).
  destruct Hd as [->|[d ->]].
  - simpl rev. rewrite !app_nil_r, std_find_notin by done. unfold len at 1 2. rewrite length_rev, Z.eqb_refl. simpl app.
    do 2 f_equal. len_lia.
  - rewrite rev_app_distr. simpl rev at 2. change (["/"%char] ++ rev d) with ("/"%char :: rev d). simpl app.
    rewrite std_find_head by done.
    assert (len (rev base) = len base) as -> by (unfold len; by rewrite length_rev).
    destruct (Z.eqb_spec (len base) (len ((d ++ ["/"%char]) ++ base))) as [E|_]; [exfalso; revert E; len_lia|].
    do 2 f_equal; [|len_lia]. rewrite <- (app_assoc (d ++ _)). apply drop_len_app. len_lia.
Qed.

(** * The text *)

Definition same_item (i j : log_item) : Prop := numeric i = numeric j /\ item_text i = item_text j.

Lemma line_text_same size l l' : Forall2 same_item l l' -> forall acc, line_text size acc l = line_text size acc l'.
Proof. induction 1 as [|i j l l' [Hn Ht] _ IH]; intros acc; [done|]. simpl. unfold fits. by rewrite Hn, Ht, IH. Qed.

Lemma line_text_app size l l' : forall acc, line_text size acc (l ++ l') = line_text size (line_text size acc l) l'.
Proof. induction l as [|i l IH]; intros acc; [done|]. simpl. apply IH. Qed.

(** The stream holds the items [l]. *)
Definition holds (b : FixedBuffer) (l : list log_item) : Prop :=
  fb_wf b /\ len (fb_data b) = kLogBufferSize /\ fb_text b = line_text kLogBufferSize [] l.

Lemma holds_new garbage : len garbage = kLogBufferSize -> holds (new_FixedBuffer garbage) [].
Proof. intros Hg. unfold holds, fb_wf. cbn [fb_data fb_cur new_FixedBuffer]. rewrite Hg. done. Qed.

Lemma put_holds b l l1 l2 :
  holds b l -> Forall item_ok l1 -> Forall2 same_item l1 l2 -> returns (fun b' => holds b' (l ++ l2)) (put_all b l1).
Proof.
  intros (W & L & T) Hok Hs. eapply returns_mono; [|by apply put_all_spec]. rewrite L, T.
  intros b' (W' & L' & T'). split_and!; [apply W'..|congruence|]. by rewrite T', line_text_app, (line_text_same _ _ _ Hs).
Qed.

Lemma same_refl l : Forall2 same_item l l.
Proof. by apply Forall_Forall2_diag, Forall_true. Qed.

Lemma len_dec_0 w n : 0 < w -> 0 <= n < 10 ^ w -> len (dec_0 w n) = w.
Proof.
  intros Hw Hn. unfold dec_0. destruct (Z.ltb_spec n 0); [lia|]. apply len_pad. by apply len_dec_abs.
Qed.

(** [struct tm] of a year of four digits at most. *)
Definition broken_down (u : tm) : Prop :=
  0 <= tm_mon u <= 11 /\ 1 <= tm_mday u <= 31 /\ 0 <= tm_hour u <= 23 /\ 0 <= tm_min u <= 59 /\ 0 <= tm_sec u <= 60 /\
  0 <= tm_year u + 1900 <= 9999.

Lemma len_time_format u : broken_down u -> len (time_format u) = 17.
Proof.
  intros (?&?&?&?&?&?). unfold time_format, dec_w. rewrite !len_app, !len_dec_0, len_pad by (lia || (unfold dec;
    destruct (Z.ltb_spec (tm_year u + 1900) 0); [lia|]; apply (len_dec_abs _ 4); lia)). done.
Qed.

Lemma literal_ok s : len (lit s) < 100 -> item_ok (ICstr (literal s)).
Proof.
  intros Hs. split; [apply elem_of_app; right; constructor|]. change (2 ^ 63) with 9223372036854775808. len_lia.
Qed.

Section text.
Context (gmtime : Z -> tm) (strerror : Z -> bytes).

(** The time of day that the zone of the log gives. *)
Definition zone_time (z : Timezone) (seconds : Z) : outcome tm :=
  if tz_valid z then to_local_time gmtime z seconds else Ok (gmtime seconds).

(** The cached text is the one of the cached second.  Second 0 stands for no
    cache. *)
Definition cache_ok (g : log_globals) : Prop :=
  len (t_time g) = 64 /\
  (t_last_second g <> 0 -> exists u, zone_time (g_log_timezone g) (t_last_second g) = Ok u /\
     take 17 (t_time g) = time_format u).

Definition us_text (z : Timezone) (now : Timestamp) : bytes :=
  lit "." ++ dec_0 6 (Z.rem now kMicroSecondsPerSecond) ++ (if tz_valid z then lit " " else lit "Z ").

Lemma len_us_text z now : 0 <= now -> len (us_text z now) = if tz_valid z then 8 else 9.
Proof.
  intros Hn. pose proof (Z.rem_bound_pos now kMicroSecondsPerSecond Hn ltac:(done)). unfold us_text.
  rewrite !len_app, len_dec_0 by (unfold kMicroSecondsPerSecond in *; lia). by destruct (tz_valid z).
Qed.

Lemma us_text_piece z now : 0 <= now -> exists us,
  new_FormattedString (us_text z now) = Ok us /\ m_len_0 us = len (us_text z now) /\
  item_ok (IPiece (StringPiece_range (m_chars us) (len (us_text z now)))) /\
  item_text (IPiece (StringPiece_range (m_chars us) (len (us_text z now)))) = us_text z now.
Proof.
  intros Hn. pose proof (len_us_text z now Hn) as L.
  assert (len (us_text z now) <= 9) as L9 by (rewrite L; destruct (tz_valid z); lia).
  unfold new_FormattedString. rewrite snprintf_fits by lia. rewrite assert_true by lia. rewrite bind_ok.
  eexists. split; [reflexivity|]. cbn [m_len_0 m_chars item_ok item_text]. split; [done|]. split.
  - unfold piece_wf, StringPiece_range. cbn [length_ ptr_]. rewrite len_app. pose proof (len_nonneg (replicate (32 - length (us_text z now)) NUL)). len_pose. change (2 ^ 31) with 2147483648. lia.
  - unfold piece_bytes, StringPiece_range. cbn [length_ ptr_]. apply take_len_app.
Qed.

Lemma cached_piece t text : len t = 64 -> len text = 17 -> take 17 t = text ->
  item_ok (IPiece (StringPiece_range t 17)) /\ same_item (IPiece (StringPiece_range t 17)) (IString text).
Proof.
  intros Ht Hl Hk. split; [unfold item_ok, piece_wf; simpl; rewrite Ht; lia|]. split; [done|]. exact Hk.
Qed.

(** The cache after a statement at time [now] is the text of that second. *)
Lemma refresh_time_spec g s u :
  cache_ok g -> 0 < s -> zone_time (g_log_timezone g) s = Ok u -> broken_down u ->
  exists t, refresh_time gmtime s g = Ok (set_cache t s g) /\ len t = 64 /\ take 17 t = time_format u.
Proof.
  intros [Ht Hc] Hn Hu Hb. pose proof (len_time_format u Hb) as L. unfold refresh_time.
  destruct (Z.eqb_spec s (t_last_second g)) as [E|E]; simpl negb; cbv iota.
  - destruct Hc as (u' & Hu' & Hk); [lia|]. rewrite <- E in Hu'. assert (u' = u) as -> by congruence.
    exists (t_time g). split; [|done]. rewrite E. by destruct g.
  - fold (zone_time (g_log_timezone g) s). rewrite Hu, bind_ok. cbv zeta. rewrite assert_true by lia. rewrite bind_ok.
    eexists. split; [reflexivity|]. rewrite snprintf_fits by lia. split.
    + rewrite len_overwrite; [done|lia|]. len_lia.
    + unfold overwrite. change (take (Z.to_nat 0) (t_time g)) with (@nil byte). rewrite app_nil_l, <- app_assoc.
      change 17%nat with (Z.to_nat 17). rewrite <- L. apply take_len_app.
Qed.

Lemma log_time_spec d g u l :
  holds (m_log_stream d) l -> cache_ok g -> 0 < Z.quot (m_timestamp d) kMicroSecondsPerSecond ->
  zone_time (g_log_timezone g) (Z.quot (m_timestamp d) kMicroSecondsPerSecond) = Ok u -> broken_down u ->
  returns (fun r => exists b t, r = (mkData (m_timestamp d) b (m_basename d) (m_level d) (m_line d),
        set_cache t (Z.quot (m_timestamp d) kMicroSecondsPerSecond) g) /\
      holds b (l ++ [IString (time_format u); IString (us_text (g_log_timezone g) (m_timestamp d))]) /\
      cache_ok (set_cache t (Z.quot (m_timestamp d) kMicroSecondsPerSecond) g)) (log_time gmtime d g).
Proof.
  intros Hh Hc Hs Hu Hb. unfold log_time. destruct (refresh_time_spec g _ u Hc Hs Hu Hb) as (t & Et & Ht & Hk).
  cbv zeta. rewrite Et. rewrite bind_ok.
  set (s := Z.quot _ _) in *. cbn [g_log_timezone t_time set_cache].
  assert (0 <= m_timestamp d) as Hn.
  { destruct (Z.lt_ge_cases (m_timestamp d) 0) as [Hl|]; [|done]. exfalso. pose proof (Z.quot_le_mono (m_timestamp d) 0 kMicroSecondsPerSecond ltac:(done) ltac:(lia)).
    rewrite Z.quot_0_l in * by done. lia. }
  destruct (us_text_piece (g_log_timezone g) _ Hn) as (us & Eu & Elen & Hok & Htxt).
  destruct (cached_piece t _ Ht (len_time_format u Hb) Hk) as [Hok' Hsame].
  assert (forall n, n = len (us_text (g_log_timezone g) (m_timestamp d)) ->
    returns (fun b => holds b (l ++ [IString (time_format u); IString (us_text (g_log_timezone g) (m_timestamp d))]))
      (put_all (m_log_stream d) [IPiece (StringPiece_range t 17); IPiece (StringPiece_range (m_chars us) n)])) as P.
  { intros n ->. apply put_holds; [done|by rewrite !Forall_cons, Forall_nil|]. rewrite !Forall2_cons. done. }
  rewrite len_us_text in * by done. unfold us_text in Eu.
  destruct (tz_valid (g_log_timezone g)) eqn:Hv; rewrite Eu, bind_ok, Elen; (rewrite assert_true by done); rewrite bind_ok;
    (eapply returns_bind; [by apply P|]); intros b Hb'; exists b, t; (split; [done|]); (split; [done|]); (split; [done|]); intros _; by exists u.
Qed.

Definition ctor_level (c : line_ctor) : LogLevel :=
  match c with
  | CtorInfo _ => INFO
  | CtorLevel l _ | CtorFunc l _ _ => l
  | CtorErrno to_abort _ => if to_abort then FATAL else ERROR
  end.

Definition opt_item (o : option bytes) : list log_item := match o with Some _ => [ICstr o] | None => [] end.
Definition type_items (c : line_ctor) : list log_item :=
  match c with CtorInfo t | CtorLevel _ t | CtorFunc _ _ t | CtorErrno _ t => opt_item t end.
Definition func_items (c : line_ctor) : list log_item :=
  match c with CtorFunc _ f _ => [ICstr f; ICstr (Some (lit ": " ++ [NUL]))] | _ => [] end.
Definition errno_items (errno : Z) : list log_item :=
  if errno =? 0 then []
  else [ICstr (literal " [ERRNO:"); IInt errno; ICstr (literal "]"); ICstr (Some (strerror errno)); ICstr (literal " ")].

(** The parts of a line, in order. *)
Definition line_items (c : line_ctor) (g : log_globals) (u : tm) (now : Timestamp) (items : list log_item)
    (errno : Z) (base : bytes) (line : Z) : list log_item :=
  type_items c ++ [IString (time_format u); IString (us_text (g_log_timezone g) now)] ++ func_items c ++ items ++
  errno_items errno ++ [ICstr (literal " - "); IString base; IChar ":"%char; IInt line; IChar LF].

Definition ctor_ok (c : line_ctor) : Prop := Forall item_ok (type_items c ++ func_items c).

(** The clock gives a second of the zone that has a four-digit year. *)
Definition clock_ok (g : log_globals) (now : Timestamp) (u : tm) : Prop :=
  0 < Z.quot now kMicroSecondsPerSecond /\
  zone_time (g_log_timezone g) (Z.quot now kMicroSecondsPerSecond) = Ok u /\ broken_down u.

(** The cache of the second of [now]. *)
Definition cached (g : log_globals) (now : Timestamp) (g' : log_globals) : Prop :=
  exists t, g' = set_cache t (Z.quot now kMicroSecondsPerSecond) g /\ cache_ok g'.

Lemma new_Data_spec level file line type now garbage g u :
  len garbage = kLogBufferSize -> Forall item_ok (opt_item type) -> cache_ok g -> clock_ok g now u ->
  returns (fun r => exists b, r.1 = mkData now b file level line /\ cached g now r.2 /\
      holds b (opt_item type ++ [IString (time_format u); IString (us_text (g_log_timezone g) now)]))
    (new_Data gmtime level file line type now garbage g).
Proof.
  intros Hg Ht Hc (Hs & Hu & Hb). unfold new_Data.
  assert (returns (fun b => holds b (opt_item type))
    (match type with Some _ => put_all (new_FixedBuffer garbage) [ICstr type] | None => Ok (new_FixedBuffer garbage) end)) as P.
  { pose proof (holds_new garbage Hg) as H0. destruct type; [|exact H0]. apply (put_holds _ []); [done|done|apply same_refl]. }
  eapply returns_bind; [exact P|]. intros b0 H0.
  eapply returns_mono; [|by apply (log_time_spec (mkData now b0 file level line) g u (opt_item type))].
  intros r (b & t & -> & Hh & Hk). exists b. split; [done|]. split; [by exists t|done].
Qed.

Lemma new_LogLine_spec c file line now garbage g u :
  len garbage = kLogBufferSize -> ctor_ok c -> cache_ok g -> clock_ok g now u ->
  returns (fun r => exists b, r.1 = mkData now b file (ctor_level c) line /\ cached g now r.2 /\
      holds b (type_items c ++ [IString (time_format u); IString (us_text (g_log_timezone g) now)] ++ func_items c))
    (new_LogLine gmtime c file line now garbage g).
Proof.
  intros Hg Hok Hc Hk. apply Forall_app in Hok as [Ht Hf].
  destruct c as [type|level type|level func type|to_abort type]; simpl in Ht, Hf; simpl func_items; rewrite ?app_nil_r;
    try (by apply new_Data_spec).
  unfold new_LogLine. eapply returns_bind; [by apply new_Data_spec|]. intros [d g'] (b & Hd & Hc' & Hh). simpl in Hd, Hc'. subst d. cbn [m_log_stream m_timestamp m_basename m_level m_line].
  eapply returns_bind; [apply put_holds; [exact Hh|exact Hf|apply same_refl]|]. intros b' Hb'. exists b'.
  split; [done|]. split; [done|]. by rewrite <- app_assoc in Hb'.
Qed.

Lemma destroy_LogLine_spec errno base line now level b l g :
  holds b l -> in_sw 32 errno -> in_sw 32 line -> NUL ∈ strerror errno -> len (strerror errno) < 2 ^ 63 -> len base < 2 ^ 31 ->
  destroy_LogLine strerror errno (mkData now b (mkBaseName (base ++ [NUL]) (len base)) level line) g =
  let text := line_text kLogBufferSize []
    (l ++ errno_items errno ++ [ICstr (literal " - "); IString base; IChar ":"%char; IInt line; IChar LF]) in
  Ok (if bool_decide (level = FATAL) then Aborted (flush (output text g)) else Returned (output text g)).
Proof.
  intros Hh He Hl Hz Hz' Hb. unfold destroy_LogLine. cbn [m_log_stream m_basename bn_data bn_size m_level m_line].
  assert (returns (fun b' => holds b' (l ++ errno_items errno))
    (if negb (errno =? 0) then
       put_all b [ICstr (literal " [ERRNO:"); IInt errno; ICstr (literal "]"); ICstr (Some (strerror errno)); ICstr (literal " ")]
     else Ok b)) as P.
  { unfold errno_items. destruct (errno =? 0); simpl negb; cbv iota; [by rewrite app_nil_r|].
    apply put_holds; [done| |apply same_refl]. rewrite !Forall_cons, Forall_nil. split_and!; (done || by apply literal_ok). }
  destruct (returns_ok _ _ P) as (b1 & -> & H1). rewrite bind_ok.
  destruct (returns_ok _ _ (put_holds b1 _ [ICstr (literal " - ")] [ICstr (literal " - ")] H1 ltac:(rewrite Forall_singleton; by apply literal_ok)
    (same_refl _))) as (b2 & -> & H2). rewrite bind_ok.
  assert (returns (fun b' => holds b' (((l ++ errno_items errno) ++ [ICstr (literal " - ")]) ++ [IString base]))
    (put_all b2 [IPiece (StringPiece_range (base ++ [NUL]) (len base))])) as P3.
  { apply put_holds; [done| |].
    - rewrite !Forall_cons, Forall_nil. split; [|done]. unfold item_ok, piece_wf, StringPiece_range. cbn [length_ ptr_]. len_lia.
    - rewrite Forall2_cons. split; [|done]. split; [done|]. cbn [item_text]. unfold piece_bytes. apply take_len_app. }
  destruct (returns_ok _ _ P3) as (b3 & E3 & H3). cbn [put_all put] in E3. unfold put_piece in E3.
  unfold stream_append. apply bind_ok_inv in E3 as (b3' & E3 & [= ->]). cbn [data size StringPiece_range ptr_ length_] in E3.
  rewrite E3, bind_ok.
  destruct (returns_ok _ _ (put_holds b3 _ [IChar ":"%char; IInt line; IChar LF] _ H3 ltac:(by rewrite !Forall_cons, Forall_nil)
    (same_refl _))) as (b4 & -> & H4). rewrite bind_ok. cbv zeta.
  destruct H4 as (_ & _ & ->). by rewrite <- !app_assoc.
Qed.

(** A statement; stated again as the theorem below. *)
Lemma log_statement_spec m dir base line func items now garbage errno0 errno g u :
  in_dir dir -> NUL ∉ dir -> NUL ∉ base -> "/"%char ∉ base -> len base < 2 ^ 31 -> in_sw 32 line ->
  ctor_ok (macro_ctor m func) -> Forall item_ok items -> len garbage = kLogBufferSize ->
  in_sw 32 errno -> NUL ∈ strerror errno -> len (strerror errno) < 2 ^ 63 ->
  cache_ok g -> clock_ok g now u ->
  if log_enabled m errno0 g then
    exists g1, cached g now g1 /\
      let text := line_text kLogBufferSize [] (line_items (macro_ctor m func) g u now items errno base line) in
      log_statement gmtime strerror m (dir ++ base ++ [NUL]) line func items now garbage errno0 errno g =
      Ok (if bool_decide (ctor_level (macro_ctor m func) = FATAL) then Aborted (flush (output text g1))
          else Returned (output text g1))
  else log_statement gmtime strerror m (dir ++ base ++ [NUL]) line func items now garbage errno0 errno g = Ok (Returned g).
Proof.
  intros Hd Hnd Hnb Hs Hlb Hline Hc Hi Hg He Hz Hz' Hk Hclk. unfold log_statement.
  destruct (log_enabled m errno0 g); [|done]. rewrite BaseName_array_spec by done. rewrite bind_ok.
  destruct (returns_ok _ _ (new_LogLine_spec _ (mkBaseName (base ++ [NUL]) (len base)) line _ _ _ _ Hg Hc Hk Hclk))
    as ([d g1] & -> & b & Ed & Hca & Hh). simpl in Ed, Hca. subst d. rewrite bind_ok.
  cbn [m_log_stream m_timestamp m_basename m_level m_line].
  destruct (returns_ok _ _ (put_holds b _ items items Hh Hi (same_refl _))) as (b' & -> & Hh'). rewrite bind_ok.
  exists g1. split; [done|]. rewrite (destroy_LogLine_spec errno base line now _ b' _ g1 Hh' He Hline Hz Hz' Hlb).
  unfold line_items. by rewrite <- !app_assoc.
Qed.

(** C36: a log statement.  When its level is enabled, the output function gets
    exactly one line: the tag, the time in the zone of the log with
    microseconds, the function for trace and debug, the items, the current
    [errno] if it is set, the base name of the file and the line number; every
    part is whole, or dropped when it may not fit in the 1000 bytes of the
    stream.  The time text is right whether it comes from the cache or not, the
    cache stays right, no assertion fails, and a fatal line is flushed before
    [abort()].  A disabled statement does nothing. *)
Theorem log_statement_text m dir base line func items now garbage errno0 errno g u :
  in_dir dir -> NUL ∉ dir -> NUL ∉ base -> "/"%char ∉ base -> len base < 2 ^ 31 -> in_sw 32 line ->
  ctor_ok (macro_ctor m func) -> Forall item_ok items -> len garbage = kLogBufferSize ->
  in_sw 32 errno -> NUL ∈ strerror errno -> len (strerror errno) < 2 ^ 63 ->
  cache_ok g -> clock_ok g now u ->
  if log_enabled m errno0 g then
    exists g1, cached g now g1 /\
      let text := line_text kLogBufferSize [] (line_items (macro_ctor m func) g u now items errno base line) in
      log_statement gmtime strerror m (dir ++ base ++ [NUL]) line func items now garbage errno0 errno g =
      Ok (if bool_decide (ctor_level (macro_ctor m func) = FATAL) then Aborted (flush (output text g1))
          else Returned (output text g1))
  else log_statement gmtime strerror m (dir ++ base ++ [NUL]) line func items now garbage errno0 errno g = Ok (Returned g).
Proof. apply log_statement_spec. Qed.

End text.

(** * Runs *)

Section demo.

(** A clock at 12:34:56 on a day of 2024, and its error texts. *)
Definition demo_gmtime (s : Z) : tm := mkTm (s mod 60) 34 12 5 1 124 0 0 false 0 [].
Definition demo_strerror (e : Z) : bytes := lit "Bad file descriptor" ++ [NUL].
Definition demo_now : Timestamp := 1707136496123456.

Lemma initial_cache_ok : cache_ok demo_gmtime initial_globals.
Proof. by split. Qed.

Lemma log_statement_text_witness :
  log_statement demo_gmtime demo_strerror LOG_ERROR (lit "flute/net/a.cc" ++ [NUL]) 42 None [ICstr (literal "fd = "); IInt (-1)]
    demo_now (replicate 1000 NUL) 0 9 initial_globals =
  Ok (Returned (output (lit "[ERROR] 20240205 12:34:56.123456 fd = -1 [ERRNO:9]Bad file descriptor  - a.cc:42" ++ [LF])
    (set_cache (lit "20240205 12:34:56" ++ replicate 47 NUL) 1707136496 initial_globals))).
Proof.
  destruct (log_statement_text demo_gmtime demo_strerror LOG_ERROR (lit "flute/net/") (lit "a.cc") 42 None
    [ICstr (literal "fd = "); IInt (-1)] demo_now (replicate 1000 NUL) 0 9 initial_globals
    (mkTm 56 34 12 5 1 124 0 0 false 28800 (lit "CST"))) as (g1 & Hc & E).
  - right. by exists (lit "flute/net").
  - not_in_lit.
  - not_in_lit.
  - not_in_lit.
  - by vm_compute.
  - by vm_compute.
  - constructor; [by apply literal_ok|constructor].
  - constructor; [by apply literal_ok|]. constructor; [by vm_compute|constructor].
  - by vm_compute.
  - by vm_compute.
  - apply elem_of_app. right. constructor.
  - by vm_compute.
  - exact initial_cache_ok.
  - by vm_compute.
  - change (lit "flute/net/" ++ lit "a.cc" ++ [NUL]) with (lit "flute/net/a.cc" ++ [NUL]) in E. rewrite E.
    assert (log_statement demo_gmtime demo_strerror LOG_ERROR (lit "flute/net/a.cc" ++ [NUL]) 42 None
      [ICstr (literal "fd = "); IInt (-1)] demo_now (replicate 1000 NUL) 0 9 initial_globals =
      Ok (Returned (output (lit "[ERROR] 20240205 12:34:56.123456 fd = -1 [ERRNO:9]Bad file descriptor  - a.cc:42" ++ [LF])
        (set_cache (lit "20240205 12:34:56" ++ replicate 47 NUL) 1707136496 initial_globals)))) as E2 by (by vm_compute).
    by rewrite <- E, E2.
Defined.

(** [set_timezone] keeps the cached text: the rest of the second is still
    printed in the old zone. *)
Example stale_zone :
  cache_ok demo_gmtime (set_cache (lit "20240205 12:34:56" ++ replicate 47 NUL) 1707136496 initial_globals) /\
  ~ cache_ok (fun s => mkTm (s mod 60) (s / 60 mod 60) (s / 3600 mod 24) 5 1 124 0 0 false 0 [])
      (set_timezone None (set_cache (lit "20240205 20:34:56" ++ replicate 47 NUL) 1707136496 initial_globals)).
Proof.
  split.
  - split; [done|]. intros _. exists (mkTm 56 34 12 5 1 124 0 0 false 28800 (lit "CST")). by split.
  - intros [_ Hc]. destruct Hc as (u & E & T); [done|]. vm_compute in E. injection E as <-. by vm_compute in T.
Qed.

End demo.
