(* ===== verification/AsyncLogging.v ===== *)
(** [flute/common/AsyncLogging.{h,cc}]: the double buffering between the
    threads that log and the thread that writes the log file.

    A [unique_ptr] is an option, [None] for null.  The system is a [config]:
    the shared members, and the backend thread at one of its four points where
    other threads can run.  The critical sections under [m_mutex] are single
    steps.  The calls of the log file are recorded in order.  Beside them the
    rounds of the loop are recorded, with what they dropped, for the proofs: the
    statements are about the calls, and say that there are rounds that account
    for them. *)

From S2P Require Import Prelude StringPiece Format LogStream.

(** * The shared members *)

Record AsyncLogging : Type := mkAsync {
  m_al_running : bool;                       (* m_is_running *)
  m_cur_buffer_ptr : option FixedBuffer;
  m_reserved_buffer_ptr : option FixedBuffer;
  m_used_buffers : list FixedBuffer
}.

Definition set_running (v : bool) (a : AsyncLogging) : AsyncLogging :=
  mkAsync v (m_cur_buffer_ptr a) (m_reserved_buffer_ptr a) (m_used_buffers a).

(** The constructor zeroes its two buffers. *)
Definition new_AsyncLogging (g1 g2 : bytes) : AsyncLogging :=
  mkAsync false (Some (fb_reset_buffer (new_FixedBuffer g1))) (Some (fb_reset_buffer (new_FixedBuffer g2))) [].

(** [AsyncLogging::append].  [garbage] is the memory of a new buffer, if one is
    needed. *)
Definition async_append (logline : bytes) (n : Z) (garbage : bytes) (a : AsyncLogging) : outcome AsyncLogging :=
  cur ← of_option FNull (m_cur_buffer_ptr a);
  if n <? fb_avail cur then
    cur ← stream_append cur logline n;
    Ok (mkAsync (m_al_running a) (Some cur) (m_reserved_buffer_ptr a) (m_used_buffers a))
  else
    let used := m_used_buffers a ++ [cur] in
    let '(cur, reserved) :=
      match m_reserved_buffer_ptr a with
      | Some r => (r, None)
      | None => (new_FixedBuffer garbage, None)
      end in
    cur ← stream_append cur logline n;
    Ok (mkAsync (m_al_running a) (Some cur) reserved used).

(** * The backend thread *)

Inductive file_call : Type := FileAppend (d : bytes) | FileFlush.

(** Where the thread is: about to test [m_is_running]; about to take the lock;
    waiting for [m_wakeup] with the lock released; writing; ended. *)
Inductive backend_pc : Type := BTest | BLock | BWait | BWrite | BEnded.

#[global] Instance backend_pc_eq_dec : EqDecision backend_pc.
Proof. solve_decision. Defined.

(** What one round wrote, with the notice if there was one, and what it erased
    unwritten. *)
Record round : Type := mkRound { r_notice : option bytes; r_written : list bytes; r_dropped : list bytes }.

Record config : Type := mkConfig {
  c_log : AsyncLogging;
  c_pc : backend_pc;
  new_buffer_ptr1 : option FixedBuffer;
  new_buffer_ptr2 : option FixedBuffer;
  buffers_to_write : list FixedBuffer;
  c_calls : list file_call;       (* on the LogFile [output] *)
  c_rounds : list round
}.

(** The thread up to its loop. *)
Definition backend_start (g1 g2 : bytes) (a : AsyncLogging) : outcome config :=
  assert_ (m_al_running a);;
  Ok (mkConfig a BTest (Some (fb_reset_buffer (new_FixedBuffer g1))) (Some (fb_reset_buffer (new_FixedBuffer g2))) [] [] []).

Definition is_empty_buffer (o : option FixedBuffer) : bool :=
  match o with Some b => fb_length b =? 0 | None => false end.

(** [while (m_is_running)] and the asserts at the head of the body; the flush
    after the loop. *)
Definition backend_test (c : config) : outcome config :=
  if m_al_running (c_log c) then
    assert_ (is_empty_buffer (new_buffer_ptr1 c));;
    assert_ (is_empty_buffer (new_buffer_ptr2 c));;
    assert_ (bool_decide (length (buffers_to_write c) = 0%nat));;
    Ok (mkConfig (c_log c) BLock (new_buffer_ptr1 c) (new_buffer_ptr2 c) (buffers_to_write c) (c_calls c) (c_rounds c))
  else
    Ok (mkConfig (c_log c) BEnded (new_buffer_ptr1 c) (new_buffer_ptr2 c) (buffers_to_write c) (c_calls c ++ [FileFlush]) (c_rounds c)).

(** The critical section behind the wait, and the assert after it. *)
Definition backend_swap (c : config) : outcome config :=
  let a := c_log c in
  cur ← of_option FNull (m_cur_buffer_ptr a);
  let used := m_used_buffers a ++ [cur] in
  let write := used in
  let '(reserved, new2) :=
    match m_reserved_buffer_ptr a with
    | None => (new_buffer_ptr2 c, None)
    | Some r => (Some r, new_buffer_ptr2 c)
    end in
  assert_ (bool_decide (length write <> 0%nat));;
  Ok (mkConfig (mkAsync (m_al_running a) (new_buffer_ptr1 c) reserved (buffers_to_write c)) BWrite None new2 write
        (c_calls c) (c_rounds c)).

Definition backend_lock (c : config) : outcome config :=
  match m_used_buffers (c_log c) with
  | [] => Ok (mkConfig (c_log c) BWait (new_buffer_ptr1 c) (new_buffer_ptr2 c) (buffers_to_write c) (c_calls c) (c_rounds c))
  | _ => backend_swap c
  end.

(** The notice about [n] dropped buffers; [now] is the formatted time. *)
Definition notice (now : bytes) (n : Z) : bytes :=
  snprintf 256 (lit "Dropped log messages at " ++ now ++ lit ", " ++ dec n ++ lit " larger buffers" ++ [LF]).

(** [if (!ptr) { assert; ptr = move(back()); pop_back(); reset_cur(); }]. *)
Definition take_back (ptr : option FixedBuffer) (l : list FixedBuffer) : outcome (option FixedBuffer * list FixedBuffer) :=
  match ptr with
  | Some b => Ok (Some b, l)
  | None =>
      assert_ (bool_decide (length l <> 0%nat));;
      b ← of_option FBounds (last l);
      Ok (Some (fb_reset_cur b), take (length l - 1) l)
  end.

(** The rest of the body, on the thread's own buffers. *)
Definition backend_write (now : bytes) (c : config) : outcome config :=
  let l := buffers_to_write c in
  let '(l, calls, r) :=
    if (2 <? len l) then
      let text := notice now (u64 (len l - 2)) in
      (take 2 l, c_calls c ++ [FileAppend text], mkRound (Some text) (fb_text <$> take 2 l) (fb_text <$> drop 2 l))
    else (l, c_calls c, mkRound None (fb_text <$> l) []) in
  let calls := calls ++ ((fun b => FileAppend (fb_text b)) <$> l) in
  let l := if 2 <? len l then take 2 l else l in
  '(new1, l) ← take_back (new_buffer_ptr1 c) l;
  '(new2, l) ← take_back (new_buffer_ptr2 c) l;
  Ok (mkConfig (c_log c) BTest new1 new2 [] (calls ++ [FileFlush]) (c_rounds c ++ [r])).

Definition backend_step (now : bytes) (c : config) : outcome config :=
  match c_pc c with
  | BTest => backend_test c
  | BLock => backend_lock c
  | BWait => backend_swap c
  | BWrite => backend_write now c
  | BEnded => Ok c
  end.

(** A step of the system: some thread logs, the backend moves, or the logging
    is stopped. *)
Inductive async_event : Type :=
| AvAppend (logline : bytes) (garbage : bytes)
| AvBackend (now : bytes)
| AvStop.

Definition on_log (f : AsyncLogging -> AsyncLogging) (c : config) : config :=
  mkConfig (f (c_log c)) (c_pc c) (new_buffer_ptr1 c) (new_buffer_ptr2 c) (buffers_to_write c) (c_calls c) (c_rounds c).

Definition async_step (ev : async_event) (c : config) : outcome config :=
  match ev with
  | AvAppend logline garbage => a ← async_append logline (s32 (len logline)) garbage (c_log c); Ok (on_log (fun _ => a) c)
  | AvBackend now => backend_step now c
  | AvStop => Ok (on_log (set_running false) c)
  end.

Fixpoint async_run (l : list async_event) (c : config) : outcome config :=
  match l with [] => Ok c | ev :: l => c ← async_step ev c; async_run l c end.

(** * The ledger *)

Definition text_of (o : option FixedBuffer) : bytes := match o with Some b => fb_text b | None => [] end.
Definition texts (l : list FixedBuffer) : bytes := concat (fb_text <$> l).

(** A message that can be stored: the others are lost ([FixedBuffer::append]
    ignores them). *)
Definition storable (m : bytes) : bool := len m <? kLogBufferSize.

(** The messages of a history, in order. *)
Definition messages (l : list async_event) : list bytes :=
  omap (fun ev => match ev with AvAppend m _ => if storable m then Some m else None | _ => None end) l.

(** The calls that a round makes, and the part of the messages it disposes of. *)
Definition round_calls (r : round) : list file_call :=
  match r_notice r with Some t => [FileAppend t] | None => [] end ++ (FileAppend <$> r_written r) ++ [FileFlush].
Definition round_text (r : round) : bytes := concat (r_written r) ++ concat (r_dropped r).

(** What is not written yet, oldest first. *)
Definition pending (c : config) : bytes :=
  texts (buffers_to_write c) ++ texts (m_used_buffers (c_log c)) ++ text_of (m_cur_buffer_ptr (c_log c)).

(** A buffer of the logger: a thousand bytes. *)
Definition buf_ok (b : FixedBuffer) : Prop := fb_wf b /\ len (fb_data b) = kLogBufferSize.
Definition fresh_buf (b : FixedBuffer) : Prop := buf_ok b /\ fb_cur b = 0.

Definition is_fresh (o : option FixedBuffer) : Prop := exists b, o = Some b /\ fresh_buf b.

Record async_inv (c : config) : Prop := {
  ai_cur : exists b, m_cur_buffer_ptr (c_log c) = Some b /\ buf_ok b;
  ai_used : Forall buf_ok (m_used_buffers (c_log c));
  ai_reserved : match m_reserved_buffer_ptr (c_log c) with
                | Some b => fresh_buf b
                | None => m_used_buffers (c_log c) <> []
                end;
  ai_write : Forall buf_ok (buffers_to_write c);
  ai_local :
    if decide (c_pc c = BWrite)
    then new_buffer_ptr1 c = None /\
         (if new_buffer_ptr2 c then is_fresh (new_buffer_ptr2 c) /\ buffers_to_write c <> []
          else (2 <= length (buffers_to_write c))%nat)
    else is_fresh (new_buffer_ptr1 c) /\ is_fresh (new_buffer_ptr2 c) /\ buffers_to_write c = []
}.

(** What the events bring. *)
Definition aev_ok (ev : async_event) : Prop :=
  match ev with AvAppend m g => len m < 2 ^ 31 /\ len g = kLogBufferSize | _ => True end.

Lemma buf_new g : len g = kLogBufferSize -> fresh_buf (new_FixedBuffer g).
Proof. intros Hg. unfold fresh_buf, buf_ok, fb_wf. cbn [fb_data fb_cur new_FixedBuffer]. rewrite Hg. done. Qed.

Lemma fresh_text b : fresh_buf b -> fb_text b = [].
Proof. intros [_ Hc]. unfold fb_text. rewrite Hc. by apply slice_empty. Qed.

(** Storing a message in a buffer. *)
Lemma buf_append b m :
  buf_ok b -> len m < 2 ^ 31 ->
  returns (fun b' => buf_ok b' /\ fb_text b' = if len m <? kLogBufferSize - fb_cur b then fb_text b ++ m else fb_text b)
    (stream_append b m (s32 (len m))).
Proof.
  intros [W L] Hm. unfold stream_append. change (2 ^ 31) with 2147483648 in Hm. pose proof (len_nonneg m).
  rewrite sw_small, uw_small by (lia || (split; simpl; lia)).
  eapply returns_mono; [|apply fb_append_spec; [done|lia]]. rewrite L. intros b' (W' & L' & T').
  split; [by split; [|congruence]|]. rewrite T'. by rewrite take_len.
Qed.

(** * One step *)

Definition disposed (c : config) : bytes := concat (round_text <$> c_rounds c).
(** Everything the logger was given, as it sees it. *)
Definition ledger (c : config) : bytes := disposed c ++ pending c.

Definition calls_ok (c : config) : Prop :=
  c_calls c = concat (round_calls <$> c_rounds c) ++ (if decide (c_pc c = BEnded) then [FileFlush] else []).

(** A round writes two buffers at most; it drops only buffers that are behind
    two written ones, and exactly then it gives the file a notice, with their
    number. *)
Definition round_ok (r : round) : Prop :=
  (length (r_written r) <= 2)%nat /\ (r_dropped r <> [] -> length (r_written r) = 2%nat) /\
  match r_notice r with
  | Some t => r_dropped r <> [] /\ exists now, t = notice now (u64 (len (r_dropped r)))
  | None => r_dropped r = []
  end.

(** The step keeps everything and adds the bytes [m] to the ledger. *)
Definition steps_to (c : config) (m : bytes) (c' : config) : Prop :=
  async_inv c' /\ ledger c' = ledger c ++ m /\ (calls_ok c -> calls_ok c') /\
  (Forall round_ok (c_rounds c) -> Forall round_ok (c_rounds c')).

Lemma texts_app l k : texts (l ++ k) = texts l ++ texts k.
Proof. unfold texts. by rewrite fmap_app, concat_app. Qed.

Lemma texts_one b : texts [b] = fb_text b.
Proof. apply app_nil_r. Qed.

Lemma buf_room b : buf_ok b -> fb_avail b = kLogBufferSize - fb_cur b.
Proof. intros [W L]. by rewrite fb_avail_wf, L. Qed.

Lemma async_append_inv c m g :
  async_inv c -> len m < 2 ^ 31 -> len g = kLogBufferSize ->
  returns (fun c' => steps_to c (if storable m then m else []) c' /\ c_pc c' = c_pc c /\ c_rounds c' = c_rounds c /\
      buffers_to_write c' = buffers_to_write c /\ m_al_running (c_log c') = m_al_running (c_log c))
    (async_step (AvAppend m g) c).
Proof.
  intros [(b & Hb & Ob) Hu Hr Hw Hl] Hm Hg. unfold async_step, async_append. rewrite Hb. cbn [of_option]. rewrite bind_ok.
  assert (s32 (len m) = len m) as Em.
  { pose proof (len_nonneg m). change (2 ^ 31) with 2147483648 in Hm. apply sw_small; [lia|split; simpl; lia]. }
  rewrite Em, buf_room by done.
  destruct (Z.ltb_spec (len m) (kLogBufferSize - fb_cur b)) as [Hs|Hs].
  - destruct (returns_ok _ _ (buf_append b m Ob Hm)) as (b' & E & Ob' & T). rewrite Em in E. rewrite E, !bind_ok.
    rewrite (proj2 (Z.ltb_lt _ _) Hs) in T. cbn [returns]. split; [|done]. split_and!; [|..|done|done].
    + constructor; try done. by exists b'.
    + unfold ledger, pending, disposed. cbn [c_log c_rounds on_log buffers_to_write m_used_buffers m_cur_buffer_ptr text_of].
      rewrite Hb, T. cbn [text_of]. unfold storable. destruct (Z.ltb_spec (len m) kLogBufferSize); [by rewrite <- !app_assoc|].
      destruct Ob as [[? _] _]. lia.
  - assert (exists r, fresh_buf r /\ (match m_reserved_buffer_ptr (c_log c) with Some r => (r, None) | None => (new_FixedBuffer g, None) end)
      = (r, None : option FixedBuffer)) as (r & Fr & ->).
    { destruct (m_reserved_buffer_ptr (c_log c)) as [r|]; [by exists r|]. exists (new_FixedBuffer g). split; [by apply buf_new|done]. }
    destruct (returns_ok _ _ (buf_append r m (proj1 Fr) Hm)) as (b' & E & Ob' & T). rewrite Em in E. rewrite E, !bind_ok.
    rewrite (fresh_text r Fr), (proj2 Fr), Z.sub_0_r in T. cbn [returns]. split; [|done]. split_and!; [|..|done|done].
    + constructor; simpl; try done; [by exists b'|by apply Forall_app; split; [|by apply Forall_singleton]|].
      by destruct (m_used_buffers (c_log c)).
    + unfold ledger, pending, disposed. cbn [c_log c_rounds on_log buffers_to_write m_used_buffers m_cur_buffer_ptr text_of].
      rewrite Hb, T, texts_app, texts_one. cbn [text_of]. unfold storable. by rewrite <- !app_assoc.
Qed.

Lemma backend_test_inv c :
  async_inv c -> c_pc c = BTest ->
  returns (fun c' => steps_to c [] c' /\ c_rounds c' = c_rounds c /\ buffers_to_write c' = [] /\
      c_pc c' = (if m_al_running (c_log c) then BLock else BEnded) /\ c_log c' = c_log c) (backend_test c).
Proof.
  intros [Hb Hu Hr Hw Hl] Hp. rewrite decide_False in Hl by congruence. destruct Hl as ((b1 & E1 & F1) & (b2 & E2 & F2) & E3).
  assert (forall b, fresh_buf b -> fb_length b =? 0 = true) as Z0 by (intros b [_ Hc]; unfold fb_length; by rewrite Hc).
  unfold backend_test. rewrite E1, E2, E3. cbn [is_empty_buffer]. rewrite !Z0 by done.
  assert (forall pc calls, async_inv (mkConfig (c_log c) pc (Some b1) (Some b2) [] calls (c_rounds c)) \/ pc = BWrite) as I.
  { intros pc calls. destruct (decide (pc = BWrite)) as [|Hn]; [by right|left]. constructor; try done. cbn [c_pc].
    rewrite decide_False by done. split_and!; [by exists b1|by exists b2|done]. }
  destruct (m_al_running (c_log c)); cbn [assert_ is_empty_buffer]; rewrite ?bind_ok; cbn [returns]; (split; [|done]).
  - destruct (I BLock (c_calls c)) as [I'|]; [|done]. split_and!; [done| |..|done].
    + unfold ledger, pending, disposed. cbn [c_log c_rounds buffers_to_write]. by rewrite E3, app_nil_r.
    + unfold calls_ok. cbn [c_pc c_calls c_rounds]. by rewrite Hp.
  - destruct (I BEnded (c_calls c ++ [FileFlush])) as [I'|]; [|done]. split_and!; [done| |..|done].
    + unfold ledger, pending, disposed. cbn [c_log c_rounds buffers_to_write]. by rewrite E3, app_nil_r.
    + unfold calls_ok. cbn [c_pc c_calls c_rounds]. rewrite Hp. intros ->. by rewrite !app_nil_r.
Qed.

(** The swap: everything stored so far is now the backend's to write. *)
Lemma backend_swap_inv c :
  async_inv c -> c_pc c <> BWrite -> c_pc c <> BEnded ->
  returns (fun c' => steps_to c [] c' /\ c_rounds c' = c_rounds c /\ c_pc c' = BWrite /\
      texts (buffers_to_write c') = pending c /\ m_al_running (c_log c') = m_al_running (c_log c)) (backend_swap c).
Proof.
  intros [(b & Hb & Ob) Hu Hr Hw Hl] Hp Hp'. rewrite decide_False in Hl by done. destruct Hl as ((b1 & E1 & F1) & (b2 & E2 & F2) & E3).
  unfold backend_swap. rewrite Hb, E1, E2, E3. cbn [of_option]. rewrite bind_ok. cbv zeta.
  assert (Forall buf_ok (m_used_buffers (c_log c) ++ [b])) as Hub by (apply Forall_app; split; [done|by apply Forall_singleton]).
  assert (length (m_used_buffers (c_log c) ++ [b]) <> 0%nat) as Hne by (rewrite length_app; simpl; lia).
  assert (texts (m_used_buffers (c_log c) ++ [b]) = pending c) as Ht.
  { unfold pending. rewrite Hb, E3, texts_app, texts_one. done. }
  assert (forall (res n2 : option FixedBuffer), (match res with Some r => fresh_buf r | None => False end) ->
    (if n2 then is_fresh n2 /\ m_used_buffers (c_log c) ++ [b] <> [] else (2 <= length (m_used_buffers (c_log c) ++ [b]))%nat) ->
    steps_to c [] (mkConfig (mkAsync (m_al_running (c_log c)) (Some b1) res []) BWrite None n2 (m_used_buffers (c_log c) ++ [b])
      (c_calls c) (c_rounds c))) as S.
  { intros res n2 Hres Hn2. split_and!; [|..|done].
    - constructor; cbn [c_log c_pc m_cur_buffer_ptr m_used_buffers m_reserved_buffer_ptr buffers_to_write new_buffer_ptr1 new_buffer_ptr2];
        [exists b1; split; [done|apply F1]|by apply Forall_nil|by destruct res|done|].
      by rewrite decide_True by done.
    - unfold ledger at 1, pending, disposed. cbn [c_log c_rounds buffers_to_write m_used_buffers m_cur_buffer_ptr text_of].
      rewrite Ht, (fresh_text b1 F1). unfold texts. simpl. rewrite !app_nil_r. done.
    - unfold calls_ok. cbn [c_pc c_calls c_rounds]. by rewrite decide_False by done. }
  destruct (m_reserved_buffer_ptr (c_log c)) as [r|]; (rewrite assert_true by (by apply bool_decide_eq_true)); rewrite bind_ok;
    cbn [returns]; (split; [apply S|done]); try done.
  - split; [by exists b2|]. by destruct (m_used_buffers (c_log c)).
  - rewrite length_app. simpl. destruct (m_used_buffers (c_log c)); [done|simpl; lia].
Qed.

Lemma reset_cur_fresh b : buf_ok b -> fresh_buf (fb_reset_cur b).
Proof. intros [[? ?] L]. split; [|done]. split; [|done]. split; [simpl; lia|done]. Qed.

(** Taking a buffer back for a null pointer. *)
Lemma take_back_null l :
  Forall buf_ok l -> l <> [] ->
  returns (fun r => is_fresh r.1 /\ length r.2 = (length l - 1)%nat /\ Forall buf_ok r.2) (take_back None l).
Proof.
  intros Hl Hn. unfold take_back. rewrite assert_true by (apply bool_decide_eq_true; by destruct l). rewrite bind_ok.
  destruct (last l) as [b|] eqn:E; [|by apply last_None in E]. cbn [of_option]. rewrite bind_ok. cbn [returns].
  split_and!; simpl.
  - eexists. split; [done|]. apply reset_cur_fresh. rewrite Forall_forall in Hl. apply Hl.
    rewrite last_lookup in E. by eapply list_elem_of_lookup_2.
  - rewrite length_take. lia.
  - by apply Forall_take.
Qed.

Lemma take_back_both l (n2 : option FixedBuffer) :
  Forall buf_ok l -> (if n2 then is_fresh n2 /\ l <> [] else (2 <= length l)%nat) ->
  returns (fun r => is_fresh r.1 /\ is_fresh r.2)
    ('(n1, l) ← take_back None l; '(n2, l) ← take_back n2 l; Ok (n1, n2)).
Proof.
  intros Hl Hn. assert (l <> []) as Hne by (destruct n2; [apply Hn|destruct l; [simpl in Hn; lia|done] ]).
  eapply returns_bind; [by apply take_back_null|]. intros [r l'] (Hf & Hlen & Hl').
  destruct n2 as [b2|].
  - cbn [take_back]. rewrite bind_ok. cbn [returns]. split; [done|apply Hn].
  - eapply returns_bind; [apply take_back_null; [done|]|].
    + simpl in *. destruct l'; [simpl in *; lia|done].
    + intros [r2 l2] (Hf2 & _). done.
Qed.

Lemma concat_texts l : concat (fb_text <$> l) = texts l.
Proof. done. Qed.

(** The write: everything the backend took is disposed of. *)
Lemma backend_write_inv now c :
  async_inv c -> c_pc c = BWrite ->
  returns (fun c' => steps_to c [] c' /\ c_pc c' = BTest /\ c_log c' = c_log c /\
      disposed c' = disposed c ++ texts (buffers_to_write c)) (backend_write now c).
Proof.
  intros [Hb Hu Hr Hw Hl] Hp. rewrite decide_True in Hl by done. destruct Hl as [E1 Hl].
  set (l := buffers_to_write c) in *. unfold backend_write. fold l. rewrite E1.
  set (l2 := if 2 <? len l then take 2 l else l).
  assert (forall r calls, concat (r_written r) ++ concat (r_dropped r) = texts l -> round_ok r ->
    (c_calls c = concat (round_calls <$> c_rounds c) -> calls ++ [FileFlush] = c_calls c ++ round_calls r) ->
    returns (fun c' => steps_to c [] c' /\ c_pc c' = BTest /\ c_log c' = c_log c /\ disposed c' = disposed c ++ texts l)
      ('(new1, l) ← take_back None l2; '(new2, l) ← take_back (new_buffer_ptr2 c) l;
       Ok (mkConfig (c_log c) BTest new1 new2 [] (calls ++ [FileFlush]) (c_rounds c ++ [r])))) as K.
  { intros r calls Hr' Hrok Hcalls.
    assert (Forall buf_ok l2 /\ (if new_buffer_ptr2 c then is_fresh (new_buffer_ptr2 c) /\ l2 <> [] else (2 <= length l2)%nat)) as [Hl2 Hn2].
    { unfold l2. destruct (Z.ltb_spec 2 (len l)) as [H2|]; [|done]. unfold len in H2. split; [by apply Forall_take|].
      destruct (new_buffer_ptr2 c); [split; [apply Hl|]|rewrite length_take; lia]. by destruct l. }
    pose proof (take_back_both l2 (new_buffer_ptr2 c) Hl2 Hn2) as B.
    destruct (take_back None l2) as [[n1 k]|]; [|done]. rewrite bind_ok in B. rewrite bind_ok.
    destruct (take_back (new_buffer_ptr2 c) k) as [[n2 k2]|]; [|by simpl in B]. simpl in B. rewrite bind_ok. cbn [returns].
    destruct B as [F1 F2]. 
    assert (disposed (mkConfig (c_log c) BTest n1 n2 [] (calls ++ [FileFlush]) (c_rounds c ++ [r])) = disposed c ++ texts l) as D.
    { unfold disposed. cbn [c_rounds]. rewrite fmap_app, concat_app. cbn. unfold round_text. by rewrite Hr', app_nil_r. }
    split_and!; try done. split_and!.
    - by constructor.
    - unfold ledger. rewrite D. unfold pending. cbn [c_log buffers_to_write]. fold l. by rewrite app_nil_r, <- !app_assoc.
    - unfold calls_ok. cbn [c_pc c_calls c_rounds]. rewrite Hp, !decide_False by done. rewrite !app_nil_r. intros Hc.
      rewrite fmap_app, concat_app. cbn. by rewrite Hcalls, Hc, app_nil_r by done.
    - intros Hro. apply Forall_app. split; [done|by apply Forall_singleton]. }
  assert (forall k : list FixedBuffer, FileAppend <$> (fb_text <$> k) = (fun b => FileAppend (fb_text b)) <$> k) as Hf
    by (intros k; by rewrite <- list_fmap_compose).
  unfold l2 in K. destruct (Z.ltb_spec 2 (len l)) as [H2|H2].
  - assert (len (take 2 l) = 2) as L2 by (rewrite len_take; lia). cbv zeta. rewrite (proj2 (Z.ltb_ge 2 (len (take 2 l)))) by lia.
    apply K.
    + cbn [r_written r_dropped]. rewrite !concat_texts, <- texts_app. by rewrite take_drop.
    + unfold len in L2, H2. split_and!; cbn [r_written r_dropped r_notice]; rewrite ?length_fmap; [lia..|]. split.
      * intros E%(f_equal length). rewrite length_fmap, length_drop in E. simpl in E. lia.
      * exists now. f_equal. f_equal. unfold len. rewrite length_fmap, length_drop. lia.
    + intros _. unfold round_calls. cbn [r_notice r_written]. by rewrite Hf, <- !app_assoc.
  - cbv zeta. rewrite (proj2 (Z.ltb_ge 2 (len l))) by lia. apply K.
    + cbn [r_written r_dropped]. by rewrite concat_texts, app_nil_r.
    + split_and!; cbn [r_written r_dropped r_notice]; [rewrite length_fmap; unfold len in H2; lia|done|done].
    + intros _. unfold round_calls. cbn [r_notice r_written]. by rewrite Hf, <- !app_assoc.
Qed.

Lemma backend_lock_inv c :
  async_inv c -> c_pc c = BLock ->
  returns (fun c' => steps_to c [] c' /\ c_rounds c' = c_rounds c /\ m_al_running (c_log c') = m_al_running (c_log c) /\
      (c_pc c' = BWait \/ c_pc c' = BWrite /\ texts (buffers_to_write c') = pending c)) (backend_lock c).
Proof.
  intros I Hp. unfold backend_lock. destruct (m_used_buffers (c_log c)) as [|b l] eqn:Hu.
  - cbn [returns]. destruct I as [Hb Hu' Hr Hw Hl]. split; [|by split_and!; [..|left]]. split_and!; [by rewrite Hp in Hl|..|done].
    + unfold ledger. by rewrite app_nil_r.
    + unfold calls_ok. cbn [c_pc c_calls c_rounds]. by rewrite Hp.
  - eapply returns_mono; [|apply backend_swap_inv; [done|congruence..] ]. intros c' (S & R & P & T & M).
    split_and!; [done|done|done|by right].
Qed.

Lemma backend_step_inv now c : async_inv c -> returns (steps_to c []) (backend_step now c).
Proof.
  intros I. unfold backend_step. destruct (c_pc c) eqn:Hp.
  - eapply returns_mono; [|by apply backend_test_inv]. by intros c' [? _].
  - eapply returns_mono; [|by apply backend_lock_inv]. by intros c' [? _].
  - eapply returns_mono; [|apply backend_swap_inv; [done|congruence..] ]. by intros c' [? _].
  - eapply returns_mono; [|by apply backend_write_inv]. by intros c' [? _].
  - cbn [returns]. split; [done|]. split; [by rewrite app_nil_r|done].
Qed.

Lemma async_step_inv ev c : async_inv c -> aev_ok ev -> returns (steps_to c (concat (messages [ev]))) (async_step ev c).
Proof.
  intros I Hok. destruct ev as [m g|now|].
  - destruct Hok as [Hm Hg]. eapply returns_mono; [|by apply async_append_inv]. intros c' [S _].
    unfold messages. simpl. destruct (storable m); simpl; by rewrite ?app_nil_r.
  - by apply backend_step_inv.
  - cbn [async_step returns]. destruct I as [Hb Hu Hr Hw Hl]. split; [|split; [by rewrite app_nil_r|done] ].
    by constructor.
Qed.

Lemma messages_cons ev l : messages (ev :: l) = messages [ev] ++ messages l.
Proof. destruct ev; simpl; try done. unfold messages. simpl. by destruct (storable logline). Qed.

Lemma steps_to_trans c1 m1 c2 m2 c3 : steps_to c1 m1 c2 -> steps_to c2 m2 c3 -> steps_to c1 (m1 ++ m2) c3.
Proof.
  intros (I1 & L1 & C1 & R1) (I2 & L2 & C2 & R2). split_and!; [done| |auto|auto]. by rewrite L2, L1, app_assoc.
Qed.

Lemma async_run_inv l : forall c, async_inv c -> Forall aev_ok l -> returns (steps_to c (concat (messages l))) (async_run l c).
Proof.
  induction l as [|ev l IH]; intros c I Hl; [by split; [|split; [by rewrite app_nil_r|] ]|]. apply Forall_cons in Hl as [Hev Hl].
  cbn [async_run]. eapply returns_bind; [by apply async_step_inv|]. intros c1 S1.
  eapply returns_mono; [|apply IH; [apply S1|done] ]. intros c2 S2. rewrite messages_cons, concat_app. by eapply steps_to_trans.
Qed.

(** The logger after [start()]. *)
Definition async_start (g1 g2 g3 g4 : bytes) : outcome config := backend_start g3 g4 (set_running true (new_AsyncLogging g1 g2)).

Definition memory_ok (g1 g2 g3 g4 : bytes) : Prop :=
  len g1 = kLogBufferSize /\ len g2 = kLogBufferSize /\ len g3 = kLogBufferSize /\ len g4 = kLogBufferSize.

Lemma reset_buffer_fresh g : len g = kLogBufferSize -> fresh_buf (fb_reset_buffer (new_FixedBuffer g)).
Proof.
  intros Hg. apply (buf_new (replicate (length g) NUL)). by rewrite len_replicate.
Qed.

Lemma async_start_inv g1 g2 g3 g4 :
  memory_ok g1 g2 g3 g4 ->
  returns (fun c => async_inv c /\ ledger c = [] /\ c_calls c = [] /\ c_rounds c = [] /\ c_pc c = BTest /\ m_al_running (c_log c) = true)
    (async_start g1 g2 g3 g4).
Proof.
  intros (H1 & H2 & H3 & H4). pose proof (reset_buffer_fresh g1 H1) as F1.
  unfold async_start, backend_start. cbn [set_running new_AsyncLogging m_al_running assert_]. rewrite bind_ok. cbn [returns].
  split_and!; try done. constructor; try done; cbn.
  - eexists. split; [done|apply F1].
  - by apply reset_buffer_fresh.
  - split_and!; [eexists; split; [done|by apply reset_buffer_fresh]..|done].
Qed.

(** The calls on the log file are those of the rounds [rs], all of which are in
    order, and of the flush at the end. *)
Definition accounts (rs : list round) (c : config) : Prop :=
  c_calls c = concat (round_calls <$> rs) ++ (if decide (c_pc c = BEnded) then [FileFlush] else []) /\
  Forall round_ok rs.

(** The double buffering of the log.  Whatever the threads do and however
    they interleave, no assertion fails and no null buffer is used; what the
    log file is given is, round by round of the backend thread, the notice
    about dropped buffers if there are any, two buffers at most, and a flush;
    and the texts written, the texts dropped and the texts still in the
    buffers are together exactly the messages of less than a thousand bytes,
    in the order in which they were appended. *)
Theorem async_log_ledger g1 g2 g3 g4 l :
  memory_ok g1 g2 g3 g4 -> Forall aev_ok l ->
  exists c0 c rs, async_start g1 g2 g3 g4 = Ok c0 /\ async_run l c0 = Ok c /\ accounts rs c /\
    concat (round_text <$> rs) ++ pending c = concat (messages l).
Proof.
  intros Hm Hl. destruct (returns_ok _ _ (async_start_inv _ _ _ _ Hm)) as (c0 & E0 & I0 & L0 & C0 & R0 & P0 & _).
  destruct (returns_ok _ _ (async_run_inv l c0 I0 Hl)) as (c & E & I & L & C & R). exists c0, c, (c_rounds c).
  split_and!; [done|done| |].
  - split; [apply C; unfold calls_ok; by rewrite C0, R0, P0|]. apply R. by rewrite R0.
  - rewrite L0 in L. exact L.
Qed.

(** * Every message is dealt with

    [rank m c] bounds the steps of the backend thread until the bytes [m], the
    first of the ledger, are all disposed of. *)
Definition rank (m : bytes) (c : config) : nat :=
  if decide (m `prefix_of` disposed c) then 0
  else match c_pc c with
       | BWrite => if decide (m `prefix_of` disposed c ++ texts (buffers_to_write c)) then 1 else 5
       | BWait => 2 | BLock => 3 | BTest => 4 | BEnded => 6
       end.

(** The logging goes on. *)
Record live (m : bytes) (c : config) : Prop := {
  lv_inv : async_inv c;
  lv_run : m_al_running (c_log c) = true;
  lv_pc : c_pc c <> BEnded;
  lv_ledger : m `prefix_of` ledger c
}.

Lemma live_step m c c' x :
  live m c -> steps_to c x c' -> m_al_running (c_log c') = true -> c_pc c' <> BEnded -> live m c'.
Proof.
  intros L (I & E & _) Hr Hp. constructor; try done. rewrite E. eapply prefix_app_r, L.
Qed.

Lemma same_rounds_disposed c c' : c_rounds c' = c_rounds c -> disposed c' = disposed c.
Proof. unfold disposed. by intros ->. Qed.

Lemma backend_rank m now c :
  live m c -> returns (fun c' => live m c' /\ (rank m c' <= rank m c - 1)%nat) (backend_step now c).
Proof.
  intros L. pose proof L as [I Hr Hp Hl]. unfold backend_step. destruct (c_pc c) eqn:Hpc; [| | | |done].
  - eapply returns_mono; [|by apply backend_test_inv]. rewrite Hr. intros c' (S & R & W & P & G).
    split; [eapply live_step; try done; congruence|]. apply same_rounds_disposed in R. unfold rank. rewrite R, P, Hpc.
    destruct (decide _); simpl; lia.
  - eapply returns_mono; [|by apply backend_lock_inv]. intros c' (S & R & G & P). apply same_rounds_disposed in R.
    split; [eapply live_step; try done; [congruence|]; destruct P as [->|[-> _] ]; done|]. unfold rank. rewrite R, Hpc.
    destruct (decide (m `prefix_of` disposed c)); [lia|]. destruct P as [->|[-> ->] ]; [lia|].
    fold (ledger c). destruct (decide _); [simpl; lia|done].
  - eapply returns_mono; [|apply backend_swap_inv; [done|congruence..] ]. intros c' (S & R & P & T & G). apply same_rounds_disposed in R.
    split; [eapply live_step; try done; congruence|]. unfold rank. rewrite R, P, T, Hpc. fold (ledger c).
    destruct (decide (m `prefix_of` disposed c)); [lia|]. destruct (decide _); [simpl; lia|done].
  - eapply returns_mono; [|by apply backend_write_inv]. intros c' (S & P & G & D).
    split; [eapply live_step; try done; congruence|]. unfold rank. rewrite D, P, Hpc.
    destruct (decide (m `prefix_of` disposed c)).
    { rewrite decide_True; [lia|]. by apply prefix_app_r. }
    destruct (decide (m `prefix_of` _ ++ _)); simpl; lia.
Qed.

Lemma append_rank m t g c :
  live m c -> aev_ok (AvAppend t g) -> returns (fun c' => live m c' /\ rank m c' = rank m c) (async_step (AvAppend t g) c).
Proof.
  intros L [Ht Hg]. eapply returns_mono; [|apply async_append_inv; [apply L|done..] ].
  intros c' (S & P & R & W & G). split.
  - eapply live_step; try done; [rewrite G; apply L|rewrite P; apply L].
  - unfold rank. by rewrite (same_rounds_disposed _ _ R), P, W.
Qed.

(** The steps of the backend thread in a history. *)
Fixpoint backend_steps (l : list async_event) : nat :=
  match l with [] => 0 | AvBackend _ :: l => S (backend_steps l) | _ :: l => backend_steps l end.

Lemma rank_run m l : forall c,
  live m c -> Forall aev_ok l -> AvStop ∉ l ->
  returns (fun c' => live m c' /\ (rank m c' <= rank m c - backend_steps l)%nat) (async_run l c).
Proof.
  induction l as [|ev l IH]; intros c L Hl Hs; [cbn; split; [done|lia]|]. apply Forall_cons in Hl as [Hev Hl].
  apply not_elem_of_cons in Hs as [Hne Hs]. cbn [async_run]. destruct ev as [t g|now|]; [| |done].
  - eapply returns_bind; [by apply append_rank|]. intros c1 [L1 R1]. eapply returns_mono; [|by apply IH].
    intros c2 [L2 R2]. split; [done|]. change (backend_steps (AvAppend t g :: l)) with (backend_steps l). lia.
  - eapply returns_bind; [by apply backend_rank|]. intros c1 [L1 R1]. eapply returns_mono; [|by apply IH].
    intros c2 [L2 R2]. split; [done|]. change (backend_steps (AvBackend now :: l)) with (S (backend_steps l)). lia.
Qed.


(** * Runs *)

Definition zeros : bytes := replicate 1000 NUL.
Definition demo_log : list async_event :=
  [AvAppend (lit "one ") zeros; AvBackend []; AvBackend []; AvAppend (lit "two ") zeros; AvBackend []; AvAppend (lit "three ") zeros;
   AvBackend []].

Lemma zeros_ok : memory_ok zeros zeros zeros zeros.
Proof. by vm_compute. Qed.

Lemma async_log_ledger_witness :
  exists c0 c rs, async_start zeros zeros zeros zeros = Ok c0 /\ async_run demo_log c0 = Ok c /\ accounts rs c /\
    concat (round_text <$> rs) ++ pending c = lit "one two three " /\
    c_calls c = [FileAppend (lit "one two "); FileFlush].
Proof.
  destruct (async_log_ledger zeros zeros zeros zeros demo_log zeros_ok) as (c0 & c & rs & E0 & E & A & L).
  { by repeat constructor. }
  exists c0, c, rs. split_and!; [done|done|done|by rewrite L|]. vm_compute in E0. injection E0 as <-. vm_compute in E. by injection E as <-.
Defined.


(** Stopping loses what the buffers hold: the loop ends without a last round. *)
Definition stopped : outcome config :=
  c0 ← async_start zeros zeros zeros zeros;
  async_run [AvAppend (lit "last words") zeros; AvStop; AvBackend []; AvBackend []] c0.

Example stop_loses_messages :
  (c ← stopped; Ok (c_pc c, c_calls c, pending c)) = Ok (BEnded, [FileFlush], lit "last words").
Proof. vm_compute. reflexivity. Qed.
