(* ===== verification/Deques.v ===== *)
(** [flute/common/BoundedBlockingDeque.h] as a monitor shared by any number of
    threads.

    The body of each member function is a critical section under
    [m_queue_mutex], cut where [Condition::wait] releases the lock: it either
    completes or goes to sleep, and starts again from its loop test when it is
    woken.  A [monitor] is the object with the threads that want the lock and
    those that sleep on the two conditions; an event says which thread gets the
    lock and which sleeper a signal wakes; spurious wake-ups and calls of
    [set_size] are events. *)

From S2P Require Import Prelude.

(** * The object *)

Definition kDefaultDequeSize : Z := 10.

Record BoundedBlockingDeque (T : Type) : Type := mkDeque {
  m_deque : list (Z * T);       (* <id, value> *)
  m_max_queue_size : Z;
  m_id_counter : Z
}.
Arguments mkDeque {T}.
Arguments m_deque {T}.
Arguments m_max_queue_size {T}.
Arguments m_id_counter {T}.

Definition new_Deque {T} (max_deque_size : Z) : BoundedBlockingDeque T := mkDeque [] max_deque_size 0.

(** [take_front] with the lock held: [None] when it has to wait. *)
Definition take_front {T} (d : BoundedBlockingDeque T) : outcome (option (Z * T * BoundedBlockingDeque T)) :=
  match m_deque d with
  | [] => Ok None
  | front :: rest =>
      assert_ (negb (bool_decide (length (m_deque d) = 0%nat)));;
      Ok (Some (front, mkDeque rest (m_max_queue_size d) (m_id_counter d)))
  end.

(** [push]: the id of an element is the counter, as an [int]. *)
Definition push {T} (x : T) (push_back : bool) (d : BoundedBlockingDeque T) : outcome (option (BoundedBlockingDeque T)) :=
  if len (m_deque d) =? m_max_queue_size d then Ok None
  else
    assert_ (len (m_deque d) <? m_max_queue_size d);;
    let counter := u64 (m_id_counter d + 1) in
    let e := (s32 counter, x) in
    Ok (Some (mkDeque (if push_back then m_deque d ++ [e] else e :: m_deque d) (m_max_queue_size d) counter)).

Definition is_full {T} (d : BoundedBlockingDeque T) : bool := len (m_deque d) =? m_max_queue_size d.
Definition deque_size {T} (d : BoundedBlockingDeque T) : Z := len (m_deque d).
Definition set_size {T} (size : Z) (d : BoundedBlockingDeque T) : BoundedBlockingDeque T :=
  mkDeque (m_deque d) size (m_id_counter d).

(** * The threads *)

Section monitor.
Context {T : Type}.

Definition thread_id : Type := Z.

Inductive deque_call : Type := CTake | CPush (x : T) (push_back : bool).

Definition is_take (c : thread_id * deque_call) : bool := match c.2 with CTake => true | CPush _ _ => false end.

Record monitor : Type := mkMonitor {
  mo_deque : BoundedBlockingDeque T;
  mo_ready : list (thread_id * deque_call);        (* about to take the lock *)
  mo_not_empty : list (thread_id * deque_call);    (* asleep on m_cond_not_empty *)
  mo_not_full : list (thread_id * deque_call);     (* asleep on m_cond_not_full *)
  mo_pushed : list (Z * T);                        (* completed pushes, in order *)
  mo_taken : list (Z * T)                          (* completed takes, in order *)
}.

(** [Condition::notify]: it wakes one sleeper, the one of the event, if there
    is any. *)
Definition notify (w : nat) (asleep ready : list (thread_id * deque_call))
    : list (thread_id * deque_call) * list (thread_id * deque_call) :=
  let w := (w mod length asleep)%nat in
  match asleep !! w with
  | Some t => (delete w asleep, ready ++ [t])
  | None => (asleep, ready)
  end.

(** The thread [t] gets the lock; [ready] are the others. *)
Definition run_call (t : thread_id * deque_call) (ready : list (thread_id * deque_call)) (w : nat) (m : monitor) : outcome monitor :=
  match t.2 with
  | CTake =>
      r ← take_front (mo_deque m);
      Ok (match r with
          | None => mkMonitor (mo_deque m) ready (mo_not_empty m ++ [t]) (mo_not_full m) (mo_pushed m) (mo_taken m)
          | Some (e, d) =>
              let '(asleep, ready) := notify w (mo_not_full m) ready in
              mkMonitor d ready (mo_not_empty m) asleep (mo_pushed m) (mo_taken m ++ [e])
          end)
  | CPush x back =>
      r ← push x back (mo_deque m);
      Ok (match r with
          | None => mkMonitor (mo_deque m) ready (mo_not_empty m) (mo_not_full m ++ [t]) (mo_pushed m) (mo_taken m)
          | Some d =>
              let '(asleep, ready) := notify w (mo_not_empty m) ready in
              mkMonitor d ready asleep (mo_not_full m) (mo_pushed m ++ [(s32 (m_id_counter d), x)]) (mo_taken m)
          end)
  end.

Inductive monitor_event : Type :=
| MvCall (t : thread_id) (c : deque_call)   (* a thread calls a member *)
| MvRun (i w : nat)                         (* the [i]-th ready thread gets the lock *)
| MvSpurious (full : bool) (i : nat)        (* the [i]-th sleeper wakes by itself *)
| MvResize (size : Z).                      (* a thread calls set_size *)

Definition monitor_step (ev : monitor_event) (m : monitor) : outcome monitor :=
  match ev with
  | MvCall t c =>
      Ok (mkMonitor (mo_deque m) (mo_ready m ++ [(t, c)]) (mo_not_empty m) (mo_not_full m) (mo_pushed m) (mo_taken m))
  | MvRun i w =>
      match mo_ready m !! i with
      | Some t => run_call t (delete i (mo_ready m)) w m
      | None => Ok m
      end
  | MvSpurious full i =>
      Ok (if full then
            match mo_not_full m !! i with
            | Some t => mkMonitor (mo_deque m) (mo_ready m ++ [t]) (mo_not_empty m) (delete i (mo_not_full m)) (mo_pushed m) (mo_taken m)
            | None => m
            end
          else
            match mo_not_empty m !! i with
            | Some t => mkMonitor (mo_deque m) (mo_ready m ++ [t]) (delete i (mo_not_empty m)) (mo_not_full m) (mo_pushed m) (mo_taken m)
            | None => m
            end)
  | MvResize size =>
      Ok (mkMonitor (set_size size (mo_deque m)) (mo_ready m) (mo_not_empty m) (mo_not_full m) (mo_pushed m) (mo_taken m))
  end.

Fixpoint monitor_run (l : list monitor_event) (m : monitor) : outcome monitor :=
  match l with [] => Ok m | ev :: l => m ← monitor_step ev m; monitor_run l m end.

Definition new_monitor (max : Z) : monitor := mkMonitor (new_Deque max) [] [] [] [] [].

(** * The invariant *)

(** The threads of a list that take, and those that push. *)
Fixpoint takers (l : list (thread_id * deque_call)) : Z :=
  match l with [] => 0 | t :: l => (if is_take t then 1 else 0) + takers l end.
Fixpoint pushers (l : list (thread_id * deque_call)) : Z :=
  match l with [] => 0 | t :: l => (if is_take t then 0 else 1) + pushers l end.

(** The invariant: [cap] says that [set_size] has not lowered the capacity, and
    [grow] that it has not raised it. *)
Record monitor_inv (cap grow : Prop) (m : monitor) : Prop := {
  mi_size : cap -> len (m_deque (mo_deque m)) <= m_max_queue_size (mo_deque m);
  mi_content : mo_taken m ++ m_deque (mo_deque m) ≡ₚ mo_pushed m;
  mi_empty_takers : Forall (fun t => is_take t = true) (mo_not_empty m);
  mi_full_pushers : Forall (fun t => is_take t = false) (mo_not_full m);
  (** Whoever sleeps has nothing to do, or enough threads are on their way. *)
  mi_empty : mo_not_empty m <> [] -> len (m_deque (mo_deque m)) <= takers (mo_ready m);
  mi_full : grow -> mo_not_full m <> [] ->
    m_max_queue_size (mo_deque m) - len (m_deque (mo_deque m)) <= pushers (mo_ready m)
}.

(** The step returns in [Q], or a push found the deque above its capacity. *)
Definition returns_or_over (cap : Prop) (Q : monitor -> Prop) (r : outcome monitor) : Prop :=
  match r with Ok m => Q m | Fail f => f = FAssert /\ ~ cap end.

(** * Lemmas *)

#[local] Instance takers_proper : Proper (Permutation ==> eq) takers.
Proof. induction 1; simpl; lia. Qed.
#[local] Instance pushers_proper : Proper (Permutation ==> eq) pushers.
Proof. induction 1; simpl; lia. Qed.

Lemma takers_snoc l t : takers (l ++ [t]) = takers l + (if is_take t then 1 else 0).
Proof. induction l; simpl; lia. Qed.
Lemma pushers_snoc l t : pushers (l ++ [t]) = pushers l + (if is_take t then 0 else 1).
Proof. induction l; simpl; lia. Qed.
Lemma takers_nonneg l : 0 <= takers l.
Proof. induction l as [|t l]; simpl; [lia|]. destruct (is_take t); lia. Qed.
Lemma pushers_nonneg l : 0 <= pushers l.
Proof. induction l as [|t l]; simpl; [lia|]. destruct (is_take t); lia. Qed.

(** The thread that runs leaves the ready ones. *)
Lemma takers_delete l i t : l !! i = Some t -> takers (delete i l) = takers l - (if is_take t then 1 else 0).
Proof. intros Hi. pose proof (takers_proper _ _ (delete_Permutation l i t Hi)) as E. simpl in E. lia. Qed.
Lemma pushers_delete l i t : l !! i = Some t -> pushers (delete i l) = pushers l - (if is_take t then 0 else 1).
Proof. intros Hi. pose proof (pushers_proper _ _ (delete_Permutation l i t Hi)) as E. simpl in E. lia. Qed.

Lemma delete_nonempty {A} i (l : list A) : delete i l <> [] -> l <> [].
Proof. by destruct l. Qed.

(** A signal wakes one of the sleepers, if there are any. *)
Lemma notify_spec w asleep ready :
  asleep = [] /\ notify w asleep ready = ([], ready) \/
  exists i t, asleep !! i = Some t /\ notify w asleep ready = (delete i asleep, ready ++ [t]).
Proof.
  destruct asleep as [|t0 l] eqn:E; [left; split; [done|]; unfold notify; by rewrite lookup_nil|right].
  unfold notify. rewrite <- E. destruct (lookup_lt_is_Some_2 asleep (w mod length asleep)) as [t Ht].
  { apply Nat.mod_upper_bound. by rewrite E. }
  rewrite Ht. by exists (w mod length asleep)%nat, t.
Qed.

Lemma asleep_kind b (l : list (thread_id * deque_call)) i t :
  Forall (fun t => is_take t = b) l -> l !! i = Some t -> is_take t = b.
Proof. intros F Hi. rewrite Forall_lookup in F. eauto. Qed.

Lemma take_inv cap grow m i w t :
  monitor_inv cap grow m -> mo_ready m !! i = Some t -> t.2 = CTake ->
  returns (fun m' => monitor_inv cap grow m' /\ m_max_queue_size (mo_deque m') = m_max_queue_size (mo_deque m))
    (run_call t (delete i (mo_ready m)) w m).
Proof.
  intros [] Hi Ht. assert (is_take t = true) as Hk by (unfold is_take; by rewrite Ht).
  pose proof (takers_delete _ _ _ Hi) as Dt. pose proof (pushers_delete _ _ _ Hi) as Dp. rewrite Hk in Dt, Dp.
  pose proof (takers_nonneg (delete i (mo_ready m))). unfold run_call, take_front. rewrite Ht.
  destruct (m_deque (mo_deque m)) as [|e rest] eqn:Hd; rewrite ?Hd in *.
  - rewrite bind_ok. cbn [returns]. split; [|done]. constructor; simpl; rewrite ?Hd; try done; try lia.
    + apply Forall_app. split; [done|by apply Forall_singleton].
    + intros Hg Hn. specialize (mi_full0 Hg Hn). lia.
  - cbn [length]. rewrite bool_decide_eq_false_2 by done. cbn [negb assert_]. rewrite !bind_ok. rewrite len_cons in *.
    assert (cap -> len rest <= m_max_queue_size (mo_deque m)) as Ts by (intros Hc; specialize (mi_size0 Hc); lia).
    assert (mo_not_empty m <> [] -> len rest <= takers (delete i (mo_ready m))) as Te by (intros Hn; specialize (mi_empty0 Hn); lia).
    destruct (notify_spec w (mo_not_full m) (delete i (mo_ready m))) as [[Hz ->]|(j & u & Hj & ->)]; cbn [returns]; (split; [|done]).
    + constructor; simpl; try done; try lia. by rewrite <- app_assoc.
    + pose proof (asleep_kind _ _ _ _ mi_full_pushers0 Hj) as Hu.
      constructor; simpl; rewrite ?takers_snoc, ?pushers_snoc, ?Hu; try done; try lia.
      * by rewrite <- app_assoc.
      * by apply Forall_delete.
      * intros Hn. specialize (Te Hn). lia.
      * intros Hg Hn. apply delete_nonempty in Hn. specialize (mi_full0 Hg Hn). lia.
Qed.

Lemma push_inv cap grow m i w t x back :
  monitor_inv cap grow m -> mo_ready m !! i = Some t -> t.2 = CPush x back ->
  returns_or_over cap (fun m' => monitor_inv cap grow m' /\ m_max_queue_size (mo_deque m') = m_max_queue_size (mo_deque m))
    (run_call t (delete i (mo_ready m)) w m).
Proof.
  intros [] Hi Ht. assert (is_take t = false) as Hk by (unfold is_take; by rewrite Ht).
  pose proof (takers_delete _ _ _ Hi) as Dt. pose proof (pushers_delete _ _ _ Hi) as Dp. rewrite Hk in Dt, Dp.
  pose proof (pushers_nonneg (delete i (mo_ready m))). unfold run_call, push. rewrite Ht.
  destruct (Z.eqb_spec (len (m_deque (mo_deque m))) (m_max_queue_size (mo_deque m))) as [Hf|Hf].
  - rewrite bind_ok. cbn [returns_or_over]. split; [|done]. constructor; simpl; try done; try lia.
    + apply Forall_app. split; [done|by apply Forall_singleton].
    + rewrite Dt, Z.sub_0_r. done.
  - destruct (Z.ltb_spec (len (m_deque (mo_deque m))) (m_max_queue_size (mo_deque m))) as [Hlt|Hge]; cbn [assert_].
    2: { cbn. split; [done|]. intros Hc. specialize (mi_size0 Hc). lia. }
    rewrite !bind_ok. set (e := (_, x)).
    set (q := if back then _ else _). assert (len q = len (m_deque (mo_deque m)) + 1) as Lq.
    { unfold q. destruct back; [rewrite len_app, len_cons, len_nil|rewrite len_cons]; lia. }
    assert (mo_taken m ++ q ≡ₚ mo_pushed m ++ [e]) as Pq.
    { rewrite <- mi_content0. unfold q. destruct back; [by rewrite app_assoc|]. solve_Permutation. }
    assert (grow -> mo_not_full m <> [] -> m_max_queue_size (mo_deque m) - len q <= pushers (delete i (mo_ready m))) as Te
      by (intros Hg Hn; specialize (mi_full0 Hg Hn); lia).
    destruct (notify_spec w (mo_not_empty m) (delete i (mo_ready m))) as [[Hz ->]|(j & u & Hj & ->)]; cbn [returns_or_over]; (split; [|done]).
    + constructor; simpl; try done; try lia.
    + pose proof (asleep_kind _ _ _ _ mi_empty_takers0 Hj) as Hu.
      constructor; simpl; rewrite ?takers_snoc, ?pushers_snoc, ?Hu; try done; try lia.
      * by apply Forall_delete.
      * intros Hn. apply delete_nonempty in Hn. specialize (mi_empty0 Hn). lia.
      * intros Hg Hn. specialize (Te Hg Hn). lia.
Qed.

(** The capacity after an event. *)
Definition size_after (ev : monitor_event) (cur : Z) : Z := match ev with MvResize n => n | _ => cur end.

Lemma monitor_step_inv cap grow ev m :
  monitor_inv cap grow m ->
  (cap -> m_max_queue_size (mo_deque m) <= size_after ev (m_max_queue_size (mo_deque m))) ->
  (grow -> size_after ev (m_max_queue_size (mo_deque m)) <= m_max_queue_size (mo_deque m)) ->
  returns_or_over cap (fun m' => monitor_inv cap grow m' /\
      m_max_queue_size (mo_deque m') = size_after ev (m_max_queue_size (mo_deque m))) (monitor_step ev m).
Proof.
  intros I Hc Hg. destruct ev as [t c|i w|full i|n]; simpl in *.
  - split; [|done]. destruct I. constructor; simpl; rewrite ?takers_snoc, ?pushers_snoc; try done.
    + intros Hn. specialize (mi_empty0 Hn). destruct (is_take (t, c)); lia.
    + intros Hg' Hn. specialize (mi_full0 Hg' Hn). destruct (is_take (t, c)); lia.
  - destruct (mo_ready m !! i) as [t|] eqn:Hi; [|done]. destruct (t.2) as [|x back] eqn:Ht; [|by eapply push_inv].
    destruct (returns_ok _ _ (take_inv cap grow m i w t I Hi Ht)) as (m' & -> & ?). done.
  - split; [|by repeat case_match]. destruct full.
    + destruct (mo_not_full m !! i) as [t|] eqn:Hi; [|done]. destruct I. pose proof (asleep_kind _ _ _ _ mi_full_pushers0 Hi) as Hu.
      constructor; simpl; rewrite ?takers_snoc, ?pushers_snoc, ?Hu; try done.
      * by apply Forall_delete.
      * intros Hn. specialize (mi_empty0 Hn). lia.
      * intros Hg' Hn%delete_nonempty. specialize (mi_full0 Hg' Hn). lia.
    + destruct (mo_not_empty m !! i) as [t|] eqn:Hi; [|done]. destruct I. pose proof (asleep_kind _ _ _ _ mi_empty_takers0 Hi) as Hu.
      constructor; simpl; rewrite ?takers_snoc, ?pushers_snoc, ?Hu; try done.
      * by apply Forall_delete.
      * intros Hn%delete_nonempty. specialize (mi_empty0 Hn). lia.
      * intros Hg' Hn. specialize (mi_full0 Hg' Hn). lia.
  - split; [|done]. destruct I. constructor; simpl; try done.
    + intros Hcap. specialize (mi_size0 Hcap). specialize (Hc Hcap). lia.
    + intros Hg' Hn. specialize (mi_full0 Hg' Hn). specialize (Hg Hg'). lia.
Qed.

(** No [set_size] of the history goes below (above) the capacity of the moment. *)
Fixpoint never_lowered (cur : Z) (l : list monitor_event) : Prop :=
  match l with [] => True | ev :: l => cur <= size_after ev cur /\ never_lowered (size_after ev cur) l end.
Fixpoint never_raised (cur : Z) (l : list monitor_event) : Prop :=
  match l with [] => True | ev :: l => size_after ev cur <= cur /\ never_raised (size_after ev cur) l end.

Lemma monitor_run_inv cap grow l : forall m, monitor_inv cap grow m ->
  (cap -> never_lowered (m_max_queue_size (mo_deque m)) l) -> (grow -> never_raised (m_max_queue_size (mo_deque m)) l) ->
  returns_or_over cap (monitor_inv cap grow) (monitor_run l m).
Proof.
  induction l as [|ev l IH]; intros m I Hc Hg; [done|]. simpl in *.
  pose proof (monitor_step_inv cap grow ev m I) as S. specialize (S ltac:(intros ?; by apply Hc) ltac:(intros ?; by apply Hg)).
  destruct (monitor_step ev m) as [m'|]; [|done]. destruct S as [I' E']. simpl. apply IH; [done|..]; rewrite E'; intros ?; [by apply Hc|by apply Hg].
Qed.

(** ** First in, first out *)

Definition at_back (c : deque_call) : Prop := match c with CPush _ false => False | _ => True end.
Definition event_back (ev : monitor_event) : Prop := match ev with MvCall _ c => at_back c | _ => True end.

(** Nobody pushes at the front. *)
Record fifo (m : monitor) : Prop := {
  ff_ready : Forall (fun t => at_back t.2) (mo_ready m);
  ff_empty : Forall (fun t => at_back t.2) (mo_not_empty m);
  ff_full : Forall (fun t => at_back t.2) (mo_not_full m);
  ff_order : mo_taken m ++ m_deque (mo_deque m) = mo_pushed m
}.

Lemma notify_back w asleep ready :
  Forall (fun t : thread_id * deque_call => at_back t.2) asleep -> Forall (fun t => at_back t.2) ready ->
  Forall (fun t => at_back t.2) (notify w asleep ready).1 /\ Forall (fun t => at_back t.2) (notify w asleep ready).2.
Proof.
  intros Ha Hr. destruct (notify_spec w asleep ready) as [[-> ->]|(j & u & Hj & ->)]; [done|]. simpl. split; [by apply Forall_delete|].
  apply Forall_app. split; [done|]. apply Forall_singleton. rewrite Forall_lookup in Ha. eauto.
Qed.

Lemma run_call_fifo t i w m :
  fifo m -> mo_ready m !! i = Some t -> returning fifo (run_call t (delete i (mo_ready m)) w m).
Proof.
  intros [] Hi. assert (at_back t.2) as Ht by (rewrite Forall_lookup in ff_ready0; eauto).
  assert (Forall (fun t => at_back t.2) (delete i (mo_ready m))) as Hr by (by apply Forall_delete). unfold run_call.
  destruct t as [u [|x back]]; simpl in Ht; cbn [snd].
  - unfold take_front. destruct (m_deque (mo_deque m)) as [|e rest] eqn:Hd.
    + simpl. constructor; simpl; try done; [|by rewrite Hd]. apply Forall_app. split; [done|by apply Forall_singleton].
    + cbn [length]. rewrite bool_decide_eq_false_2 by done. cbn [negb assert_]. rewrite !bind_ok.
      pose proof (notify_back w _ _ ff_full0 Hr) as [N1 N2]. destruct (notify _ _ _) as [a r]. simpl in *.
      constructor; simpl; try done. by rewrite <- app_assoc.
  - unfold push. destruct (len (m_deque (mo_deque m)) =? _).
    + simpl. constructor; simpl; try done. apply Forall_app. split; [done|by apply Forall_singleton].
    + destruct (len _ <? _); [|done]. cbn [assert_]. rewrite !bind_ok. destruct back; [|done].
      pose proof (notify_back w _ _ ff_empty0 Hr) as [N1 N2]. destruct (notify _ _ _) as [a r]. simpl in *.
      constructor; simpl; try done. by rewrite app_assoc, ff_order0.
Qed.

Lemma monitor_step_fifo ev m : fifo m -> event_back ev -> returning fifo (monitor_step ev m).
Proof.
  intros F Hb. destruct ev as [t c|i w|full i|n]; simpl; [| | |by destruct F].
  - destruct F. constructor; simpl; try done. apply Forall_app. split; [done|by apply Forall_singleton].
  - destruct (mo_ready m !! i) as [t|] eqn:Hi; [|done]. by apply run_call_fifo.
  - destruct F as [Fr Fe Ff Fo]. destruct full;
      [destruct (mo_not_full m !! i) as [t|] eqn:Hi|destruct (mo_not_empty m !! i) as [t|] eqn:Hi]; try done;
      (constructor; simpl; try done; [apply Forall_app; split; [done|apply Forall_singleton]|by apply Forall_delete]).
    + rewrite Forall_lookup in Ff. eauto.
    + rewrite Forall_lookup in Fe. eauto.
Qed.

Lemma monitor_run_fifo l : forall m, fifo m -> Forall event_back l -> returning fifo (monitor_run l m).
Proof.
  induction l as [|ev l IH]; intros m F Hl; [done|]. apply Forall_cons in Hl as [Hev Hl]. simpl.
  pose proof (monitor_step_fifo ev m F Hev) as S. destruct (monitor_step ev m) as [m'|]; [|done]. simpl in *. by apply IH.
Qed.

(** Some thread of the list takes. *)
Lemma takers_pos l : 0 < takers l -> exists i t, l !! i = Some t /\ is_take t = true.
Proof.
  induction l as [|t l IH]; simpl; [lia|]. destruct (is_take t) eqn:Ht; [intros _; by exists 0%nat, t|].
  intros Hp. destruct IH as (i & u & Hi & Hu); [lia|]. by exists (S i), u.
Qed.
Lemma pushers_pos l : 0 < pushers l -> exists i t, l !! i = Some t /\ is_take t = false.
Proof.
  induction l as [|t l IH]; simpl; [lia|]. destruct (is_take t) eqn:Ht; [|intros _; by exists 0%nat, t].
  intros Hp. destruct IH as (i & u & Hi & Hu); [lia|]. by exists (S i), u.
Qed.

(** C23: the bounded deque as a monitor.  Any number of threads take, push and
    call [set_size], in any interleaving and with any spurious wake-ups.  What
    was taken and what is in the deque is exactly what was pushed, in order if
    everything is pushed at the back; and no wake-up of a taker is lost: when a
    thread sleeps waiting for an element although there is one, another taker is
    about to run.  As long as [set_size] never lowers the capacity, no assertion
    fails and the deque never holds more than its capacity; the only failure
    otherwise is the assertion of a push.  As long as [set_size] never raises it,
    no wake-up of a pusher is lost either (raising it wakes nobody, see
    [grown_deque_sleeps]). *)
Theorem deque_monitor_correct (max : Z) (l : list monitor_event) :
  0 <= max ->
  match monitor_run l (new_monitor max) with
  | Ok m =>
      mo_taken m ++ m_deque (mo_deque m) ≡ₚ mo_pushed m /\
      (Forall event_back l -> mo_taken m ++ m_deque (mo_deque m) = mo_pushed m) /\
      (mo_not_empty m <> [] -> m_deque (mo_deque m) <> [] -> exists i t, mo_ready m !! i = Some t /\ is_take t = true) /\
      (never_lowered max l -> len (m_deque (mo_deque m)) <= m_max_queue_size (mo_deque m)) /\
      (never_raised max l -> mo_not_full m <> [] -> len (m_deque (mo_deque m)) < m_max_queue_size (mo_deque m) ->
         exists i t, mo_ready m !! i = Some t /\ is_take t = false)
  | Fail f => f = FAssert /\ ~ never_lowered max l
  end.
Proof.
  intros Hmax. assert (monitor_inv (never_lowered max l) (never_raised max l) (new_monitor max)) as I0 by (by constructor).
  pose proof (monitor_run_inv _ _ l _ I0 ltac:(done) ltac:(done)) as R.
  destruct (monitor_run l (new_monitor max)) as [m|] eqn:E; [|exact R]. destruct R.
  split_and!; [done| | |done|].
  - intros Hl. assert (fifo (new_monitor max)) as F0 by (by constructor).
    pose proof (monitor_run_fifo l _ F0 Hl) as F. rewrite E in F. apply F.
  - intros Hn Hd. specialize (mi_empty0 Hn). apply takers_pos. destruct (m_deque (mo_deque m)); [done|]. rewrite len_cons in *. len_lia.
  - intros Hg Hn Hd. specialize (mi_full0 Hg Hn). apply pushers_pos. lia.
Qed.

End monitor.
Arguments deque_call : clear implicits.
Arguments monitor : clear implicits.
Arguments monitor_event : clear implicits.

(** * Runs *)

(** Two takers sleep, two elements are pushed, and both are served. *)
Definition demo_calls : list (monitor_event Z) :=
  [MvCall 1 CTake; MvRun 0 0; MvCall 2 CTake; MvRun 0 0; MvCall 3 (CPush 70 true); MvCall 4 (CPush 80 true);
   MvRun 0 1; MvRun 0 0; MvRun 1 0; MvRun 0 0].

Lemma deque_monitor_correct_witness :
  exists m, monitor_run demo_calls (new_monitor 1) = Ok m /\ mo_taken m ++ m_deque (mo_deque m) = mo_pushed m /\
    mo_pushed m = [(1, 70)].
Proof.
  pose proof (deque_monitor_correct 1 demo_calls ltac:(lia)) as T.
  destruct (monitor_run demo_calls (new_monitor 1)) as [m|] eqn:E; [|vm_compute in E; discriminate E].
  exists m. split; [done|]. split; [apply T; repeat constructor|]. vm_compute in E. by injection E as <-.
Defined.

(** Lowering the capacity below the size makes the next push fail its
    assertion: its loop tests [size == max]. *)
Example shrunk_deque_aborts :
  monitor_run [MvCall 1 (CPush 70 true); MvCall 2 (CPush 80 true); MvRun 0 0; MvRun 0 0; MvResize 1;
      MvCall 3 (CPush 90 true); MvRun 0 0] (new_monitor 10) = Fail FAssert.
Proof. vm_compute. reflexivity. Qed.

(** Raising it wakes nobody: the second pusher sleeps on although there is
    room, and nobody is about to run. *)
Example grown_deque_sleeps :
  exists m, monitor_run [MvCall 1 (CPush 70 true); MvRun 0 0; MvCall 2 (CPush 80 true); MvRun 0 0; MvResize 5]
      (new_monitor 1) = Ok m /\
    mo_not_full m = [(2, CPush 80 true)] /\ len (m_deque (mo_deque m)) < m_max_queue_size (mo_deque m) /\ mo_ready m = [].
Proof. eexists. split; [vm_compute; reflexivity|]. by vm_compute. Qed.
