(* ===== verification/ReactorThreadPool.v ===== *)
(** [flute/net/ReactorThreadPool.{h,cc}] and [flute/common/Atomic.h]: the
    reactors of a server and the choice among them.

    A reactor is named by the thread that runs it. *)

From S2P Require Import Prelude Format Channel Poller.

(** * Atomic integers

    [AtomicIntegerT<T>] for a signed type of [w] bits: the operations of the
    processor wrap around, the addition of [add_and_get] is one of [int] or
    [int64_t]. *)
Definition atomic_get (v : Z) : Z := v.
Definition get_and_add (w : Z) (x v : Z) : Z * Z := (v, sw w (v + x)).
Definition add_and_get (w : Z) (x v : Z) : outcome (Z * Z) :=
  let '(old, v) := get_and_add w x v in
  require FOverflow ((- 2 ^ (w - 1) <=? old + x) && (old + x <? 2 ^ (w - 1)));;
  Ok (old + x, v).
Definition increment_and_get (w : Z) (v : Z) : outcome (Z * Z) := add_and_get w 1 v.
Definition decrement_and_get (w : Z) (v : Z) : outcome (Z * Z) := add_and_get w (-1) v.
Definition atomic_add (w : Z) (x v : Z) : Z := (get_and_add w x v).2.
Definition increment (w : Z) (v : Z) : outcome Z := '(_, v) ← increment_and_get w v; Ok v.
Definition decrement (w : Z) (v : Z) : outcome Z := '(_, v) ← decrement_and_get w v; Ok v.
Definition get_and_set (x v : Z) : Z * Z := (v, x).

(** Below the bounds of the type, [decrement] undoes [increment]; at the upper
    bound [increment] overflows in its discarded result, which [add] does not
    compute: it wraps. *)
Lemma increment_decrement w v :
  1 < w -> in_sw w v -> (v + 1 < 2 ^ (w - 1) -> increment w v = Ok (v + 1) /\ decrement w (v + 1) = Ok v) /\
  (v + 1 = 2 ^ (w - 1) -> increment w v = Fail FOverflow /\ atomic_add w 1 v = - 2 ^ (w - 1)).
Proof.
  intros Hw Hv. unfold increment, decrement, increment_and_get, decrement_and_get, atomic_add, add_and_get, get_and_add, in_sw in *.
  split; intros Hlim.
  - rewrite !require_true by lia. cbn. rewrite !sw_small by (unfold in_sw; lia). split; [done|]. f_equal. lia.
  - rewrite Hlim, Z.ltb_irrefl, andb_false_r. split; [done|]. cbn. unfold sw.
    assert (2 ^ w = 2 * 2 ^ (w - 1)) as E by (rewrite <- Z.pow_succ_r by lia; f_equal; lia).
    replace (2 ^ (w - 1) + 2 ^ (w - 1)) with (2 ^ w) by lia. rewrite Z.mod_same by lia. lia.
Qed.

(** * The pool *)

Abbreviation reactor := pid_t.

Record ReactorThreadPool : Type := mkPool {
  m_default_reactor : reactor;
  m_pool_name : bytes;          (* m_name *)
  m_pool_started : bool;        (* m_has_started *)
  m_size_pool : Z;
  m_next_idx : Z;
  m_thread_names : list bytes;  (* of m_reactor_thread_pool *)
  m_reactors : list reactor
}.

Definition new_ReactorThreadPool (base : reactor) (name : bytes) : ReactorThreadPool :=
  mkPool base name false 0 0 [] [].

Definition set_pool_size (n : Z) (p : ReactorThreadPool) : ReactorThreadPool :=
  mkPool (m_default_reactor p) (m_pool_name p) (m_pool_started p) n (m_next_idx p) (m_thread_names p) (m_reactors p).

Section pool.
Context `{CurrentThread}.

(** [ReactorThread(cb, name).start_reactor()] for the [i]-th thread: [spawn i]
    is the reactor it makes. *)
Fixpoint start_threads (n : nat) (i : Z) (spawn : Z -> reactor) (p : ReactorThreadPool) : ReactorThreadPool :=
  match n with
  | O => p
  | S n =>
      let name := snprintf (len (m_pool_name p) + 32) (m_pool_name p ++ dec i) in
      start_threads n (i + 1) spawn
        (mkPool (m_default_reactor p) (m_pool_name p) (m_pool_started p) (m_size_pool p) (m_next_idx p)
           (m_thread_names p ++ [name]) (m_reactors p ++ [spawn i]))
  end.

(** [start(cb)]: [has_cb] says whether there is an initialiser; the result has
    the reactors on which it runs. *)
Definition pool_start (has_cb : bool) (spawn : Z -> reactor) (p : ReactorThreadPool)
    : outcome (list reactor * ReactorThreadPool) :=
  assert_ (negb (m_pool_started p));;
  assert_in_thread (m_default_reactor p);;
  let q := start_threads (Z.to_nat (m_size_pool p)) 0 spawn p in
  let inits := if has_cb then if m_size_pool p =? 0 then [m_default_reactor p] else m_reactors q else [] in
  Ok (inits, mkPool (m_default_reactor q) (m_pool_name q) true (m_size_pool q) (m_next_idx q) (m_thread_names q) (m_reactors q)).

Definition get_next_reactor (p : ReactorThreadPool) : outcome (reactor * ReactorThreadPool) :=
  assert_in_thread (m_default_reactor p);;
  assert_ (m_pool_started p);;
  match m_reactors p with
  | [] => Ok (m_default_reactor p, p)
  | _ =>
      r ← of_option FBounds (if 0 <=? m_next_idx p then m_reactors p !! Z.to_nat (m_next_idx p) else None);
      let next := s32 (u64 (m_next_idx p + 1) mod len (m_reactors p)) in
      Ok (r, mkPool (m_default_reactor p) (m_pool_name p) (m_pool_started p) (m_size_pool p) next (m_thread_names p) (m_reactors p))
  end.

Definition get_reactor_for_hashcode (hash : Z) (p : ReactorThreadPool) : outcome reactor :=
  assert_in_thread (m_default_reactor p);;
  match m_reactors p with
  | [] => Ok (m_default_reactor p)
  | _ => of_option FBounds (m_reactors p !! Z.to_nat (hash mod len (m_reactors p)))
  end.

Definition get_all_reactors (p : ReactorThreadPool) : outcome (list reactor) :=
  assert_in_thread (m_default_reactor p);;
  assert_ (m_pool_started p);;
  Ok (match m_reactors p with [] => [m_default_reactor p] | l => l end).

(** [n] connections in a row. *)
Fixpoint next_reactors (n : nat) (p : ReactorThreadPool) : outcome (list reactor * ReactorThreadPool) :=
  match n with
  | O => Ok ([], p)
  | S n => '(r, p) ← get_next_reactor p; '(l, p) ← next_reactors n p; Ok (r :: l, p)
  end.

(** * Lemmas *)

(** A pool that was started, in its own thread. *)
Record pool_ok (p : ReactorThreadPool) : Prop := {
  po_thread : m_default_reactor p = cur_tid;
  po_started : m_pool_started p = true;
  po_size : len (m_reactors p) < 2 ^ 31;
  po_idx : 0 <= m_next_idx p < Z.max 1 (len (m_reactors p))
}.

(** The reactor at position [k] of the cycle. *)
Definition nth_reactor (p : ReactorThreadPool) (k : Z) : reactor :=
  default (m_default_reactor p) (m_reactors p !! Z.to_nat (k mod len (m_reactors p))).

Lemma start_threads_spec n : forall i spawn p,
  m_reactors (start_threads n i spawn p) = m_reactors p ++ ((fun k => spawn (i + Z.of_nat k)) <$> seq 0 n) /\
  m_default_reactor (start_threads n i spawn p) = m_default_reactor p /\
  m_next_idx (start_threads n i spawn p) = m_next_idx p.
Proof.
  induction n as [|n IH]; intros i spawn p; simpl; [by rewrite app_nil_r|].
  destruct (IH (i + 1) spawn (mkPool (m_default_reactor p) (m_pool_name p) (m_pool_started p) (m_size_pool p) (m_next_idx p)
    (m_thread_names p ++ [snprintf (len (m_pool_name p) + 32) (m_pool_name p ++ dec i)]) (m_reactors p ++ [spawn i]))) as (R & D & X).
  rewrite R, D, X. split_and!; [|done|done]. simpl. rewrite <- app_assoc. simpl. rewrite Z.add_0_r. do 2 f_equal.
  rewrite <- fmap_S_seq, <- list_fmap_compose. apply list_fmap_ext. intros k x _. simpl. f_equal. lia.
Qed.

Lemma get_next_spec p :
  pool_ok p ->
  exists p', get_next_reactor p = Ok (nth_reactor p (m_next_idx p), p') /\ pool_ok p' /\
    m_reactors p' = m_reactors p /\ m_default_reactor p' = m_default_reactor p /\
    (m_reactors p <> [] -> m_next_idx p' = (m_next_idx p + 1) mod len (m_reactors p)).
Proof.
  intros []. unfold get_next_reactor, nth_reactor. rewrite (in_thread_ok _ po_thread0), po_started0. cbn [assert_]. rewrite !bind_ok.
  destruct (m_reactors p) as [|r0 l] eqn:E.
  - exists p. rewrite E. split_and!; try done. constructor; rewrite ?E; done.
  - rewrite <- E in *. assert (0 < len (m_reactors p)) as Hp by (rewrite E, len_cons; len_lia).
    change (2 ^ 31) with 2147483648 in *.
    rewrite (proj2 (Z.leb_le 0 _)) by lia. rewrite (Z.mod_small (m_next_idx p)) by lia.
    destruct (lookup_lt_is_Some_2 (m_reactors p) (Z.to_nat (m_next_idx p))) as [r Hr]; [unfold len in *; lia|].
    rewrite Hr. cbn [of_option]. rewrite bind_ok. rewrite uw_small by (split; simpl; lia).
    pose proof (Z.mod_pos_bound (m_next_idx p + 1) (len (m_reactors p)) Hp).
    rewrite sw_small by (lia || (split; simpl; lia)).
    eexists. split; [reflexivity|]. cbn [m_reactors m_default_reactor m_next_idx]. split_and!; try done.
    constructor; cbn [m_reactors m_default_reactor m_next_idx m_pool_started]; try done. lia.
Qed.

Lemma next_reactors_spec n : forall p k,
  pool_ok p -> m_next_idx p = k mod Z.max 1 (len (m_reactors p)) ->
  exists p', next_reactors n p = Ok ((fun i => nth_reactor p (k + Z.of_nat i)) <$> seq 0 n, p').
Proof.
  induction n as [|n IH]; intros p k I Hk; [by exists p|]. cbn [next_reactors].
  destruct (get_next_spec p I) as (p1 & -> & I1 & R1 & D1 & N1). rewrite bind_ok.
  assert (nth_reactor p (m_next_idx p) = nth_reactor p k) as Ek.
  { unfold nth_reactor. rewrite Hk. destruct (m_reactors p) as [|r l]; [done|]. rewrite len_cons, Z.max_r by len_lia.
    by rewrite Z.mod_mod by len_lia. }
  destruct (IH p1 (k + 1) I1) as (p2 & E2).
  { rewrite R1. destruct (m_reactors p) as [|r l] eqn:E.
    - assert (Z.max 1 (len (m_reactors p1)) = 1) as M1 by (by rewrite R1). destruct I1. rewrite len_nil, Z.mod_1_r. lia.
    - rewrite N1 by done. rewrite Hk, len_cons, Z.max_r by len_lia. rewrite Z.add_mod_idemp_l by len_lia. done. }
  rewrite E2, bind_ok. exists p2. do 2 f_equal. simpl. rewrite Z.add_0_r. f_equal; [done|].
  rewrite <- fmap_S_seq, <- list_fmap_compose. apply list_fmap_ext. intros j x _. simpl.
  replace (k + 1 + Z.of_nat x) with (k + Z.of_nat (S x)) by lia. unfold nth_reactor. by rewrite R1, D1.
Qed.

(** The pool is round robin.  A pool of [n] threads (none is the default)
    starts [n] reactors and gives the [i]-th connection to reactor
    [i mod n], or to the acceptor's own reactor when it has no threads; the
    index stays in range for ever. *)
Theorem pool_round_robin (base : reactor) (name : bytes) (n : Z) (spawn : Z -> reactor) (has_cb : bool) (m : nat) :
  base = cur_tid -> 0 <= n < 2 ^ 31 ->
  exists inits p p', pool_start has_cb spawn (set_pool_size n (new_ReactorThreadPool base name)) = Ok (inits, p) /\
    m_reactors p = (fun k => spawn (Z.of_nat k)) <$> seq 0 (Z.to_nat n) /\
    next_reactors m p = Ok ((fun i => if n =? 0 then base else spawn (Z.of_nat i mod n)) <$> seq 0 m, p').
Proof.
  intros Hb Hn. unfold pool_start. cbn [m_pool_started set_pool_size new_ReactorThreadPool negb assert_ m_default_reactor m_size_pool].
  rewrite (in_thread_ok _ Hb), !bind_ok.
  set (p0 := mkPool base name false n 0 [] []). destruct (start_threads_spec (Z.to_nat n) 0 spawn p0) as (R & D & X).
  set (q := start_threads _ _ _ _) in *.
  set (p := mkPool (m_default_reactor q) (m_pool_name q) true (m_size_pool q) (m_next_idx q) (m_thread_names q) (m_reactors q)).
  assert (len (m_reactors p) = n) as L by (cbn [m_reactors p]; rewrite R; unfold len; rewrite length_app, length_fmap, length_seq; simpl; lia).
  assert (pool_ok p) as I.
  { constructor; cbn [p m_default_reactor m_pool_started m_next_idx]; [by rewrite D|done|fold p; lia|rewrite X; simpl; fold p; lia]. }
  destruct (next_reactors_spec m p 0 I) as (p' & E).
  { cbn [m_next_idx p]. rewrite X. by rewrite Z.mod_0_l by lia. }
  eexists _, p, p'. split; [reflexivity|]. split; [exact R|]. rewrite E. do 2 f_equal. apply list_fmap_ext. intros i x _.
  unfold nth_reactor. rewrite L. cbn [p m_reactors m_default_reactor]. rewrite R, D. simpl app.
  destruct (Z.eqb_spec n 0) as [->|Hz]; [done|]. pose proof (Z.mod_pos_bound (Z.of_nat x) n ltac:(lia)).
  rewrite Z.add_0_l, list_lookup_fmap, lookup_seq_lt by lia. simpl. f_equal. lia.
Qed.
End pool.

Lemma pool_round_robin_witness :
  exists inits p p', @pool_start 1 true (fun i => 100 + i) (set_pool_size 3 (new_ReactorThreadPool 1 (lit "io"))) = Ok (inits, p) /\
    m_reactors p = [100; 101; 102] /\ @next_reactors 1 5 p = Ok ([100; 101; 102; 100; 101], p').
Proof. apply (@pool_round_robin 1 1 (lit "io") 3 (fun i => 100 + i) true 5); [reflexivity|lia]. Defined.
