(* ===== verification/Acceptor.v ===== *)
(** [flute/net/Acceptor.{h,cc}], with the calls of [flute/net/Socket.cc] and
    [flute/net/SocketsOps.cc] that it makes: the listening socket.

    What the system calls answer is an argument of the operations; a system
    call that fails answers a negative number and sets [errno]. *)

From S2P Require Import Prelude Channel Poller EPollPoller.

(** * The socket calls *)

(** Error numbers of accept(2) on Linux. *)
Definition EPERM : Z := 1.
Definition EINTR : Z := 4.
Definition EBADF : Z := 9.
Definition EAGAIN : Z := 11.
Definition ENOMEM : Z := 12.
Definition EFAULT : Z := 14.
Definition EINVAL : Z := 22.
Definition ENFILE : Z := 23.
Definition EMFILE : Z := 24.
Definition EPROTO : Z := 71.
Definition ENOTSOCK : Z := 88.
Definition EOPNOTSUPP : Z := 95.
Definition ECONNABORTED : Z := 103.
Definition ENOBUFS : Z := 105.

Definition create_sockfd_nonblocking_or_abort (sockfd : Z) : outcome Z := require FFatal (0 <=? sockfd);; Ok sockfd.
Definition bind_or_abort (ret : Z) : outcome unit := require FFatal (0 <=? ret).
Definition listen_or_abort (ret : Z) : outcome unit := require FFatal (0 <=? ret).

(** [socket_ops::accept]: the errors that the code calls expected are returned. *)
Definition ops_accept (connfd errno : Z) : outcome Z :=
  if connfd <? 0 then
    if bool_decide (errno ∈ [EAGAIN; ECONNABORTED; EINTR; EPROTO; EPERM; EMFILE]) then Ok connfd
    else Fail FFatal
  else Ok connfd.

(** [Socket::accept]. *)
Definition socket_accept (connfd errno : Z) : outcome Z :=
  connfd ← ops_accept connfd errno;
  if 0 <=? connfd then Ok connfd else Fail FFatal.

(** * The acceptor *)

Record Acceptor : Type := mkAcceptor {
  m_acceptor_loop : pid_t;        (* m_reactor *)
  m_accept_sockfd : Z;
  m_accept_channel : chan_ptr;
  m_has_new_conn : bool;          (* m_new_conn_callback is set *)
  m_is_listening : bool;
  m_reserved_fd : Z
}.

(** With the poller and the channels of its reactor, the descriptors given to
    the callback, and those it closed. *)
Record acceptor_env (P : Type) : Type := mkAEnv {
  a_acc : Acceptor;
  a_poller : P;
  a_chans : chans;
  a_given : list Z;
  a_closed : list Z
}.
Arguments mkAEnv {P}.
Arguments a_acc {P}.
Arguments a_poller {P}.
Arguments a_chans {P}.
Arguments a_given {P}.
Arguments a_closed {P}.

Section acceptor.
Context {P : Type} `{PollerOps P, CurrentThread}.
Implicit Types (e : acceptor_env P) (a : Acceptor).

Definition set_listening (b : bool) a : Acceptor :=
  mkAcceptor (m_acceptor_loop a) (m_accept_sockfd a) (m_accept_channel a) (m_has_new_conn a) b (m_reserved_fd a).
Definition set_new_conn_callback a : Acceptor :=
  mkAcceptor (m_acceptor_loop a) (m_accept_sockfd a) (m_accept_channel a) true (m_is_listening a) (m_reserved_fd a).
Definition set_reserved (fd : Z) a : Acceptor :=
  mkAcceptor (m_acceptor_loop a) (m_accept_sockfd a) (m_accept_channel a) (m_has_new_conn a) (m_is_listening a) fd.

Definition on_acc (f : Acceptor -> Acceptor) e : acceptor_env P :=
  mkAEnv (f (a_acc e)) (a_poller e) (a_chans e) (a_given e) (a_closed e).
Definition a_with (p : P) (cs : chans) e : acceptor_env P := mkAEnv (a_acc e) p cs (a_given e) (a_closed e).
Definition a_close (fd : Z) e : acceptor_env P :=
  mkAEnv (a_acc e) (a_poller e) (a_chans e) (a_given e) (a_closed e ++ [fd]).
Definition a_give (fd : Z) e : acceptor_env P :=
  mkAEnv (a_acc e) (a_poller e) (a_chans e) (a_given e ++ [fd]) (a_closed e).

(** The constructor, on a poller and its channels; [c] is the address of the
    channel member. *)
Definition new_Acceptor (loop : pid_t) (sockfd bound nullfd : Z) (c : chan_ptr) (p : P) (cs : chans) : outcome (acceptor_env P) :=
  sockfd ← create_sockfd_nonblocking_or_abort sockfd;
  let cs := <[c := new_Channel loop sockfd]> cs in
  assert_ (0 <=? nullfd);;
  bind_or_abort bound;;
  Ok (mkAEnv (mkAcceptor loop sockfd c false false nullfd) p cs [] []).

Definition listen (listened : Z) e : outcome (acceptor_env P) :=
  assert_in_thread (m_acceptor_loop (a_acc e));;
  let e := on_acc (set_listening true) e in
  listen_or_abort listened;;
  '(p, cs) ← wang_to_read (a_poller e) (a_chans e) (m_accept_channel (a_acc e));
  Ok (a_with p cs e).

(** [connfd], [errno]: the answer of accept4(2); [again] and [nullfd]: those of
    the second accept and of the open of the branch for EMFILE. *)
Definition handle_conn_arrival (connfd errno again nullfd : Z) e : outcome (acceptor_env P) :=
  assert_in_thread (m_acceptor_loop (a_acc e));;
  connfd ← socket_accept connfd errno;
  if 0 <=? connfd then Ok (if m_has_new_conn (a_acc e) then a_give connfd e else a_close connfd e)
  else if errno =? EMFILE then
    let e := a_close (m_reserved_fd (a_acc e)) e in
    let e := a_close again (on_acc (set_reserved again) e) in
    Ok (on_acc (set_reserved nullfd) e)
  else Ok e.

(** The destructor, with the state of the dispatch of the reactor, and those of
    the members. *)
Definition destroy_Acceptor (handling : bool) (current : option chan_ptr) (active : list chan_ptr) e : outcome (acceptor_env P) :=
  let c := m_accept_channel (a_acc e) in
  '(p, cs) ← end_all (a_poller e) (a_chans e) c;
  let e := on_acc (set_listening false) (a_with p cs e) in
  '(p, cs) ← remove_self_from_reactor handling current active (a_poller e) (a_chans e) c;
  let e := a_close (m_reserved_fd (a_acc e)) (a_with p cs e) in
  cs ← destroy_Channel (a_poller e) (a_chans e) c;
  Ok (a_close (m_accept_sockfd (a_acc e)) (a_with (a_poller e) cs e)).

Fixpoint arrivals (l : list (Z * Z)) e : outcome (acceptor_env P) :=
  match l with [] => Ok e | (connfd, errno) :: l => e ← handle_conn_arrival connfd errno (-1) (-1) e; arrivals l e end.

End acceptor.

(** * Theorems *)

(** Any failure of accept(2) is fatal, the expected ones too. *)
Lemma socket_accept_spec connfd errno :
  socket_accept connfd errno = if 0 <=? connfd then Ok connfd else Fail FFatal.
Proof.
  unfold socket_accept, ops_accept. destruct (Z.ltb_spec connfd 0).
  - assert ((0 <=? connfd) = false) as E by lia. rewrite E. case_bool_decide; [|done]. by rewrite bind_ok, E.
  - assert ((0 <=? connfd) = true) as E by lia. by rewrite bind_ok, E.
Qed.

Section laws.
Context {P : Type} `{PollerLaws P}.
Implicit Types (e : acceptor_env P).

(** The channel is registered for reading. *)
Record listening e : Prop := {
  al_poller : poller_inv (a_poller e) (a_chans e);
  al_loop : m_acceptor_loop (a_acc e) = cur_tid;
  al_chan : exists ch, a_chans e !! m_accept_channel (a_acc e) = Some ch /\ m_fd ch = m_accept_sockfd (a_acc e) /\
    m_channel_map (a_poller e) !! m_fd ch = Some (m_accept_channel (a_acc e)) /\ m_reactor ch = cur_tid /\
    m_is_handing_event ch = false;
  al_watched : watched (a_poller e) (m_accept_sockfd (a_acc e)) = Some kReadEvent
}.

Lemma arrival_spec connfd errno again nullfd e :
  m_acceptor_loop (a_acc e) = cur_tid ->
  handle_conn_arrival connfd errno again nullfd e =
    if 0 <=? connfd then Ok (if m_has_new_conn (a_acc e) then a_give connfd e else a_close connfd e) else Fail FFatal.
Proof.
  intros Hl. unfold handle_conn_arrival. rewrite (in_thread_ok _ Hl), bind_ok, socket_accept_spec.
  destruct (0 <=? connfd) eqn:E; [|done]. by rewrite bind_ok, E.
Qed.

Lemma arrivals_spec l : forall e,
  m_acceptor_loop (a_acc e) = cur_tid -> m_has_new_conn (a_acc e) = true -> Forall (fun x => 0 <= x.1) l ->
  arrivals l e = Ok (mkAEnv (a_acc e) (a_poller e) (a_chans e) (a_given e ++ l.*1) (a_closed e)).
Proof.
  induction l as [|[fd err] l IH]; intros e Hl Hc Hf; [cbn; rewrite app_nil_r; by destruct e|].
  apply Forall_cons in Hf as [H0' Hf]. simpl in H0'. cbn [arrivals]. rewrite arrival_spec by done.
  rewrite (proj2 (Z.leb_le 0 fd) H0'), Hc, bind_ok, IH by done. simpl. by rewrite <- app_assoc.
Qed.

(** [listen] on a new acceptor. *)
Lemma listen_spec loop sockfd bound nullfd c p cs ret :
  poller_inv p cs -> loop = cur_tid -> cs !! c = None -> m_channel_map p !! sockfd = None -> 0 <= sockfd -> 0 <= bound -> 0 <= nullfd ->
  0 <= ret ->
  fine (fun e => listening e /\ a_acc e = mkAcceptor loop sockfd c true true nullfd /\ a_given e = [] /\ a_closed e = [])
    (e ← new_Acceptor loop sockfd bound nullfd c p cs; listen ret (on_acc set_new_conn_callback e)).
Proof.
  intros I Hl Hc Hm Hs Hb Hn Hr. unfold new_Acceptor, create_sockfd_nonblocking_or_abort, bind_or_abort.
  rewrite !require_true by lia. rewrite bind_ok. rewrite assert_true by lia. rewrite !bind_ok.
  unfold listen, listen_or_abort. cbn [on_acc a_acc m_acceptor_loop set_new_conn_callback]. rewrite (in_thread_ok _ Hl), bind_ok.
  rewrite require_true by lia. rewrite bind_ok. cbn [a_poller a_chans on_acc a_acc set_listening m_accept_channel].
  set (ch := new_Channel loop sockfd).
  assert (poller_inv p (<[c := ch]> cs)) as I1.
  { apply (inv_frame _ cs); [done|]. intros fd y M. destruct (registered_channel _ _ _ _ I M) as (chy & L & _).
    by rewrite lookup_insert_ne by congruence. }
  pose proof (change_events_spec (fun ev => Z.lor ev kReadEvent) p (<[c := ch]> cs) c ch I1 (lookup_insert_eq _ _ _)) as S.
  specialize (S ltac:(split; [simpl; rewrite (inv_thread _ _ I1); done|right; by split_and!]) ltac:(done)).
  unfold wang_to_read. destruct (change_events _ _ _ _) as [[p' cs']|x]; [|by left; subst].
  destruct S as (I' & M' & idx & -> & _). rewrite bind_ok. cbn [fine]. split; [|done].
  assert (m_channel_map p' !! sockfd = Some c) as Mc by (rewrite M'; apply lookup_insert_eq).
  constructor; cbn [a_with a_acc a_poller a_chans m_acceptor_loop m_accept_channel m_accept_sockfd on_acc set_listening]; [done|done| |].
  - eexists. split; [apply lookup_insert_eq|]. done.
  - exact (watched_complete p' _ sockfd c _ I' Mc (lookup_insert_eq _ _ _) ltac:(done)).
Qed.

Lemma destroy_spec h cur act e :
  listening e -> may_remove h cur act (m_accept_channel (a_acc e)) = true ->
  fine (fun e' => poller_inv (a_poller e') (a_chans e') /\
      m_channel_map (a_poller e') !! m_accept_sockfd (a_acc e) = None /\ a_chans e' !! m_accept_channel (a_acc e) = None /\
      a_closed e' = a_closed e ++ [m_reserved_fd (a_acc e); m_accept_sockfd (a_acc e)] /\ a_given e' = a_given e)
    (destroy_Acceptor h cur act e).
Proof.
  intros [I Hl (ch & Hch & Hf & Hm & Hr & Hh) _] Hmay. unfold destroy_Acceptor. set (c := m_accept_channel (a_acc e)) in *.
  pose proof (change_events_spec (fun _ => kNoneEvent) _ _ _ _ I Hch) as S.
  specialize (S ltac:(split; [rewrite Hr, (inv_thread _ _ I); done|by left]) ltac:(done)).
  unfold end_all. destruct (change_events _ _ _ _) as [[p1 cs1]|x]; [|by left; subst]. rewrite bind_ok.
  destruct S as (I1 & M1 & idx & -> & R1). set (ch1 := set_index _ _) in *.
  cbn [a_with on_acc a_poller a_chans a_acc set_listening].
  destruct (remove_self_spec h cur act p1 (<[c := ch1]> (a_chans e)) c ch1) as (p2 & cs2 & -> & I2 & M2 & O2); try done.
  { apply lookup_insert_eq. }
  { rewrite M1. apply lookup_insert_eq. }
  { simpl. by rewrite Hr, (inv_thread _ _ I1). }
  { by apply R1. }
  rewrite bind_ok. cbn [a_close a_with a_poller a_chans a_acc m_reserved_fd m_accept_sockfd on_acc set_listening].
  specialize (O2 c). rewrite !lookup_insert_eq in O2. destruct (cs2 !! c) as [ch2|] eqn:Hc2; [|done].
  assert (m_fd ch2 = m_fd ch /\ m_is_in_reactor ch2 = false /\ m_is_handing_event ch2 = false) as (Ef & Er & Eh).
  { unfold owner_part in O2. subst ch1. destruct ch, ch2; simpl in *. by simplify_eq. }
  assert (m_channel_map p2 !! m_fd ch2 = None) as Mn by (rewrite M2, Ef; apply lookup_delete_eq).
  assert (destroy_Channel p2 cs2 c = Ok (delete c cs2)) as E.
  { unfold destroy_Channel, has_channel. rewrite Hc2. cbn [of_option]. rewrite bind_ok, Eh, Er. cbn [negb assert_]. rewrite !bind_ok.
    rewrite (in_thread_ok _ (inv_thread _ _ I2)), bind_ok. cbn [of_option]. rewrite bind_ok, Mn. by destruct (_ =? _). }
  rewrite E, bind_ok. cbn [fine a_poller a_chans a_closed a_given].
  split_and!; [exact (poller_step_inv _ _ (step_destroy _ _ _ _ E) I2)| |apply lookup_delete_eq| |done].
  - by rewrite <- Hf, <- Ef.
  - simpl. by rewrite <- app_assoc.
Qed.

(** C30: the life of an acceptor.  Constructed and told to listen in its own
    thread, its socket is watched for reading; then every connection that
    accept(2) returns is given to the callback exactly once and in order, and
    the destructor unregisters and destroys the channel and closes the reserved
    descriptor and the listening socket.  But whenever accept(2) fails, be it
    with an error the code calls expected such as ECONNABORTED, or with EMFILE,
    for which the reserved descriptor is kept, the process aborts. *)
Theorem acceptor_life loop sockfd bound nullfd c (p : P) (cs : chans) ret h cur act :
  poller_inv p cs -> loop = cur_tid -> cs !! c = None -> m_channel_map p !! sockfd = None -> 0 <= sockfd -> 0 <= bound -> 0 <= nullfd ->
  0 <= ret -> may_remove h cur act c = true ->
  fine (fun e => watched (a_poller e) sockfd = Some kReadEvent /\
      (forall l, Forall (fun x => 0 <= x.1) l -> exists e', arrivals l e = Ok e' /\ a_given e' = l.*1 /\ a_closed e' = [] /\
         fine (fun e2 => m_channel_map (a_poller e2) !! sockfd = None /\ a_chans e2 !! c = None /\ a_closed e2 = [nullfd; sockfd])
           (destroy_Acceptor h cur act e')) /\
      (forall connfd errno again nullfd' l, connfd < 0 ->
         handle_conn_arrival connfd errno again nullfd' e = Fail FFatal /\ arrivals ((connfd, errno) :: l) e = Fail FFatal))
    (e ← new_Acceptor loop sockfd bound nullfd c p cs; listen ret (on_acc set_new_conn_callback e)).
Proof.
  intros I Hl Hc Hm Hs Hb Hn Hr Hmay. eapply fine_mono; [|by apply listen_spec].
  intros e (L & Ea & Eg & Ec). pose proof (al_loop _ L) as Hloop. split_and!.
  - pose proof (al_watched _ L) as W. by rewrite Ea in W.
  - intros l Hf. rewrite arrivals_spec; [|done|by rewrite Ea|done]. eexists. split; [reflexivity|]. rewrite Eg, Ec. split_and!; [done|done|].
    eapply fine_mono; [|apply destroy_spec; [destruct L; by constructor|by rewrite Ea]].
    cbn [a_acc a_closed a_given]. rewrite Ea. intros e2 (_ & M2 & C2 & D2 & _). done.
  - intros connfd errno again nullfd' l Hneg. cbn [arrivals]. rewrite !arrival_spec by done.
    by rewrite (proj2 (Z.leb_gt 0 connfd) Hneg).
Qed.
End laws.

Section demo.
#[local] Instance loop_thread : CurrentThread := 1.

Definition acceptor_poller : EPollPoller table_epoll := new_EPollPoller 1 (∅ : table_epoll).

Lemma acceptor_poller_ok : poller_inv acceptor_poller ∅.
Proof. by apply epoll_inv_new. Qed.

Lemma acceptor_life_witness :
  exists e, (e ← new_Acceptor 1 5 0 6 0 acceptor_poller ∅; listen 0 (on_acc set_new_conn_callback e)) = Ok e /\
    handle_conn_arrival (-1) EMFILE 8 6 e = Fail FFatal /\
    exists e', arrivals [(7, 0); (9, 0)] e = Ok e' /\ a_given e' = [7; 9].
Proof.
  pose proof (acceptor_life 1 5 0 6 0 acceptor_poller ∅ 0 false None [] acceptor_poller_ok eq_refl eq_refl eq_refl
    ltac:(lia) ltac:(lia) ltac:(lia) ltac:(lia) eq_refl) as F.
  destruct (new_Acceptor 1 5 0 6 0 acceptor_poller ∅ ≫= _) as [e|x] eqn:E; [|by vm_compute in E].
  exists e. split; [done|]. destruct F as (_ & G & B). split; [by apply (B (-1) EMFILE 8 6 [])|].
  destruct (G [(7, 0); (9, 0)]) as (e' & R & Gv & _); [repeat constructor; simpl; lia|]. exists e'. done.
Defined.
End demo.
