(* ===== verification/TcpServer.v ===== *)
(** [flute/net/TcpServer.{h,cc}]: the connections of a server and the reactors
    they live in.

    A [world] is the server with its connections and the tasks queued in the
    reactors.  The acceptor's reactor accepts and removes connections; every
    connection is established, closed and destroyed in the thread of its own
    reactor.  Of a connection the world keeps its name, reactor and state, as
    [TcpConnection] changes them (its [connection_life] says that the close
    callback comes once, when the state becomes [kDisconnected]). *)

From S2P Require Import Prelude Format Channel Poller TcpConnection ReactorThreadPool.

Abbreviation conn_id := Z.

Record TcpServer : Type := mkServer {
  m_acceptor_reactor : reactor;
  m_ip_port : bytes;
  m_server_name : bytes;                     (* m_name *)
  m_reactor_thread_poll : ReactorThreadPool;
  m_has_started : Z;                         (* an AtomicInt32 *)
  g_conn_counter : Z;                        (* an AtomicInt32 *)
  m_acceptor_listening : bool;
  m_conn_map : gmap bytes conn_id
}.

Record conn : Type := mkConn {
  cn_name : bytes;
  cn_reactor : reactor;
  cn_state : TCPConnectionState;
  cn_established : nat;                      (* how often connect_established ran *)
  cn_destroyed : bool                        (* connect_destroyed ran *)
}.

Inductive server_task : Type := TkListen | TkEstablished (c : conn_id) | TkRemove (c : conn_id) | TkDestroyed (c : conn_id).

#[global] Instance server_task_eq_dec : EqDecision server_task.
Proof. solve_decision. Defined.

Record world : Type := mkWorld {
  w_server : option TcpServer;               (* None: destroyed *)
  w_conns : gmap conn_id conn;
  w_tasks : list (reactor * server_task)
}.

Definition with_server (s : TcpServer) (w : world) : world := mkWorld (Some s) (w_conns w) (w_tasks w).
Definition with_conn (c : conn_id) (k : conn) (w : world) : world := mkWorld (w_server w) (<[c := k]> (w_conns w)) (w_tasks w).
Definition queue_in (r : reactor) (t : server_task) (w : world) : world := mkWorld (w_server w) (w_conns w) (w_tasks w ++ [(r, t)]).

Definition set_cn_state (s : TCPConnectionState) (k : conn) : conn :=
  mkConn (cn_name k) (cn_reactor k) s (cn_established k) (cn_destroyed k).

(** Setters of the server. *)
Definition set_map (m : gmap bytes conn_id) (s : TcpServer) : TcpServer :=
  mkServer (m_acceptor_reactor s) (m_ip_port s) (m_server_name s) (m_reactor_thread_poll s) (m_has_started s) (g_conn_counter s)
    (m_acceptor_listening s) m.
Definition set_pool (p : ReactorThreadPool) (s : TcpServer) : TcpServer :=
  mkServer (m_acceptor_reactor s) (m_ip_port s) (m_server_name s) p (m_has_started s) (g_conn_counter s)
    (m_acceptor_listening s) (m_conn_map s).
Definition set_counter (n : Z) (s : TcpServer) : TcpServer :=
  mkServer (m_acceptor_reactor s) (m_ip_port s) (m_server_name s) (m_reactor_thread_poll s) (m_has_started s) n
    (m_acceptor_listening s) (m_conn_map s).
Definition set_started (n : Z) (s : TcpServer) : TcpServer :=
  mkServer (m_acceptor_reactor s) (m_ip_port s) (m_server_name s) (m_reactor_thread_poll s) n (g_conn_counter s)
    (m_acceptor_listening s) (m_conn_map s).
Definition set_listening (s : TcpServer) : TcpServer :=
  mkServer (m_acceptor_reactor s) (m_ip_port s) (m_server_name s) (m_reactor_thread_poll s) (m_has_started s) (g_conn_counter s)
    true (m_conn_map s).

Definition new_TcpServer (loop : reactor) (ip_port name : bytes) : TcpServer :=
  mkServer loop ip_port name (new_ReactorThreadPool loop name) 0 (get_and_set 0 0).2 false ∅.

(** [assert_in_reactor_thread] of reactor [r] in thread [t]. *)
Definition in_thread (t r : reactor) : outcome unit := @assert_in_thread t r.

(** The server that a callback refers to by its address: using it after its
    destruction is undefined. *)
Definition the_server (w : world) : outcome TcpServer := of_option FBounds (w_server w).

(** ** The connection, as the server uses it *)

Definition connect_established (t : reactor) (c : conn_id) (w : world) : outcome world :=
  k ← of_option FNull (w_conns w !! c);
  in_thread t (cn_reactor k);;
  assert_ (bool_decide (cn_state k = kConnecting));;
  Ok (with_conn c (mkConn (cn_name k) (cn_reactor k) kConnected (S (cn_established k)) (cn_destroyed k)) w).

(** A channel that still wants events, or is not registered, is not removed. *)
Definition connect_destroyed (t : reactor) (c : conn_id) (w : world) : outcome world :=
  k ← of_option FNull (w_conns w !! c);
  in_thread t (cn_reactor k);;
  let k := if bool_decide (cn_state k = kConnected) then set_cn_state kDisconnected k else k in
  assert_ (bool_decide (cn_state k = kDisconnected) && negb (cn_destroyed k));;
  Ok (with_conn c (mkConn (cn_name k) (cn_reactor k) (cn_state k) (cn_established k) true) w).

(** ** The server *)

Definition remove_connection_in_reactor (t : reactor) (c : conn_id) (w : world) : outcome world :=
  s ← the_server w;
  in_thread t (m_acceptor_reactor s);;
  k ← of_option FNull (w_conns w !! c);
  assert_ (bool_decide (is_Some (m_conn_map s !! cn_name k)));;
  Ok (queue_in (cn_reactor k) (TkDestroyed c) (with_server (set_map (delete (cn_name k) (m_conn_map s)) s) w)).

Definition exec_task (t : reactor) (k : server_task) (w : world) : outcome world :=
  match k with
  | TkListen => s ← the_server w; in_thread t (m_acceptor_reactor s);; Ok (with_server (set_listening s) w)
  | TkEstablished c => connect_established t c w
  | TkRemove c => remove_connection_in_reactor t c w
  | TkDestroyed c => connect_destroyed t c w
  end.

(** [Reactor::run_asap_in_reactor] of [r], called in thread [t]. *)
Definition run_asap (t r : reactor) (k : server_task) (w : world) : outcome world :=
  if t =? r then exec_task t k w else Ok (queue_in r k w).

Definition remove_conn (t : reactor) (c : conn_id) (w : world) : outcome world :=
  s ← the_server w; run_asap t (m_acceptor_reactor s) (TkRemove c) w.

Definition set_reactor_pool_size (n : Z) (s : TcpServer) : outcome TcpServer :=
  assert_ (0 <=? n);; Ok (set_pool (set_pool_size n (m_reactor_thread_poll s)) s).

Definition server_start (t : reactor) (has_cb : bool) (spawn : Z -> reactor) (w : world) : outcome world :=
  s ← the_server w;
  let '(old, started) := get_and_set 1 (m_has_started s) in
  let s := set_started started s in
  if old =? 0 then
    '(_, pool) ← @pool_start t has_cb spawn (m_reactor_thread_poll s);
    assert_ (negb (m_acceptor_listening s));;
    run_asap t (m_acceptor_reactor s) TkListen (with_server (set_pool pool s) w)
  else Ok (with_server s w).

(** The name of the connection with number [n]. *)
Definition conn_name (s : TcpServer) (n : Z) : bytes :=
  m_server_name s ++ snprintf 64 (lit ":" ++ m_ip_port s ++ lit "#" ++ dec n).

(** [new_conn_callback]; [c] is the address of the new connection.  When the
    name is taken, the connection that had it loses its owner. *)
Definition new_conn_callback (t : reactor) (c : conn_id) (w : world) : outcome world :=
  s ← the_server w;
  in_thread t (m_acceptor_reactor s);;
  '(r, pool) ← @get_next_reactor t (m_reactor_thread_poll s);
  let name := conn_name s (atomic_get (g_conn_counter s)) in
  '(_, counter) ← add_and_get 32 1 (g_conn_counter s);
  let w := with_conn c (mkConn name r kConnecting 0 false) w in
  match m_conn_map s !! name with
  | Some old => k ← of_option FNull (w_conns w !! old); assert_ (bool_decide (cn_state k = kDisconnected))
  | None => Ok tt
  end;;
  let s := set_map (<[name := c]> (m_conn_map s)) (set_counter counter (set_pool pool s)) in
  run_asap t r (TkEstablished c) (with_server s w).

Fixpoint destroy_all (t : reactor) (l : list (bytes * conn_id)) (w : world) : outcome world :=
  match l with
  | [] => Ok w
  | (_, c) :: l =>
      k ← of_option FNull (w_conns w !! c);
      w ← run_asap t (cn_reactor k) (TkDestroyed c) w;
      destroy_all t l w
  end.

(** The destructor. *)
Definition destroy_TcpServer (t : reactor) (w : world) : outcome world :=
  s ← the_server w;
  in_thread t (m_acceptor_reactor s);;
  w ← destroy_all t (map_to_list (m_conn_map s)) w;
  Ok (mkWorld None (w_conns w) (w_tasks w)).

(** ** Steps *)

(** The first task of a reactor. *)
Fixpoint pop (r : reactor) (l : list (reactor * server_task)) : option (server_task * list (reactor * server_task)) :=
  match l with
  | [] => None
  | (r', k) :: l => if r' =? r then Some (k, l) else '(k', l') ← pop r l; Some (k', (r', k) :: l')
  end.

Inductive server_event : Type :=
| WvAccept (c : conn_id)      (* a connection arrives at the acceptor *)
| WvRun (r : reactor)         (* a reactor runs its first task *)
| WvShutdown (c : conn_id)    (* the user shuts a connection down *)
| WvClose (c : conn_id)       (* handle_close of a connection, in its reactor *)
| WvDestroy.                  (* the server is destroyed *)

Definition server_step (ev : server_event) (w : world) : outcome world :=
  match ev with
  | WvAccept c => s ← the_server w; new_conn_callback (m_acceptor_reactor s) c w
  | WvRun r => match pop r (w_tasks w) with
               | Some (k, l) => exec_task r k (mkWorld (w_server w) (w_conns w) l)
               | None => Ok w
               end
  | WvShutdown c =>
      k ← of_option FNull (w_conns w !! c);
      Ok (if bool_decide (cn_state k = kConnected) then with_conn c (set_cn_state kDisconnecting k) w else w)
  | WvClose c =>
      k ← of_option FNull (w_conns w !! c);
      assert_ (bool_decide (cn_state k = kConnected) || bool_decide (cn_state k = kDisconnecting));;
      remove_conn (cn_reactor k) c (with_conn c (set_cn_state kDisconnected k) w)
  | WvDestroy => s ← the_server w; destroy_TcpServer (m_acceptor_reactor s) w
  end.

Fixpoint server_run (l : list server_event) (w : world) : outcome world :=
  match l with [] => Ok w | ev :: l => w ← server_step ev w; server_run l w end.

(** * The invariant *)

Definition task_conn (k : server_task) : option conn_id :=
  match k with TkListen => None | TkEstablished c | TkRemove c | TkDestroyed c => Some c end.

(** The queued tasks about a connection. *)
Definition tasks_of (c : conn_id) (l : list (reactor * server_task)) : list (reactor * server_task) :=
  filter (fun x => task_conn x.2 = Some c) l.

#[global] Arguments tasks_of : simpl never.

(** Where a connection is: who owns it and which task about it is queued. *)
Definition stage (acceptor : reactor) (owner : option conn_id) (ts : list (reactor * server_task)) (c : conn_id) (k : conn) : Prop :=
  match cn_state k with
  | kConnecting => owner = Some c /\ ts = [(cn_reactor k, TkEstablished c)] /\ cn_established k = 0%nat /\ cn_destroyed k = false
  | kConnected | kDisconnecting => owner = Some c /\ ts = [] /\ cn_established k = 1%nat /\ cn_destroyed k = false
  | kDisconnected => cn_established k = 1%nat /\
      (owner = Some c /\ ts = [(acceptor, TkRemove c)] /\ cn_destroyed k = false \/
       owner = None /\ ts = [(cn_reactor k, TkDestroyed c)] /\ cn_destroyed k = false \/
       owner = None /\ ts = [] /\ cn_destroyed k = true)
  end.

#[global] Arguments stage : simpl never.

Record server_inv (s : TcpServer) (w : world) : Prop := {
  si_server : w_server w = Some s;
  si_pool : @pool_ok (m_acceptor_reactor s) (m_reactor_thread_poll s);
  si_short : len (m_ip_port s) <= 51;
  si_counter : 0 <= g_conn_counter s < 2 ^ 31;
  si_stage : forall c k, w_conns w !! c = Some k ->
    stage (m_acceptor_reactor s) (m_conn_map s !! cn_name k) (tasks_of c (w_tasks w)) c k;
  si_number : forall c k, w_conns w !! c = Some k -> exists n, 0 <= n < g_conn_counter s /\ cn_name k = conn_name s n;
  si_names : forall c1 c2 k1 k2, w_conns w !! c1 = Some k1 -> w_conns w !! c2 = Some k2 -> cn_name k1 = cn_name k2 -> c1 = c2;
  si_map : forall name c, m_conn_map s !! name = Some c -> exists k, w_conns w !! c = Some k /\ cn_name k = name;
  si_tasks : forall r t, (r, t) ∈ w_tasks w ->
    match task_conn t with Some c => is_Some (w_conns w !! c) | None => r = m_acceptor_reactor s end
}.

Lemma conn_name_inj s n1 n2 :
  len (m_ip_port s) <= 51 -> 0 <= n1 < 2 ^ 31 -> 0 <= n2 < 2 ^ 31 -> conn_name s n1 = conn_name s n2 -> n1 = n2.
Proof.
  intros Hs H1 H2 E. unfold conn_name in E. apply app_inv_head in E.
  assert (forall n, 0 <= n < 2 ^ 31 -> dec n = dec_abs n /\ len (dec_abs n) <= 10) as D.
  { intros n Hn. split; [unfold dec; destruct (Z.ltb_spec n 0); [lia|done]|]. apply len_dec_abs; [lia|]. simpl in *. lia. }
  destruct (D n1 H1) as [D1 L1]. destruct (D n2 H2) as [D2 L2]. rewrite D1, D2 in E.
  assert (forall l, len l <= 10 -> len (lit ":" ++ m_ip_port s ++ lit "#" ++ l) < 64) as F.
  { intros l Hl. rewrite !len_app. change (len (lit ":")) with 1. change (len (lit "#")) with 1. lia. }
  rewrite !snprintf_fits in E by (by apply F). do 3 apply app_inv_head in E.
  rewrite <- (dec_abs_value n1), <- (dec_abs_value n2), E by lia. done.
Qed.

(** One connection and the tasks about it change; the others keep their stage. *)
Lemma inv_update s w c k m l cnt pool :
  server_inv s w ->
  (forall c' k', w_conns w !! c' = Some k' -> c' <> c -> cn_name k' <> cn_name k) ->
  (forall k', w_conns w !! c = Some k' -> cn_name k' = cn_name k) ->
  (exists n, 0 <= n < cnt /\ cn_name k = conn_name s n) -> g_conn_counter s <= cnt < 2 ^ 31 -> @pool_ok (m_acceptor_reactor s) pool ->
  (forall name, name <> cn_name k -> m !! name = m_conn_map s !! name) ->
  (m !! cn_name k = Some c \/ m !! cn_name k = None) ->
  (forall c', c' <> c -> tasks_of c' l = tasks_of c' (w_tasks w)) ->
  (forall r t, (r, t) ∈ l -> (r, t) ∈ w_tasks w \/ task_conn t = Some c) ->
  stage (m_acceptor_reactor s) (m !! cn_name k) (tasks_of c l) c k ->
  let s' := set_map m (set_counter cnt (set_pool pool s)) in
  server_inv s' (mkWorld (Some s') (<[c := k]> (w_conns w)) l).
Proof.
  intros [] Hn Hsame Hnum Hcnt Hpool Hm Hmc Hl Ht Hst s'. constructor; cbn; try done; try lia.
  - intros c' k' Hc'. destruct (decide (c' = c)) as [->|Hne].
    + rewrite lookup_insert_eq in Hc'. by simplify_eq.
    + rewrite lookup_insert_ne in Hc' by done. rewrite Hl, Hm by eauto. auto.
  - intros c' k' Hc'. destruct (decide (c' = c)) as [->|Hne].
    + rewrite lookup_insert_eq in Hc'. by simplify_eq.
    + rewrite lookup_insert_ne in Hc' by done. destruct (si_number0 _ _ Hc') as (n & ? & ?). exists n. split; [lia|done].
  - intros c1 c2 k1 k2 H1 H2 E. destruct (decide (c1 = c)) as [->|N1], (decide (c2 = c)) as [->|N2]; try done.
    + rewrite lookup_insert_eq in H1. rewrite lookup_insert_ne in H2 by done. simplify_eq. by destruct (Hn _ _ H2 N2).
    + rewrite lookup_insert_eq in H2. rewrite lookup_insert_ne in H1 by done. simplify_eq. by destruct (Hn _ _ H1 N1).
    + rewrite lookup_insert_ne in H1, H2 by done. eauto.
  - intros name c' Hc'. destruct (decide (name = cn_name k)) as [->|Hne].
    + destruct Hmc as [Hmc|Hmc]; rewrite Hmc in Hc'; simplify_eq. exists k. by rewrite lookup_insert_eq.
    + rewrite Hm in Hc' by done. destruct (si_map0 _ _ Hc') as (k' & Hk' & En). destruct (decide (c' = c)) as [->|Hc].
      * by rewrite (Hsame _ Hk') in En.
      * exists k'. by rewrite lookup_insert_ne.
  - intros r t Hrt. destruct (Ht _ _ Hrt) as [Hold|Hc'].
    + specialize (si_tasks0 _ _ Hold). destruct (task_conn t); [|done]. rewrite lookup_insert_is_Some'. by right.
    + rewrite Hc'. by rewrite lookup_insert_eq.
Qed.

Lemma pop_spec r l k l' : pop r l = Some (k, l') -> exists l1 l2, l = l1 ++ (r, k) :: l2 /\ l' = l1 ++ l2.
Proof.
  revert l'. induction l as [|[r' k'] l IH]; intros l' E; simpl in E; [done|].
  destruct (Z.eqb_spec r' r) as [->|Hne]; [simplify_eq; by exists [], l'|].
  destruct (pop r l) as [[k1 l1]|] eqn:Hp; simpl in E; [|done]. simplify_eq.
  destruct (IH _ eq_refl) as (la & lb & -> & ->). by exists ((r', k') :: la), lb.
Qed.

Lemma tasks_of_app c l1 l2 : tasks_of c (l1 ++ l2) = tasks_of c l1 ++ tasks_of c l2.
Proof. apply filter_app. Qed.

Lemma tasks_of_one c r k : tasks_of c [(r, k)] = if decide (task_conn k = Some c) then [(r, k)] else [].
Proof. unfold tasks_of. rewrite filter_cons, filter_nil. done. Qed.

Lemma tasks_of_snoc c l r k : tasks_of c (l ++ [(r, k)]) = tasks_of c l ++ (if decide (task_conn k = Some c) then [(r, k)] else []).
Proof. by rewrite tasks_of_app, tasks_of_one. Qed.

(** The task that runs is the one that the stage of its connection names. *)
Lemma popped_task r l k l' c x :
  pop r l = Some (k, l') -> task_conn k = Some c -> tasks_of c l = x ->
  (length x <= 1)%nat -> x = [(r, k)] /\ tasks_of c l' = [].
Proof.
  intros Hp Hk Hx Hl. destruct (pop_spec _ _ _ _ Hp) as (l1 & l2 & -> & ->).
  change ((r, k) :: l2) with ([(r, k)] ++ l2) in Hx. rewrite !tasks_of_app, tasks_of_one, decide_True in Hx by done.
  rewrite tasks_of_app. subst x. rewrite !length_app in Hl. simpl in Hl.
  assert (tasks_of c l1 = [] /\ tasks_of c l2 = []) as [-> ->] by (split; apply length_zero_iff_nil; lia). done.
Qed.

Lemma popped_other r l k l' c : pop r l = Some (k, l') -> task_conn k <> Some c -> tasks_of c l' = tasks_of c l.
Proof.
  intros Hp Hk. destruct (pop_spec _ _ _ _ Hp) as (l1 & l2 & -> & ->). change ((r, k) :: l2) with ([(r, k)] ++ l2).
  by rewrite !tasks_of_app, tasks_of_one, decide_False by done.
Qed.

Lemma popped_elem r l k l' x : pop r l = Some (k, l') -> x ∈ l' -> x ∈ l.
Proof.
  intros Hp Hx. destruct (pop_spec _ _ _ _ Hp) as (l1 & l2 & -> & ->). rewrite elem_of_app in *. destruct Hx; [by left|].
  right. by apply elem_of_cons; right.
Qed.

Lemma stage_tasks a o ts c k : stage a o ts c k -> (length ts <= 1)%nat.
Proof.
  unfold stage. destruct (cn_state k); [intros (_ & [(_ & -> & _)|[(_ & -> & _)|(_ & -> & _)]])|intros (_ & -> & _)..]; simpl; lia.
Qed.

(** The same with the server's map, counter and pool as they are. *)
Lemma inv_update_conn s w c k0 k m l :
  server_inv s w -> w_conns w !! c = Some k0 -> cn_name k = cn_name k0 ->
  (forall name, name <> cn_name k -> m !! name = m_conn_map s !! name) ->
  (m !! cn_name k = Some c \/ m !! cn_name k = None) ->
  (forall c', c' <> c -> tasks_of c' l = tasks_of c' (w_tasks w)) ->
  (forall r t, (r, t) ∈ l -> (r, t) ∈ w_tasks w \/ task_conn t = Some c) ->
  stage (m_acceptor_reactor s) (m !! cn_name k) (tasks_of c l) c k ->
  server_inv (set_map m s) (mkWorld (Some (set_map m s)) (<[c := k]> (w_conns w)) l).
Proof.
  intros I Hc Hname Hm Hmc Hl Ht Hst. pose proof (si_counter _ _ I) as Hcnt.
  assert (set_map m s = set_map m (set_counter (g_conn_counter s) (set_pool (m_reactor_thread_poll s) s))) as -> by (by destruct s).
  apply (inv_update s w); try done.
  - intros c' k' Hc' Hne E. apply Hne. eapply (si_names _ _ I); [exact Hc'|exact Hc|congruence].
  - intros k' Hk'. congruence.
  - rewrite Hname. by eapply (si_number _ _ I).
  - lia.
  - apply I.
Qed.

(** The map does not change. *)
Lemma inv_update_stage s w c k0 k l :
  server_inv s w -> w_conns w !! c = Some k0 -> cn_name k = cn_name k0 ->
  (forall c', c' <> c -> tasks_of c' l = tasks_of c' (w_tasks w)) ->
  (forall r t, (r, t) ∈ l -> (r, t) ∈ w_tasks w \/ task_conn t = Some c) ->
  stage (m_acceptor_reactor s) (m_conn_map s !! cn_name k) (tasks_of c l) c k ->
  server_inv s (mkWorld (Some s) (<[c := k]> (w_conns w)) l).
Proof.
  intros I Hc Hname Hl Ht Hst. assert (s = set_map (m_conn_map s) s) as Es by (by destruct s). rewrite Es. rewrite Es at 1.
  apply (inv_update_conn s w c k0); try done.
  destruct (m_conn_map s !! cn_name k) as [c'|] eqn:Hm; [left|by right].
  destruct (si_map _ _ I _ _ Hm) as (k' & Hk' & En). f_equal. eapply (si_names _ _ I); [exact Hk'|exact Hc|congruence].
Qed.

(** * Steps keep the invariant *)

(** What the kernel and the reactors guarantee: a new connection is a new
    object and there are fewer than 2^31 of them, and only an open connection
    is closed. *)
Definition wev_ok (ev : server_event) (s : TcpServer) (w : world) : Prop :=
  match ev with
  | WvAccept c => w_conns w !! c = None /\ g_conn_counter s + 1 < 2 ^ 31
  | WvRun _ => True
  | WvShutdown c => is_Some (w_conns w !! c)
  | WvClose c => exists k, w_conns w !! c = Some k /\ (cn_state k = kConnected \/ cn_state k = kDisconnecting)
  | WvDestroy => False
  end.

Definition same_server (s s' : TcpServer) : Prop := m_acceptor_reactor s' = m_acceptor_reactor s /\ m_reactors (m_reactor_thread_poll s') = m_reactors (m_reactor_thread_poll s).

Definition keeps (s : TcpServer) (w' : world) : Prop := exists s', server_inv s' w' /\ same_server s s'.

Lemma keeps_same s w : server_inv s w -> keeps s w.
Proof. intros I. exists s. by split. Qed.

Lemma in_thread_same t : in_thread t t = Ok tt.
Proof. by apply (@in_thread_ok t). Qed.

(** The connection that a popped task is about, with its stage. *)
Lemma popped_conn s w r k l' c :
  server_inv s w -> pop r (w_tasks w) = Some (k, l') -> task_conn k = Some c ->
  exists kc, w_conns w !! c = Some kc /\ tasks_of c l' = [] /\
    stage (m_acceptor_reactor s) (m_conn_map s !! cn_name kc) [(r, k)] c kc.
Proof.
  intros I Hp Hk. destruct (pop_spec _ _ _ _ Hp) as (l1 & l2 & El & _).
  assert ((r, k) ∈ w_tasks w) as Hin by (rewrite El; apply elem_of_app; right; constructor).
  pose proof (si_tasks _ _ I _ _ Hin) as Ht. rewrite Hk in Ht. destruct Ht as [kc Hc].
  pose proof (si_stage _ _ I _ _ Hc) as Hst. exists kc.
  destruct (popped_task _ _ _ _ _ _ Hp Hk eq_refl (stage_tasks _ _ _ _ _ Hst)) as [E1 E2]. by rewrite E1 in Hst.
Qed.

Lemma run_established s w r c l' :
  server_inv s w -> pop r (w_tasks w) = Some (TkEstablished c, l') ->
  returns (keeps s) (exec_task r (TkEstablished c) (mkWorld (w_server w) (w_conns w) l')).
Proof.
  intros I Hp. destruct (popped_conn _ _ _ _ _ _ I Hp eq_refl) as (k & Hc & Hl & Hst).
  unfold stage in Hst. destruct (cn_state k) eqn:Es; [by destruct Hst as (_ & [(_ & ? & _)|[(_ & ? & _)|(_ & ? & _)]])| |by destruct Hst as (_ & ? & _)..].
  destruct Hst as (Ho & [= ->] & He & Hd). unfold exec_task, connect_established. cbn [w_conns]. rewrite Hc. cbn [of_option].
  rewrite bind_ok, in_thread_same, bind_ok, bool_decide_eq_true_2 by done. cbn [assert_]. rewrite bind_ok. cbn [returns with_conn w_server w_tasks w_conns].
  rewrite (si_server _ _ I). apply keeps_same. apply (inv_update_stage s w c k); cbn [cn_name]; try done.
  - intros c' Hne. eapply popped_other; [done|]. simpl. congruence.
  - intros r' t Hin. left. by eapply popped_elem.
  - unfold stage. cbn [cn_state cn_established cn_destroyed w_tasks]. by rewrite Hl, He.
Qed.

Lemma run_destroyed s w r c l' :
  server_inv s w -> pop r (w_tasks w) = Some (TkDestroyed c, l') ->
  returns (keeps s) (exec_task r (TkDestroyed c) (mkWorld (w_server w) (w_conns w) l')).
Proof.
  intros I Hp. destruct (popped_conn _ _ _ _ _ _ I Hp eq_refl) as (k & Hc & Hl & Hst).
  unfold stage in Hst. destruct (cn_state k) eqn:Es; [|by destruct Hst as (_ & ? & _)..].
  destruct Hst as (He & [(_ & ? & _)|[(Ho & [= ->] & Hd)|(_ & ? & _)]]); [done| |done].
  unfold exec_task, connect_destroyed. cbn [w_conns]. rewrite Hc. cbn [of_option]. rewrite bind_ok, in_thread_same, bind_ok.
  rewrite bool_decide_eq_false_2 by congruence. rewrite bool_decide_eq_true_2, Hd by done. cbn [negb andb assert_]. rewrite bind_ok.
  cbn [returns with_conn w_server w_tasks w_conns]. rewrite (si_server _ _ I). apply keeps_same.
  apply (inv_update_stage s w c k); cbn [cn_name]; try done.
  - intros c' Hne. eapply popped_other; [done|]. simpl. congruence.
  - intros r' t Hin. left. by eapply popped_elem.
  - unfold stage. cbn [cn_state cn_established cn_destroyed w_tasks]. rewrite Es, Hl, He, Ho. split; [done|]. right. by right.
Qed.

(** [remove_connection_in_reactor], with the task list [l] about to be the
    queue. *)
Lemma remove_spec s w c k0 k l :
  server_inv s w -> w_conns w !! c = Some k0 -> cn_name k = cn_name k0 -> cn_state k = kDisconnected ->
  cn_established k = 1%nat -> cn_destroyed k = false -> m_conn_map s !! cn_name k = Some c ->
  (forall c', c' <> c -> tasks_of c' l = tasks_of c' (w_tasks w)) ->
  (forall r t, (r, t) ∈ l -> (r, t) ∈ w_tasks w \/ task_conn t = Some c) -> tasks_of c l = [] ->
  returns (keeps s) (remove_connection_in_reactor (m_acceptor_reactor s) c (mkWorld (Some s) (<[c := k]> (w_conns w)) l)).
Proof.
  intros I Hc Hn Hs He Hd Hm Hl Ht Hlc. unfold remove_connection_in_reactor, the_server. cbn [w_server w_conns of_option].
  rewrite bind_ok, in_thread_same, bind_ok, lookup_insert_eq. cbn [of_option]. rewrite bind_ok, bool_decide_eq_true_2 by (by rewrite Hm).
  cbn [assert_]. rewrite bind_ok. cbn [returns]. exists (set_map (delete (cn_name k) (m_conn_map s)) s). split; [|done].
  unfold queue_in, with_server. cbn [w_server w_conns w_tasks]. apply (inv_update_conn s w c k0); try done.
  - intros name Hne. by apply lookup_delete_ne.
  - right. apply lookup_delete_eq.
  - intros c' Hne. rewrite tasks_of_snoc, decide_False by (simpl; congruence). rewrite app_nil_r. auto.
  - intros r t [Hin|Hin]%elem_of_app; [auto|]. apply list_elem_of_singleton in Hin. simplify_eq. by right.
  - unfold stage. rewrite Hs, tasks_of_snoc, decide_True, Hlc, lookup_delete_eq by done. split; [done|]. right. by left.
Qed.

Lemma run_remove s w r c l' :
  server_inv s w -> pop r (w_tasks w) = Some (TkRemove c, l') ->
  returns (keeps s) (exec_task r (TkRemove c) (mkWorld (w_server w) (w_conns w) l')).
Proof.
  intros I Hp. destruct (popped_conn _ _ _ _ _ _ I Hp eq_refl) as (k & Hc & Hl & Hst).
  unfold stage in Hst. destruct (cn_state k) eqn:Es; [|by destruct Hst as (_ & ? & _)..].
  destruct Hst as (He & [(Ho & [= ->] & Hd)|[(_ & ? & _)|(_ & ? & _)]]); [|done|done].
  rewrite (si_server _ _ I). cbn [exec_task]. rewrite <- (insert_id (w_conns w) c k Hc).
  apply (remove_spec s w c k k); try done.
  - intros c' Hne. eapply popped_other; [done|]. simpl. congruence.
  - intros r' t Hin. left. by eapply popped_elem.
Qed.

Lemma run_listen s w r l' :
  server_inv s w -> pop r (w_tasks w) = Some (TkListen, l') ->
  returns (keeps s) (exec_task r TkListen (mkWorld (w_server w) (w_conns w) l')).
Proof.
  intros I Hp. destruct (pop_spec _ _ _ _ Hp) as (l1 & l2 & El & _).
  assert ((r, TkListen) ∈ w_tasks w) as Hin by (rewrite El; apply elem_of_app; right; constructor).
  pose proof (si_tasks _ _ I _ _ Hin) as Ht. simpl in Ht. subst r. unfold exec_task, the_server. cbn [w_server].
  rewrite (si_server _ _ I). cbn [of_option]. rewrite bind_ok, in_thread_same, bind_ok. cbn [returns].
  exists (set_listening s). split; [|done]. destruct I. constructor; cbn; try done.
  - intros c k Hc. rewrite (popped_other _ _ _ _ _ Hp) by done. auto.
  - intros r t Hrt. apply si_tasks0. by eapply popped_elem.
Qed.

Lemma fresh_tasks s w c : server_inv s w -> w_conns w !! c = None -> tasks_of c (w_tasks w) = [].
Proof.
  intros I Hc. destruct (tasks_of c (w_tasks w)) as [|[r t] l] eqn:E; [done|]. exfalso.
  assert ((r, t) ∈ tasks_of c (w_tasks w)) as Hin by (rewrite E; constructor).
  apply list_elem_of_filter in Hin as [Ht Hin]. simpl in Ht. pose proof (si_tasks _ _ I _ _ Hin) as Hs. rewrite Ht, Hc in Hs. by destruct Hs.
Qed.

(** The next name is not in the map. *)
Lemma next_name_fresh s w c k : server_inv s w -> w_conns w !! c = Some k -> cn_name k <> conn_name s (g_conn_counter s).
Proof.
  intros I Hc E. destruct (si_number _ _ I _ _ Hc) as (n & Hn & En). pose proof (si_counter _ _ I).
  assert (n = g_conn_counter s); [|lia]. eapply conn_name_inj; [apply I|lia|lia|congruence].
Qed.

Lemma accept_spec s w c :
  server_inv s w -> wev_ok (WvAccept c) s w -> returns (keeps s) (server_step (WvAccept c) w).
Proof.
  intros I [Hc Hlim]. unfold server_step, new_conn_callback, the_server. rewrite (si_server _ _ I). cbn [of_option].
  rewrite !bind_ok, in_thread_same, bind_ok.
  destruct (@get_next_spec (m_acceptor_reactor s) (m_reactor_thread_poll s) (si_pool _ _ I)) as (pool & -> & Ip & Rp & Dp & _).
  rewrite bind_ok. cbv zeta. set (r := nth_reactor _ _). unfold atomic_get. set (name := conn_name s (g_conn_counter s)).
  pose proof (si_counter _ _ I) as Hcnt. change (2 ^ 31) with 2147483648 in *.
  unfold add_and_get, get_and_add. change (2 ^ (32 - 1)) with 2147483648. rewrite require_true by lia. rewrite !bind_ok.
  rewrite sw_small by (lia || (split; simpl; lia)). 
  assert (m_conn_map s !! name = None) as Hm.
  { destruct (m_conn_map s !! name) as [c'|] eqn:E; [|done]. destruct (si_map _ _ I _ _ E) as (k' & Hk' & En).
    by destruct (next_name_fresh _ _ _ _ I Hk'). }
  rewrite Hm, bind_ok. set (s' := set_map _ _).
  assert (forall k l, cn_name k = name -> (forall c', c' <> c -> tasks_of c' l = tasks_of c' (w_tasks w)) ->
    (forall r t, (r, t) ∈ l -> (r, t) ∈ w_tasks w \/ task_conn t = Some c) ->
    stage (m_acceptor_reactor s) (Some c) (tasks_of c l) c k ->
    server_inv s' (mkWorld (Some s') (<[c := k]> (w_conns w)) l)) as U.
  { intros k l Hk Hl Ht Hst. apply (inv_update s w c k); try done; rewrite ?Hk.
    - intros c' k' Hc' _. by apply (next_name_fresh s w c').
    - intros k' Hk'. congruence.
    - exists (g_conn_counter s). split; [lia|done].
    - change (2 ^ 31) with 2147483648. lia.
    - intros nm Hne. by apply lookup_insert_ne.
    - left. apply lookup_insert_eq.
    - by rewrite lookup_insert_eq. }
  pose proof (fresh_tasks _ _ _ I Hc) as Hft. unfold run_asap.
  destruct (Z.eqb_spec (m_acceptor_reactor s) r) as [Er|Er].
  - unfold exec_task, connect_established, with_server, with_conn. cbn [w_conns w_server w_tasks]. rewrite lookup_insert_eq. cbn [of_option].
    rewrite bind_ok. cbn [cn_reactor cn_state]. rewrite Er, in_thread_same, bind_ok, bool_decide_eq_true_2 by done. cbn [assert_].
    rewrite bind_ok, insert_insert_eq. cbn [returns cn_name cn_established cn_destroyed]. exists s'. split; [|done]. apply U; try done. by left.
  - cbn [returns]. exists s'. split; [|done]. apply U; try done.
    + intros c' Hne. cbn [w_tasks with_server with_conn]. rewrite tasks_of_snoc, decide_False by (simpl; congruence). by rewrite app_nil_r.
    + intros r' t [Hin|Hin]%elem_of_app; [by left|]. apply list_elem_of_singleton in Hin. simplify_eq. by right.
    + cbn [w_tasks with_server with_conn]. by rewrite tasks_of_snoc, decide_True, Hft.
Qed.

Lemma conn_shutdown_spec s w c :
  server_inv s w -> is_Some (w_conns w !! c) -> returns (keeps s) (server_step (WvShutdown c) w).
Proof.
  intros I [k Hc]. unfold server_step. rewrite Hc. cbn [of_option]. rewrite bind_ok. case_bool_decide as Hs; [|by apply keeps_same].
  apply keeps_same. unfold with_conn. rewrite (si_server _ _ I). apply (inv_update_stage s w c k); try done; [by left|].
  pose proof (si_stage _ _ I _ _ Hc) as Hst. unfold stage in *. by rewrite Hs in Hst.
Qed.

Lemma close_spec s w c :
  server_inv s w -> wev_ok (WvClose c) s w -> returns (keeps s) (server_step (WvClose c) w).
Proof.
  intros I (k & Hc & Hs). unfold server_step. rewrite Hc. cbn [of_option]. rewrite bind_ok.
  assert (bool_decide (cn_state k = kConnected) || bool_decide (cn_state k = kDisconnecting) = true) as ->.
  { by destruct Hs as [->| ->]. }
  cbn [assert_]. rewrite bind_ok. pose proof (si_stage _ _ I _ _ Hc) as Hst.
  assert (m_conn_map s !! cn_name k = Some c /\ tasks_of c (w_tasks w) = [] /\ cn_established k = 1%nat /\ cn_destroyed k = false) as (Ho & Ht & He & Hd).
  { unfold stage in Hst. by destruct Hs as [Es|Es]; rewrite Es in Hst. }
  unfold remove_conn, the_server, with_conn. cbn [w_server]. rewrite (si_server _ _ I). cbn [of_option]. rewrite bind_ok. unfold run_asap.
  destruct (Z.eqb_spec (cn_reactor k) (m_acceptor_reactor s)) as [Er|Er].
  - rewrite Er. cbn [exec_task]. apply (remove_spec s w c k); try done. by left.
  - cbn [returns]. apply keeps_same. unfold queue_in. cbn [w_server w_conns w_tasks]. apply (inv_update_stage s w c k); try done.
    + intros c' Hne. rewrite tasks_of_snoc, decide_False by (simpl; congruence). by rewrite app_nil_r.
    + intros r' t [Hin|Hin]%elem_of_app; [by left|]. apply list_elem_of_singleton in Hin. simplify_eq. by right.
    + unfold stage. cbn [cn_state set_cn_state cn_established cn_destroyed cn_name]. rewrite tasks_of_snoc, decide_True, Ht, Ho by done.
      split; [done|]. by left.
Qed.

Lemma server_step_spec ev s w : server_inv s w -> wev_ok ev s w -> returns (keeps s) (server_step ev w).
Proof.
  intros I Hok. destruct ev as [c|r|c|c|]; [by apply accept_spec| |by apply conn_shutdown_spec|by apply close_spec|done].
  cbn [server_step]. destruct (pop r (w_tasks w)) as [[k l']|] eqn:Hp; [|by apply keeps_same].
  destruct k; [by apply run_listen|by apply run_established|by apply run_remove|by apply run_destroyed].
Qed.

(** * Theorems *)

(** A step of a server that is not destroyed. *)
Inductive wstep : world -> world -> Prop :=
| wstep_ev ev s w w' : w_server w = Some s -> wev_ok ev s w -> server_step ev w = Ok w' -> wstep w w'.

Definition is_open_conn (k : conn) : Prop := cn_state k = kConnected \/ cn_state k = kDisconnecting.

Lemma wstep_inv s w w' : wstep w w' -> server_inv s w -> keeps s w'.
Proof.
  intros [ev s1 w1 w2 Hs Hok E] I. assert (s1 = s) as -> by (pose proof (si_server _ _ I); congruence).
  pose proof (server_step_spec ev s w1 I Hok) as F. by rewrite E in F.
Qed.

Lemma keeps_trans s s' w : same_server s s' -> keeps s' w -> keeps s w.
Proof. intros [A1 A2] (s2 & I & B1 & B2). exists s2. split; [done|]. split; congruence. Qed.

Lemma wsteps_inv w w' : rtc wstep w w' -> forall s, server_inv s w -> keeps s w'.
Proof.
  induction 1 as [|w1 w2 w3 S _ IH]; intros s I; [by apply keeps_same|].
  destruct (wstep_inv _ _ _ S I) as (s' & I' & Hs). eapply keeps_trans; [exact Hs|]. by apply IH.
Qed.

(** The server after its construction, [set_reactor_pool_size] and [start]. *)
Definition started_server (loop : reactor) (ip_port name : bytes) (n : Z) (has_cb : bool) (spawn : Z -> reactor) : outcome world :=
  s ← set_reactor_pool_size n (new_TcpServer loop ip_port name);
  server_start loop has_cb spawn (mkWorld (Some s) ∅ []).

Lemma started_inv loop ip_port name n has_cb spawn :
  0 <= n < 2 ^ 31 -> len ip_port <= 51 ->
  returns (fun w => exists s, server_inv s w /\ m_acceptor_reactor s = loop /\ m_acceptor_listening s = true /\
      m_reactors (m_reactor_thread_poll s) = (fun i => spawn (Z.of_nat i)) <$> seq 0 (Z.to_nat n))
    (started_server loop ip_port name n has_cb spawn).
Proof.
  intros Hn Hip. unfold started_server, set_reactor_pool_size. rewrite assert_true by lia. rewrite !bind_ok.
  unfold server_start, the_server. cbn [w_server of_option]. rewrite bind_ok. cbn.
  unfold pool_start. cbn [m_pool_started new_ReactorThreadPool set_pool_size negb assert_ m_default_reactor].
  rewrite (@in_thread_ok loop loop eq_refl), !bind_ok.
  destruct (@start_threads_spec (Z.to_nat n) 0 spawn (set_pool_size n (new_ReactorThreadPool loop name))) as (R & D & X).
  unfold set_pool_size, new_ReactorThreadPool in *. cbn [m_default_reactor m_pool_name m_pool_started m_next_idx m_thread_names m_reactors m_size_pool] in *.
  set (q := start_threads _ _ _ _) in *. cbn. unfold run_asap. cbn. rewrite Z.eqb_refl, in_thread_same, bind_ok. cbn [returns].
  match goal with |- exists s, server_inv s (with_server ?s1 _) /\ _ => exists s1 end.
  split; [|split; [reflexivity|split; [reflexivity|exact R]]].
  constructor; cbn; try done.
  - constructor; cbn; [by rewrite D|done| |rewrite X; lia].
    rewrite R. unfold len. rewrite length_app, length_fmap, length_seq. simpl. lia.
  - intros r t Hin. by apply elem_of_nil in Hin.
Qed.

(** C32: the connections of a server.  For a started server with any number of
    I/O threads, whatever connections arrive and however they are shut down and
    closed, in any interleaving of the reactors: the next step returns, so
    names are unique, the removed connection is always in the map, and every
    task runs in the thread of its reactor; a connection is established at most
    once and destroyed at most once, after it was established and taken out of
    the map; and when no task is queued, the map holds exactly the open
    connections, every other one having been destroyed. *)
Theorem server_connections loop ip_port name n has_cb spawn w0 w :
  0 <= n < 2 ^ 31 -> len ip_port <= 51 ->
  started_server loop ip_port name n has_cb spawn = Ok w0 -> rtc wstep w0 w ->
  exists s, w_server w = Some s /\
    (forall ev, wev_ok ev s w -> exists w', server_step ev w = Ok w') /\
    (forall c k, w_conns w !! c = Some k ->
       (cn_established k <= 1)%nat /\ (cn_destroyed k = true -> cn_established k = 1%nat /\ m_conn_map s !! cn_name k = None)) /\
    (w_tasks w = [] ->
       (forall nm c, m_conn_map s !! nm = Some c <-> exists k, w_conns w !! c = Some k /\ cn_name k = nm /\ is_open_conn k) /\
       (forall c k, w_conns w !! c = Some k -> is_open_conn k \/ cn_destroyed k = true)).
Proof.
  intros Hn Hip E0 R. pose proof (started_inv loop ip_port name n has_cb spawn Hn Hip) as S0. rewrite E0 in S0.
  destruct S0 as (s0 & I0 & _). destruct (wsteps_inv _ _ R _ I0) as (s & I & _). exists s. split_and!.
  - apply I.
  - intros ev Hok. destruct (returns_ok _ _ (server_step_spec ev s w I Hok)) as (w' & E & _). by exists w'.
  - intros c k Hc. pose proof (si_stage _ _ I _ _ Hc) as Hst. unfold stage in Hst.
    destruct (cn_state k); [|destruct Hst as (_ & _ & -> & ->); split; [lia|done]..].
    destruct Hst as (-> & Hst). split; [lia|]. intros Hd. split; [done|].
    destruct Hst as [(_ & _ & ?)|[(_ & _ & ?)|(? & _)]]; congruence.
  - intros Ht.
    assert (forall c k, w_conns w !! c = Some k ->
      is_open_conn k /\ m_conn_map s !! cn_name k = Some c \/ cn_destroyed k = true /\ m_conn_map s !! cn_name k = None) as Q.
    { intros c k Hc. pose proof (si_stage _ _ I _ _ Hc) as Hst. rewrite Ht in Hst. unfold stage, tasks_of in Hst. rewrite filter_nil in Hst.
      unfold is_open_conn. destruct (cn_state k); [|by destruct Hst as (_ & ? & _)|left; split; [by left|apply Hst]|left; split; [by right|apply Hst]].
      right. by destruct Hst as (_ & [(_ & ? & _)|[(_ & ? & _)|(? & _ & ?)]]). }
    split; [|intros c k Hc; destruct (Q c k Hc) as [[? _]|[? _]]; auto].
    intros nm c. split.
    + intros Hm. destruct (si_map _ _ I _ _ Hm) as (k & Hc & <-). exists k. destruct (Q c k Hc) as [[? _]|[_ ?]]; [done|congruence].
    + intros (k & Hc & <- & Ho). destruct (Q c k Hc) as [[_ ?]|[Hd _]]; [done|]. exfalso.
      pose proof (si_stage _ _ I _ _ Hc) as Hst. unfold stage in Hst. destruct Ho as [Es|Es]; rewrite Es in Hst;
        destruct Hst as (_ & _ & _ & ?); congruence.
Qed.

(** * Runs *)

Definition demo_world : world :=
  match started_server 1 (lit "0.0.0.0:80") (lit "web") 2 false (fun i => 100 + i) with Ok w => w | Fail _ => mkWorld None ∅ [] end.

(** Two connections; the first is closed, removed and destroyed. *)
Definition demo_life : list server_event :=
  [WvAccept 7; WvAccept 8; WvRun 100; WvRun 101; WvClose 7; WvRun 1; WvRun 100].

(** The guards, decided. *)
Definition wev_okb (ev : server_event) (s : TcpServer) (w : world) : bool :=
  match ev with
  | WvAccept c => bool_decide (w_conns w !! c = None) && (g_conn_counter s + 1 <? 2 ^ 31)
  | WvRun _ => true
  | WvShutdown c => bool_decide (is_Some (w_conns w !! c))
  | WvClose c => match w_conns w !! c with
                 | Some k => bool_decide (cn_state k = kConnected) || bool_decide (cn_state k = kDisconnecting)
                 | None => false
                 end
  | WvDestroy => false
  end.

Lemma wev_okb_ok ev s w : wev_okb ev s w = true -> wev_ok ev s w.
Proof.
  destruct ev as [c|r|c|c|]; simpl; try done.
  - intros [->%bool_decide_eq_true H%Z.ltb_lt]%andb_true_iff. done.
  - by intros ?%bool_decide_eq_true.
  - destruct (w_conns w !! c) as [k|]; [|done]. intros H. exists k. split; [done|].
    apply orb_true_iff in H as [?%bool_decide_eq_true|?%bool_decide_eq_true]; auto.
Qed.

Fixpoint all_wok (l : list server_event) (w : world) : bool :=
  match l with
  | [] => true
  | ev :: l =>
      match w_server w with
      | Some s => wev_okb ev s w && match server_step ev w with Ok w' => all_wok l w' | Fail _ => false end
      | None => false
      end
  end.

Lemma all_wok_run l : forall w, all_wok l w = true -> exists w', server_run l w = Ok w' /\ rtc wstep w w'.
Proof.
  induction l as [|ev l IH]; intros w Hl; [exists w; split; [done|apply rtc_refl]|]. cbn [all_wok] in Hl.
  destruct (w_server w) as [s|] eqn:Hs; [|done]. apply andb_true_iff in Hl as [Hok%wev_okb_ok Hl]. cbn [server_run].
  destruct (server_step ev w) as [w1|] eqn:E; [|done]. rewrite bind_ok.
  destruct (IH _ Hl) as (w' & R & T). exists w'. split; [done|]. eapply rtc_l; [|exact T]. by eapply wstep_ev.
Qed.

Lemma demo_life_ok : all_wok demo_life demo_world = true.
Proof. vm_compute. reflexivity. Qed.

Lemma server_connections_witness :
  exists w s, server_run demo_life demo_world = Ok w /\ w_server w = Some s /\ w_tasks w = [] /\
    (forall nm c, m_conn_map s !! nm = Some c <-> exists k, w_conns w !! c = Some k /\ cn_name k = nm /\ is_open_conn k) /\
    m_conn_map s !! lit "web:0.0.0.0:80#1" = Some 8.
Proof.
  destruct (all_wok_run _ _ demo_life_ok) as (w & R & T).
  destruct (server_connections 1 (lit "0.0.0.0:80") (lit "web") 2 false (fun i => 100 + i) demo_world w) as (s & Hs & _ & _ & Q);
    [lia|by vm_compute|by vm_compute|exact T|].
  exists w, s. vm_compute in R. injection R as <-. split; [by vm_compute|]. split; [done|]. split; [done|].
  split; [by apply Q|]. injection Hs as <-. by vm_compute.
Defined.

(** After the server is gone, a connection of another thread that is closed
    before its [connect_destroyed] runs calls the server back. *)
Example close_after_destruction :
  server_run [WvAccept 7; WvRun 100; WvDestroy; WvClose 7] demo_world = Fail FBounds.
Proof. by vm_compute. Qed.

(** Destroying the server while a connection in its own thread is shutting
    down. *)
Example destruction_while_shutting_down :
  server_run [WvAccept 7; WvRun 100; WvShutdown 7; WvDestroy; WvRun 100] demo_world = Fail FAssert.
Proof. by vm_compute. Qed.
