(* ===== verification/InetAddress.v ===== *)
(** [flute/net/InetAddress.{h,cc}], with the address functions of
    [flute/net/SocketsOps.cc] and the text of [Socket::get_tcp_info_string].

    An address is the 28 bytes of the union of [sockaddr_in] and
    [sockaddr_in6] that the class wraps: the family at offset 0 in host order,
    the port at 2 in network order, the IPv4 address at 4 and the IPv6 address
    at 8.  inet_ntop(3) and inet_pton(3) are a class of functions with the
    laws their manual page states. *)

From S2P Require Import Prelude Endian StringPiece Format LogStream.

Definition AF_INET : Z := 2.
Definition AF_INET6 : Z := 10.
Definition INET_ADDRSTRLEN : Z := 16.
Definition INET6_ADDRSTRLEN : Z := 46.
Definition sizeof_sockaddr_in : Z := 16.
Definition sizeof_sockaddr_in6 : Z := 28.

Definition kInaddrAny : Z := 0.
Definition kInaddrLoopback : Z := 2130706433.   (* 127.0.0.1 *)
Definition in6addr_any : bytes := replicate 16 NUL.
Definition in6addr_loopback : bytes := replicate 15 NUL ++ [byte_of_Z 1].

(** * The text of an address *)

Class InetText : Type := {
  inet_ntop : Z -> bytes -> bytes;
  inet_pton : Z -> bytes -> option bytes
}.

(** The family, the length of its addresses and the room for their text, NUL
    included. *)
Definition family_ok (f n room : Z) : Prop :=
  f = AF_INET /\ n = 4 /\ room = INET_ADDRSTRLEN \/ f = AF_INET6 /\ n = 16 /\ room = INET6_ADDRSTRLEN.

Class InetTextLaws `{InetText} : Prop := {
  ntop_bound f n room a : family_ok f n room -> len a = n -> len (inet_ntop f a) < room;
  ntop_no_nul f n room a : family_ok f n room -> len a = n -> NUL ∉ inet_ntop f a;
  pton_ntop f n room a : family_ok f n room -> len a = n -> inet_pton f (inet_ntop f a) = Some a;
  pton_len f n room s a : family_ok f n room -> inet_pton f s = Some a -> len a = n
}.

(** * The class *)

Section inet.
Context `{HostEndian} `{InetText}.

Abbreviation sockaddr := bytes (only parsing).

(** The fields. *)
Definition load_at (a : sockaddr) (pos n : Z) : Z := mem_load (slice a pos (pos + n)).
Definition sin_family (a : sockaddr) : Z := load_at a 0 2.
Definition sin_port (a : sockaddr) : Z := load_at a 2 2.
Definition s_addr (a : sockaddr) : Z := load_at a 4 4.
Definition sin_addr (a : sockaddr) : bytes := slice a 4 8.
Definition sin6_addr (a : sockaddr) : bytes := slice a 8 24.

Definition set_family (f : Z) (a : sockaddr) : sockaddr := overwrite a 0 (mem_store 2 f).
Definition set_port (p : Z) (a : sockaddr) : sockaddr := overwrite a 2 (mem_store 2 p).
Definition set_sin_addr (i : bytes) (a : sockaddr) : sockaddr := overwrite a 4 i.
Definition set_sin6_addr (i : bytes) (a : sockaddr) : sockaddr := overwrite a 8 i.
Definition mem_zero (n : Z) (a : sockaddr) : sockaddr := overwrite a 0 (replicate (Z.to_nat n) NUL).

(** [InetAddress(port, loopbackOnly, ipv6)]; [garbage] is the memory the
    object is constructed in. *)
Definition InetAddress_port (garbage : sockaddr) (port : Z) (loopbackOnly ipv6 : bool) : sockaddr :=
  if ipv6 then
    let a := mem_zero sizeof_sockaddr_in6 garbage in
    let a := set_family AF_INET6 a in
    let ip := if loopbackOnly then in6addr_loopback else in6addr_any in
    let a := set_sin6_addr ip a in
    set_port (host_to_net16 port) a
  else
    let a := mem_zero sizeof_sockaddr_in garbage in
    let a := set_family AF_INET a in
    let ip := if loopbackOnly then kInaddrLoopback else kInaddrAny in
    let a := set_sin_addr (mem_store 4 (host_to_net32 ip)) a in
    set_port (host_to_net16 port) a.

(** [fromIpPort] for both families: a text that is no address is logged and
    leaves the address bytes as they are. *)
Definition fromIpPort (ip : bytes) (port : Z) (a : sockaddr) : sockaddr :=
  let a := set_family AF_INET a in
  let a := set_port (host_to_net16 port) a in
  match inet_pton AF_INET ip with Some i => set_sin_addr i a | None => a end.
Definition fromIpPort6 (ip : bytes) (port : Z) (a : sockaddr) : sockaddr :=
  let a := set_family AF_INET6 a in
  let a := set_port (host_to_net16 port) a in
  match inet_pton AF_INET6 ip with Some i => set_sin6_addr i a | None => a end.

(** [InetAddress(ip, port, ipv6)]. *)
Definition InetAddress_ip (garbage : sockaddr) (ip : bytes) (port : Z) (ipv6 : bool) : sockaddr :=
  if ipv6 then fromIpPort6 ip port (mem_zero sizeof_sockaddr_in6 garbage)
  else fromIpPort ip port (mem_zero sizeof_sockaddr_in garbage).

(** [InetAddress(const sockaddr_in&)] and [InetAddress(const sockaddr_in6&)]. *)
Definition InetAddress_in (garbage : sockaddr) (addr : sockaddr) : sockaddr := overwrite garbage 0 addr.
Definition InetAddress_in6 (addr6 : sockaddr) : sockaddr := addr6.

Definition set_sock_addr_inet6 (addr6 : sockaddr) (a : sockaddr) : sockaddr := addr6.

Definition family (a : sockaddr) : Z := sin_family a.
Definition port_net_endian (a : sockaddr) : Z := sin_port a.
Definition to_port (a : sockaddr) : Z := net_to_host16 (port_net_endian a).
Definition ip_net_endian (a : sockaddr) : outcome Z := assert_ (family a =? AF_INET);; Ok (s_addr a).

(** [socket_ops::to_ip] into a buffer of [size] bytes that holds the string
    [buf]; inet_ntop leaves a buffer alone that is too small. *)
Definition ntop_into (buf : bytes) (size : Z) (text : bytes) : bytes := if len text <? size then text else buf.
Definition ops_to_ip (buf : bytes) (size : Z) (a : sockaddr) : outcome bytes :=
  if sin_family a =? AF_INET then
    assert_ (INET_ADDRSTRLEN <=? size);; Ok (ntop_into buf size (inet_ntop AF_INET (sin_addr a)))
  else if sin_family a =? AF_INET6 then
    assert_ (INET6_ADDRSTRLEN <=? size);; Ok (ntop_into buf size (inet_ntop AF_INET6 (sin6_addr a)))
  else Ok buf.

Definition ops_to_ip_port (buf : bytes) (size : Z) (a : sockaddr) : outcome bytes :=
  buf ← ops_to_ip buf size a;
  let port := net_to_host16 (sin_port a) in
  assert_ (len buf <? size);;
  Ok (buf ++ snprintf (size - len buf) (lit ":" ++ dec port)).

Definition to_ip_port (a : sockaddr) : outcome bytes := ops_to_ip_port [] 64 a.
Definition to_ip (a : sockaddr) : outcome bytes := ops_to_ip [] 64 a.

(** gethostbyname_r: its result, and the host entry if it found one. *)
Record hostent : Type := mkHostent { h_addrtype : Z; h_length : Z; h_addr : bytes }.

Definition resolve (ret : Z) (he : option hostent) (out : sockaddr) : outcome (bool * sockaddr) :=
  match he with
  | Some he =>
      if ret =? 0 then
        assert_ ((h_addrtype he =? AF_INET) && (h_length he =? 4));;
        Ok (true, set_sin_addr (take 4 (h_addr he)) out)
      else Ok (false, out)
  | None => Ok (false, out)
  end.

(** [getsockname] and [getpeername]: [None] when they fail. *)
Definition get_local_addr (name : option sockaddr) : sockaddr :=
  let localaddr := replicate (Z.to_nat sizeof_sockaddr_in6) NUL in
  match name with Some a => overwrite localaddr 0 a | None => localaddr end.
Definition get_peer_addr (name : option sockaddr) : sockaddr :=
  let peeraddr := replicate (Z.to_nat sizeof_sockaddr_in6) NUL in
  match name with Some a => overwrite peeraddr 0 a | None => peeraddr end.

(** getsockopt(SO_ERROR): the option's value, or [errno]. *)
Definition getSocketError (ret optval errno : Z) : Z := if ret <? 0 then errno else optval.

Definition isSelfConnect (local peer : option sockaddr) : bool :=
  let localaddr := get_local_addr local in
  let peeraddr := get_peer_addr peer in
  if sin_family localaddr =? AF_INET then
    (sin_port localaddr =? sin_port peeraddr) && (s_addr localaddr =? s_addr peeraddr)
  else if sin_family localaddr =? AF_INET6 then
    (sin_port localaddr =? sin_port peeraddr) && bool_decide (sin6_addr localaddr = sin6_addr peeraddr)
  else false.
End inet.

(** * The statistics of a connection *)

Record tcp_info : Type := mkTcpInfo {
  tcpi_retransmits : Z; tcpi_rto : Z; tcpi_ato : Z; tcpi_snd_mss : Z; tcpi_rcv_mss : Z; tcpi_lost : Z; tcpi_retrans : Z;
  tcpi_rtt : Z; tcpi_rttvar : Z; tcpi_snd_ssthresh : Z; tcpi_snd_cwnd : Z; tcpi_total_retrans : Z
}.

Definition tcp_info_fields (t : tcp_info) : list (bytes * Z) :=
  [(lit "unrecovered=", tcpi_retransmits t); (lit " rto=", tcpi_rto t); (lit " ato=", tcpi_ato t); (lit " snd_mss=", tcpi_snd_mss t);
   (lit " rcv_mss=", tcpi_rcv_mss t); (lit " lost=", tcpi_lost t); (lit " retrans=", tcpi_retrans t); (lit " rtt=", tcpi_rtt t);
   (lit " rttvar=", tcpi_rttvar t); (lit " sshthresh=", tcpi_snd_ssthresh t); (lit " cwnd=", tcpi_snd_cwnd t);
   (lit " total_retrans=", tcpi_total_retrans t)].

Definition tcp_info_text (t : tcp_info) : bytes := concat ((fun x => x.1 ++ dec x.2) <$> tcp_info_fields t).

(** [Socket::get_tcp_info_string] into a buffer with the string [buf];
    [None]: getsockopt(2) failed. *)
Definition get_tcp_info_string (buf : bytes) (size : Z) (info : option tcp_info) : bool * bytes :=
  match info with
  | Some t => (true, snprintf size (tcp_info_text t))
  | None => (false, buf)
  end.

(** [TcpConnection::get_tcp_info_string]. *)
Definition conn_tcp_info_string (info : option tcp_info) : bytes := (get_tcp_info_string [] 1024 info).2.

(** * Lemmas *)

(** The last separator splits a text in one way. *)
Lemma last_sep_inj (c : byte) x y d e : c ∉ d -> c ∉ e -> x ++ c :: d = y ++ c :: e -> x = y /\ d = e.
Proof.
  revert e. induction d as [|a d IH] using rev_ind; intros e; induction e as [|b e _] using rev_ind; intros Hd He E.
  - apply app_inj_tail in E. naive_solver.
  - rewrite app_comm_cons, app_assoc in E. apply app_inj_tail in E as [_ ->]. set_solver.
  - rewrite app_comm_cons, app_assoc in E. apply app_inj_tail in E as [_ <-]. set_solver.
  - rewrite !app_comm_cons, !app_assoc in E. apply app_inj_tail in E as [E ->].
    destruct (IH e) as [-> ->]; [set_solver|set_solver|done|done].
Qed.

Lemma dec_nonneg z : 0 <= z -> dec z = dec_abs z.
Proof. intros. unfold dec. destruct (Z.ltb_spec z 0); [lia|done]. Qed.

Lemma digits_no_char (c : byte) l : Forall is_digit l -> ~ is_digit c -> c ∉ l.
Proof. intros F Hc Hin. rewrite Forall_forall in F. by apply Hc, F. Qed.

Section laws.
Context `{HostEndian} `{InetTextLaws}.

(** An address of one of the two families. *)
Definition wf_addr (a : bytes) : Prop := len a = sizeof_sockaddr_in6 /\ (sin_family a = AF_INET \/ sin_family a = AF_INET6).
(** The bytes of the internet address, and the number of the port. *)
Definition ip_bytes (a : bytes) : bytes := if sin_family a =? AF_INET then sin_addr a else sin6_addr a.
Definition endpoint (a : bytes) : Z * bytes * Z := (sin_family a, ip_bytes a, to_port a).
Definition ip_port_text (a : bytes) : bytes := inet_ntop (sin_family a) (ip_bytes a) ++ lit ":" ++ dec (to_port a).

Lemma to_port_value a : len a = 28 -> to_port a = be_value (slice a 2 4).
Proof.
  intros L. unfold to_port, port_net_endian, net_to_host16, sin_port, load_at.
  assert (len (slice a 2 4) = 2) as L2 by (rewrite len_slice; lia).
  rewrite uw_small; [apply betoh_load; unfold len in L2; lia|].
  pose proof (mem_load_range (slice a 2 (2 + 2))) as R. change (2 + 2) with 4 in R. rewrite L2 in R. exact R.
Qed.

Lemma to_port_range a : len a = 28 -> 0 <= to_port a < 65536.
Proof.
  intros L. rewrite to_port_value by done. unfold be_value. pose proof (le_value_range (reverse (slice a 2 4))) as R.
  unfold len in R at 1. rewrite length_reverse in R. fold (len (slice a 2 4)) in R. rewrite len_slice in R by lia. exact R.
Qed.

Lemma ip_family a : wf_addr a -> exists n room, family_ok (sin_family a) n room /\ len (ip_bytes a) = n /\ room <= 46.
Proof.
  intros [L F]. unfold sizeof_sockaddr_in6 in L. unfold ip_bytes, family_ok. destruct F as [->| ->].
  - exists 4, INET_ADDRSTRLEN. split; [by left|]. rewrite Z.eqb_refl. unfold sin_addr, INET_ADDRSTRLEN. rewrite len_slice; lia.
  - exists 16, INET6_ADDRSTRLEN. split; [by right|]. change (AF_INET6 =? AF_INET) with false. cbv iota.
    unfold sin6_addr, INET6_ADDRSTRLEN. rewrite len_slice; lia.
Qed.

Lemma to_ip_port_spec a : wf_addr a -> to_ip_port a = Ok (ip_port_text a) /\ len (ip_port_text a) <= 51.
Proof.
  intros W. destruct (ip_family a W) as (n & room & F & L & R). pose proof (ntop_bound _ _ _ _ F L) as B.
  pose proof (to_port_range a (proj1 W)) as P. assert (len (dec_abs (to_port a)) <= 5) as D by (apply len_dec_abs; [lia|change (10 ^ 5) with 100000; lia]).
  rewrite <- dec_nonneg in D by lia.
  assert (ops_to_ip [] 64 a = Ok (inet_ntop (sin_family a) (ip_bytes a))) as E.
  { unfold ops_to_ip, ip_bytes, ntop_into. unfold ip_bytes in B. destruct W as [_ [E|E]]; rewrite E in *; simpl in *;
      by rewrite (proj2 (Z.ltb_lt _ _)) by lia. }
  unfold to_ip_port, ops_to_ip_port. rewrite E, bind_ok, assert_true, bind_ok by lia.
  unfold ip_port_text. change (net_to_host16 (sin_port a)) with (to_port a). rewrite !len_app. change (len (lit ":")) with 1.
  split; [|lia]. rewrite snprintf_fits; [done|]. rewrite len_app. change (len (lit ":")) with 1. lia.
Qed.

(** The text names the endpoint. *)
Lemma ip_port_text_inj a b : wf_addr a -> wf_addr b -> sin_family a = sin_family b ->
  ip_port_text a = ip_port_text b <-> endpoint a = endpoint b.
Proof.
  intros Wa Wb F. unfold endpoint. split; [|intros [= E1 E2 E3]; unfold ip_port_text; by rewrite E1, E2, E3].
  pose proof (to_port_range a (proj1 Wa)) as Pa. pose proof (to_port_range b (proj1 Wb)) as Pb.
  unfold ip_port_text. rewrite !dec_nonneg by lia. intros E. apply last_sep_inj in E as [Ei Ed].
  - rewrite <- (dec_abs_value (to_port a)), Ed, dec_abs_value, F by lia. do 2 f_equal.
    destruct (ip_family a Wa) as (n & room & Fa & La & _). destruct (ip_family b Wb) as (n' & room' & Fb & Lb & _).
    apply (inj Some). rewrite <- (pton_ntop _ _ _ _ Fa La), <- (pton_ntop _ _ _ _ Fb Lb), Ei. by rewrite F.
  - apply digits_no_char; [apply dec_abs_digits; lia|]. by intros [].
  - apply digits_no_char; [apply dec_abs_digits; lia|]. by intros [].
Qed.

Lemma sin_port_to_port a b : len a = 28 -> len b = 28 -> sin_port a = sin_port b <-> to_port a = to_port b.
Proof.
  intros La Lb. split; [intros E; unfold to_port, port_net_endian; by rewrite E|].
  rewrite !to_port_value by done. intros E. unfold sin_port, load_at. f_equal.
  apply be_value_inj; [|done]. apply Nat2Z.inj. change (len (slice a 2 4) = len (slice b 2 4)). rewrite !len_slice; lia.
Qed.

Lemma len_store_at (a src : bytes) pos : len a = 28 -> 0 <= pos -> pos + len src <= 28 -> len (overwrite a pos src) = 28.
Proof. intros La ? ?. rewrite len_overwrite; lia. Qed.

(** The fields, from the bytes stored. *)
Lemma stored_fields b f p : len b = 28 -> 0 <= f < 65536 -> 0 <= p < 65536 ->
  slice b 0 2 = mem_store 2 f -> slice b 2 4 = mem_store 2 (host_to_net16 p) -> sin_family b = f /\ to_port b = p.
Proof.
  intros L Hf Hp Ef Ep. split.
  - unfold sin_family, load_at. change (0 + 2) with 2. rewrite Ef, mem_load_store. by rewrite Z.mod_small.
  - rewrite to_port_value, Ep by done. unfold host_to_net16. rewrite mem_store_htobe, uw_small by done.
    unfold be_value, be_bytes. rewrite reverse_involutive, le_value_le_bytes. by rewrite Z.mod_small.
Qed.

Lemma stored_same (a src : bytes) pos n : len a = 28 -> 0 <= pos -> len src = n -> pos + n <= 28 ->
  slice (overwrite a pos src) pos (pos + n) = src.
Proof. intros L ? <- ?. apply slice_overwrite_same; lia. Qed.

(** The family, the port and the address, written in either order. *)
Lemma written_fields a f p pos i :
  len a = 28 -> 0 <= f < 65536 -> 0 <= p < 65536 -> 4 <= pos -> pos + len i <= 28 ->
  let b := overwrite (set_port (host_to_net16 p) (set_family f a)) pos i in
  let c := set_port (host_to_net16 p) (overwrite (set_family f a) pos i) in
  (len b = 28 /\ sin_family b = f /\ to_port b = p /\ slice b pos (pos + len i) = i) /\
  (len c = 28 /\ sin_family c = f /\ to_port c = p /\ slice c pos (pos + len i) = i).
Proof.
  intros L Hf Hp Hpos Hi b c. pose proof (len_nonneg i). pose proof (len_mem_store 2 f) as Sf. pose proof (len_mem_store 2 (host_to_net16 p)) as Sp.
  assert (len (set_family f a) = 28) as L1 by (apply len_store_at; lia).
  assert (len (set_port (host_to_net16 p) (set_family f a)) = 28) as L2 by (apply len_store_at; lia).
  assert (len (overwrite (set_family f a) pos i) = 28) as L3 by (apply len_store_at; lia).
  assert (len b = 28) as Lb by (apply len_store_at; lia). assert (len c = 28) as Lc by (apply len_store_at; lia).
  assert (slice (set_family f a) 0 2 = mem_store 2 f) as F by (apply (stored_same a _ 0 2); lia).
  assert (slice b 0 2 = mem_store 2 f) as Fb.
  { unfold b. rewrite slice_overwrite_before by lia. unfold set_port. by rewrite slice_overwrite_before by lia. }
  assert (slice c 0 2 = mem_store 2 f) as Fc.
  { unfold c, set_port. by rewrite !slice_overwrite_before by lia. }
  assert (slice b 2 4 = mem_store 2 (host_to_net16 p)) as Pb.
  { unfold b. rewrite slice_overwrite_before by lia. apply (stored_same _ _ 2 2); lia. }
  assert (slice c 2 4 = mem_store 2 (host_to_net16 p)) as Pc by (apply (stored_same _ _ 2 2); lia).
  destruct (stored_fields b f p) as [? ?]; try done. destruct (stored_fields c f p) as [? ?]; try done.
  split; (split_and!; [done..|]).
  - apply stored_same; lia.
  - unfold c, set_port. rewrite slice_overwrite_after by lia. apply stored_same; lia.
Qed.

Definition family_of (ipv6 : bool) : Z := if ipv6 then AF_INET6 else AF_INET.

Lemma InetAddress_ip_endpoint garbage ip port ipv6 i :
  len garbage = 28 -> 0 <= port < 65536 -> inet_pton (family_of ipv6) ip = Some i ->
  wf_addr (InetAddress_ip garbage ip port ipv6) /\ endpoint (InetAddress_ip garbage ip port ipv6) = (family_of ipv6, i, port).
Proof.
  intros L Hp Hi. unfold InetAddress_ip, fromIpPort, fromIpPort6, endpoint, ip_bytes, wf_addr.
  assert (forall n, 0 <= n <= 28 -> len (mem_zero n garbage) = 28) as Lz.
  { intros n Hn. apply len_store_at; rewrite ?len_replicate; lia. }
  destruct ipv6; unfold family_of in *; rewrite Hi.
  - assert (len i = 16) as Ei by (eapply (pton_len _ 16 INET6_ADDRSTRLEN); [by right|done]).
    destruct (written_fields (mem_zero 28 garbage) AF_INET6 port 8 i) as [(Lb & F & P & S) _];
      [by apply Lz|done|done|done|lia|]. unfold set_sin6_addr, sizeof_sockaddr_in6. rewrite F, P. rewrite Ei in S.
    split; [auto|]. change (8 + 16) with 24 in S. unfold sin6_addr. by rewrite S.
  - assert (len i = 4) as Ei by (eapply (pton_len _ 4 INET_ADDRSTRLEN); [by left|done]).
    destruct (written_fields (mem_zero 16 garbage) AF_INET port 4 i) as [(Lb & F & P & S) _];
      [by apply Lz|done|done|done|lia|]. unfold set_sin_addr, sizeof_sockaddr_in6, sizeof_sockaddr_in. rewrite F, P. rewrite Ei in S.
    split; [auto|]. change (4 + 4) with 8 in S. unfold sin_addr. by rewrite S.
Qed.

(** The address that a server listens on: any address of the family, or the
    loopback address. *)
Definition local_ip (loopbackOnly ipv6 : bool) : bytes :=
  if ipv6 then if loopbackOnly then in6addr_loopback else in6addr_any
  else be_bytes 4 (if loopbackOnly then kInaddrLoopback else kInaddrAny).

Lemma InetAddress_port_endpoint garbage port loopbackOnly ipv6 :
  len garbage = 28 -> 0 <= port < 65536 ->
  wf_addr (InetAddress_port garbage port loopbackOnly ipv6) /\
  endpoint (InetAddress_port garbage port loopbackOnly ipv6) = (family_of ipv6, local_ip loopbackOnly ipv6, port).
Proof.
  intros L Hp. unfold InetAddress_port, endpoint, ip_bytes, wf_addr.
  assert (forall n, 0 <= n <= 28 -> len (mem_zero n garbage) = 28) as Lz.
  { intros n Hn. apply len_store_at; rewrite ?len_replicate; lia. }
  destruct ipv6; unfold family_of, local_ip.
  - set (i := if loopbackOnly then _ else _). assert (len i = 16) as Ei by (by destruct loopbackOnly).
    destruct (written_fields (mem_zero 28 garbage) AF_INET6 port 8 i) as [_ (Lb & F & P & S)];
      [by apply Lz|done|done|done|lia|]. unfold set_sin6_addr, sizeof_sockaddr_in6. rewrite F, P. rewrite Ei in S.
    split; [auto|]. change (8 + 16) with 24 in S. unfold sin6_addr. by rewrite S.
  - set (v := if loopbackOnly then _ else _). unfold host_to_net32. rewrite mem_store_htobe, uw_small by (by destruct loopbackOnly).
    destruct (written_fields (mem_zero 16 garbage) AF_INET port 4 (be_bytes 4 v)) as [_ (Lb & F & P & S)];
      [by apply Lz|done|done|done|by rewrite len_be_bytes|].
    unfold set_sin_addr, sizeof_sockaddr_in6, sizeof_sockaddr_in. rewrite F, P. rewrite len_be_bytes in S.
    split; [auto|]. change (4 + Z.of_nat 4) with 8 in S. unfold sin_addr. by rewrite S.
Qed.

(** C11: addresses and their text.  An address constructed from the text of
    an IPv4 or IPv6 address and a port has that family, address and port on
    hosts of either byte order; its text is that of inet_ntop with the port
    behind it, never cut off by the 64-byte buffer and at most 51 characters;
    and the address that is constructed from the printed text is the same
    endpoint.  An address constructed from a port alone is any address, or the
    loopback address, with that port. *)
Theorem inet_address_roundtrip garbage ip port ipv6 i :
  len garbage = sizeof_sockaddr_in6 -> 0 <= port < 2 ^ 16 -> inet_pton (family_of ipv6) ip = Some i ->
  let a := InetAddress_ip garbage ip port ipv6 in
  family a = family_of ipv6 /\ ip_bytes a = i /\ to_port a = port /\
  to_ip_port a = Ok (inet_ntop (family_of ipv6) i ++ lit ":" ++ dec port) /\
  len (inet_ntop (family_of ipv6) i ++ lit ":" ++ dec port) <= 51 /\
  forall garbage', len garbage' = sizeof_sockaddr_in6 ->
    endpoint (InetAddress_ip garbage' (inet_ntop (family_of ipv6) i) port ipv6) = endpoint a /\
    forall loopbackOnly, endpoint (InetAddress_port garbage' port loopbackOnly ipv6) = (family_of ipv6, local_ip loopbackOnly ipv6, port).
Proof.
  intros L Hp Hi a. destruct (InetAddress_ip_endpoint garbage ip port ipv6 i L Hp Hi) as [W E]. fold a in W, E.
  destruct (to_ip_port_spec a W) as [T B]. unfold ip_port_text in T, B. unfold endpoint in E. injection E as Ef Ei Ep.
  rewrite Ef, Ei, Ep in T, B. split_and!; try done. intros garbage' L'.
  split; [|intros lo; by apply InetAddress_port_endpoint].
  unfold endpoint at 2. rewrite Ef, Ei, Ep. apply InetAddress_ip_endpoint; [done|done|].
  destruct (ip_family a W) as (n & room & F & Li & _). rewrite Ef, Ei in *. by apply (pton_ntop _ n room).
Qed.

(** The test for a connection of a socket with itself.  For two addresses
    of the same family, as those of one socket are, it compares exactly what
    their texts say; it is false when the local address cannot be obtained. *)
Theorem self_connect_exact a b :
  wf_addr a -> wf_addr b -> sin_family a = sin_family b ->
  (isSelfConnect (Some a) (Some b) = true <-> to_ip_port a = to_ip_port b) /\
  (isSelfConnect (Some a) (Some b) = true <-> endpoint a = endpoint b) /\
  isSelfConnect None (Some b) = false.
Proof.
  intros Wa Wb F. assert (isSelfConnect (Some a) (Some b) = true <-> endpoint a = endpoint b) as Q.
  { unfold isSelfConnect, get_local_addr, get_peer_addr.
    assert (forall x, len x = 28 -> overwrite (replicate (Z.to_nat sizeof_sockaddr_in6) NUL) 0 x = x) as Ov.
    { intros x Lx. unfold overwrite. rewrite drop_ge by (rewrite length_replicate; unfold len, sizeof_sockaddr_in6 in *; lia).
      simpl. by rewrite app_nil_r. }
    rewrite !Ov by apply Wa || apply Wb. pose proof (sin_port_to_port a b (proj1 Wa) (proj1 Wb)) as Hp.
    unfold endpoint, ip_bytes. rewrite <- F. destruct Wa as [La Fa]. destruct Wb as [Lb Fb]. unfold sizeof_sockaddr_in6 in *.
    destruct Fa as [Ea|Ea]; rewrite Ea; cbn [Z.eqb AF_INET AF_INET6 Pos.eqb]; rewrite andb_true_iff, Z.eqb_eq, Hp.
    - rewrite Z.eqb_eq. unfold s_addr, load_at, sin_addr. change (4 + 4) with 8. split; [|by intros [= -> ->]].
      intros [-> Es]. do 2 f_equal. apply mem_load_inj; [|done]. apply Nat2Z.inj.
      change (len (slice a 4 8) = len (slice b 4 8)). rewrite !len_slice; lia.
    - rewrite bool_decide_eq_true. split; [by intros [-> ->]|by intros [= -> ->]]. }
  split_and!; [|done|by destruct host_little eqn:E; unfold isSelfConnect, sin_family, load_at, mem_load; rewrite E].
  rewrite Q, <- ip_port_text_inj by done. destruct (to_ip_port_spec a Wa) as [-> _]. destruct (to_ip_port_spec b Wb) as [-> _].
  split; [by intros ->|by intros [= ->]].
Qed.

(** ** Every address is well formed *)

Lemma overwrite_nil (a : bytes) pos : overwrite a pos [] = a.
Proof. unfold overwrite. simpl. rewrite Z.add_0_r. apply take_drop. Qed.

(** Also from a text that is no address. *)
Lemma InetAddress_ip_wf garbage ip port ipv6 :
  len garbage = 28 -> 0 <= port < 65536 ->
  wf_addr (InetAddress_ip garbage ip port ipv6) /\ to_port (InetAddress_ip garbage ip port ipv6) = port /\
  sin_family (InetAddress_ip garbage ip port ipv6) = family_of ipv6.
Proof.
  intros L Hp. destruct (inet_pton (family_of ipv6) ip) as [i|] eqn:Hi.
  - destruct (InetAddress_ip_endpoint garbage ip port ipv6 i L Hp Hi) as [W [= E1 _ E3]]. done.
  - assert (forall n f, 0 <= n <= 28 -> f = AF_INET \/ f = AF_INET6 ->
      wf_addr (set_port (host_to_net16 port) (set_family f (mem_zero n garbage))) /\
      to_port (set_port (host_to_net16 port) (set_family f (mem_zero n garbage))) = port /\
      sin_family (set_port (host_to_net16 port) (set_family f (mem_zero n garbage))) = f) as G.
    { intros n f Hn Hf. destruct (written_fields (mem_zero n garbage) f port 4 []) as [(Lb & F & P & _) _];
        [apply len_store_at; rewrite ?len_replicate; lia|destruct Hf as [->| ->]; done|done|done|done|].
      rewrite overwrite_nil in *. split_and!; [|done..]. split; [done|]. rewrite F. done. }
    unfold InetAddress_ip, fromIpPort, fromIpPort6. destruct ipv6; unfold family_of in *; rewrite Hi; apply G; auto; done.
Qed.

(** How addresses come about: by the constructors, from what the kernel has
    written (any bytes, of any family, that fit into the structure, or nothing
    when the call failed), and by a [resolve] that returns. *)
Inductive made : bytes -> Prop :=
| made_port garbage port loopbackOnly ipv6 :
    len garbage = sizeof_sockaddr_in6 -> 0 <= port < 2 ^ 16 -> made (InetAddress_port garbage port loopbackOnly ipv6)
| made_ip garbage ip port ipv6 :
    len garbage = sizeof_sockaddr_in6 -> 0 <= port < 2 ^ 16 -> made (InetAddress_ip garbage ip port ipv6)
| made_in garbage addr :
    len garbage = sizeof_sockaddr_in6 -> len addr = sizeof_sockaddr_in -> made (InetAddress_in garbage addr)
| made_in6 addr6 : len addr6 = sizeof_sockaddr_in6 -> made (InetAddress_in6 addr6)
| made_local name : (forall a, name = Some a -> len a <= sizeof_sockaddr_in6) -> made (InetAddress_in6 (get_local_addr name))
| made_peer name : (forall a, name = Some a -> len a <= sizeof_sockaddr_in6) -> made (InetAddress_in6 (get_peer_addr name))
| made_set addr6 a : made a -> len addr6 = sizeof_sockaddr_in6 -> made (set_sock_addr_inet6 addr6 a)
| made_resolved ret he ok a a' : made a -> resolve ret he a = Ok (ok, a') -> made a'.

Lemma kernel_addr_len (name : option bytes) :
  (forall a, name = Some a -> len a <= sizeof_sockaddr_in6) -> len (get_local_addr name) = sizeof_sockaddr_in6.
Proof.
  intros Hn. unfold get_local_addr. destruct name as [a|]; [|by rewrite len_replicate].
  pose proof (Hn a eq_refl). pose proof (len_nonneg a). unfold sizeof_sockaddr_in6 in *.
  apply len_store_at; [by rewrite len_replicate|lia|lia].
Qed.

(** [resolve] writes the IPv4 address and nothing else. *)
Lemma resolve_keeps ret he ok a a' :
  len a = 28 -> resolve ret he a = Ok (ok, a') -> len a' = 28 /\ sin_family a' = sin_family a /\ sin_port a' = sin_port a.
Proof.
  intros L E. unfold resolve in E. destruct he as [h|]; [|by injection E as _ <-]. destruct (ret =? 0); [|by injection E as _ <-].
  destruct (_ && _); [|done]. simpl in E. injection E as _ <-.
  assert (len (take 4 (h_addr h)) <= 4) by (unfold len; rewrite length_take; lia).
  split; [apply len_store_at; lia|]. unfold set_sin_addr, sin_family, sin_port, load_at.
  by rewrite !slice_overwrite_before by lia.
Qed.

Lemma made_len a : made a -> len a = sizeof_sockaddr_in6.
Proof.
  induction 1 as [garbage port lo v6 L Hp|garbage ip port v6 L Hp|garbage addr L La|addr6 L|name Hn|name Hn|addr6 a _ _ L|ret he ok a a' M IH E]; try done.
  - by apply InetAddress_port_endpoint.
  - by apply InetAddress_ip_wf.
  - unfold InetAddress_in, sizeof_sockaddr_in6, sizeof_sockaddr_in in *. apply len_store_at; lia.
  - by apply kernel_addr_len.
  - by apply kernel_addr_len.
  - by destruct (resolve_keeps ret he ok a a' IH E).
Qed.

(** The text of the address, empty for a family that is neither of the two. *)
Definition ip_text (a : bytes) : bytes :=
  if family a =? AF_INET then inet_ntop AF_INET (sin_addr a)
  else if family a =? AF_INET6 then inet_ntop AF_INET6 (sin6_addr a) else [].

Lemma ip_text_spec a :
  len a = 28 -> to_ip a = Ok (ip_text a) /\ len (ip_text a) < INET6_ADDRSTRLEN /\
  to_ip_port a = Ok (ip_text a ++ lit ":" ++ dec (to_port a)).
Proof.
  intros L. pose proof (to_port_range a L) as P.
  destruct (decide (sin_family a = AF_INET \/ sin_family a = AF_INET6)) as [F|F].
  - assert (wf_addr a) as W by (by split). destruct (to_ip_port_spec a W) as [T _]. destruct (ip_family a W) as (n & room & Fo & Li & R).
    pose proof (ntop_bound _ _ _ _ Fo Li) as Bn.
    assert (ip_text a = inet_ntop (sin_family a) (ip_bytes a)) as ->.
    { unfold ip_text, ip_bytes, family. by destruct F as [->| ->]. }
    unfold ip_port_text in T. split_and!; [|unfold INET6_ADDRSTRLEN; lia|done].
    unfold to_ip, ops_to_ip, ntop_into, ip_bytes in *. destruct F as [E|E]; rewrite E in *; simpl in *;
      by rewrite (proj2 (Z.ltb_lt _ _)) by lia.
  - assert (sin_family a =? AF_INET = false /\ sin_family a =? AF_INET6 = false) as [E1 E2].
    { rewrite !Z.eqb_neq. tauto. }
    unfold to_ip_port, ops_to_ip_port, to_ip, ops_to_ip, ip_text, family. rewrite E1, E2. split_and!; [done|done|].
    rewrite bind_ok, assert_true, bind_ok by done. change (net_to_host16 (sin_port a)) with (to_port a).
    rewrite snprintf_fits; [done|]. rewrite len_app. change (len (lit ":")) with 1. rewrite len_nil.
    assert (len (dec (to_port a)) <= 5); [|lia]. rewrite dec_nonneg by lia. apply len_dec_abs; [lia|change (10 ^ 5) with 100000; lia].
Qed.

(** C39: addresses are well typed.  Every address that the constructors make of
    anything (also of a text that is no address), that the kernel has written
    into (whatever family it has, and also when the call failed) or that
    [resolve] has changed, consists of the 28 bytes of its structure; the text of
    [to_ip] is that of its family, empty for a family that is neither IPv4 nor
    IPv6, and is complete and fits into its buffer, as does that of
    [to_ip_port]; the port is a 16-bit number; and [ip_net_endian] returns the
    address exactly for IPv4 and fails its assertion for any other family.  The
    two constructors that are given a port set the port and the family they are
    asked for, and [resolve] keeps both. *)
Theorem inet_address_typed a :
  made a ->
  len a = sizeof_sockaddr_in6 /\ to_ip a = Ok (ip_text a) /\ len (ip_text a) < INET6_ADDRSTRLEN /\
  to_ip_port a = Ok (ip_text a ++ lit ":" ++ dec (to_port a)) /\ 0 <= to_port a < 2 ^ 16 /\
  ip_net_endian a = (if family a =? AF_INET then Ok (s_addr a) else Fail FAssert) /\
  (forall port lo v6, 0 <= port < 2 ^ 16 ->
     let b := InetAddress_port a port lo v6 in family b = family_of v6 /\ to_port b = port) /\
  (forall ip port v6, 0 <= port < 2 ^ 16 ->
     let b := InetAddress_ip a ip port v6 in family b = family_of v6 /\ to_port b = port) /\
  (forall ret he ok b, resolve ret he a = Ok (ok, b) -> family b = family a /\ to_port b = to_port a).
Proof.
  intros L%made_len. destruct (ip_text_spec a L) as (T1 & T2 & T3). split_and!; try done.
  - by apply to_port_range.
  - by apply to_port_range.
  - unfold ip_net_endian. by destruct (family a =? AF_INET).
  - intros port lo v6 Hp b. destruct (InetAddress_port_endpoint a port lo v6 L Hp) as [_ [= E1 _ E3]]. done.
  - intros ip port v6 Hp b. destruct (InetAddress_ip_wf a ip port v6 L Hp) as (_ & ? & ?). done.
  - intros ret he ok b E. destruct (resolve_keeps ret he ok a b L E) as (_ & F & P).
    unfold family, to_port, port_net_endian. by rewrite F, P.
Qed.
End laws.

(** The statistics never fill the buffer of [TcpConnection]. *)
Lemma tcp_info_string_fits t :
  Forall (fun x => 0 <= x.2 < 2 ^ 32) (tcp_info_fields t) -> conn_tcp_info_string (Some t) = tcp_info_text t.
Proof.
  intros F. unfold conn_tcp_info_string, get_tcp_info_string. cbn [snd]. apply snprintf_fits. unfold tcp_info_text.
  assert (forall l k, Forall (fun x => 0 <= x.2 < 2 ^ 32) l -> Forall (fun x : bytes * Z => len x.1 <= k) l ->
    len (concat ((fun x => x.1 ++ dec x.2) <$> l)) <= len l * (k + 10)) as B.
  { intros l k. induction l as [|[x n] l IH]; intros H1 H2; [done|]. inversion H1; inversion H2; simplify_eq/=.
    rewrite !len_app, len_cons. specialize (IH ltac:(done) ltac:(done)). change (2 ^ 32) with 4294967296 in *.
    assert (len (dec n) <= 10) by (rewrite dec_nonneg by lia; apply len_dec_abs; [lia|change (10 ^ 10) with 10000000000; lia]). lia. }
  specialize (B _ 15 F). change (len (tcp_info_fields t)) with 12 in B. eapply Z.le_lt_trans; [apply B|done].
  repeat constructor; by vm_compute.
Qed.

(** * Runs *)

(** Texts separated by a character. *)
Fixpoint join (sep : byte) (l : list bytes) : bytes :=
  match l with [] => [] | [x] => x | x :: l => x ++ sep :: join sep l end.
Fixpoint split_at (sep : byte) (s : bytes) : list bytes :=
  match s with
  | [] => [[]]
  | c :: s =>
      if bool_decide (c = sep) then [] :: split_at sep s
      else match split_at sep s with x :: l => (c :: x) :: l | [] => [[c]] end
  end.

Lemma split_at_notin sep x : sep ∉ x -> split_at sep x = [x].
Proof.
  induction x as [|c x IH]; intros Hx; [done|]. cbn [split_at]. rewrite bool_decide_eq_false_2 by set_solver.
  by rewrite IH by set_solver.
Qed.

Lemma split_at_app sep x s : sep ∉ x -> split_at sep (x ++ sep :: s) = x :: split_at sep s.
Proof.
  induction x as [|c x IH]; intros Hx; cbn [app split_at]; [by rewrite bool_decide_eq_true_2|].
  rewrite bool_decide_eq_false_2 by set_solver. by rewrite IH by set_solver.
Qed.

Lemma split_join sep l : l <> [] -> Forall (fun x => sep ∉ x) l -> split_at sep (join sep l) = l.
Proof.
  induction l as [|x [|y l] IH]; intros Hl F; [done| |]; inversion F; subst; [by apply split_at_notin|].
  change (join sep (x :: y :: l)) with (x ++ sep :: join sep (y :: l)). rewrite split_at_app by done. by rewrite IH.
Qed.

Lemma len_join sep k l : l <> [] -> Forall (fun x => len x <= k) l -> len (join sep l) < len l * (k + 1).
Proof.
  induction l as [|x [|y l] IH]; intros Hl F; [done| |]; inversion F; subst; [cbn [join]; len_lia|].
  change (join sep (x :: y :: l)) with (x ++ sep :: join sep (y :: l)). rewrite len_app, !len_cons.
  specialize (IH ltac:(done) ltac:(done)). rewrite len_cons in IH. lia.
Qed.

Lemma elem_of_join c sep l : c ∈ join sep l -> c = sep \/ exists x, x ∈ l /\ c ∈ x.
Proof.
  induction l as [|x [|y l] IH]; [by intros ?%elem_of_nil| |].
  - cbn [join]. intros. right. exists x. split; [by left|done].
  - change (join sep (x :: y :: l)) with (x ++ sep :: join sep (y :: l)). rewrite elem_of_app, elem_of_cons. set_solver.
Qed.

(** Dotted decimal, and eight hexadecimal groups without compression. *)
Fixpoint pairs (l : bytes) : list Z :=
  match l with x :: y :: l => (Z_of_byte x * 256 + Z_of_byte y) :: pairs l | _ => [] end.
Definition unpairs (l : list Z) : bytes := concat (be_bytes 2 <$> l).

Definition plain_ntop (f : Z) (a : bytes) : bytes :=
  if f =? AF_INET then join "."%char ((fun b => dec_abs (Z_of_byte b)) <$> a)
  else join ":"%char (hex_digits 4 <$> pairs a).
Definition plain_pton (f : Z) (s : bytes) : option bytes :=
  if f =? AF_INET then
    let a := (fun t => byte_of_Z (dec_value t)) <$> split_at "."%char s in if len a =? 4 then Some a else None
  else
    let a := unpairs (hex_value <$> split_at ":"%char s) in if len a =? 16 then Some a else None.
#[local] Instance plain_text : InetText := {| inet_ntop := plain_ntop; inet_pton := plain_pton |}.

Lemma unpairs_pairs n l : length l = (2 * n)%nat -> unpairs (pairs l) = l.
Proof.
  revert l. induction n as [|n IH]; intros [|x [|y l]] L; simpl in L; try lia; [done|].
  cbn [pairs]. unfold unpairs in *. rewrite fmap_cons. cbn [concat]. rewrite IH by lia.
  unfold be_bytes. cbn [le_bytes]. pose proof (Z_of_byte_range x). pose proof (Z_of_byte_range y).
  change (reverse [?a; ?b]) with [b; a].
  rewrite Z.div_add_l, (Z.div_small (Z_of_byte y)), Z.add_0_r by lia. rewrite byte_of_Z_of_byte.
  replace (byte_of_Z (Z_of_byte x * 256 + Z_of_byte y)) with y; [done|].
  rewrite <- (byte_of_Z_of_byte y) at 1. unfold byte_of_Z. by rewrite Z.add_comm, Z.mod_add.
Qed.

Lemma hex_digits_chars f n c : c ∈ hex_digits f n -> c ∈ digits_hex.
Proof.
  revert n. induction f as [|f IH]; intros n; cbn [hex_digits]; [by intros ?%elem_of_nil|].
  change (lit _) with digits_hex. destruct (hex_digit_at n) as [d Hd]. rewrite Hd. simpl default.
  assert (d ∈ digits_hex) by (by eapply list_elem_of_lookup_2). destruct (n <? 16).
  - by intros ->%list_elem_of_singleton.
  - rewrite elem_of_app. intros [?| ->%list_elem_of_singleton]; [by eapply IH|done].
Qed.

Lemma pairs_range l : Forall (fun n => 0 <= n < 65536) (pairs l).
Proof.
  assert (forall n l, (length l < n)%nat -> Forall (fun n => 0 <= n < 65536) (pairs l)) as P; [|by eapply (P (S (length l))); lia].
  clear l. induction n as [|n IH]; intros [|x [|y l]] L; simpl in L; try lia; cbn [pairs]; constructor.
  - pose proof (Z_of_byte_range x). pose proof (Z_of_byte_range y). lia.
  - apply IH. lia.
Qed.

Lemma length_pairs n l : length l = (2 * n)%nat -> length (pairs l) = n.
Proof.
  revert l. induction n as [|n IH]; intros [|x [|y l]] L; simpl in L; try lia; [done|]. cbn [pairs length]. by rewrite IH by lia.
Qed.

Lemma dotted_parts (a : bytes) : Forall (fun x => len x <= 3 /\ Forall is_digit x) ((fun b => dec_abs (Z_of_byte b)) <$> a).
Proof.
  apply Forall_fmap, Forall_true. intros b. simpl. pose proof (Z_of_byte_range b). split; [|apply dec_abs_digits; lia].
  apply len_dec_abs; [lia|change (10 ^ 3) with 1000; lia].
Qed.

Lemma plain4 a : len a = 4 ->
  len (plain_ntop AF_INET a) < 16 /\ NUL ∉ plain_ntop AF_INET a /\ plain_pton AF_INET (plain_ntop AF_INET a) = Some a.
Proof.
  intros La. pose proof (dotted_parts a) as P. unfold plain_pton. unfold plain_ntop. change (AF_INET =? AF_INET) with true. cbv iota.
  set (l := _ <$> a) in *. assert (len l = 4) as Ll by (unfold l, len in *; by rewrite length_fmap).
  assert (l <> []) as N by (by intros ->). split_and!.
  - pose proof (len_join "."%char 3 l N) as B. rewrite Ll in B. apply B. eapply Forall_impl; [exact P|]. by intros x [? _].
  - intros [?|(x & Hx & Hc)]%elem_of_join; [done|]. rewrite Forall_forall in P. destruct (P x Hx) as [_ D].
    revert Hc. apply digits_no_char; [done|by intros []].
  - rewrite split_join; [|done|].
    + assert ((fun t => byte_of_Z (dec_value t)) <$> l = a) as ->; [|by rewrite La].
      unfold l. rewrite <- list_fmap_compose. rewrite <- (list_fmap_id a) at 2. apply list_fmap_ext. intros _ b _. simpl.
      pose proof (Z_of_byte_range b). rewrite dec_abs_value by lia. apply byte_of_Z_of_byte.
    + eapply Forall_impl; [exact P|]. intros x [_ D]. apply digits_no_char; [done|by intros []].
Qed.

Lemma plain6 a : len a = 16 ->
  len (plain_ntop AF_INET6 a) < 46 /\ NUL ∉ plain_ntop AF_INET6 a /\ plain_pton AF_INET6 (plain_ntop AF_INET6 a) = Some a.
Proof.
  intros La. unfold plain_pton. unfold plain_ntop. change (AF_INET6 =? AF_INET) with false. cbv iota.
  assert (length (pairs a) = 8%nat) as Lp by (apply length_pairs; unfold len in La; lia).
  set (l := _ <$> pairs a) in *. assert (len l = 8) as Ll by (unfold l, len in *; by rewrite length_fmap, Lp).
  assert (l <> []) as N by (by intros ->).
  assert (forall c x, bool_decide (c ∉ digits_hex) = true -> x ∈ l -> c ∉ x) as not_hex.
  { intros c x Hc%bool_decide_eq_true (n & -> & _)%list_elem_of_fmap Hin. by apply Hc, (hex_digits_chars 4 n). }
  split_and!.
  - pose proof (len_join ":"%char 4 l N) as B. rewrite Ll in B. eapply Z.lt_trans; [apply B|done].
    apply Forall_fmap, Forall_true. intros n. apply (len_hex_digits 4).
  - intros [?|(x & Hx & Hc)]%elem_of_join; [done|]. revert Hc. by apply (not_hex NUL).
  - rewrite split_join; [|done|].
    + assert (hex_value <$> l = pairs a) as ->.
      { unfold l. rewrite <- list_fmap_compose. rewrite <- (list_fmap_id (pairs a)) at 2. apply list_fmap_ext. intros k n Hk.
        apply hex_digits_value. pose proof (pairs_range a) as R. rewrite Forall_lookup in R. exact (R _ _ Hk). }
      rewrite (unpairs_pairs 8) by (unfold len in La; lia). by rewrite La.
    + apply Forall_forall. intros x Hx Hc. revert Hc. by apply (not_hex ":"%char).
Qed.

#[local] Instance plain_text_laws : InetTextLaws.
Proof.
  split; intros f n room; [intros a F La..|intros t a F E]; (destruct F as [(-> & -> & ->)|(-> & -> & ->)]);
    try (by apply plain4); try (by apply plain6); cbn [inet_pton plain_text] in E; unfold plain_pton in E.
  - change (AF_INET =? AF_INET) with true in E. cbv iota zeta in E. case_match eqn:Q; [|done]. injection E as <-. by apply Z.eqb_eq.
  - change (AF_INET6 =? AF_INET) with false in E. cbv iota zeta in E. case_match eqn:Q; [|done]. injection E as <-. by apply Z.eqb_eq.
Qed.

#[local] Instance little : HostEndian := true.

Lemma inet_address_roundtrip_witness :
  to_ip_port (InetAddress_ip (replicate 28 SP) (lit "10.0.0.42") 8000 false) = Ok (lit "10.0.0.42:8000") /\
  to_port (InetAddress_ip (replicate 28 SP) (lit "10.0.0.42") 8000 false) = 8000.
Proof.
  destruct (inet_address_roundtrip (replicate 28 SP) (lit "10.0.0.42") 8000 false (byte_of_Z <$> [10; 0; 0; 42])) as (_ & _ & P & T & _);
    [reflexivity|lia|vm_compute; reflexivity|].
  split; [rewrite T; vm_compute; reflexivity|exact P].
Defined.

(** A text that is no address. *)
Lemma inet_address_typed_witness :
  to_ip_port (InetAddress_ip (replicate 28 SP) (lit "no address") 8000 true) = Ok (lit "0:0:0:0:0:0:0:0:8000").
Proof.
  destruct (inet_address_typed (InetAddress_ip (replicate 28 SP) (lit "no address") 8000 true)) as (_ & _ & _ & T & _);
    [apply made_ip; [reflexivity|lia]|].
  rewrite T. vm_compute. reflexivity.
Defined.

(** The two ends of a connection of port 8000 with itself. *)
Definition demo_addr (port : Z) : bytes := InetAddress_ip (replicate 28 NUL) (lit "2001:DB8:0:0:0:0:0:1") port true.

Lemma self_connect_exact_witness :
  isSelfConnect (Some (demo_addr 8000)) (Some (demo_addr 8000)) = true /\
  isSelfConnect (Some (demo_addr 8000)) (Some (demo_addr 8001)) = false.
Proof.
  assert (forall p, p ∈ [8000; 8001] -> wf_addr (demo_addr p) /\ sin_family (demo_addr p) = 10) as W.
  { intros p Hp. assert (p = 8000 \/ p = 8001) as [-> | ->] by set_solver; (split; [split; [by vm_compute|right; by vm_compute]|by vm_compute]). }
  destruct (W 8000) as [W0 F0]; [set_solver|]. destruct (W 8001) as [W1 F1]; [set_solver|]. split.
  - apply (self_connect_exact (demo_addr 8000) (demo_addr 8000)); [exact W0|exact W0|done|done].
  - destruct (self_connect_exact (demo_addr 8000) (demo_addr 8001)) as (_ & Q & _); [exact W0|exact W1|congruence|].
    apply not_true_iff_false. rewrite Q. intros E%(f_equal snd). by vm_compute in E.
Defined.
