(* ===== verification/TcpClient.v ===== *)
(** [flute/net/TcpClient.{h,cc}]: a client that keeps one connection to a
    server, and makes it again when it is lost.

    A [client_env] is the client with its connector ([Connector], with the
    poller it shares), the connections it made and its tasks in the reactor.
    As in [TcpServer], a connection is its name, descriptor and state. *)

From S2P Require Import Prelude Format Channel Poller EPollPoller TcpConnection Connector.

Abbreviation conn_id := Z.

Record TcpClient : Type := mkClient {
  m_client_reactor : pid_t;                  (* m_reactor *)
  m_client_name : bytes;                     (* m_name *)
  m_enable_retry : bool;
  m_client_connected : bool;                 (* m_is_connected *)
  m_conn_counter : Z;                        (* g_conn_counter *)
  m_connection : option conn_id              (* connection_ *)
}.

(** The close callback of a connection: [TcpClient::remove_conn] of the client,
    or [detail::remove_conn] once the client is gone. *)
Inductive close_cb : Type := CbClient | CbDetail.

Record client_conn : Type := mkCConn {
  cc_name : bytes;
  cc_fd : Z;
  cc_state : TCPConnectionState;
  cc_close : close_cb;
  cc_destroyed : bool                        (* connect_destroyed ran *)
}.

Inductive client_task : Type := CtDestroyed (c : conn_id) | CtForceClose (c : conn_id) | CtCloseCb (c : conn_id).

#[global] Instance client_task_eq_dec : EqDecision client_task.
Proof. solve_decision. Defined.

Record client_env (P : Type) : Type := mkCEnv {
  e_client : option TcpClient;               (* None: destroyed *)
  e_k : connector_env P;
  e_conns : gmap conn_id client_conn;
  e_tasks : list client_task
}.
Arguments mkCEnv {P}.
Arguments e_client {P}.
Arguments e_k {P}.
Arguments e_conns {P}.
Arguments e_tasks {P}.

Definition set_retry (b : bool) (cl : TcpClient) : TcpClient :=
  mkClient (m_client_reactor cl) (m_client_name cl) b (m_client_connected cl) (m_conn_counter cl) (m_connection cl).
Definition enable_retry (cl : TcpClient) : TcpClient := set_retry true cl.
Definition set_client_connected (b : bool) (cl : TcpClient) : TcpClient :=
  mkClient (m_client_reactor cl) (m_client_name cl) (m_enable_retry cl) b (m_conn_counter cl) (m_connection cl).
Definition set_connection (o : option conn_id) (cl : TcpClient) : TcpClient :=
  mkClient (m_client_reactor cl) (m_client_name cl) (m_enable_retry cl) (m_client_connected cl) (m_conn_counter cl) o.
Definition set_conn_counter (n : Z) (cl : TcpClient) : TcpClient :=
  mkClient (m_client_reactor cl) (m_client_name cl) (m_enable_retry cl) (m_client_connected cl) n (m_connection cl).
Definition set_cc_state (s : TCPConnectionState) (k : client_conn) : client_conn :=
  mkCConn (cc_name k) (cc_fd k) s (cc_close k) (cc_destroyed k).

Definition new_TcpClient (loop : pid_t) (name : bytes) : TcpClient := mkClient loop name false true 1 None.

Section client.
Context {P : Type} `{PollerOps P, CurrentThread}.
Implicit Types (e : client_env P).

Definition with_client (cl : TcpClient) e : client_env P := mkCEnv (Some cl) (e_k e) (e_conns e) (e_tasks e).
Definition with_k (k : connector_env P) e : client_env P := mkCEnv (e_client e) k (e_conns e) (e_tasks e).
Definition with_cconn (c : conn_id) (k : client_conn) e : client_env P := mkCEnv (e_client e) (e_k e) (<[c := k]> (e_conns e)) (e_tasks e).
Definition c_queue (t : client_task) e : client_env P := mkCEnv (e_client e) (e_k e) (e_conns e) (e_tasks e ++ [t]).

(** The client that a callback refers to by its address. *)
Definition the_client e : outcome TcpClient := of_option FBounds (e_client e).
Definition the_conn (c : conn_id) e : outcome client_conn := of_option FNull (e_conns e !! c).
Definition conn_open (k : client_conn) : bool := bool_decide (cc_state k = kConnected) || bool_decide (cc_state k = kDisconnecting).

(** ** The connection, as the client uses it *)

Definition force_close (c : conn_id) e : outcome (client_env P) :=
  k ← the_conn c e;
  Ok (if conn_open k then c_queue (CtForceClose c) (with_cconn c (set_cc_state kDisconnecting k) e) else e).

Definition shutdown (c : conn_id) e : outcome (client_env P) :=
  k ← the_conn c e;
  Ok (if bool_decide (cc_state k = kConnected) then with_cconn c (set_cc_state kDisconnecting k) e else e).

Definition set_close_callback (c : conn_id) (cb : close_cb) e : outcome (client_env P) :=
  k ← the_conn c e; Ok (with_cconn c (mkCConn (cc_name k) (cc_fd k) (cc_state k) cb (cc_destroyed k)) e).

Definition connect_destroyed (c : conn_id) e : outcome (client_env P) :=
  k ← the_conn c e;
  let k := if bool_decide (cc_state k = kConnected) then set_cc_state kDisconnected k else k in
  assert_ (bool_decide (cc_state k = kDisconnected) && negb (cc_destroyed k));;
  Ok (with_cconn c (mkCConn (cc_name k) (cc_fd k) (cc_state k) (cc_close k) true) e).

(** ** The client *)

(** [new_conn_callback]: [peer] is the text of the peer's address and [c] the
    address of the new connection. *)
Definition new_conn_callback (sockfd : Z) (peer : bytes) (c : conn_id) e : outcome (client_env P) :=
  cl ← the_client e;
  assert_in_thread (m_client_reactor cl);;
  let name := m_client_name cl ++ snprintf 32 (lit ":" ++ peer ++ lit "#" ++ dec (m_conn_counter cl)) in
  require FOverflow (m_conn_counter cl + 1 <? 2 ^ 31);;
  match m_connection cl with
  | Some old => k ← the_conn old e; assert_ (bool_decide (cc_state k = kDisconnected))
  | None => Ok tt
  end;;
  let cl := set_connection (Some c) (set_conn_counter (m_conn_counter cl + 1) cl) in
  (* connect_established *)
  Ok (with_client cl (with_cconn c (mkCConn name sockfd kConnected CbClient false) e)).

(** [remove_conn]; [fd], [err] and [ch] are for the connect(2) of a restart. *)
Definition remove_conn (c : conn_id) (fd err : Z) (ch : chan_ptr) e : outcome (client_env P) :=
  cl ← the_client e;
  assert_in_thread (m_client_reactor cl);;
  assert_ (bool_decide (m_connection cl = Some c));;
  let e := c_queue (CtDestroyed c) (with_client (set_connection None cl) e) in
  if m_enable_retry cl && m_client_connected cl then
    k ← restart_connector fd err ch (e_k e); Ok (with_k k e)
  else Ok e.

(** [detail::remove_conn]. *)
Definition detail_remove_conn (c : conn_id) e : client_env P := c_queue (CtDestroyed c) e.

(** [TcpConnection::handle_close] and its close callback. *)
Definition handle_close (c : conn_id) (fd err : Z) (ch : chan_ptr) e : outcome (client_env P) :=
  k ← the_conn c e;
  assert_ (conn_open k);;
  let e := with_cconn c (set_cc_state kDisconnected k) e in
  match cc_close k with
  | CbClient => remove_conn c fd err ch e
  | CbDetail => Ok (detail_remove_conn c e)
  end.

Definition client_connect (in_loop : bool) (fd err : Z) (ch : chan_ptr) e : outcome (client_env P) :=
  cl ← the_client e;
  let e := with_client (set_client_connected true cl) e in
  k ← start_connector in_loop fd err ch (e_k e); Ok (with_k k e).

Definition disconnect e : outcome (client_env P) :=
  cl ← the_client e;
  let e := with_client (set_client_connected false cl) e in
  match m_connection cl with Some c => shutdown c e | None => Ok e end.

Definition client_stop e : outcome (client_env P) :=
  cl ← the_client e;
  Ok (with_k (stop_connector (e_k e)) (with_client (set_client_connected false cl) e)).

(** The destructor, in the loop thread or in another; [unique]: nobody else
    holds the connection. *)
Definition destroy_TcpClient (in_loop unique : bool) e : outcome (client_env P) :=
  cl ← the_client e;
  match m_connection cl with
  | Some c =>
      e ← (if in_loop then set_close_callback c CbDetail e else Ok (c_queue (CtCloseCb c) e));
      e ← (if unique then force_close c e else Ok e);
      Ok (mkCEnv None (e_k e) (e_conns e) (e_tasks e))
  | None => Ok (mkCEnv None (stop_connector (e_k e)) (e_conns e) (e_tasks e))
  end.

(** ** Steps *)

Inductive client_event : Type :=
| CvConnect (in_loop : bool) (fd err : Z) (ch : chan_ptr)
| CvDisconnect
| CvStop
| CvEnableRetry
| CvShutdown (c : conn_id)                                   (* the user shuts a connection down *)
| CvForceClose (c : conn_id)                                 (* the user closes a connection *)
| CvClose (c : conn_id) (fd err : Z) (ch : chan_ptr)         (* the peer closes a connection *)
| CvTask (fd err : Z) (ch : chan_ptr)                        (* the first task of the client *)
| CvConnector (ev : connector_event) (peer : bytes) (c : conn_id)  (* an event of the connector *)
| CvDestroy (in_loop unique : bool).

(** An event of the connector: the descriptor that it hands over, if any, goes
    to [new_conn_callback]. *)
Definition connector_event_step (ev : connector_event) (peer : bytes) (c : conn_id) e : outcome (client_env P) :=
  k ← connector_step ev (e_k e);
  let e' := with_k k e in
  match drop (length (k_new (e_k e))) (k_new k) with
  | sockfd :: _ => new_conn_callback sockfd peer c e'
  | [] => Ok e'
  end.

Definition client_step (ev : client_event) e : outcome (client_env P) :=
  match ev with
  | CvConnect il fd err ch => client_connect il fd err ch e
  | CvDisconnect => disconnect e
  | CvStop => client_stop e
  | CvEnableRetry => cl ← the_client e; Ok (with_client (enable_retry cl) e)
  | CvShutdown c => shutdown c e
  | CvForceClose c => force_close c e
  | CvClose c fd err ch => handle_close c fd err ch e
  | CvTask fd err ch =>
      match e_tasks e with
      | [] => Ok e
      | t :: l =>
          let e := mkCEnv (e_client e) (e_k e) (e_conns e) l in
          match t with
          | CtDestroyed c => connect_destroyed c e
          | CtForceClose c => k ← the_conn c e; if conn_open k then handle_close c fd err ch e else Ok e
          | CtCloseCb c => set_close_callback c CbDetail e
          end
      end
  | CvConnector ev peer c => connector_event_step ev peer c e
  | CvDestroy il unique => destroy_TcpClient il unique e
  end.

Fixpoint client_run (l : list client_event) e : outcome (client_env P) :=
  match l with [] => Ok e | ev :: l => e ← client_step ev e; client_run l e end.
End client.

(** * What the connector does to the client *)

Section effects.
Context {P : Type} `{PollerLaws P}.
Implicit Types (k : connector_env P).

(** The parts of a connector the client depends on are as before. *)
Definition same_wish k k' : Prop := m_is_connected (k_conn k') = m_is_connected (k_conn k) /\ k_new k' = k_new k.

Lemma retry_effect fd k : same_wish k (retry fd k).
Proof. unfold retry, same_wish. simpl.
 destruct (m_is_connected (k_conn k)) eqn:W; simpl; rewrite ?W; done. Qed.

Lemma same_wish_trans k1 k2 k3 : same_wish k1 k2 -> same_wish k2 k3 -> same_wish k1 k3.
Proof. unfold same_wish. intros [? ?] [? ?]. split; congruence. Qed.

Lemma start_effect fd err c k k' : start_in_reactor fd err c k = Ok k' -> same_wish k k'.
Proof.
  unfold start_in_reactor. intros E. apply bind_ok_inv in E as (? & _ & E). apply bind_ok_inv in E as (? & _ & E).
  destruct (m_is_connected (k_conn k)) eqn:W; [|by injection E as <-]. unfold connect in E. case_bool_decide.
  - unfold connecting in E. apply bind_ok_inv in E as (? & _ & E). apply bind_ok_inv in E as ([p cs] & _ & E). by injection E as <-.
  - case_bool_decide; injection E as <-; [|done]. by eapply same_wish_trans; [|apply retry_effect].
Qed.

Lemma removed_effect h cur act fd k k' : remove_and_reset_channel h cur act k = Ok (fd, k') ->
  same_wish k k' /\ m_connect_state (k_conn k') = m_connect_state (k_conn k).
Proof.
  unfold remove_and_reset_channel. intros E. apply bind_ok_inv in E as (? & _ & E). apply bind_ok_inv in E as ([p cs] & _ & E).
  apply bind_ok_inv in E as ([p' cs'] & _ & E). apply bind_ok_inv in E as (? & _ & E). by injection E as _ <-.
Qed.

Definition reactor_event (ev : connector_event) : bool :=
  match ev with KvStart _ _ _ _ | KvStop | KvRestart _ _ _ => false | _ => true end.

(** A connection that is made is wanted, and the connector has done its work. *)
Lemma new_conn_effect ev k k' : reactor_event ev = true -> connector_step ev k = Ok k' ->
  m_is_connected (k_conn k') = m_is_connected (k_conn k) /\
  (k_new k' = k_new k \/
   exists fd, k_new k' = k_new k ++ [fd] /\ m_is_connected (k_conn k) = true /\ m_connect_state (k_conn k') = kcConnected).
Proof.
  intros Hev E. assert (same_wish k k' -> m_is_connected (k_conn k') = m_is_connected (k_conn k) /\
    (k_new k' = k_new k \/ exists fd, k_new k' = k_new k ++ [fd] /\ m_is_connected (k_conn k) = true /\
       m_connect_state (k_conn k') = kcConnected)) as S by (intros [? ?]; auto).
  destruct ev as [| | |fd err c|fd err c|act so self|act]; try done; simpl in E.
  - destruct (k_tasks k) as [|[] l]; [by apply S; injection E as <-|..]; apply S.
    + by apply start_effect in E.
    + unfold stop_in_reactor in E. apply bind_ok_inv in E as (? & _ & E). case_bool_decide; [|by injection E as <-].
      apply bind_ok_inv in E as ([fd1 k1] & R & E). apply removed_effect in R as [R _]. injection E as <-.
      eapply same_wish_trans; [|apply retry_effect]. exact R.
    + unfold reset_channel in E. case_match; [|by injection E as <-]. apply bind_ok_inv in E as (? & _ & E). by injection E as <-.
  - destruct (k_timers k); [by apply S; injection E as <-|]. by apply S; apply start_effect in E.
  - unfold connector_handle_write in E. case_bool_decide; [|apply bind_ok_inv in E as (? & _ & E); by apply S; injection E as <-].
    apply bind_ok_inv in E as ([fd1 k1] & R & E). apply removed_effect in R as [R _].
    destruct (negb (so =? 0)); [|destruct self]; [injection E as <-; apply S; eapply same_wish_trans; [exact R|apply retry_effect]..|].
    injection E as <-. destruct R as [Rc Rn]. simpl. rewrite Rc. destruct (m_is_connected (k_conn k)) eqn:W; simpl; [|auto].
    split; [done|]. right. exists fd1. by rewrite Rn.
  - unfold connector_handle_error in E. case_bool_decide; [|by apply S; injection E as <-].
    apply bind_ok_inv in E as ([fd1 k1] & R & E). apply removed_effect in R as [R _]. injection E as <-.
    apply S. eapply same_wish_trans; [exact R|apply retry_effect].
Qed.

(** The discipline of [kev_ok] with its invariant, or any call that does not
    abort with the invariant that is left. *)
Definition kinv (s : bool) k : Prop := if s then connector_inv k else connector_core k.
Definition kguard (s : bool) (ev : connector_event) k : Prop := if s then kev_ok ev k else kev_any ev k /\ ~ connector_aborts ev k.

Lemma kinv_step s ev k : kinv s k -> kguard s ev k -> fine (kinv s) (connector_step ev k).
Proof.
  destruct s; simpl; [apply connector_step_inv|]. intros I [Hok Hn]. by apply (connector_step_core ev k I Hok).
Qed.

Lemma no_start_connected s fd err c k : kinv s k -> m_connect_state (k_conn k) = kcConnected ->
  (head (k_tasks k) = Some KStart -> ~ kguard s (KvTask fd err c) k) /\ (k_timers k <> [] -> ~ kguard s (KvTimer fd err c) k).
Proof.
  intros I Hs. destruct s; simpl in *.
  - destruct (connected_no_pending _ I Hs) as [Ht Hq]. rewrite Ht. split; [|done]. destruct (k_tasks k) as [|[] l]; simpl in *; done.
  - split; intros Hh [_ Hn]; apply Hn; (split; [done|]); left; congruence.
Qed.

(** While a connection is up, the connector stays where it is. *)
Lemma connected_effect s ev k k' : reactor_event ev = true -> kinv s k -> kguard s ev k -> m_connect_state (k_conn k) = kcConnected ->
  connector_step ev k = Ok k' -> m_connect_state (k_conn k') = kcConnected /\ k_new k' = k_new k.
Proof.
  intros Hev I Hok Hs E. destruct ev as [| | |fd err c|fd err c|act so self|act]; try done; simpl in E.
  - destruct (no_start_connected s fd err c k I Hs) as [Hst _]. destruct (k_tasks k) as [|[] l] eqn:T; [by injection E as <-|..].
    + by destruct (Hst eq_refl).
    + unfold stop_in_reactor in E. apply bind_ok_inv in E as (? & _ & E). simpl in E. rewrite bool_decide_eq_false_2 in E by congruence.
      by injection E as <-.
    + unfold reset_channel in E. case_match; [|by injection E as <-]. apply bind_ok_inv in E as (? & _ & E). by injection E as <-.
  - destruct (no_start_connected s fd err c k I Hs) as [_ Hst]. destruct (k_timers k) as [|d l] eqn:T; [by injection E as <-|].
    by destruct (Hst ltac:(done)).
  - unfold connector_handle_write in E. by rewrite Hs in E.
  - unfold connector_handle_error in E. rewrite Hs in E. simpl in E. by injection E as <-.
Qed.
End effects.

(** * The invariant *)

Fixpoint destroys (c : conn_id) (l : list client_task) : nat :=
  match l with [] => 0 | t :: l => (if decide (t = CtDestroyed c) then 1 else 0) + destroys c l end.

Lemma destroys_snoc c l t : destroys c (l ++ [t]) = (destroys c l + destroys c [t])%nat.
Proof. induction l as [|x l IH]; [done|]. cbn [destroys app] in *. rewrite IH. lia. Qed.

Lemma destroys_fresh c l : (forall t, t ∈ l -> t <> CtDestroyed c) -> destroys c l = 0%nat.
Proof.
  induction l as [|x l IH]; intros Hl; [done|]. cbn [destroys]. rewrite decide_False by (apply Hl; by left).
  apply IH. intros t Ht. apply Hl. by right.
Qed.

Section inv.
Context {P : Type} `{PollerLaws P}.
Implicit Types (e : client_env P).

(** [s]: the client is used as [cev_ok] says, or in any way ([cev_any]). *)
Context (s : bool).

Definition connector_state e : ConnectStates := m_connect_state (k_conn (e_k e)).

(** An open connection is the one of the client, if the client exists; any
    other is closed, and destroyed once.  The connection of a client that was
    destroyed in another thread keeps the callback of the client until a task
    replaces it. *)
Definition conn_stage e (c : conn_id) (k : client_conn) : Prop :=
  if conn_open k then
    connector_state e = kcConnected /\ cc_destroyed k = false /\ destroys c (e_tasks e) = 0%nat /\
    match e_client e with Some cl => m_connection cl = Some c /\ cc_close k = CbClient | None => cc_close k = CbDetail \/ s = false /\ CtCloseCb c ∈ e_tasks e end
  else cc_state k = kDisconnected /\ destroys c (e_tasks e) = (if cc_destroyed k then 0 else 1)%nat.

(** Tasks are about connections that exist. *)
Definition task_ok (cl : option TcpClient) (m : gmap conn_id client_conn) (t : client_task) : Prop :=
  match t with CtDestroyed c | CtForceClose c => is_Some (m !! c) | CtCloseCb c => s = false /\ cl = None /\ is_Some (m !! c) end.

Record cinv e : Prop := {
  ci_k : kinv s (e_k e);
  ci_conn c k : e_conns e !! c = Some k -> conn_stage e c k;
  ci_one c c' k k' : e_conns e !! c = Some k -> e_conns e !! c' = Some k' -> conn_open k = true -> conn_open k' = true -> c = c';
  ci_connection cl c : e_client e = Some cl -> m_connection cl = Some c -> exists k, e_conns e !! c = Some k /\ conn_open k = true;
  ci_tasks t : t ∈ e_tasks e -> task_ok (e_client e) (e_conns e) t;
  ci_thread cl : e_client e = Some cl -> m_client_reactor cl = cur_tid;
  ci_gone : e_client e = None -> m_is_connected (k_conn (e_k e)) = true -> connector_state e = kcConnected
}.

(** The channel of the attempt that made the connection was destroyed (that
    was queued before the connection was made), and the descriptor and the
    channel of a new attempt are new. *)
Definition quiet e (fd : Z) (ch : chan_ptr) : Prop :=
  (connector_state e = kcConnected -> m_connect_channel (k_conn (e_k e)) = None) /\ fresh_socket (e_k e) fd ch.

(** What the reactor and the user guarantee: the client is used while it
    exists and destroyed in its loop, [connect] is called on an idle
    connector, and events come from open connections. *)
Definition cev_ok (ev : client_event) e : Prop :=
  match ev with
  | CvConnect il fd err ch => is_Some (e_client e) /\ kev_ok (KvStart il fd err ch) (e_k e)
  | CvDisconnect | CvStop | CvEnableRetry => is_Some (e_client e)
  | CvShutdown c | CvForceClose c => is_Some (e_conns e !! c)
  | CvClose c fd _ ch => (exists k, e_conns e !! c = Some k /\ conn_open k = true) /\ quiet e fd ch
  | CvTask fd _ ch => quiet e fd ch
  | CvConnector ev _ c =>
      reactor_event ev = true /\ kev_ok ev (e_k e) /\ e_conns e !! c = None /\
      forall cl, e_client e = Some cl -> m_conn_counter cl + 1 < 2 ^ 31
  | CvDestroy il _ => is_Some (e_client e) /\ il = true
  end.

(** Any use of a client that exists. *)
Definition cev_any (ev : client_event) e : Prop :=
  match ev with
  | CvConnect il fd err ch => is_Some (e_client e) /\ kev_any (KvStart il fd err ch) (e_k e)
  | CvDisconnect | CvStop | CvEnableRetry | CvDestroy _ _ => is_Some (e_client e)
  | CvShutdown c | CvForceClose c => is_Some (e_conns e !! c)
  | CvClose c fd _ ch => (exists k, e_conns e !! c = Some k /\ conn_open k = true) /\ fresh_socket (e_k e) fd ch
  | CvTask fd _ ch => fresh_socket (e_k e) fd ch
  | CvConnector ev _ c =>
      reactor_event ev = true /\ kev_any ev (e_k e) /\ e_conns e !! c = None /\
      forall cl, e_client e = Some cl -> m_conn_counter cl + 1 < 2 ^ 31
  end.

(** How it can fail: an assertion of the connector, or a close callback that
    uses the client after its destruction in another thread. *)
Definition close_aborts (c : conn_id) (fd err : Z) (ch : chan_ptr) e (f : fault) : Prop :=
  exists k, e_conns e !! c = Some k /\ conn_open k = true /\
    match e_client e with
    | Some cl => f = FAssert /\ m_enable_retry cl = true /\ m_client_connected cl = true /\ connector_aborts (KvRestart fd err ch) (e_k e)
    | None => f = FBounds /\ cc_close k = CbClient
    end.
Definition client_aborts (ev : client_event) e (f : fault) : Prop :=
  match ev with
  | CvConnect il fd err ch => f = FAssert /\ connector_aborts (KvStart il fd err ch) (e_k e)
  | CvClose c fd err ch => close_aborts c fd err ch e f
  | CvTask fd err ch => exists c, head (e_tasks e) = Some (CtForceClose c) /\ close_aborts c fd err ch e f
  | CvConnector ev _ _ => f = FAssert /\ connector_aborts ev (e_k e)
  | _ => False
  end.

Definition cguard (ev : client_event) e : Prop := if s then cev_ok ev e else cev_any ev e /\ forall f, ~ client_aborts ev e f.

(** ** What changes one part *)

Lemma inv_with_k k e : cinv e -> kinv s k ->
  (connector_state e = kcConnected -> (exists c x, e_conns e !! c = Some x /\ conn_open x = true) -> m_connect_state (k_conn k) = kcConnected) ->
  (e_client e = None -> m_is_connected (k_conn k) = true -> m_connect_state (k_conn k) = kcConnected) ->
  cinv (with_k k e).
Proof.
  intros [] Ik Hs Hw. constructor; simpl; try done. intros c x Hc. pose proof (ci_conn0 c x Hc) as S.
  unfold conn_stage in *. simpl. destruct (conn_open x) eqn:Ho; [|done]. destruct S as (S1 & S2). split; [|done]. eauto.
Qed.

Lemma task_ok_mono cl cl' m m' t :
  (cl = None -> cl' = None) -> (forall c, is_Some (m !! c) -> is_Some (m' !! c)) -> task_ok cl m t -> task_ok cl' m' t.
Proof. intros Hc Hm. destruct t; simpl; naive_solver. Qed.

Lemma some_insert (m : gmap conn_id client_conn) c k c' : is_Some (m !! c') -> is_Some (<[c := k]> m !! c').
Proof. destruct (decide (c' = c)) as [->|Hn]; [rewrite lookup_insert_eq|rewrite lookup_insert_ne by done]; eauto. Qed.

(** The flags and the counter of the client. *)
Lemma inv_with_client cl' cl e : cinv e -> e_client e = Some cl -> m_connection cl' = m_connection cl ->
  m_client_reactor cl' = m_client_reactor cl -> cinv (with_client cl' e).
Proof.
  intros [] Hcl Ec Er. rewrite Hcl in *. constructor; simpl; try done.
  - intros c k Hc. pose proof (ci_conn0 c k Hc) as S. unfold conn_stage in *. rewrite Hcl in S. simpl. by rewrite Ec.
  - intros x c [= <-]. rewrite Ec. eauto.
  - intros t Ht. by apply (task_ok_mono (Some cl) _ (e_conns e)), ci_tasks0.
  - intros x [= <-]. rewrite Er. eauto.
Qed.

Lemma stage_frame e e' c k : e_client e' = e_client e -> connector_state e' = connector_state e ->
  destroys c (e_tasks e') = destroys c (e_tasks e) -> (CtCloseCb c ∈ e_tasks e -> CtCloseCb c ∈ e_tasks e') ->
  conn_stage e c k -> conn_stage e' c k.
Proof.
  intros Ec Es Ed Ht. unfold conn_stage. rewrite Ec, Es, Ed. destruct (conn_open k); [|done].
  intros (? & ? & ? & S). split_and!; [done..|]. destruct (e_client e); [done|]. destruct S as [|[]]; auto.
Qed.

(** A task about no destruction is queued. *)
Lemma inv_force_task c e : cinv e -> is_Some (e_conns e !! c) -> cinv (c_queue (CtForceClose c) e).
Proof.
  intros [] Hc. constructor; simpl; try done.
  - intros c' k Hc'. apply (stage_frame e); [done|done| | |by apply ci_conn0]; simpl.
    + rewrite destroys_snoc. apply Nat.add_0_r.
    + intros ?. apply elem_of_app. by left.
  - intros t [Ht| ->%list_elem_of_singleton]%elem_of_app; [by apply ci_tasks0|done].
Qed.

(** An open connection stays open. *)
Lemma inv_open_conn c k k' e : cinv e -> e_conns e !! c = Some k -> conn_open k = true -> conn_open k' = true ->
  cc_close k' = cc_close k -> cc_destroyed k' = cc_destroyed k -> cinv (with_cconn c k' e).
Proof.
  intros I Hc Ho Ho' Ec Ed. pose proof (ci_conn _ I c k Hc) as Sc. destruct I.
  assert (forall c2 k2, <[c := k']> (e_conns e) !! c2 = Some k2 -> exists k1, e_conns e !! c2 = Some k1 /\ (conn_open k2 = conn_open k1) /\
    conn_stage e c2 k2) as M.
  { intros c2 k2. destruct (decide (c2 = c)) as [->|Hn].
    - rewrite lookup_insert_eq. intros [= <-]. exists k. split_and!; [done|congruence|]. unfold conn_stage in *.
      rewrite Ho in Sc. by rewrite Ho', Ec, Ed.
    - rewrite lookup_insert_ne by done. eauto. }
  constructor; simpl; try done.
  - intros c2 k2 L2. by destruct (M c2 k2 L2) as (_ & _ & _ & ?).
  - intros c1 c2 k1 k2 L1 L2. destruct (M _ _ L1) as (? & ? & -> & _). destruct (M _ _ L2) as (? & ? & -> & _). eauto.
  - intros cl c2 Hcl Hm. destruct (ci_connection0 cl c2 Hcl Hm) as (k2 & L2 & O2).
    destruct (decide (c2 = c)) as [->|Hn]; [exists k'; by rewrite lookup_insert_eq|exists k2; by rewrite lookup_insert_ne].
  - intros t Ht. apply (task_ok_mono (e_client e) _ (e_conns e)); [done|apply some_insert|by apply ci_tasks0].
Qed.

(** ** Steps *)

Lemma the_conn_ok c k e : e_conns e !! c = Some k -> the_conn c e = Ok k.
Proof. intros E. unfold the_conn. by rewrite E. Qed.
Lemma the_client_ok cl e : e_client e = Some cl -> the_client e = Ok cl.
Proof. intros E. unfold the_client. by rewrite E. Qed.

Lemma client_force_close_spec c e : cinv e -> is_Some (e_conns e !! c) -> fine cinv (force_close c e).
Proof.
  intros I [k Hc]. unfold force_close. rewrite (the_conn_ok _ _ _ Hc), bind_ok. destruct (conn_open k) eqn:Ho; [|done]. simpl.
  apply inv_force_task; [by eapply inv_open_conn|]. simpl. rewrite lookup_insert_eq. eauto.
Qed.

Lemma client_shutdown_spec c e : cinv e -> is_Some (e_conns e !! c) -> fine cinv (shutdown c e).
Proof.
  intros I [k Hc]. unfold shutdown. rewrite (the_conn_ok _ _ _ Hc), bind_ok. case_bool_decide as Hs; [|done]. simpl.
  eapply inv_open_conn; try done. unfold conn_open. by rewrite Hs.
Qed.

(** A connection is closed and forgotten. *)
Lemma inv_close c k e : cinv e -> e_conns e !! c = Some k -> conn_open k = true ->
  cinv (c_queue (CtDestroyed c) (mkCEnv (set_connection None <$> e_client e) (e_k e) (<[c := set_cc_state kDisconnected k]> (e_conns e)) (e_tasks e))).
Proof.
  intros I Hc Ho. pose proof (ci_conn _ I c k Hc) as Sc. unfold conn_stage in Sc. rewrite Ho in Sc. destruct Sc as (Sk & Sd & Sn & Scl).
  assert (forall c2 k2, c2 <> c -> e_conns e !! c2 = Some k2 -> conn_open k2 = false) as Other.
  { intros c2 k2 Hn L2. destruct (conn_open k2) eqn:O2; [|done]. destruct Hn. by eapply (ci_one _ I). }
  destruct I. constructor; simpl; try done.
  - intros c2 k2. destruct (decide (c2 = c)) as [->|Hn].
    + rewrite lookup_insert_eq. intros [= <-]. unfold conn_stage. simpl. rewrite destroys_snoc, Sn, Sd. simpl. by rewrite decide_True.
    + rewrite lookup_insert_ne by done. intros L2. pose proof (ci_conn0 c2 k2 L2) as S2. unfold conn_stage in *. rewrite (Other _ _ Hn L2) in *.
      simpl. rewrite destroys_snoc. simpl. rewrite decide_False by congruence. by rewrite Nat.add_0_r.
  - intros c1 c2 k1 k2. destruct (decide (c1 = c)) as [->|N1]; [rewrite lookup_insert_eq; by intros [= <-]|].
    destruct (decide (c2 = c)) as [->|N2]; [rewrite lookup_insert_eq; by intros _ [= <-]|]. rewrite !lookup_insert_ne by done. eauto.
  - intros cl c2 Hcl Hm. destruct (e_client e); simplify_eq/=.
  - intros t [Ht| ->%list_elem_of_singleton]%elem_of_app; [|simpl; rewrite lookup_insert_eq; eauto].
    apply (task_ok_mono (e_client e) _ (e_conns e)); [by intros ->|apply some_insert|by apply ci_tasks0].
  - intros cl Hcl. destruct (e_client e) as [cl0|]; simplify_eq/=. by apply ci_thread0.
Qed.

Lemma in_loop_thread (r : pid_t) : r = cur_tid -> assert_in_thread r = Ok tt.
Proof. apply in_thread_ok. Qed.

(** When a connection may be closed. *)
Definition close_guard (c : conn_id) (fd err : Z) (ch : chan_ptr) e : Prop :=
  if s then quiet e fd ch else fresh_socket (e_k e) fd ch /\ forall f, ~ close_aborts c fd err ch e f.

Lemma close_guard_ok c k fd err ch e : cinv e -> e_conns e !! c = Some k -> conn_open k = true -> close_guard c fd err ch e ->
  match e_client e with
  | Some cl => m_enable_retry cl && m_client_connected cl = true -> kguard s (KvRestart fd err ch) (e_k e)
  | None => cc_close k = CbDetail
  end.
Proof.
  intros I Hc Ho Hg. pose proof (ci_conn _ I c k Hc) as Sc. unfold conn_stage in Sc. rewrite Ho in Sc. destruct Sc as (Sk & _ & _ & Scl).
  unfold close_guard, kguard in *. unfold connector_state in Sk. destruct (e_client e) as [cl|] eqn:Hcl.
  - intros [Hr Hw]%andb_true_iff. destruct s; [by destruct Hg as [Hq Hf]; split_and!; [|apply Hq|]|]. destruct Hg as [Hf Hn].
    split; [by split; [congruence|]|]. intros Ha. apply (Hn FAssert). exists k. by rewrite Hcl.
  - destruct s; [by destruct Scl as [|[]]|]. destruct Hg as [_ Hn]. destruct (cc_close k) eqn:E; [|done].
    destruct (Hn FBounds). exists k. by rewrite Hcl.
Qed.

Lemma client_handle_close_spec c k fd err ch e : cinv e -> e_conns e !! c = Some k -> conn_open k = true -> close_guard c fd err ch e ->
  fine cinv (handle_close c fd err ch e).
Proof.
  intros I Hc Ho Hg. apply (close_guard_ok c k) in Hg; [|done..]. pose proof (inv_close c k e I Hc Ho) as IC.
  pose proof (ci_conn _ I c k Hc) as Sc. unfold conn_stage in Sc. rewrite Ho in Sc. destruct Sc as (Sk & Sd & Sn & Scl).
  unfold handle_close. rewrite (the_conn_ok _ _ _ Hc), bind_ok, Ho. simpl assert_. rewrite bind_ok.
  destruct (e_client e) as [cl|] eqn:Hcl; [|rewrite Hg; simpl; unfold detail_remove_conn, with_cconn; by rewrite Hcl].
  destruct Scl as [Hm ->]. unfold remove_conn, the_client. simpl e_client. rewrite Hcl. cbn [of_option]. rewrite bind_ok.
  rewrite (in_loop_thread _ (ci_thread _ I cl Hcl)), bind_ok, bool_decide_eq_true_2 by done. simpl assert_. rewrite bind_ok.
  simpl fmap in IC. destruct (m_enable_retry cl && m_client_connected cl); [|exact IC]. simpl e_k.
  pose proof (kinv_step s (KvRestart fd err ch) (e_k e) (ci_k _ I) (Hg eq_refl)) as R. simpl connector_step in R. destruct (restart_connector fd err ch (e_k e)) as [k'|]; [|done]. rewrite bind_ok. simpl in R |- *.
  apply inv_with_k; [exact IC|done| |done].
  intros _ (c2 & k2 & L2 & O2). simpl in L2. destruct (decide (c2 = c)) as [->|Hn].
  - rewrite lookup_insert_eq in L2. injection L2 as <-. done.
  - rewrite lookup_insert_ne in L2 by done. destruct Hn. by eapply (ci_one _ I).
Qed.

(** The first task is [CtDestroyed c]. *)
Lemma destroyed_spec c l e : cinv e -> e_tasks e = CtDestroyed c :: l ->
  fine cinv (connect_destroyed c (mkCEnv (e_client e) (e_k e) (e_conns e) l)).
Proof.
  intros I Ht. destruct (ci_tasks _ I (CtDestroyed c)) as [k Hc]; [rewrite Ht; by left|].
  pose proof (ci_conn _ I c k Hc) as Sc. unfold conn_stage in Sc. rewrite Ht in Sc. cbn [destroys] in Sc. rewrite decide_True in Sc by done.
  destruct (conn_open k) eqn:Ho; [destruct Sc as (_ & _ & ? & _); lia|]. destruct Sc as [Ss Sd].
  destruct (cc_destroyed k) eqn:Hd; [lia|]. unfold connect_destroyed, the_conn. simpl e_conns. rewrite Hc. simpl of_option. rewrite bind_ok.
  cbv zeta. rewrite (bool_decide_eq_false_2 (cc_state k = kConnected)) by congruence. rewrite bool_decide_eq_true_2, Hd by done. simpl.
  destruct I. constructor; simpl; try done.
  - intros c2 k2. destruct (decide (c2 = c)) as [->|Hn].
    + rewrite lookup_insert_eq. intros [= <-]. unfold conn_stage, conn_open in *. simpl. rewrite Ho. split; [done|]. lia.
    + rewrite lookup_insert_ne by done. intros L2. apply (stage_frame e); [done|done| | |by apply ci_conn0]; simpl; rewrite Ht.
      * cbn [destroys]. by rewrite decide_False by congruence.
      * intros [[=]|?]%elem_of_cons. done.
  - intros c1 c2 k1 k2. assert (forall x k3, <[c := mkCConn (cc_name k) (cc_fd k) (cc_state k) (cc_close k) true]> (e_conns e) !! x = Some k3 ->
      conn_open k3 = true -> e_conns e !! x = Some k3) as M.
    { intros x k3. destruct (decide (x = c)) as [->|Hn]; [|by rewrite lookup_insert_ne]. rewrite lookup_insert_eq. intros [= <-] O3.
      unfold conn_open in *. simpl in O3. congruence. }
    intros L1 L2 O1 O2. eapply ci_one0; eauto.
  - intros cl c2 Hcl Hm. destruct (ci_connection0 cl c2 Hcl Hm) as (k2 & L2 & O2).
    destruct (decide (c2 = c)) as [->|Hn]; [congruence|exists k2; by rewrite lookup_insert_ne].
  - intros t Hin. apply (task_ok_mono (e_client e) _ (e_conns e)); [done|apply some_insert|apply ci_tasks0; rewrite Ht; by right].
Qed.

(** A task that is not a destruction leaves the queue. *)
Lemma inv_pop_force c l e : cinv e -> e_tasks e = CtForceClose c :: l -> cinv (mkCEnv (e_client e) (e_k e) (e_conns e) l).
Proof.
  intros [] Ht. constructor; simpl; try done.
  - intros c2 k2 L2. apply (stage_frame e); [done|done| | |by apply ci_conn0]; simpl; rewrite Ht; [done|]. by intros [[=]|?]%elem_of_cons.
  - intros t Hin. apply ci_tasks0. rewrite Ht. by right.
Qed.

(** The callback of a connection whose client is gone is replaced. *)
Lemma close_callback_spec c l e : cinv e -> e_tasks e = CtCloseCb c :: l ->
  fine cinv (set_close_callback c CbDetail (mkCEnv (e_client e) (e_k e) (e_conns e) l)).
Proof.
  intros I Ht. destruct (ci_tasks _ I (CtCloseCb c)) as (Hs & Hcl & k & Hc); [rewrite Ht; by left|].
  unfold set_close_callback, the_conn. simpl e_conns. rewrite Hc. cbn [of_option]. rewrite bind_ok. simpl.
  set (k' := mkCConn _ _ _ _ _). assert (conn_open k' = conn_open k) as Ho by done.
  assert (forall x y, <[c := k']> (e_conns e) !! x = Some y -> exists y0, e_conns e !! x = Some y0 /\ conn_open y = conn_open y0) as M.
  { intros x y. destruct (decide (x = c)) as [->|Hn]; [|rewrite lookup_insert_ne by done; eauto]. rewrite lookup_insert_eq. intros [= <-]. eauto. }
  destruct I. constructor; simpl; try done.
  - intros c2 k2. destruct (decide (c2 = c)) as [->|Hn].
    + rewrite lookup_insert_eq. intros [= <-]. pose proof (ci_conn0 c k Hc) as S. unfold conn_stage in *. simpl. rewrite Ho, Hcl, Ht in *.
      cbn [destroys] in S. rewrite decide_False in S by done. destruct (conn_open k); [|done]. destruct S as (? & ? & ? & _). auto.
    + rewrite lookup_insert_ne by done. intros L2. apply (stage_frame e); [done|done| | |by apply ci_conn0]; simpl; rewrite Ht; [done|].
      by intros [[= ]|?]%elem_of_cons.
  - intros c1 c2 k1 k2 L1 L2. destruct (M _ _ L1) as (? & ? & ->), (M _ _ L2) as (? & ? & ->). eauto.
  - rewrite Hcl. done.
  - intros t Hin. apply (task_ok_mono (e_client e) _ (e_conns e)); [done|apply some_insert|apply ci_tasks0; rewrite Ht; by right].
Qed.

(** A new connection, when none is open. *)
Lemma new_conn_spec fd peer c cl e : cinv e -> e_client e = Some cl -> e_conns e !! c = None -> m_conn_counter cl + 1 < 2 ^ 31 ->
  connector_state e = kcConnected -> (forall c2 k2, e_conns e !! c2 = Some k2 -> conn_open k2 = false) ->
  fine cinv (new_conn_callback fd peer c e).
Proof.
  intros I Hcl Hc Hn Hs Hno. unfold new_conn_callback. rewrite (the_client_ok _ _ Hcl), bind_ok, (in_loop_thread _ (ci_thread _ I cl Hcl)), bind_ok.
  cbv zeta. rewrite require_true by (by apply Z.ltb_lt). rewrite bind_ok.
  destruct (m_connection cl) as [old|] eqn:Hm.
  { destruct (ci_connection _ I cl old Hcl Hm) as (k & L & O). rewrite (Hno _ _ L) in O. done. }
  rewrite bind_ok. simpl. pose proof (destroys_fresh c (e_tasks e)) as Hd. destruct I. constructor; simpl; try done.
  - intros c2 k2. destruct (decide (c2 = c)) as [->|Hne].
    + rewrite lookup_insert_eq. intros [= <-]. unfold conn_stage. simpl. split_and!; [done|done| |done..].
      apply Hd. intros t Ht ->. specialize (ci_tasks0 _ Ht). simpl in ci_tasks0. rewrite Hc in ci_tasks0. by destruct ci_tasks0.
    + rewrite lookup_insert_ne by done. intros L2. pose proof (ci_conn0 c2 k2 L2) as S. unfold conn_stage in *. by rewrite (Hno _ _ L2) in *.
  - assert (forall x k3, <[c := mkCConn (m_client_name cl ++ snprintf 32 (lit ":" ++ peer ++ lit "#" ++ dec (m_conn_counter cl))) fd kConnected CbClient false]>
      (e_conns e) !! x = Some k3 -> conn_open k3 = true -> x = c) as M.
    { intros x k3 L3 O3. destruct (decide (x = c)) as [->|Hne]; [done|]. rewrite lookup_insert_ne in L3 by done.
      rewrite (Hno _ _ L3) in O3. done. }
    intros c1 c2 k1 k2 L1 L2 O1 O2. rewrite (M _ _ L1 O1), (M _ _ L2 O2). done.
  - intros x c2 [= <-] [= <-]. eexists. by rewrite lookup_insert_eq.
  - intros t Ht. apply (task_ok_mono (e_client e) _ (e_conns e)); [by rewrite Hcl|apply some_insert|by apply ci_tasks0].
  - intros x [= <-]. by apply (ci_thread0 cl).
Qed.

Lemma connector_event_spec ev peer c e : cinv e -> reactor_event ev = true -> kguard s ev (e_k e) -> e_conns e !! c = None ->
  (forall cl, e_client e = Some cl -> m_conn_counter cl + 1 < 2 ^ 31) -> fine cinv (connector_event_step ev peer c e).
Proof.
  intros I Hev Hok Hc Hn. unfold connector_event_step. pose proof (kinv_step s ev (e_k e) (ci_k _ I) Hok) as R.
  destruct (connector_step ev (e_k e)) as [k|] eqn:E; [|done]. rewrite bind_ok. simpl in R.
  destruct (new_conn_effect ev _ _ Hev E) as [Hw Hnew].
  pose proof (fun Hs => connected_effect s ev _ _ Hev (ci_k _ I) Hok Hs E) as Hstay.
  assert (cinv (with_k k e)) as Ik.
  { apply inv_with_k; [done|done|by intros Hs _; apply Hstay|]. intros Hg. rewrite Hw. intros Ht. by apply Hstay, (ci_gone _ I). }
  destruct Hnew as [->|(fd & Ef & Ht & Hs)]; [by rewrite drop_all|]. rewrite Ef, drop_app_length.
  assert (connector_state e <> kcConnected) as Hns.
  { intros Hst. destruct (Hstay Hst) as [_ Es]. rewrite Es in Ef. apply (f_equal length) in Ef. rewrite length_app in Ef. simpl in Ef. lia. }
  destruct (e_client e) as [cl|] eqn:Hcl; [|by destruct Hns; apply (ci_gone _ I)].
  apply (new_conn_spec fd peer c cl); try done; [by apply Hn|].
  intros c2 k2 L2. destruct (conn_open k2) eqn:O2; [|done]. pose proof (ci_conn _ I c2 k2 L2) as S. unfold conn_stage in S.
  rewrite O2 in S. destruct S as [S _]. by destruct Hns.
Qed.

Lemma client_connect_spec il fd err ch e : cinv e -> is_Some (e_client e) -> kguard s (KvStart il fd err ch) (e_k e) ->
  fine cinv (client_connect il fd err ch e).
Proof.
  intros I [cl Hcl] Hok. unfold client_connect. rewrite (the_client_ok _ _ Hcl), bind_ok. simpl e_k.
  pose proof (kinv_step s _ (e_k e) (ci_k _ I) Hok) as R. simpl connector_step in R.
  destruct (start_connector il fd err ch (e_k e)) as [k|] eqn:E; [|done]. rewrite bind_ok. simpl in R |- *.
  apply inv_with_k; [by eapply inv_with_client|done| |done]. unfold connector_state. simpl. intros Hs _.
  unfold kguard in Hok. destruct s; [by destruct Hok as [Hd _]; rewrite Hd in Hs|]. destruct Hok as [_ Hn].
  destruct il; [|by unfold start_connector in E; injection E as <-]. destruct Hn. split; [done|]. left. by rewrite Hs.
Qed.

Lemma stop_connector_inv e : cinv e -> cinv (with_k (stop_connector (e_k e)) e).
Proof.
  intros I. pose proof (kinv_step s KvStop (e_k e) (ci_k _ I) ltac:(unfold kguard; by destruct s; [|split; [|intros []]])) as R.
  apply inv_with_k; [done|exact R|by intros Hs _|done].
Qed.

(** The client is gone, and its connection has another close callback. *)
Lemma inv_orphan c k cl e : cinv e -> e_client e = Some cl -> m_connection cl = Some c -> e_conns e !! c = Some k -> conn_open k = true ->
  cinv (mkCEnv None (e_k e) (<[c := mkCConn (cc_name k) (cc_fd k) (cc_state k) CbDetail (cc_destroyed k)]> (e_conns e)) (e_tasks e)).
Proof.
  intros I Hcl Hm Hc Ho. pose proof (ci_conn _ I c k Hc) as Sc. unfold conn_stage in Sc. rewrite Ho in Sc. destruct Sc as (Sk & Sd & Sn & Scl).
  assert (forall c2 k2, c2 <> c -> e_conns e !! c2 = Some k2 -> conn_open k2 = false) as Other.
  { intros c2 k2 Hn L2. destruct (conn_open k2) eqn:O2; [|done]. destruct Hn. by eapply (ci_one _ I). }
  destruct I. constructor; simpl; try done.
  - intros c2 k2. destruct (decide (c2 = c)) as [->|Hn].
    + rewrite lookup_insert_eq. intros [= <-]. unfold conn_stage, conn_open in *. simpl. rewrite Ho. auto.
    + rewrite lookup_insert_ne by done. intros L2. pose proof (ci_conn0 c2 k2 L2) as S2. unfold conn_stage in *. by rewrite (Other _ _ Hn L2) in *.
  - intros c1 c2 k1 k2. destruct (decide (c1 = c)) as [->|N1], (decide (c2 = c)) as [->|N2]; [done|..];
      rewrite ?(lookup_insert_ne _ c c1), ?(lookup_insert_ne _ c c2) by done; intros L1 L2 O1 O2;
      [rewrite (Other _ _ N2 L2) in O2|rewrite (Other _ _ N1 L1) in O1|rewrite (Other _ _ N1 L1) in O1]; done.
  - intros t Ht. apply (task_ok_mono (e_client e) _ (e_conns e)); [done|apply some_insert|by apply ci_tasks0].
Qed.

(** The client is destroyed in another thread. *)
Lemma inv_orphan_later c cl e : cinv e -> s = false -> e_client e = Some cl -> m_connection cl = Some c ->
  cinv (mkCEnv None (e_k e) (e_conns e) (e_tasks e ++ [CtCloseCb c])).
Proof.
  intros I Hs Hcl Hm. destruct (ci_connection _ I cl c Hcl Hm) as (k & Hc & Ho).
  destruct I. constructor; simpl; try done.
  - intros c2 k2 L2. pose proof (ci_conn0 c2 k2 L2) as S. unfold conn_stage in *. simpl. rewrite destroys_snoc, Hcl in *. simpl.
    rewrite Nat.add_0_r. destruct (conn_open k2) eqn:O2; [|done]. destruct S as (? & ? & ? & Hm2 & _). rewrite Hm in Hm2. injection Hm2 as <-.
    split_and!; [done..|]. right. split; [done|]. apply elem_of_app. right. by left.
  - intros t [Ht| ->%list_elem_of_singleton]%elem_of_app; [|simpl; eauto]. by apply (task_ok_mono (e_client e) _ (e_conns e)), ci_tasks0.
  - intros _ Hw. pose proof (ci_conn0 c k Hc) as S. unfold conn_stage in S. rewrite Ho in S. apply S.
Qed.

(** The client is destroyed while it has no connection. *)
Lemma inv_no_conn_gone cl e : cinv e -> e_client e = Some cl -> m_connection cl = None ->
  cinv (mkCEnv None (stop_connector (e_k e)) (e_conns e) (e_tasks e)).
Proof.
  intros I Hcl Hm. destruct (stop_connector_inv e I). constructor; simpl in *; try done.
  - intros c k Hc. pose proof (ci_conn0 c k Hc) as S. unfold conn_stage in *. simpl in *. rewrite Hcl in S.
    destruct (conn_open k); [|done]. destruct S as (_ & _ & _ & ? & _). congruence.
  - intros t Ht. by apply (task_ok_mono (e_client e) _ (e_conns e)), ci_tasks0.
Qed.

Lemma destroy_client_later_spec unique e : cinv e -> s = false -> is_Some (e_client e) -> fine cinv (destroy_TcpClient false unique e).
Proof.
  intros I Hs [cl Hcl]. unfold destroy_TcpClient. rewrite (the_client_ok _ _ Hcl), bind_ok. destruct (m_connection cl) as [c|] eqn:Hm.
  - pose proof (inv_orphan_later c cl e I Hs Hcl Hm) as IO. rewrite bind_ok. destruct unique; [|exact IO].
    destruct (ci_connection _ I cl c Hcl Hm) as (k & Hc & Ho). pose proof (client_force_close_spec c _ IO ltac:(simpl; eauto)) as F.
    unfold force_close, the_conn in *. simpl e_conns in *. rewrite Hc in *. cbn [of_option] in *. rewrite !bind_ok in *.
    by rewrite Ho in *.
  - by eapply inv_no_conn_gone.
Qed.

Lemma destroy_client_spec unique e : cinv e -> is_Some (e_client e) -> fine cinv (destroy_TcpClient true unique e).
Proof.
  intros I [cl Hcl]. unfold destroy_TcpClient. rewrite (the_client_ok _ _ Hcl), bind_ok. destruct (m_connection cl) as [c|] eqn:Hm.
  - destruct (ci_connection _ I cl c Hcl Hm) as (k & Hc & Ho). pose proof (inv_orphan c k cl e I Hcl Hm Hc Ho) as IO.
    unfold set_close_callback. rewrite (the_conn_ok _ _ _ Hc), !bind_ok. destruct unique; [|exact IO].
    pose proof (client_force_close_spec c _ IO) as F. unfold force_close, the_conn in *. simpl e_conns in *.
    rewrite lookup_insert_eq in *. cbn [of_option] in *. rewrite bind_ok in *. specialize (F ltac:(eauto)).
    unfold conn_open in *. simpl in *. by rewrite Ho in *.
  - by eapply inv_no_conn_gone.
Qed.

(** What both guards say of an event. *)
Lemma cguard_parts ev e : cguard ev e ->
  match ev with
  | CvConnect il fd err ch => is_Some (e_client e) /\ kguard s (KvStart il fd err ch) (e_k e)
  | CvDisconnect | CvStop | CvEnableRetry => is_Some (e_client e)
  | CvShutdown c | CvForceClose c => is_Some (e_conns e !! c)
  | CvClose c fd err ch => (exists k, e_conns e !! c = Some k /\ conn_open k = true) /\ close_guard c fd err ch e
  | CvTask fd err ch => forall c, head (e_tasks e) = Some (CtForceClose c) -> close_guard c fd err ch e
  | CvConnector ev _ c =>
      reactor_event ev = true /\ kguard s ev (e_k e) /\ e_conns e !! c = None /\
      forall cl, e_client e = Some cl -> m_conn_counter cl + 1 < 2 ^ 31
  | CvDestroy il _ => is_Some (e_client e) /\ (s = false \/ il = true)
  end.
Proof.
  unfold cguard, kguard, close_guard. destruct s; [destruct ev; simpl; intuition|]. intros [Hok Hn].
  destruct ev as [il fd err ch| | | |c|c|c fd err ch|fd err ch|ev peer c|il unique]; cbn [cev_any client_aborts] in *; try done.
  - destruct Hok as [Hc Hk]. split_and!; [done..|]. intros Ha. by apply (Hn FAssert).
  - destruct Hok. split; [done|]. by split.
  - intros c Hh. split; [done|]. intros f Hf. apply (Hn f). eauto.
  - destruct Hok as (? & ? & ? & ?). split_and!; [done..|intros Ha; by apply (Hn FAssert)|done|done].
  - auto.
Qed.

Lemma client_step_inv ev e : cinv e -> cguard ev e -> fine cinv (client_step ev e).
Proof.
  intros I Hok%cguard_parts. destruct ev as [il fd err ch| | | |c|c|c fd err ch|fd err ch|ev peer c|il unique]; simpl.
  - destruct Hok. by apply client_connect_spec.
  - destruct Hok as [cl Hcl]. unfold disconnect. rewrite (the_client_ok _ _ Hcl), bind_ok.
    assert (cinv (with_client (set_client_connected false cl) e)) as I1 by (by eapply inv_with_client).
    destruct (m_connection cl) as [c|] eqn:Hm; [|done]. apply client_shutdown_spec; [done|].
    destruct (ci_connection _ I cl c Hcl Hm) as (k & Hc & _). simpl. eauto.
  - destruct Hok as [cl Hcl]. unfold client_stop. rewrite (the_client_ok _ _ Hcl), bind_ok. simpl.
    apply (stop_connector_inv (with_client _ e)). by eapply inv_with_client.
  - destruct Hok as [cl Hcl]. rewrite (the_client_ok _ _ Hcl), bind_ok. simpl. by eapply inv_with_client.
  - by apply client_shutdown_spec.
  - by apply client_force_close_spec.
  - destruct Hok as [(k & Hc & Ho) Hq]. by eapply client_handle_close_spec.
  - destruct (e_tasks e) as [|[c|c|c] l] eqn:Ht; [done|..].
    + by apply destroyed_spec.
    + pose proof (inv_pop_force c l e I Ht) as Ip. destruct (ci_tasks _ I (CtForceClose c)) as [k Hc]; [rewrite Ht; by left|].
      rewrite (the_conn_ok c k) by done. rewrite bind_ok. destruct (conn_open k) eqn:Ho; [|done]. eapply client_handle_close_spec; [done..|].
      by apply Hok.
    + by apply close_callback_spec.
  - destruct Hok as (? & ? & ? & ?). by apply connector_event_spec.
  - destruct Hok as [Hcl Hil]. destruct il; [by apply destroy_client_spec|]. destruct Hil as [Hs|]; [|done]. by apply destroy_client_later_spec.
Qed.

End inv.

(** The invariant of a client that is used as [cev_ok] says. *)
Abbreviation client_inv := (cinv true).

(** * Theorems *)

Section theorems.
Context {P : Type} `{PollerLaws P}.
Implicit Types (e : client_env P).

(** A new client in a reactor with any channels. *)
Definition client_start (name : bytes) (p : P) (cs : chans) : client_env P :=
  mkCEnv (Some (new_TcpClient cur_tid name)) (connector_start p cs) ∅ [].

(** The events of the client that a guard admits, and changes of the other
    channels of its reactor. *)
Inductive cstep_with (ok : client_event -> client_env P -> Prop) : client_env P -> client_env P -> Prop :=
| cstep_ev ev e e' : ok ev e -> client_step ev e = Ok e' -> cstep_with ok e e'
| cstep_other e p' cs' :
    poller_inv p' cs' -> (forall c, m_connect_channel (k_conn (e_k e)) = Some c ->
      owner_part <$> cs' !! c = owner_part <$> k_chans (e_k e) !! c /\
      (forall ch, k_chans (e_k e) !! c = Some ch -> m_channel_map p' !! m_fd ch = m_channel_map (k_poller (e_k e)) !! m_fd ch)) ->
    cstep_with ok e (with_k (k_with p' cs' (e_k e)) e).

Definition cstep : client_env P -> client_env P -> Prop := cstep_with cev_ok.
Definition cstep_any : client_env P -> client_env P -> Prop := cstep_with cev_any.

Lemma kev_ok_any ev (k : connector_env P) : kev_ok ev k -> kev_any ev k.
Proof. destruct ev; simpl; try tauto. intros (-> & _ & ?). done. Qed.

Lemma cstep_is_any e e' : cstep e e' -> cstep_any e e'.
Proof.
  intros [ev e1 e2 Hok E|e1 p' cs' I' Ho]; [|by apply cstep_other]. apply (cstep_ev _ ev); [|done].
  destruct ev; simpl in *; unfold quiet in *; naive_solver eauto using kev_ok_any.
Qed.

Lemma client_start_inv s name p cs : poller_inv p cs -> cinv s (client_start name p cs).
Proof.
  intros I. constructor; simpl; try done.
  - pose proof (connector_start_inv p cs I) as Ik. destruct s; [done|by apply mask_inv].
  - intros cl c [= <-]. done.
  - intros t Ht. by apply elem_of_nil in Ht.
  - by intros cl [= <-].
Qed.

Lemma inv_other s e p' cs' : cinv s e ->
  poller_inv p' cs' -> (forall c, m_connect_channel (k_conn (e_k e)) = Some c ->
      owner_part <$> cs' !! c = owner_part <$> k_chans (e_k e) !! c /\
      (forall ch, k_chans (e_k e) !! c = Some ch -> m_channel_map p' !! m_fd ch = m_channel_map (k_poller (e_k e)) !! m_fd ch)) ->
  cinv s (with_k (k_with p' cs' (e_k e)) e).
Proof.
  intros I I' Ho. apply inv_with_k; [done| |by intros Hs _|apply I].
  pose proof (ci_k _ _ I) as Ik. destruct s; [by apply other_inv|exact (other_inv (mask (e_k e)) p' cs' Ik I' Ho)].
Qed.

Lemma csteps_inv e e' : rtc cstep e e' -> client_inv e -> client_inv e'.
Proof.
  induction 1 as [|e1 e2 e3 S _ IH]; [done|]. intros I. apply IH. destruct S as [ev e1 e2 Hok E|e1 p' cs' I' Ho]; [|by apply inv_other].
  pose proof (client_step_inv true ev e1 I Hok) as F. by rewrite E in F.
Qed.

(** A close that aborts. *)
Lemma close_fails c fd err ch e f : cinv false e -> fresh_socket (e_k e) fd ch -> close_aborts c fd err ch e f ->
  handle_close c fd err ch e = Fail f.
Proof.
  intros I F (k & Hc & Ho & Hf). unfold handle_close. rewrite (the_conn_ok _ _ _ Hc), bind_ok, Ho. simpl assert_. rewrite bind_ok.
  pose proof (ci_conn _ _ I c k Hc) as Sc. unfold conn_stage in Sc. rewrite Ho in Sc. destruct Sc as (Sk & _ & _ & Scl).
  destruct (e_client e) as [cl|] eqn:Hcl.
  - destruct Hf as (-> & Hr & Hw & Ha). destruct Scl as [Hm ->]. unfold remove_conn, the_client. simpl e_client. rewrite Hcl. cbn [of_option].
    rewrite bind_ok, (in_loop_thread _ (ci_thread _ _ I cl Hcl)), bind_ok, bool_decide_eq_true_2 by done. simpl assert_. rewrite bind_ok, Hr, Hw.
    simpl e_k. cbn [andb]. pose proof (connector_step_core (KvRestart fd err ch) (e_k e) (ci_k _ _ I)) as [A _].
    { split; [|done]. unfold connector_state in Sk. congruence. }
    simpl connector_step in A. by rewrite (A Ha).
  - destruct Hf as [-> ->]. unfold remove_conn, the_client. simpl e_client. by rewrite Hcl.
Qed.

Lemma client_aborts_fails ev e f : cinv false e -> cev_any ev e -> client_aborts ev e f -> client_step ev e = Fail f.
Proof.
  intros I Hok Ha. destruct ev as [il fd err ch| | | |c|c|c fd err ch|fd err ch|ev peer c|il unique]; try done; cbn [cev_any client_aborts] in *.
  - destruct Hok as [[cl Hcl] Hk], Ha as [-> Ha]. destruct (connector_step_core _ _ (ci_k _ _ I) Hk) as [A _]. cbn [client_step].
    unfold client_connect. rewrite (the_client_ok _ _ Hcl), bind_ok. simpl e_k. cbn [connector_step] in A. by rewrite (A Ha).
  - destruct Hok. by apply close_fails.
  - destruct Ha as (c & Hh & Ha). cbn [client_step]. destruct (e_tasks e) as [|t l] eqn:Ht; [done|]. injection Hh as ->.
    pose proof (inv_pop_force _ c l e I Ht) as Ip. destruct Ha as (k & Hc & Ho & Hf).
    rewrite (the_conn_ok c k) by done. rewrite bind_ok, Ho. apply close_fails; [done..|]. by exists k.
  - destruct Hok as (_ & Hk & _), Ha as [-> Ha]. destruct (connector_step_core _ _ (ci_k _ _ I) Hk) as [A _]. cbn [client_step].
    unfold connector_event_step. by rewrite (A Ha).
Qed.

Lemma cstep_any_inv e e' : cstep_any e e' -> cinv false e -> cinv false e'.
Proof.
  intros [ev e1 e2 Hok E|e1 p' cs' I' Ho] I; [|by apply inv_other].
  pose proof (client_step_inv false ev e1 I) as F. rewrite E in F. apply F. split; [done|].
  intros f Ha%client_aborts_fails; [|done..]. congruence.
Qed.

Lemma csteps_any_inv e e' : rtc cstep_any e e' -> cinv false e -> cinv false e'.
Proof. induction 1; eauto using cstep_any_inv. Qed.

(** A restart whose connect(2) is in progress. *)
Lemma restart_effect fd ch (k k' : connector_env P) : restart_connector fd EINPROGRESS ch k = Ok k' ->
  m_connect_state (k_conn k') = kcConnecting /\ m_retry_delay_ms (k_conn k') = kInitRetryDelayMs.
Proof.
  unfold restart_connector, start_in_reactor. intros E. apply bind_ok_inv in E as (? & _ & E). apply bind_ok_inv in E as (? & _ & E).
  apply bind_ok_inv in E as (? & _ & E). simpl in E. unfold connect, connecting in E. simpl in E.
  apply bind_ok_inv in E as (? & _ & E). apply bind_ok_inv in E as ([p cs] & _ & E). by injection E as <-.
Qed.

Lemma connection_iff_open s cl e c : cinv s e -> e_client e = Some cl ->
  m_connection cl = Some c <-> exists k, e_conns e !! c = Some k /\ conn_open k = true.
Proof.
  intros I Hcl. split; [by apply (ci_connection _ _ I)|]. intros (k & Hc & Ho). pose proof (ci_conn _ _ I c k Hc) as S.
  unfold conn_stage in S. rewrite Ho, Hcl in S. apply S.
Qed.

Lemma lost_is_retried s cl c fd ch e e' : cinv s e -> e_client e = Some cl -> m_connection cl = Some c ->
  m_enable_retry cl = true -> m_client_connected cl = true -> client_step (CvClose c fd EINPROGRESS ch) e = Ok e' ->
  connector_state e' = kcConnecting /\ m_retry_delay_ms (k_conn (e_k e')) = kInitRetryDelayMs.
Proof.
  intros I Hcl Hm Hr Hw E. simpl in E. unfold handle_close in E. apply bind_ok_inv in E as (k & Hc & E).
  apply bind_ok_inv in E as (? & Ho%assert_ok_inv & E). unfold the_conn in Hc. destruct (e_conns e !! c) as [k0|] eqn:L; [|done].
  injection Hc as ->. pose proof (ci_conn _ _ I c k L) as S. unfold conn_stage in S. rewrite Ho, Hcl in S.
  destruct S as (_ & _ & _ & _ & Hcb). rewrite Hcb in E. unfold remove_conn, the_client in E. simpl e_client in E. rewrite Hcl in E.
  simpl of_option in E. rewrite bind_ok in E. apply bind_ok_inv in E as (? & _ & E). apply bind_ok_inv in E as (? & _ & E).
  rewrite Hr, Hw in E. simpl andb in E. cbv iota in E. apply bind_ok_inv in E as (k' & Er & E). injection E as <-. by apply restart_effect in Er.
Qed.

End theorems.

(** * Runs *)

Section demo.
#[local] Existing Instance TcpConnection.loop_thread.

Definition demo_client : client_env (EPollPoller table_epoll) := client_start (lit "cli") demo_poller ∅.

(** The first connection is lost and made again. *)
Definition demo_session : list client_event :=
  [CvEnableRetry; CvConnect true 5 EINPROGRESS 0; CvConnector (KvWrite [0] 0 false) (lit "10.0.0.1:80") 70;
   CvConnector (KvTask 6 0 1) [] 71; CvClose 70 6 EINPROGRESS 1; CvTask 7 0 2; CvConnector (KvWrite [1] 0 false) (lit "10.0.0.1:80") 71].

(** The guards, decided. *)
Definition fresh_okb (k : connector_env (EPollPoller table_epoll)) (fd : Z) (c : chan_ptr) : bool :=
  bool_decide (k_chans k !! c = None) && bool_decide (m_channel_map (k_poller k) !! fd = None) && (0 <=? fd).
Definition kev_okb (ev : connector_event) (k : connector_env (EPollPoller table_epoll)) : bool :=
  match ev with
  | KvStart _ fd _ c =>
      bool_decide (m_connect_state (k_conn k) = kcDisconnected) && bool_decide (m_connect_channel (k_conn k) = None) &&
      bool_decide (k_timers k = []) && bool_decide (starts_queued (k_tasks k) = 0%nat) && fresh_okb k fd c
  | KvTask fd _ c => fresh_okb k fd c
  | KvWrite _ _ _ | KvError _ => bool_decide (m_connect_state (k_conn k) = kcConnecting)
  | _ => false
  end.
Definition quiet_okb (e : client_env (EPollPoller table_epoll)) (fd : Z) (ch : chan_ptr) : bool :=
  bool_decide (connector_state e = kcConnected -> m_connect_channel (k_conn (e_k e)) = None) && fresh_okb (e_k e) fd ch.
Definition cev_okb (ev : client_event) (e : client_env (EPollPoller table_epoll)) : bool :=
  match ev with
  | CvConnect il fd err ch => bool_decide (is_Some (e_client e)) && kev_okb (KvStart il fd err ch) (e_k e)
  | CvEnableRetry => bool_decide (is_Some (e_client e))
  | CvClose c fd _ ch => match e_conns e !! c with Some k => conn_open k && quiet_okb e fd ch | None => false end
  | CvTask fd _ ch => quiet_okb e fd ch
  | CvConnector ev _ c =>
      reactor_event ev && kev_okb ev (e_k e) && bool_decide (e_conns e !! c = None) &&
      match e_client e with Some cl => m_conn_counter cl + 1 <? 2 ^ 31 | None => true end
  | _ => false
  end.

Lemma fresh_okb_ok k fd c : fresh_okb k fd c = true -> fresh_socket k fd c.
Proof. unfold fresh_okb, fresh_socket. rewrite !andb_true_iff, !bool_decide_eq_true, Z.leb_le. tauto. Qed.

Lemma kev_okb_ok ev k : kev_okb ev k = true -> kev_ok ev k.
Proof.
  destruct ev; simpl; try done; rewrite ?andb_true_iff, ?bool_decide_eq_true; try done; try apply fresh_okb_ok.
  intros ((((? & ?) & ?) & ?) & ?%fresh_okb_ok). done.
Qed.

Lemma quiet_okb_ok e fd ch : quiet_okb e fd ch = true -> quiet e fd ch.
Proof. unfold quiet_okb, quiet. rewrite andb_true_iff, bool_decide_eq_true. intros [? ?%fresh_okb_ok]. done. Qed.

Lemma cev_okb_ok ev e : cev_okb ev e = true -> cev_ok ev e.
Proof.
  destruct ev as [il fd err ch| | | |c|c|c fd err ch|fd err ch|ev peer c|il unique]; simpl; try done.
  - intros [Hc%bool_decide_eq_true Hk]%andb_true_iff. split; [done|]. by apply (kev_okb_ok (KvStart il fd err ch)).
  - by intros ?%bool_decide_eq_true.
  - destruct (e_conns e !! c) as [k|]; [|done]. intros [Ho Hq%quiet_okb_ok]%andb_true_iff. split; [by exists k|done].
  - apply quiet_okb_ok.
  - rewrite !andb_true_iff, bool_decide_eq_true. intros (((He & Hk%kev_okb_ok) & Hc) & Hn). split_and!; [done..|].
    intros cl Hcl. rewrite Hcl in Hn. by apply Z.ltb_lt.
Qed.

Fixpoint all_cok (l : list client_event) (e : client_env (EPollPoller table_epoll)) : bool :=
  match l with
  | [] => true
  | ev :: l => cev_okb ev e && match client_step ev e with Ok e' => all_cok l e' | Fail _ => false end
  end.

Lemma all_cok_run l : forall e, all_cok l e = true -> exists e', client_run l e = Ok e' /\ rtc cstep e e'.
Proof.
  induction l as [|ev l IH]; intros e Hl; [exists e; split; [done|apply rtc_refl]|]. cbn [all_cok] in Hl.
  apply andb_true_iff in Hl as [Hok%cev_okb_ok Hl]. cbn [client_run]. destruct (client_step ev e) as [e1|x] eqn:E; [|done]. rewrite bind_ok.
  destruct (IH _ Hl) as (e' & R & T). exists e'. split; [done|]. eapply rtc_l; [|exact T]. by eapply cstep_ev.
Qed.

Lemma demo_session_ok : all_cok demo_session demo_client = true.
Proof. vm_compute. reflexivity. Qed.

(** The client is destroyed in another thread while it is connected. *)
Definition demo_orphan_events : list client_event :=
  [CvConnect true 5 EINPROGRESS 0; CvConnector (KvWrite [0] 0 false) (lit "10.0.0.1:80") 70; CvConnector (KvTask 6 0 1) [] 71].
Definition demo_orphan : client_env (EPollPoller table_epoll) :=
  match client_run (demo_orphan_events ++ [CvDestroy false false]) demo_client with Ok e => e | Fail _ => demo_client end.

Lemma demo_orphan_reachable : rtc cstep_any demo_client demo_orphan.
Proof.
  destruct (all_cok_run demo_orphan_events demo_client ltac:(by vm_compute)) as (e & R & T).
  eapply rtc_r; [eapply (rtc_subrel cstep cstep_any); [apply cstep_is_any|exact T]|].
  vm_compute in R. injection R as <-. apply (cstep_ev _ (CvDestroy false false)); [by eexists|by vm_compute].
Qed.


(** When a connection was lost and retry is not enabled, the state of the
    connector stays [kConnected], and [connect] fails its assertion. *)
Example reconnect_aborts :
  client_run [CvConnect true 5 EINPROGRESS 0; CvConnector (KvWrite [0] 0 false) (lit "10.0.0.1:80") 70;
              CvConnector (KvTask 6 0 1) [] 71; CvClose 70 6 0 1; CvTask 7 0 2; CvConnect true 8 EINPROGRESS 3] demo_client = Fail FAssert.
Proof. by vm_compute. Qed.

(** [disconnect] while the connector is still connecting does not stop it. *)
Example disconnect_while_connecting :
  exists e cl, client_run [CvConnect true 5 EINPROGRESS 0; CvDisconnect; CvConnector (KvWrite [0] 0 false) (lit "10.0.0.1:80") 70] demo_client = Ok e /\
    e_client e = Some cl /\ m_client_connected cl = false /\ cc_state <$> e_conns e !! 70 = Some kConnected.
Proof. eexists _, _. split; [by vm_compute|done]. Qed.

(** Destroying the client in another thread: the connection is lost before its
    close callback is replaced. *)
Example destruction_in_other_thread :
  client_run [CvConnect true 5 EINPROGRESS 0; CvConnector (KvWrite [0] 0 false) (lit "10.0.0.1:80") 70;
              CvConnector (KvTask 6 0 1) [] 71; CvDestroy false false; CvClose 70 6 0 1] demo_client = Fail FBounds.
Proof. by vm_compute. Qed.
End demo.
