(* ===== verification/LogFile.v ===== *)
(** [flute/common/FileUtil.{h,cc}] and [flute/common/LogFile.{h,cc}]: files
    that are appended to and read, and the log that rolls over to a new file.

    A stdio stream is the bytes it accepted.  What fwrite(3) and read(2) answer
    is a list of answers, used one per call; when it is used up they do all
    that is asked for.  The time of every clock reading is an argument. *)

From S2P Require Import Prelude StringPiece Format Timestamp.

(** * FileUtil *)

Record AppendFile : Type := mkAppendFile {
  af_name : bytes;
  af_stream : bytes;             (* what the stream m_fp accepted *)
  af_flushed : Z;                (* how much of it was flushed *)
  m_written_bytes : Z            (* an off_t *)
}.

(** [opened]: fopen(3) succeeded. *)
Definition new_AppendFile (opened : bool) (filename : bytes) : outcome AppendFile :=
  assert_ opened;; Ok (mkAppendFile filename [] 0 0).

(** fwrite answers at most what is asked for. *)
Definition fwrite_answer (ws : list Z) (n : Z) : Z := match ws with [] => n | w :: _ => Z.max 0 (Z.min w n) end.

Definition file_write (ws : list Z) (logline : bytes) (f : AppendFile) : Z * AppendFile :=
  let n := fwrite_answer ws (len logline) in
  (n, mkAppendFile (af_name f) (af_stream f ++ take (Z.to_nat n) logline) (af_flushed f) (m_written_bytes f)).

(** The loop of [append], at [n]. *)
Fixpoint append_loop (fuel : nat) (ws : list Z) (logline : bytes) (n : Z) (f : AppendFile) : outcome AppendFile :=
  match fuel with
  | O => Fail FFuel
  | S fuel =>
      let remain := len logline - n in
      if 0 <? remain then
        let '(x, f) := file_write ws (drop (Z.to_nat n) logline) f in
        if x =? 0 then Ok f else append_loop fuel (tail ws) logline (n + x) f
      else Ok f
  end.

Definition append (ws : list Z) (logline : bytes) (f : AppendFile) : outcome AppendFile :=
  let '(n, f) := file_write ws logline f in
  f ← append_loop (S (length logline)) (tail ws) logline n f;
  require FOverflow (m_written_bytes f + len logline <? 2 ^ 63);;
  Ok (mkAppendFile (af_name f) (af_stream f) (af_flushed f) (m_written_bytes f + len logline)).

Definition file_flush (f : AppendFile) : AppendFile :=
  mkAppendFile (af_name f) (af_stream f) (len (af_stream f)) (m_written_bytes f).

(** ** Reading a small file *)

Definition kBufferSize : Z := 64 * 1024.

(** read(2) at [pos] in a file: a negative answer is an error, and otherwise
    at most [toRead] bytes that are there. *)
Definition read_answer (rs : list Z) (file : bytes) (pos toRead : Z) : Z :=
  let all := Z.min toRead (Z.max 0 (len file - pos)) in
  match rs with [] => all | r :: _ => if r <? 0 then r else Z.min r all end.

(** The loop of [read_to_string]; the descriptor is at [len content]. *)
Fixpoint read_loop (fuel : nat) (rs : list Z) (errno : Z) (file : bytes) (maxSize : Z) (content : bytes) (err : Z) : outcome (Z * bytes) :=
  match fuel with
  | O => Fail FFuel
  | S fuel =>
      if len content <? maxSize then
        let toRead := Z.min (maxSize - len content) kBufferSize in
        let n := read_answer rs file (len content) toRead in
        if 0 <? n then read_loop fuel (tail rs) errno file maxSize (content ++ slice file (len content) (len content + n)) err
        else Ok (if n <? 0 then errno else err, content)
      else Ok (err, content)
  end.

(** fstat(2): [None] is a failure; a regular file with its size, a directory
    or something else. *)
Inductive file_type : Type := StReg (st_size : Z) | StDir | StOther.

(** [read_to_string] of a file that was opened ([None] is a descriptor that is
    not valid, with its [m_err]); [want_size]: [fileSize] is given.  The result
    is the error and the content. *)
Definition read_to_string (file : option bytes) (m_err : Z) (st : option file_type) (want_size : bool) (rs : list Z) (errno maxSize : Z)
    (content : bytes) : outcome (Z * bytes) :=
  match file with
  | None => Ok (m_err, content)
  | Some f =>
      let err := if want_size then match st with Some (StReg _) => m_err | Some StDir => 21 | Some StOther => m_err | None => errno end else m_err in
      read_loop (S (length f)) rs errno f (u64 maxSize) [] err
  end.

(** [read_to_buffer]: pread(2) of all but one byte of the buffer, which gets a
    NUL behind what was read. *)
Definition read_to_buffer (file : option bytes) (m_err : Z) (rs : list Z) (errno : Z) : outcome (Z * option (Z * bytes)) :=
  match file with
  | None => Ok (m_err, None)
  | Some f =>
      let n := read_answer rs f 0 (kBufferSize - 1) in
      if 0 <=? n then require FBounds (n <? kBufferSize);; Ok (m_err, Some (n, slice f 0 n ++ [NUL]))
      else Ok (errno, None)
  end.

(** * LogFile *)

Definition kRollPerSeconds : Z := 60 * 60 * 24.

Record LogFile : Type := mkLogFile {
  m_basename : bytes;
  m_rollsize : Z;
  m_flush_interval : Z;
  m_check_every_n_appends : Z;
  m_count : Z;
  m_start_time : Z;
  m_last_roll : Z;
  m_last_flush : Z;
  m_file : option AppendFile;
  lf_closed : list AppendFile    (* the files before, closed *)
}.

Section logfile.
(** [gmtime_r], the name of the host and the id of the process. *)
Context (gmtime_r : Z -> civil_time) (hostname : bytes) (pid : Z).

Definition get_log_file_name (basename : bytes) (now : Z) : bytes :=
  let tm := gmtime_r now in
  basename ++ (lit "." ++ dec_0 4 (c_year tm) ++ dec_0 2 (c_month tm) ++ dec_0 2 (c_day tm) ++ lit "-" ++
    dec_0 2 (c_hour tm) ++ dec_0 2 (c_minute tm) ++ dec_0 2 (c_second tm) ++ lit ".") ++
  hostname ++ snprintf 32 (lit "." ++ dec pid) ++ lit ".log".

Definition period (now : Z) : Z := Z.quot now kRollPerSeconds * kRollPerSeconds.

(** The old file is destroyed after the new one was opened. *)
Definition roll_file (now : Z) (opened : bool) (l : LogFile) : outcome (bool * LogFile) :=
  let filename := get_log_file_name (m_basename l) now in
  let start := period now in
  if m_last_roll l <? now then
    f ← new_AppendFile opened filename;
    Ok (true, mkLogFile (m_basename l) (m_rollsize l) (m_flush_interval l) (m_check_every_n_appends l) (m_count l) start now now (Some f)
          (lf_closed l ++ match m_file l with Some old => [file_flush old] | None => [] end))
  else Ok (false, l).

Definition new_LogFile (basename : bytes) (rollSize flushInterval checkEveryN now : Z) (opened : bool) : outcome LogFile :=
  assert_ (bool_decide ("/"%char ∉ basename));;
  '(_, l) ← roll_file now opened (mkLogFile basename rollSize flushInterval checkEveryN 0 0 0 0 None []);
  Ok l.

Definition set_file (f : AppendFile) (l : LogFile) : LogFile :=
  mkLogFile (m_basename l) (m_rollsize l) (m_flush_interval l) (m_check_every_n_appends l) (m_count l) (m_start_time l) (m_last_roll l)
    (m_last_flush l) (Some f) (lf_closed l).
Definition set_count (n : Z) (l : LogFile) : LogFile :=
  mkLogFile (m_basename l) (m_rollsize l) (m_flush_interval l) (m_check_every_n_appends l) n (m_start_time l) (m_last_roll l)
    (m_last_flush l) (m_file l) (lf_closed l).
Definition set_last_flush (t : Z) (l : LogFile) : LogFile :=
  mkLogFile (m_basename l) (m_rollsize l) (m_flush_interval l) (m_check_every_n_appends l) (m_count l) (m_start_time l) (m_last_roll l)
    t (m_file l) (lf_closed l).

(** [flush], under the lock if there is one. *)
Definition log_flush (l : LogFile) : outcome LogFile := f ← of_option FNull (m_file l); Ok (set_file (file_flush f) l).

(** [now] is what time(2) says in this function, and [now2] in [roll_file]. *)
Definition append_unlocked (ws : list Z) (now now2 : Z) (opened : bool) (logline : bytes) (l : LogFile) : outcome LogFile :=
  f ← of_option FNull (m_file l);
  f ← append ws logline f;
  let l := set_file f l in
  if m_rollsize l <? m_written_bytes f then '(_, l) ← roll_file now2 opened l; Ok l
  else
    let l := set_count (m_count l + 1) l in
    if m_check_every_n_appends l <=? m_count l then
      let l := set_count 0 l in
      if negb (period now =? m_start_time l) then '(_, l) ← roll_file now2 opened l; Ok l
      else if m_flush_interval l <? now - m_last_flush l then log_flush (set_last_flush now l)
      else Ok l
    else Ok l.

(** [append] takes the lock, if the log has one, and calls [append_unlocked]. *)
Definition log_append (ws : list Z) (now now2 : Z) (opened : bool) (logline : bytes) (l : LogFile) : outcome LogFile :=
  append_unlocked ws now now2 opened logline l.

Inductive log_op : Type :=
| LAppend (now now2 : Z) (ws : list Z) (logline : bytes)
| LFlush
| LRoll (now : Z).

Definition log_step (o : log_op) (l : LogFile) : outcome LogFile :=
  match o with
  | LAppend now now2 ws d => log_append ws now now2 true d l
  | LFlush => log_flush l
  | LRoll now => '(_, l) ← roll_file now true l; Ok l
  end.

Fixpoint log_run (os : list log_op) (l : LogFile) : outcome LogFile :=
  match os with [] => Ok l | o :: os => l ← log_step o l; log_run os l end.
End logfile.

(** * FileUtil: what is written and read *)

Definition all_positive (ws : list Z) : Prop := Forall (fun w => 0 < w) ws.

Lemma fwrite_range ws n : 0 <= n -> 0 <= fwrite_answer ws n <= n.
Proof. intros. unfold fwrite_answer. destruct ws; lia. Qed.

Lemma fwrite_positive ws n : 0 < n -> all_positive ws -> 0 < fwrite_answer ws n.
Proof. intros Hn F. unfold fwrite_answer. destruct F; lia. Qed.

Lemma positive_tail ws : all_positive ws -> all_positive (tail ws).
Proof. intros F. unfold all_positive. destruct F; simpl; [constructor|done]. Qed.

(** Only the stream changes. *)
Definition stream_grows (f f' : AppendFile) (d : bytes) : Prop :=
  af_stream f' = af_stream f ++ d /\ af_name f' = af_name f /\ m_written_bytes f' = m_written_bytes f.

Lemma append_loop_spec fuel : forall ws line n f,
  0 <= n <= len line -> len line - n < Z.of_nat fuel ->
  exists f' m, append_loop fuel ws line n f = Ok f' /\ n <= m <= len line /\ stream_grows f f' (slice line n m) /\
    (all_positive ws -> m = len line).
Proof.
  induction fuel as [|fuel IH]; intros ws line n f Hn Hf; [lia|]. cbn [append_loop].
  destruct (Z.ltb_spec 0 (len line - n)) as [Hr|Hr].
  2: { exists f, n. split; [done|]. split; [lia|]. split; [|lia]. rewrite slice_empty by lia. unfold stream_grows. by rewrite app_nil_r. }
  unfold file_write. set (x := fwrite_answer ws _).
  assert (len (drop (Z.to_nat n) line) = len line - n) as Ld by (rewrite len_drop; lia).
  pose proof (fwrite_range ws (len line - n) ltac:(lia)) as Hx. rewrite <- Ld in Hx. fold x in Hx.
  assert (take (Z.to_nat x) (drop (Z.to_nat n) line) = slice line n (n + x)) as Sx by (unfold slice; f_equal; lia).
  destruct (Z.eqb_spec x 0) as [Hx0|Hx0].
  - eexists _, n. split; [reflexivity|]. split; [lia|]. split; [rewrite Hx0, slice_empty by lia; done|].
    intros F. pose proof (fwrite_positive ws (len line - n) ltac:(lia) F) as Hp. rewrite <- Ld in Hp. fold x in Hp. lia.
  - rewrite Sx. destruct (IH (tail ws) line (n + x) (mkAppendFile (af_name f) (af_stream f ++ slice line n (n + x)) (af_flushed f) (m_written_bytes f)))
      as (f' & m & E & Hm & (G1 & G2 & G3) & Hall); [lia|lia|].
    exists f', m. split; [exact E|]. split; [lia|]. simpl in *. split; [|intros F; by apply Hall, positive_tail].
    split; [|done]. rewrite G1, <- app_assoc, <- slice_split by lia. done.
Qed.

Lemma file_append_spec ws line f : m_written_bytes f + len line < 2 ^ 63 ->
  exists f' m, append ws line f = Ok f' /\ 0 <= m <= len line /\ af_stream f' = af_stream f ++ slice line 0 m /\ af_name f' = af_name f /\
    m_written_bytes f' = m_written_bytes f + len line /\ (all_positive ws -> m = len line).
Proof.
  intros Hw. unfold append, file_write. pose proof (fwrite_range ws (len line) (len_nonneg _)) as Hx. set (x := fwrite_answer ws (len line)) in *.
  destruct (append_loop_spec (S (length line)) (tail ws) line x
    (mkAppendFile (af_name f) (af_stream f ++ take (Z.to_nat x) line) (af_flushed f) (m_written_bytes f)))
    as (f' & m & E & Hm & (G1 & G2 & G3) & Hall); [lia|unfold len in *; lia|].
  rewrite E, bind_ok. simpl in *. rewrite require_true by (rewrite G3; by apply Z.ltb_lt). rewrite bind_ok.
  eexists _, m. split; [reflexivity|]. split; [lia|]. simpl. rewrite G1, G2, G3. split_and!; [|done|done|intros F; by apply Hall, positive_tail].
  rewrite <- app_assoc. f_equal. change (take (Z.to_nat x) line) with (take (Z.to_nat x) (drop 0 line)).
  replace (take (Z.to_nat x) (drop 0 line)) with (slice line 0 x) by (unfold slice; f_equal; lia). by rewrite <- slice_split by lia.
Qed.

(** What is read: a prefix of the file, and all that was asked for when no
    read(2) fails or ends early. *)
Lemma read_loop_spec fuel : forall rs errno file maxSize k err,
  0 <= k <= len file -> k <= Z.max 0 maxSize -> len file - k < Z.of_nat fuel ->
  exists e m, read_loop fuel rs errno file maxSize (slice file 0 k) err = Ok (e, slice file 0 m) /\
    k <= m <= len file /\ m <= Z.max 0 maxSize /\ (all_positive rs -> e = err /\ m = Z.max k (Z.min (len file) maxSize)).
Proof.
  induction fuel as [|fuel IH]; intros rs errno file maxSize k err Hk Hm Hf; [lia|]. cbn [read_loop].
  assert (len (slice file 0 k) = k) as Lk by (rewrite len_slice; lia). rewrite Lk.
  destruct (Z.ltb_spec k maxSize) as [Hlt|Hge].
  2: { exists err, k. split; [done|]. split; [lia|]. split; [lia|]. intros _. split; [done|lia]. }
  unfold read_answer. set (all := Z.min (Z.min (maxSize - k) kBufferSize) (Z.max 0 (len file - k))).
  set (n := match rs with [] => all | r :: _ => _ end).
  assert (n <= all) as Hn by (unfold n; destruct rs as [|r rs']; [lia|]; destruct (Z.ltb_spec r 0); unfold all, kBufferSize in *; lia).
  assert (all_positive rs -> n < all -> 0 < n) as Hp.
  { intros F. unfold n. destruct F as [|r rs' Hr _]; [lia|]. destruct (Z.ltb_spec r 0); lia. }
  assert (all_positive rs -> 0 <= n) as Hp0.
  { intros F. unfold n. destruct F as [|r rs' Hr _]; [unfold all, kBufferSize; lia|]. destruct (Z.ltb_spec r 0); [lia|]. unfold all, kBufferSize; lia. }
  destruct (Z.ltb_spec 0 n) as [H0|H0].
  - rewrite <- slice_split by lia. unfold all, kBufferSize in *.
    destruct (IH (tail rs) errno file maxSize (k + n) err) as (e & m & E & Hm1 & Hm2 & Hall); [lia|lia|lia|].
    exists e, m. split; [exact E|]. split; [lia|]. split; [lia|]. intros F. destruct (Hall (positive_tail _ F)) as [-> ->]. split; [done|lia].
  - eexists _, k. split; [reflexivity|]. split; [lia|]. split; [lia|]. intros F. specialize (Hp F). specialize (Hp0 F).
    destruct (Z.ltb_spec n 0); [lia|]. split; [done|]. unfold all, kBufferSize in *. lia.
Qed.

(** Reading gives a prefix of the file, whatever the kernel does, and exactly
    its first [maxSize] bytes when nothing fails. *)
Lemma read_to_string_spec file m_err st want_size rs errno maxSize content :
  0 <= maxSize < 2 ^ 31 ->
  exists e m, read_to_string (Some file) m_err st want_size rs errno maxSize content = Ok (e, slice file 0 m) /\ 0 <= m <= Z.min (len file) maxSize /\
    (all_positive rs -> m = Z.min (len file) maxSize).
Proof.
  intros Hm. unfold read_to_string. rewrite uw_small by (unfold in_uw; change (2 ^ 31) with 2147483648 in Hm; change (2 ^ 64) with 18446744073709551616; lia).
  set (err := if want_size then _ else _). pose proof (len_nonneg file).
  destruct (read_loop_spec (S (length file)) rs errno file maxSize 0 err) as (e & m & E & H1 & H2 & Hall); [lia|lia|unfold len; lia|].
  exists e, m. rewrite slice_empty in E by lia. split; [exact E|]. split; [lia|]. intros F. destruct (Hall F) as [_ ->]. lia.
Qed.

(** * LogFile: nothing is lost *)

Section log.
Context (gmtime_r : Z -> civil_time) (hostname : bytes) (pid : Z).

(** The years that the names can show in four digits. *)
Definition time_ok (t : Z) : Prop := 0 < t < 2 ^ 37.
(** The fields of a broken-down time are in their ranges and determine it. *)
Record gmtime_ok : Prop := {
  gm_range t : time_ok t -> let c := gmtime_r t in
    1970 <= c_year c <= 9999 /\ 1 <= c_month c <= 12 /\ 1 <= c_day c <= 31 /\ 0 <= c_hour c <= 23 /\ 0 <= c_minute c <= 59 /\ 0 <= c_second c <= 60;
  gm_inj s t : time_ok s -> time_ok t -> gmtime_r s = gmtime_r t -> s = t
}.

Lemma dec_0_width w n : 0 < w -> 0 <= n < 10 ^ w -> len (dec_0 w n) = w.
Proof.
  intros Hw Hn. unfold dec_0. destruct (Z.ltb_spec n 0); [lia|]. apply len_pad. by apply len_dec_abs.
Qed.

(** A field of fixed width splits off in one way. *)
Lemma field_inj w a b x y : 0 < w -> 0 <= a < 10 ^ w -> 0 <= b < 10 ^ w -> dec_0 w a ++ x = dec_0 w b ++ y -> a = b /\ x = y.
Proof.
  intros Hw Ha Hb E. apply app_inj_1 in E as [E ->].
  - split; [|done]. by rewrite <- (dec_0_value w a), E, dec_0_value by lia.
  - apply Nat2Z.inj. change (len (dec_0 w a) = len (dec_0 w b)). by rewrite !dec_0_width.
Qed.

Lemma file_name_inj base s t : gmtime_ok -> time_ok s -> time_ok t ->
  get_log_file_name gmtime_r hostname pid base s = get_log_file_name gmtime_r hostname pid base t -> s = t.
Proof.
  intros G Hs Ht E. unfold get_log_file_name in E. cbv zeta in E. apply app_inv_head in E. rewrite <- !app_assoc in E. apply app_inv_head in E.
  destruct (gm_range G s Hs) as (Y1 & M1 & D1 & H1 & N1 & S1). destruct (gm_range G t Ht) as (Y2 & M2 & D2 & H2 & N2 & S2).
  apply (gm_inj G s t Hs Ht). change (10 ^ 4) with 10000 in *.
  apply field_inj in E as [EY E]; [|lia|change (10 ^ 4) with 10000; lia..].
  apply field_inj in E as [EM E]; [|lia|change (10 ^ 2) with 100; lia..].
  apply field_inj in E as [ED E]; [|lia|change (10 ^ 2) with 100; lia..]. apply app_inv_head in E.
  apply field_inj in E as [EH E]; [|lia|change (10 ^ 2) with 100; lia..].
  apply field_inj in E as [EN E]; [|lia|change (10 ^ 2) with 100; lia..].
  apply field_inj in E as [ES E]; [|lia|change (10 ^ 2) with 100; lia..].
  destruct (gmtime_r s), (gmtime_r t). simpl in *. by subst.
Qed.

Abbreviation file_name := (get_log_file_name gmtime_r hostname pid).

(** The files hold the lines, whole and in order; they have the names of
    increasing times; and the closed ones are flushed. *)
Record log_inv (base : bytes) (lines : list bytes) (l : LogFile) (f : AppendFile) : Prop := {
  li_base : m_basename l = base;
  li_file : m_file l = Some f;
  li_text : exists groups g, af_stream <$> lf_closed l = @concat byte <$> groups /\ af_stream f = concat g /\ concat groups ++ g = lines;
  li_names : exists times, af_name <$> (lf_closed l ++ [f]) = file_name base <$> (times ++ [m_last_roll l]) /\
    NoDup times /\ Forall (fun t => t < m_last_roll l) times /\ Forall time_ok (times ++ [m_last_roll l]);
  li_written : m_written_bytes f = len (af_stream f);
  li_flushed : Forall (fun f => af_flushed f = len (af_stream f)) (lf_closed l)
}.

Definition holds_lines (base : bytes) (lines : list bytes) (l : LogFile) : Prop := exists f, log_inv base lines l f.

(** Counters and dates do not matter. *)
Lemma log_inv_same base lines l l' f f' : log_inv base lines l f -> m_basename l' = m_basename l -> m_file l' = Some f' -> lf_closed l' = lf_closed l ->
  m_last_roll l' = m_last_roll l -> af_stream f' = af_stream f -> af_name f' = af_name f -> m_written_bytes f' = m_written_bytes f ->
  log_inv base lines l' f'.
Proof.
  intros [] Eb Ef Ec El Es En Ew. constructor; [congruence|done|by rewrite Ec, Es| |congruence|by rewrite Ec].
  destruct li_names0 as (times & Et & N). exists times. by rewrite Ec, El, fmap_app, fmap_cons, En, <- fmap_cons, <- fmap_app.
Qed.

Lemma roll_spec base lines now l f : log_inv base lines l f -> time_ok now ->
  exists b l' f', roll_file gmtime_r hostname pid now true l = Ok (b, l') /\ log_inv base lines l' f' /\
    (m_last_roll l < now -> m_written_bytes f' = 0) /\ (now <= m_last_roll l -> l' = l).
Proof.
  intros I Hn. unfold roll_file. destruct (Z.ltb_spec (m_last_roll l) now) as [Hlt|Hge]; [|exists false, l, f; split_and!; [done|done|lia|done]].
  simpl. eexists _, _, (mkAppendFile (file_name (m_basename l) now) [] 0 0). split; [reflexivity|]. split; [|split; [done|lia]]. destruct I. rewrite li_file0.
  destruct li_text0 as (groups & g & E1 & E2 & E3). destruct li_names0 as (times & Et & ND & Hlast & Ht).
  constructor; simpl; [done|done| | |done|].
  - exists (groups ++ [g]), []. rewrite !fmap_app, E1. simpl. rewrite E2. split; [done|]. split; [done|].
    rewrite concat_app. simpl. by rewrite !app_nil_r.
  - exists (times ++ [m_last_roll l]). rewrite <- li_base0 in *. split_and!.
    + rewrite !fmap_app in *. simpl in *. by rewrite Et.
    + apply NoDup_app. split; [done|]. split; [|apply NoDup_singleton]. intros t Hin ->%list_elem_of_singleton.
      rewrite Forall_forall in Hlast. specialize (Hlast _ Hin). lia.
    + apply Forall_app. split; [|by constructor]. eapply Forall_impl; [exact Hlast|]. simpl. lia.
    + apply Forall_app. split; [done|by constructor].
  - apply Forall_app. split; [done|]. by constructor.
Qed.

(** One more line. *)
Lemma set_file_inv base lines ws d l f : log_inv base lines l f -> all_positive ws -> len (concat (lines ++ [d])) < 2 ^ 63 ->
  exists f', append ws d f = Ok f' /\ log_inv base (lines ++ [d]) (set_file f' l) f'.
Proof.
  intros [] Hp Hl. destruct li_text0 as (groups & g & E1 & E2 & E3).
  destruct (file_append_spec ws d f) as (f' & m & E & Hm & Es & En & Ew & Hall).
  { rewrite li_written0, E2. rewrite <- E3, !concat_app, !len_app in Hl. simpl concat in Hl. rewrite app_nil_r in Hl. pose proof (len_nonneg (concat (concat groups))). lia. }
  rewrite (Hall Hp), slice_all in Es. exists f'. split; [done|]. constructor; simpl; [done|done| | | |done].
  - exists groups, (g ++ [d]). rewrite Es, E2. split; [done|]. rewrite concat_app. simpl. rewrite app_nil_r. split; [done|].
    by rewrite app_assoc, E3.
  - destruct li_names0 as (times & Et & N). exists times. rewrite fmap_app in *. simpl in *. by rewrite En.
  - rewrite Ew, Es, len_app, li_written0. done.
Qed.

Lemma log_append_spec base lines ws now now2 d l f :
  log_inv base lines l f -> all_positive ws -> time_ok now2 -> len (concat (lines ++ [d])) < 2 ^ 63 ->
  exists l' f', log_append gmtime_r hostname pid ws now now2 true d l = Ok l' /\ log_inv base (lines ++ [d]) l' f' /\
    (m_last_roll l < now2 -> m_written_bytes f' <= Z.max 0 (m_rollsize l)).
Proof.
  intros I Hp Ht Hl. destruct (set_file_inv base lines ws d l f I Hp Hl) as (f1 & E & I1). unfold log_append, append_unlocked.
  rewrite (li_file _ _ _ _ I). simpl of_option. rewrite bind_ok, E, bind_ok. cbv zeta.
  assert (forall l1, log_inv base (lines ++ [d]) l1 f1 -> m_last_roll l1 = m_last_roll l ->
    exists l' f', ('(_, l2) ← roll_file gmtime_r hostname pid now2 true l1; Ok l2) = Ok l' /\ log_inv base (lines ++ [d]) l' f' /\
      (m_last_roll l < now2 -> m_written_bytes f' <= Z.max 0 (m_rollsize l))) as Roll.
  { intros l1 Il El. destruct (roll_spec base (lines ++ [d]) now2 l1 f1 Il Ht) as (b & l' & f' & R & I' & H1 & _).
    exists l', f'. rewrite R, bind_ok. split_and!; [done|done|]. rewrite El in H1. intros Hlt. rewrite H1 by done. lia. }
  change (m_rollsize (set_file f1 l)) with (m_rollsize l). destruct (Z.ltb_spec (m_rollsize l) (m_written_bytes f1)) as [Hbig|Hsmall]; [by apply Roll|].
  destruct (m_check_every_n_appends _ <=? _).
  - destruct (negb _); [apply Roll; [by eapply log_inv_same|done]|]. destruct (_ <? _).
    + eexists _, (file_flush f1). split; [reflexivity|]. split; [by eapply log_inv_same|]. simpl. lia.
    + eexists _, f1. split; [reflexivity|]. split; [by eapply log_inv_same|]. lia.
  - eexists _, f1. split; [reflexivity|]. split; [by eapply log_inv_same|]. lia.
Qed.

(** The lines that operations append. *)
Definition op_lines (o : log_op) : list bytes := match o with LAppend _ _ _ d => [d] | _ => [] end.
(** fwrite(3) does not fail, and the clock is in range. *)
Definition op_ok (o : log_op) : Prop :=
  match o with LAppend now now2 ws _ => time_ok now2 /\ all_positive ws | LFlush => True | LRoll now => time_ok now end.

Lemma log_step_spec base lines o l f : log_inv base lines l f -> op_ok o -> len (concat (lines ++ op_lines o)) < 2 ^ 63 ->
  exists l' f', log_step gmtime_r hostname pid o l = Ok l' /\ log_inv base (lines ++ op_lines o) l' f'.
Proof.
  intros I Ho Hl. destruct o as [now now2 ws d| |now]; simpl in *; rewrite ?app_nil_r in *.
  - destruct Ho as [Ht Hp]. destruct (log_append_spec base lines ws now now2 d l f I Hp Ht Hl) as (l' & f' & E & I' & _). by exists l', f'.
  - unfold log_flush. rewrite (li_file _ _ _ _ I). simpl. eexists _, _. split; [reflexivity|]. by eapply log_inv_same.
  - destruct (roll_spec base lines now l f I Ho) as (b & l' & f' & R & I' & _). rewrite R, bind_ok. by exists l', f'.
Qed.

Lemma log_run_spec base os : forall lines l f, log_inv base lines l f -> Forall op_ok os -> len (concat (lines ++ concat (op_lines <$> os))) < 2 ^ 63 ->
  exists l' f', log_run gmtime_r hostname pid os l = Ok l' /\ log_inv base (lines ++ concat (op_lines <$> os)) l' f'.
Proof.
  induction os as [|o os IH]; intros lines l f I F Hl; [simpl; rewrite app_nil_r; by exists l, f|].
  inversion F; subst. cbn [fmap list_fmap concat log_run] in *.
  destruct (log_step_spec base lines o l f I) as (l1 & f1 & E & I1); [done| |].
  { rewrite app_assoc, concat_app, len_app in Hl. pose proof (len_nonneg (concat (concat (op_lines <$> os)))). lia. }
  rewrite E, bind_ok. rewrite app_assoc in *. by apply (IH _ l1 f1).
Qed.

Lemma roll_rollsize now opened l b l' : roll_file gmtime_r hostname pid now opened l = Ok (b, l') -> m_rollsize l' = m_rollsize l.
Proof.
  unfold roll_file. destruct (_ <? _); [|by intros [= _ <-]]. intros E. apply bind_ok_inv in E as (f & _ & E). by injection E as _ <-.
Qed.

Lemma step_rollsize o l l' : log_step gmtime_r hostname pid o l = Ok l' -> m_rollsize l' = m_rollsize l.
Proof.
  destruct o as [now now2 ws d| |now]; simpl.
  - unfold log_append, append_unlocked. intros E. apply bind_ok_inv in E as (f & _ & E). apply bind_ok_inv in E as (f1 & _ & E). cbv zeta in E.
    destruct (_ <? m_written_bytes f1); [apply bind_ok_inv in E as ([b l1] & R & E); injection E as <-; by apply roll_rollsize in R|].
    destruct (_ <=? _); [|by injection E as <-]. destruct (negb _); [apply bind_ok_inv in E as ([b l1] & R & E); injection E as <-; by apply roll_rollsize in R|].
    destruct (_ <? _); by injection E as <-.
  - unfold log_flush. intros E. apply bind_ok_inv in E as (f & _ & E). by injection E as <-.
  - intros E. apply bind_ok_inv in E as ([b l1] & R & E). injection E as <-. by apply roll_rollsize in R.
Qed.

Lemma run_rollsize os : forall l l', log_run gmtime_r hostname pid os l = Ok l' -> m_rollsize l' = m_rollsize l.
Proof.
  induction os as [|o os IH]; intros l l' E; [by injection E as <-|]. cbn [log_run] in E. apply bind_ok_inv in E as (l1 & E1 & E).
  rewrite (IH _ _ E). by eapply step_rollsize.
Qed.

(** A new log is empty. *)
Lemma new_log_inv base rollSize flushInterval checkEveryN t0 :
  "/"%char ∉ base -> time_ok t0 ->
  exists l f, new_LogFile gmtime_r hostname pid base rollSize flushInterval checkEveryN t0 true = Ok l /\ log_inv base [] l f /\
    m_rollsize l = rollSize /\ af_flushed f = len (af_stream f).
Proof.
  intros Hb Ht. unfold new_LogFile. rewrite assert_true by (by apply bool_decide_eq_true). rewrite bind_ok. unfold roll_file at 1.
  rewrite (proj2 (Z.ltb_lt _ _)) by (simpl; apply Ht). unfold new_AppendFile, assert_. rewrite !bind_ok.
  eexists _, (mkAppendFile _ [] 0 0). split; [done|]. split; [|done].
  constructor; simpl; [done|done|by exists [], []| |done|constructor]. exists []. split; [done|]. split; [constructor|]. split; [constructor|by constructor].
Qed.

(** The bytes of all files. *)
Definition on_disk (l : LogFile) : bytes := concat (af_stream <$> (lf_closed l ++ match m_file l with Some f => [f] | None => [] end)).

Lemma log_inv_on_disk base lines l f : log_inv base lines l f -> on_disk l = concat lines.
Proof.
  intros I. unfold on_disk. rewrite (li_file _ _ _ _ I). destruct (li_text _ _ _ _ I) as (groups & g & E1 & E2 & <-).
  rewrite fmap_app, E1. simpl. rewrite E2, !concat_app. simpl. rewrite app_nil_r. f_equal.
  clear. induction groups as [|x groups IH]; [done|]. simpl. by rewrite concat_app, <- IH.
Qed.

(** After a flush nothing is left in the stdio buffers. *)
Lemma log_run_app os os' l : log_run gmtime_r hostname pid (os ++ os') l = (l ← log_run gmtime_r hostname pid os l; log_run gmtime_r hostname pid os' l).
Proof. revert l. induction os as [|o os IH]; intros l; [done|]. cbn [app log_run]. destruct (log_step _ _ _ o l); [apply IH|done]. Qed.

Lemma log_run_flushed os l l' :
  log_run gmtime_r hostname pid (os ++ [LFlush]) l = Ok l' -> exists f, m_file l' = Some f /\ af_flushed f = len (af_stream f).
Proof.
  rewrite log_run_app. destruct (log_run _ _ _ os l) as [l1|]; [|done]. simpl. unfold log_flush.
  destruct (m_file l1) as [f|]; [|done]. simpl. intros [= <-]. by eexists.
Qed.

(** C21: a rolling log loses nothing.  As long as fopen(3) succeeds and fwrite(3)
    makes progress, any sequence of appends, flushes and rolls returns, and the files together
    hold exactly the appended lines, in order and no line split between two
    files; no two files have the same name, so that none is overwritten; the
    files before the current one are flushed; and a line that is appended
    after the second in which the current file was opened leaves a file that
    is not above the roll size. *)
Theorem log_file_complete base rollSize flushInterval checkEveryN t0 os :
  gmtime_ok -> "/"%char ∉ base -> time_ok t0 -> Forall op_ok os -> len (concat (concat (op_lines <$> os))) < 2 ^ 63 ->
  exists l0 l f, new_LogFile gmtime_r hostname pid base rollSize flushInterval checkEveryN t0 true = Ok l0 /\
    log_run gmtime_r hostname pid os l0 = Ok l /\ m_file l = Some f /\
    (exists groups, af_stream <$> (lf_closed l ++ [f]) = @concat byte <$> groups /\ concat groups = concat (op_lines <$> os)) /\
    NoDup (af_name <$> (lf_closed l ++ [f])) /\
    Forall (fun f => af_flushed f = len (af_stream f)) (lf_closed l) /\
    (forall now now2 ws d, time_ok now2 -> m_last_roll l < now2 -> all_positive ws -> len (concat (concat (op_lines <$> os) ++ [d])) < 2 ^ 63 ->
      exists l' f', log_step gmtime_r hostname pid (LAppend now now2 ws d) l = Ok l' /\ m_file l' = Some f' /\
        m_written_bytes f' <= Z.max 0 rollSize).
Proof.
  intros G Hb Ht F Hl. destruct (new_log_inv base rollSize flushInterval checkEveryN t0 Hb Ht) as (l0 & f0 & E0 & I0 & Hr0 & _).
  destruct (log_run_spec base os [] l0 f0 I0 F Hl) as (l & f & R & I). exists l0, l, f.
  pose proof (run_rollsize _ _ _ R) as Er. rewrite Hr0 in Er. simpl in I. split_and!; [done|done|apply I| | |apply I|].
  - destruct (li_text _ _ _ _ I) as (groups & g & E1 & E2 & E3). exists (groups ++ [g]). rewrite !fmap_app, E1. simpl. rewrite E2.
    split; [done|]. rewrite concat_app. simpl. by rewrite app_nil_r.
  - destruct (li_names _ _ _ _ I) as (times & Et & ND & Hlast & Hok). rewrite Et. apply NoDup_fmap_2_strong.
    + intros s t Hs Hin. rewrite Forall_forall in Hok. by apply file_name_inj; auto.
    + apply NoDup_app. split; [done|]. split; [|apply NoDup_singleton]. intros t Hin ->%list_elem_of_singleton.
      rewrite Forall_forall in Hlast. specialize (Hlast _ Hin). lia.
  - intros now now2 ws d Ht2 Hlt Hp Hl2. destruct (log_append_spec base _ ws now now2 d l f I Hp Ht2 Hl2) as (l' & f' & E & I' & Hs).
    exists l', f'. split; [exact E|]. split; [apply I'|]. rewrite Er in Hs. by apply Hs.
Qed.
End log.

(** * Runs *)

(** A calendar of twelve months of 28 days. *)
Definition demo_gmtime (t : Z) : civil_time :=
  mk_civil (1970 + t / 86400 / 28 / 12) (1 + t / 86400 / 28 mod 12) (1 + t / 86400 mod 28) (t / 3600 mod 24) (t / 60 mod 60) (t mod 60).

Lemma demo_gmtime_ok : gmtime_ok demo_gmtime.
Proof.
  split.
  - intros t [Ht1 Ht2]. change (2 ^ 37) with 137438953472 in Ht2. unfold demo_gmtime. cbn [c_year c_month c_day c_hour c_minute c_second].
    pose proof (Z.mod_pos_bound (t / 86400 / 28) 12 ltac:(lia)). pose proof (Z.mod_pos_bound (t / 86400) 28 ltac:(lia)).
    pose proof (Z.mod_pos_bound (t / 3600) 24 ltac:(lia)). pose proof (Z.mod_pos_bound (t / 60) 60 ltac:(lia)).
    pose proof (Z.mod_pos_bound t 60 ltac:(lia)). split; [|lia]. rewrite !Z.div_div by lia.
    pose proof (Z.div_le_mono t 137438953472 (86400 * (28 * 12)) ltac:(lia) ltac:(lia)) as Hy.
    change (137438953472 / (86400 * (28 * 12))) with 4734 in Hy. pose proof (Z.div_pos t (86400 * (28 * 12)) ltac:(lia) ltac:(lia)) as Hz. lia.
  - intros s t _ _ [= EY EM ED EH EN ES].
    assert (forall a b n, 0 < n -> a / n = b / n -> a mod n = b mod n -> a = b) as DM.
    { intros a b n Hn E1 E2. rewrite (Z.div_mod a n), (Z.div_mod b n) by lia. by rewrite E1, E2. }
    assert (s / 86400 = t / 86400) as E1 by (apply (DM _ _ 28); [lia| |lia]; apply (DM _ _ 12); lia).
    assert (s / 3600 = t / 3600) as E2.
    { apply (DM _ _ 24); [lia| |done]. rewrite !Z.div_div by lia. exact E1. }
    assert (s / 60 = t / 60) as E3.
    { apply (DM _ _ 60); [lia| |done]. rewrite !Z.div_div by lia. exact E2. }
    by apply (DM _ _ 60).
Qed.

(** The second line is over the roll size, in the second the file was opened;
    the third rolls. *)
Definition demo_log : list log_op :=
  [LAppend 1000 1000 [2] (lit "first line"); LAppend 1000 1000 [] (lit "second line"); LAppend 1003 1003 [1; 1] (lit "third line"); LFlush].

Lemma log_file_complete_witness :
  exists l0 l f, new_LogFile demo_gmtime (lit "host") 42 (lit "app") 16 3 1024 1000 true = Ok l0 /\
    log_run demo_gmtime (lit "host") 42 demo_log l0 = Ok l /\ m_file l = Some f /\
    af_stream <$> lf_closed l = [lit "first linesecond linethird line"] /\ af_stream f = [] /\
    NoDup (af_name <$> (lf_closed l ++ [f])) /\ af_name f = lit "app.19700101-001643.host.42.log".
Proof.
  destruct (log_file_complete demo_gmtime (lit "host") 42 (lit "app") 16 3 1024 1000 demo_log) as (l0 & l & f & E0 & R & Hf & _ & N & _ & _).
  - apply demo_gmtime_ok.
  - by apply (bool_decide_unpack _); vm_compute.
  - by split.
  - repeat constructor.
  - by vm_compute.
  - vm_compute in E0. injection E0 as <-. vm_compute in R. injection R as <-. vm_compute in Hf. injection Hf as <-.
    eexists _, _, _. split; [by vm_compute|]. split; [by vm_compute|]. split; [done|]. split; [by vm_compute|]. split; [done|]. split; [exact N|by vm_compute].
Defined.

(** A full disk: the line is lost, and counted as written. *)
Example failed_write_counted :
  append [0; 0] (lit "line") (mkAppendFile (lit "app.log") [] 0 0) = Ok (mkAppendFile (lit "app.log") [] 0 4).
Proof. by vm_compute. Qed.
