(* ===== verification/Mutex.v ===== *)
(** [flute/common/Mutex.h] and [flute/common/Condition.{h,cc}]: the lock with
    the record of its holder, and the condition variables on it.

    The world is the pthread mutex, [m_holder_pid] and where every thread is in
    the calls of the two classes.  A step is one call of the pthread library or
    one assignment of [m_holder_pid], so that all interleavings of the threads
    are there; a step that has to wait, or that the thread is not at, is not
    enabled. *)

From S2P Require Import Prelude.

Abbreviation tid := Z.

(** Where a thread is. *)
Inductive mpc : Type :=
| MOut                  (* outside *)
| MLocked               (* in lock(): has the mutex, m_holder_pid not yet assigned *)
| MIn                   (* between lock() and unlock() *)
| MUnlocking            (* in unlock(): m_holder_pid cleared, has the mutex *)
| MWaiting (c : nat)    (* in Condition::wait(): m_holder_pid cleared, has the mutex *)
| MAsleep (c : nat)     (* in pthread_cond_wait of condition c *)
| MWoken                (* woken in pthread_cond_wait, wants the mutex *)
| MReclaim.             (* out of pthread_cond_wait: has the mutex, m_holder_pid not yet assigned *)

#[global] Instance mpc_eq_dec : EqDecision mpc.
Proof. solve_decision. Defined.

Record MutexLock : Type := mkMutexLock {
  m_pthread_owner : option tid;      (* who has m_pthread_mutex *)
  m_holder_pid : tid;                (* 0 for none *)
  mx_pc : gmap tid mpc               (* a thread that is not there is outside *)
}.

Definition new_MutexLock : MutexLock := mkMutexLock None 0 ∅.

Definition pc_of (t : tid) (m : MutexLock) : mpc := default MOut (mx_pc m !! t).
Definition at_pc (t : tid) (p : mpc) (m : MutexLock) : MutexLock := mkMutexLock (m_pthread_owner m) (m_holder_pid m) (<[t := p]> (mx_pc m)).

Definition unassign_holder_process (m : MutexLock) : MutexLock := mkMutexLock (m_pthread_owner m) 0 (mx_pc m).
Definition assign_holder_process (t : tid) (m : MutexLock) : MutexLock := mkMutexLock (m_pthread_owner m) t (mx_pc m).
Definition set_owner (o : option tid) (m : MutexLock) : MutexLock := mkMutexLock o (m_holder_pid m) (mx_pc m).

Definition is_locked_by_this_thread (t : tid) (m : MutexLock) : bool := m_holder_pid m =? t.
Definition assert_locked_by_this_thread (t : tid) (m : MutexLock) : outcome unit := assert_ (is_locked_by_this_thread t m).

(** The destructor: pthread_mutex_destroy(3) fails on a locked mutex. *)
Definition destroy_MutexLock (m : MutexLock) : outcome unit :=
  assert_ (m_holder_pid m =? 0);; assert_ (bool_decide (m_pthread_owner m = None)).

(** ** Steps of a thread *)

Inductive mcall : Type :=
| MLock              (* lock(): pthread_mutex_lock *)
| MUnlock            (* unlock(): unassign_holder_process *)
| MWait (c : nat)    (* Condition::wait(): UnassignHolderProcess *)
| MGo.               (* the rest of the call it is in *)

(** [Condition::wait] after the clearing of [m_holder_pid]: pthread_cond_wait
    releases the mutex and sleeps, takes it again when it is woken, and the
    destructor of the guard records the holder. *)
Definition wait_step (t : tid) (m : MutexLock) : option MutexLock :=
  match pc_of t m with
  | MWaiting c => Some (at_pc t (MAsleep c) (set_owner None m))
  | MWoken => if m_pthread_owner m is None then Some (at_pc t MReclaim (set_owner (Some t) m)) else None
  | MReclaim => Some (at_pc t MIn (assign_holder_process t m))
  | _ => None
  end.

(** [None]: not enabled. *)
Definition mutex_step (t : tid) (a : mcall) (m : MutexLock) : option MutexLock :=
  match a, pc_of t m with
  | MLock, MOut => if m_pthread_owner m is None then Some (at_pc t MLocked (set_owner (Some t) m)) else None
  | MGo, MLocked => Some (at_pc t MIn (assign_holder_process t m))
  | MUnlock, MIn => Some (at_pc t MUnlocking (unassign_holder_process m))
  | MGo, MUnlocking => Some (at_pc t MOut (set_owner None m))
  | MWait c, MIn => Some (at_pc t (MWaiting c) (unassign_holder_process m))
  | MGo, _ => wait_step t m
  | _, _ => None
  end.

(** [Condition::notify] wakes the sleeper [t] of the condition (none, if nobody
    sleeps), and [notify_all] all of them; a sleeper may also wake by itself. *)
Definition wake (t : tid) (m : MutexLock) : option MutexLock :=
  match pc_of t m with MAsleep _ => Some (at_pc t MWoken m) | _ => None end.
Definition notify_all (c : nat) (m : MutexLock) : MutexLock :=
  mkMutexLock (m_pthread_owner m) (m_holder_pid m) ((fun p => if decide (p = MAsleep c) then MWoken else p) <$> mx_pc m).

(** The deadline of [Condition::wait_for_seconds], [nanoseconds] after the time
    [tv_sec, tv_nsec]; a wait that times out is a sleeper that wakes by itself. *)
Definition kNanoSecondsPerSecond : Z := 1000000000.
Definition wait_deadline (nanoseconds tv_sec tv_nsec : Z) : Z * Z :=
  (tv_sec + Z.quot (tv_nsec + nanoseconds) kNanoSecondsPerSecond, Z.rem (tv_nsec + nanoseconds) kNanoSecondsPerSecond).

Inductive mutex_next : MutexLock -> MutexLock -> Prop :=
| mn_step t a m m' : t <> 0 -> mutex_step t a m = Some m' -> mutex_next m m'
| mn_wake t m m' : wake t m = Some m' -> mutex_next m m'
| mn_notify_all c m : mutex_next m (notify_all c m).

(** The deadline is a normal time, and as far away as was asked for. *)
Lemma wait_deadline_exact ns s n :
  0 <= ns -> 0 <= n < kNanoSecondsPerSecond ->
  let '(s', n') := wait_deadline ns s n in
  0 <= n' < kNanoSecondsPerSecond /\ s' * kNanoSecondsPerSecond + n' = s * kNanoSecondsPerSecond + n + ns.
Proof.
  unfold wait_deadline, kNanoSecondsPerSecond. intros Hns Hn. pose proof (Z.quot_rem (n + ns) 1000000000 ltac:(lia)).
  pose proof (Z.rem_bound_pos (n + ns) 1000000000 ltac:(lia) ltac:(lia)). lia.
Qed.

(** * The invariant *)

Definition has_mutex (p : mpc) : bool :=
  match p with MLocked | MIn | MUnlocking | MWaiting _ | MReclaim => true | MOut | MAsleep _ | MWoken => false end.

Record mutex_inv (m : MutexLock) : Prop := {
  mu_owner t : has_mutex (pc_of t m) = true <-> m_pthread_owner m = Some t;
  mu_holder : m_holder_pid m = match m_pthread_owner m with Some t => if decide (pc_of t m = MIn) then t else 0 | None => 0 end;
  mu_zero : pc_of 0 m = MOut
}.

Lemma pc_at t t' p m : pc_of t (at_pc t' p m) = if decide (t = t') then p else pc_of t m.
Proof. unfold pc_of, at_pc. simpl. case_decide as E; [subst; by rewrite lookup_insert_eq|by rewrite lookup_insert_ne]. Qed.

Lemma pc_set_owner t o m : pc_of t (set_owner o m) = pc_of t m.
Proof. done. Qed.

(** The thread [t] moves; it has the mutex before or the mutex is free. *)
Lemma mutex_move t p o h m : t <> 0 -> mutex_inv m ->
  (m_pthread_owner m = None \/ m_pthread_owner m = Some t) ->
  o = (if has_mutex p then Some t else None) -> h = (if decide (p = MIn) then t else 0) ->
  mutex_inv (mkMutexLock o h (<[t := p]> (mx_pc m))).
Proof.
  intros H0 I Hown -> ->. assert (forall t', pc_of t' (mkMutexLock (if has_mutex p then Some t else None) (if decide (p = MIn) then t else 0) (<[t := p]> (mx_pc m))) =
    if decide (t' = t) then p else pc_of t' m) as Pc.
  { intros t'. rewrite <- (pc_at t' t p m). done. }
  constructor.
  - intros t'. rewrite Pc. simpl. destruct (decide (t' = t)) as [->|E]; [destruct (has_mutex p); naive_solver|].
    rewrite (mu_owner _ I t'). destruct (has_mutex p); split; intros Q; destruct Hown; congruence.
  - simpl. destruct (has_mutex p) eqn:Hp; [rewrite Pc; by destruct (decide (t = t))|]. by destruct p.
  - rewrite Pc. destruct (decide (0 = t)); [congruence|apply I].
Qed.

(** A thread without the mutex moves and stays without it. *)
Lemma mutex_aside t p m : mutex_inv m -> has_mutex (pc_of t m) = false -> has_mutex p = false -> (t = 0 -> p = MOut) -> mutex_inv (at_pc t p m).
Proof.
  intros I Ht Hp H0. constructor.
  - intros t'. rewrite pc_at. simpl. rewrite <- (mu_owner _ I t'). destruct (decide (t' = t)) as [->|]; [by rewrite Ht, Hp|done].
  - simpl. rewrite (mu_holder _ I). destruct (m_pthread_owner m) as [u|] eqn:Eo; [|done]. rewrite pc_at.
    destruct (decide (u = t)) as [->|]; [|done]. pose proof (proj2 (mu_owner _ I t) Eo). congruence.
  - rewrite pc_at. case_decide; [by apply H0|apply I].
Qed.

Lemma mutex_step_inv t a m m' : t <> 0 -> mutex_step t a m = Some m' -> mutex_inv m -> mutex_inv m'.
Proof.
  intros H0 E I. unfold mutex_step, wait_step in E. pose proof (mu_owner _ I t) as Ho. pose proof (mu_holder _ I) as Hh.
  destruct a as [| |c|], (pc_of t m) as [| | | |c'|c'| |] eqn:Ep; try done; simpl in Ho;
    try (destruct (m_pthread_owner m) as [u|] eqn:Eo; [done|]); injection E as <-;
    try (assert (m_pthread_owner m = Some t) as Eo by (by apply Ho); rewrite Eo, Ep in Hh; simpl in Hh);
    (apply (mutex_move t _ _ _ m); [done|done| | |]); simpl; auto.
Qed.

Lemma notify_all_inv c m : mutex_inv m -> mutex_inv (notify_all c m).
Proof.
  intros I. assert (forall t, pc_of t (notify_all c m) = if decide (pc_of t m = MAsleep c) then MWoken else pc_of t m) as Pc.
  { intros t. unfold pc_of, notify_all. simpl. rewrite lookup_fmap. by destruct (mx_pc m !! t). }
  constructor.
  - intros t. rewrite Pc. simpl. rewrite <- (mu_owner _ I t). case_decide as E; [by rewrite E|done].
  - simpl. rewrite (mu_holder _ I). destruct (m_pthread_owner m) as [u|] eqn:Eo; [|done]. rewrite Pc.
    destruct (decide (pc_of u m = MAsleep c)) as [E|E]; [by rewrite E|done].
  - rewrite Pc, (mu_zero _ I). done.
Qed.

Lemma mutex_next_inv m m' : mutex_next m m' -> mutex_inv m -> mutex_inv m'.
Proof.
  intros [t a m1 m2 H0 E|t m1 m2 E|c m1] I; [by eapply mutex_step_inv| |by apply notify_all_inv].
  unfold wake in E. destruct (pc_of t m1) eqn:Ep; try done. injection E as <-. apply mutex_aside; [done|by rewrite Ep|done|].
  intros ->. by rewrite (mu_zero _ I) in Ep.
Qed.

Lemma new_mutex_inv : mutex_inv new_MutexLock.
Proof. constructor; [|done|done]. intros t. unfold pc_of. simpl. by rewrite lookup_empty. Qed.

Lemma mutex_reachable m : rtc mutex_next new_MutexLock m -> mutex_inv m.
Proof.
  intros R. assert (forall a b, rtc mutex_next a b -> mutex_inv a -> mutex_inv b) as S by (induction 1; eauto using mutex_next_inv).
  eapply S; [exact R|apply new_mutex_inv].
Qed.

(** C24: mutual exclusion, and the record of the holder is right.  In every
    interleaving of the threads, through waits, signals and spurious wake-ups:
    at most one thread is between [lock] and [unlock], waits excepted;
    [assert_locked_by_this_thread] holds in exactly that thread; and when every
    thread is outside, the lock can be destroyed. *)
Theorem mutex_holder m :
  rtc mutex_next new_MutexLock m ->
  (forall t u, pc_of t m = MIn -> pc_of u m = MIn -> t = u) /\
  (forall t, t <> 0 -> is_locked_by_this_thread t m = true <-> pc_of t m = MIn) /\
  ((forall t, pc_of t m = MOut) -> destroy_MutexLock m = Ok tt).
Proof.
  intros R. pose proof (mutex_reachable m R) as I. split_and!.
  - intros t u Ht Hu. pose proof (proj1 (mu_owner _ I t) ltac:(by rewrite Ht)). pose proof (proj1 (mu_owner _ I u) ltac:(by rewrite Hu)). congruence.
  - intros t H0. unfold is_locked_by_this_thread. rewrite Z.eqb_eq, (mu_holder _ I). split.
    + destruct (m_pthread_owner m) as [u|]; [|congruence]. case_decide; congruence.
    + intros Ht. pose proof (proj1 (mu_owner _ I t) ltac:(by rewrite Ht)) as ->. by rewrite decide_True.
  - intros Hall. assert (m_pthread_owner m = None) as E.
    { destruct (m_pthread_owner m) as [u|] eqn:Eo; [|done]. pose proof (proj2 (mu_owner _ I u) Eo) as Q. by rewrite Hall in Q. }
    unfold destroy_MutexLock. by rewrite (mu_holder _ I), E.
Qed.

(** * Runs *)

(** A run of [t]'s steps. *)
Fixpoint mutex_run (l : list (tid * mcall)) (m : MutexLock) : option MutexLock :=
  match l with [] => Some m | (t, a) :: l => match mutex_step t a m with Some m' => mutex_run l m' | None => None end end.

Lemma mutex_run_reach l : forall m m', Forall (fun x => x.1 <> 0) l -> mutex_run l m = Some m' -> rtc mutex_next m m'.
Proof.
  induction l as [|[t a] l IH]; intros m m' F E; [by injection E as <-|]. inversion F; subst. cbn [mutex_run] in E.
  destruct (mutex_step t a m) as [m1|] eqn:E1; [|done]. eapply rtc_l; [by eapply mn_step|by apply IH].
Qed.

(** Thread 1 waits on a condition with the lock; thread 2 has it meanwhile. *)
Definition demo_wait : list (tid * mcall) := [(1, MLock); (1, MGo); (1, MWait 0); (1, MGo); (2, MLock); (2, MGo)].

Lemma mutex_holder_witness :
  exists m, mutex_run demo_wait new_MutexLock = Some m /\ pc_of 1 m = MAsleep 0 /\ pc_of 2 m = MIn /\
    is_locked_by_this_thread 2 m = true /\ is_locked_by_this_thread 1 m = false.
Proof.
  destruct (mutex_run demo_wait new_MutexLock) as [m|] eqn:E; [|by vm_compute in E]. exists m. split; [done|].
  destruct (mutex_holder m) as (_ & H & _); [apply (mutex_run_reach demo_wait); [repeat constructor; done|exact E]|].
  vm_compute in E. injection E as <-. split; [done|]. split; [done|]. split; [by apply H|].
  apply not_true_iff_false. rewrite H by done. done.
Defined.
