(* ===== verification/Threads.v ===== *)
(** [flute/common/Thread.{h,cc}], [flute/common/CountdownLatch.h] and
    [flute/net/ReactorThread.{h,cc}]: a thread is started, runs a reactor, and
    is stopped.

    The parent calls [start_reactor] and destroys the object; the child runs
    [Thread::starter] and [reactor_thread_loop_func].  Each of them is cut where
    the other can interleave: at the critical sections of the latch and of
    [m_mutexlock], and at the accesses to what they share without a lock. *)

From S2P Require Import Prelude Format.

(** * Thread *)

Inductive ThreadStates : Type := kCreated | kNotStarted | kHasJoined | kJoinSuccessful | kJoinFailed.

Record Thread : Type := mkThread {
  m_holder_tid : Z;
  m_runner_tid : Z;
  m_name : bytes;
  m_started : bool;
  m_joined : bool;
  m_count : Z                     (* of m_countdown_latch *)
}.

(** [update_name]: [basename] is the string that is found at [m_basename], if
    it is not null. *)
Definition update_name (basename : option bytes) (th : Thread) : Thread :=
  let tid := if m_started th then m_runner_tid th else m_holder_tid th in
  let name := snprintf 32 (default (lit "Thread") basename ++ lit "[" ++ dec tid ++ lit "]") in
  mkThread (m_holder_tid th) (m_runner_tid th) (if m_started th then name else name ++ lit "[NotStarted]") (m_started th) (m_joined th) (m_count th).

Definition new_Thread (holder : Z) (basename : option bytes) : Thread :=
  update_name basename (mkThread holder 0 [] false false 1).

Definition set_started (b : bool) (th : Thread) : Thread :=
  mkThread (m_holder_tid th) (m_runner_tid th) (m_name th) b (m_joined th) (m_count th).
Definition set_runner (t : Z) (th : Thread) : Thread :=
  mkThread (m_holder_tid th) t (m_name th) (m_started th) (m_joined th) (m_count th).
Definition set_joined (th : Thread) : Thread :=
  mkThread (m_holder_tid th) (m_runner_tid th) (m_name th) (m_started th) true (m_count th).
Definition set_count (n : Z) (th : Thread) : Thread :=
  mkThread (m_holder_tid th) (m_runner_tid th) (m_name th) (m_started th) (m_joined th) n.

(** [CountdownLatch::wait] goes on when the count is not positive, and
    [countdown] wakes all waiters when it becomes zero. *)
Definition latch_open (th : Thread) : bool := negb (0 <? m_count th).
Definition countdown (th : Thread) : outcome (bool * Thread) :=
  require FOverflow (- 2 ^ 31 <? m_count th);;
  let n := m_count th - 1 in Ok (n =? 0, set_count n th).

(** [starter] and [run] up to the latch, in the new thread with id [tid]. *)
Definition starter (tid : Z) (basename : option bytes) (th : Thread) : Thread := update_name basename (set_runner tid th).

(** [join], when pthread_join(3) answers [ret]. *)
Definition join (ret : Z) (th : Thread) : ThreadStates * Thread :=
  if negb (m_started th) then (kNotStarted, th)
  else if m_joined th then (kHasJoined, th)
  else (if ret =? 0 then kJoinSuccessful else kJoinFailed, set_joined th).

(** * ReactorThread *)

(** Where the parent is. *)
Inductive parent_pc : Type :=
| PIdle
| PCreate                 (* in Thread::start, m_started is set *)
| PLatch | PLatchAsleep   (* in m_countdown_latch.wait() *)
| PCond | PCondAsleep     (* waiting for m_reactor *)
| PDone (r : option Z)    (* start_reactor returned *)
| PQuit (r : Z)           (* in the destructor, m_reactor was r *)
| PJoin                   (* in m_thread.join() *)
| PGone.                  (* the object is destroyed *)

(** Where the child is. *)
Inductive child_pc : Type :=
| CNone
| CRun                    (* at the start of Thread::starter *)
| CLatch                  (* about to count down *)
| CInit                   (* at the start of reactor_thread_loop_func *)
| CPublish                (* about to lock and set m_reactor *)
| CEnter                  (* about to call loop.loop() *)
| CLoop                   (* in its loop *)
| CEnd                    (* about to lock and clear m_reactor *)
| CDestroy                (* about to destroy the reactor *)
| CFin.

#[global] Instance parent_pc_eq_dec : EqDecision parent_pc.
Proof. solve_decision. Defined.
#[global] Instance child_pc_eq_dec : EqDecision child_pc.
Proof. solve_decision. Defined.

Record ReactorThread : Type := mkRT {
  m_thread : Thread;
  m_reactor : option Z;
  m_is_exiting : bool;
  rt_has_init : bool;              (* m_reactor_init_func is set *)
  rt_parent : parent_pc;
  rt_child : child_pc;
  rt_loop : option (Z * bool);     (* the child's reactor and its m_going_to_quit *)
  rt_inits : list Z;               (* the calls of m_reactor_init_func *)
  rt_early : bool                  (* mark_quit was called before loop() *)
}.

Definition new_ReactorThread (holder : Z) (basename : option bytes) (has_init : bool) : ReactorThread :=
  mkRT (new_Thread holder basename) None false has_init PIdle CNone None [] false.

Definition with_parent (p : parent_pc) (w : ReactorThread) : ReactorThread :=
  mkRT (m_thread w) (m_reactor w) (m_is_exiting w) (rt_has_init w) p (rt_child w) (rt_loop w) (rt_inits w) (rt_early w).
Definition with_child (c : child_pc) (w : ReactorThread) : ReactorThread :=
  mkRT (m_thread w) (m_reactor w) (m_is_exiting w) (rt_has_init w) (rt_parent w) c (rt_loop w) (rt_inits w) (rt_early w).
Definition with_thread (t : Thread) (w : ReactorThread) : ReactorThread :=
  mkRT t (m_reactor w) (m_is_exiting w) (rt_has_init w) (rt_parent w) (rt_child w) (rt_loop w) (rt_inits w) (rt_early w).
Definition with_reactor (r : option Z) (w : ReactorThread) : ReactorThread :=
  mkRT (m_thread w) r (m_is_exiting w) (rt_has_init w) (rt_parent w) (rt_child w) (rt_loop w) (rt_inits w) (rt_early w).
Definition with_loop (l : option (Z * bool)) (w : ReactorThread) : ReactorThread :=
  mkRT (m_thread w) (m_reactor w) (m_is_exiting w) (rt_has_init w) (rt_parent w) (rt_child w) l (rt_inits w) (rt_early w).

(** [start_reactor]: a second call returns what [m_reactor] is. *)
Definition start_reactor (w : ReactorThread) : outcome ReactorThread :=
  if m_started (m_thread w) then Ok (with_parent (PDone (m_reactor w)) w)
  else assert_ (negb (m_started (m_thread w)));; Ok (with_parent PCreate (with_thread (set_started true (m_thread w)) w)).

(** The beginning of the destructor. *)
Definition destroy_ReactorThread (w : ReactorThread) : ReactorThread :=
  mkRT (m_thread w) (m_reactor w) true (rt_has_init w) (match m_reactor w with Some r => PQuit r | None => PGone end) (rt_child w) (rt_loop w)
    (rt_inits w) (rt_early w).

(** [Reactor::mark_quit] of the reactor at [r]. *)
Definition mark_quit (r : Z) (w : ReactorThread) : outcome ReactorThread :=
  match rt_loop w with
  | Some (r', _) =>
      require FBounds (r =? r');;
      Ok (mkRT (m_thread w) (m_reactor w) (m_is_exiting w) (rt_has_init w) (rt_parent w) (rt_child w) (Some (r', true)) (rt_inits w)
            (rt_early w || bool_decide (rt_child w = CEnter)))
  | None => Fail FBounds
  end.

(** The next step of the parent; [created]: pthread_create(3) succeeds. *)
Definition parent_step (created : bool) (w : ReactorThread) : outcome ReactorThread :=
  match rt_parent w with
  | PCreate => if created then Ok (with_parent PLatch (with_child CRun w)) else Fail FFatal
  | PLatch => Ok (with_parent (if latch_open (m_thread w) then PCond else PLatchAsleep) w)
  | PCond => Ok (with_parent (match m_reactor w with Some r => PDone (Some r) | None => PCondAsleep end) w)
  | PQuit r => w ← mark_quit r w; Ok (with_parent PJoin w)
  | PJoin => Ok (if bool_decide (rt_child w = CFin) then with_parent PGone (with_thread (join 0 (m_thread w)).2 w) else w)
  | _ => Ok w
  end.

(** The next step of the child, with its tid, the name it finds, and the
    address of its reactor. *)
Definition child_step (tid : Z) (basename : option bytes) (addr : Z) (w : ReactorThread) : outcome ReactorThread :=
  match rt_child w with
  | CRun => Ok (with_child CLatch (with_thread (starter tid basename (m_thread w)) w))
  | CLatch =>
      '(zero, th) ← countdown (m_thread w);
      let w := with_child CInit (with_thread th w) in
      Ok (if zero : bool then with_parent (if bool_decide (rt_parent w = PLatchAsleep) then PLatch else rt_parent w) w else w)
  | CInit =>
      Ok (mkRT (m_thread w) (m_reactor w) (m_is_exiting w) (rt_has_init w) (rt_parent w) CPublish (Some (addr, false))
            (rt_inits w ++ if rt_has_init w then [addr] else []) (rt_early w))
  | CPublish =>
      '(r, _) ← of_option FBounds (rt_loop w);
      let w := with_child CEnter (with_reactor (Some r) w) in
      Ok (with_parent (if bool_decide (rt_parent w = PCondAsleep) then PCond else rt_parent w) w)
  | CEnter => '(r, _) ← of_option FBounds (rt_loop w); Ok (with_child CLoop (with_loop (Some (r, false)) w))
  | CLoop => '(_, quit) ← of_option FBounds (rt_loop w); Ok (if quit : bool then with_child CEnd w else w)
  | CEnd => Ok (with_child CDestroy (with_reactor None w))
  | CDestroy => Ok (with_child CFin (with_loop None w))
  | CNone | CFin => Ok w
  end.

(** Whether a step does anything. *)
Definition parent_ready (w : ReactorThread) : bool :=
  match rt_parent w with
  | PCreate | PLatch | PCond | PQuit _ => true
  | PJoin => bool_decide (rt_child w = CFin)
  | PIdle | PLatchAsleep | PCondAsleep | PDone _ | PGone => false
  end.
Definition child_ready (w : ReactorThread) : bool :=
  match rt_child w with
  | CNone | CFin => false
  | CLoop => match rt_loop w with Some (_, quit) => quit | None => true end
  | _ => true
  end.

(** What can happen: the user calls [start_reactor] or destroys the object
    (not twice, nor at once), the threads take their steps, and a sleeper wakes
    by itself. *)
Inductive rt_event : Type :=
| TvStart | TvDestroy | TvParent | TvChild (tid : Z) (basename : option bytes) (addr : Z) | TvSpurious
| TvQuit (r : Z).         (* somebody else calls mark_quit *)

Definition rt_step (ev : rt_event) (w : ReactorThread) : outcome ReactorThread :=
  match ev with
  | TvStart => start_reactor w
  | TvDestroy => Ok (destroy_ReactorThread w)
  | TvParent => parent_step true w
  | TvChild tid b addr => child_step tid b addr w
  | TvSpurious => Ok (with_parent (match rt_parent w with PLatchAsleep => PLatch | PCondAsleep => PCond | p => p end) w)
  | TvQuit r => mark_quit r w
  end.

Fixpoint rt_run (l : list rt_event) (w : ReactorThread) : outcome ReactorThread :=
  match l with [] => Ok w | ev :: l => w ← rt_step ev w; rt_run l w end.

(** * The invariant *)

Definition at_rest (p : parent_pc) : bool := match p with PIdle | PDone _ => true | _ => false end.

(** The object is used by one thread at a time, and who calls [mark_quit] from
    elsewhere (a callback of the reactor, a thread that was given the reactor)
    does so while the reactor is alive. *)
Definition rt_event_ok (ev : rt_event) (w : ReactorThread) : Prop :=
  match ev with
  | TvStart | TvDestroy => at_rest (rt_parent w) = true
  | TvChild tid _ _ => tid <> 0
  | TvParent | TvSpurious => True
  | TvQuit r => exists q, rt_loop w = Some (r, q)
  end.
Definition is_quit (ev : rt_event) : bool := match ev with TvQuit _ => true | _ => false end.

Inductive rt_next : ReactorThread -> ReactorThread -> Prop :=
| rt_next_ev ev w w' : rt_event_ok ev w -> rt_step ev w = Ok w' -> rt_next w w'.

(** The same without calls of [mark_quit] from elsewhere. *)
Inductive rt_quiet : ReactorThread -> ReactorThread -> Prop :=
| rt_quiet_ev ev w w' : is_quit ev = false -> rt_event_ok ev w -> rt_step ev w = Ok w' -> rt_quiet w w'.

Definition inits_of (w : ReactorThread) (r : Z) : list Z := if rt_has_init w then [r] else [].

(** What the child has done. *)
Definition child_data (w : ReactorThread) : Prop :=
  match rt_child w with
  | CNone | CRun => m_count (m_thread w) = 1 /\ m_reactor w = None /\ rt_loop w = None /\ rt_inits w = []
  | CLatch => m_count (m_thread w) = 1 /\ m_reactor w = None /\ rt_loop w = None /\ rt_inits w = [] /\ m_runner_tid (m_thread w) <> 0
  | CInit => m_count (m_thread w) = 0 /\ m_reactor w = None /\ rt_loop w = None /\ rt_inits w = [] /\ m_runner_tid (m_thread w) <> 0
  | CPublish => exists r, m_count (m_thread w) = 0 /\ m_reactor w = None /\ rt_loop w = Some (r, false) /\ rt_inits w = inits_of w r /\
                  m_runner_tid (m_thread w) <> 0
  | CEnter | CLoop => exists r q, m_count (m_thread w) = 0 /\ m_reactor w = Some r /\ rt_loop w = Some (r, q) /\ rt_inits w = inits_of w r /\
                  m_runner_tid (m_thread w) <> 0
  | CEnd => exists r q, m_reactor w = Some r /\ rt_loop w = Some (r, q)
  | CDestroy => exists r q, m_reactor w = None /\ rt_loop w = Some (r, q)
  | CFin => m_reactor w = None /\ rt_loop w = None
  end.

Definition not_quitting (w : ReactorThread) : Prop := match rt_loop w with Some (_, q) => q = false | None => True end.

(** Where the two can be at the same time. *)
Definition rt_shape (w : ReactorThread) : Prop :=
  match rt_parent w, rt_child w with
  | PIdle, CNone => m_started (m_thread w) = false
  | PCreate, CNone => m_started (m_thread w) = true
  | (PLatch | PLatchAsleep), (CRun | CLatch) => m_started (m_thread w) = true
  | (PLatch | PCond), (CInit | CPublish | CEnter | CLoop) => m_started (m_thread w) = true /\ not_quitting w
  | PCondAsleep, (CInit | CPublish) => m_started (m_thread w) = true /\ not_quitting w
  | PDone o, (CEnter | CLoop) => m_started (m_thread w) = true /\ not_quitting w /\ o = m_reactor w
  | PQuit r, (CEnter | CLoop) => not_quitting w /\ m_reactor w = Some r
  | PJoin, CEnter => rt_early w = true
  | PJoin, CLoop => match rt_loop w with Some (_, q) => q = true \/ rt_early w = true | None => False end
  | PJoin, (CEnd | CDestroy | CFin) => True
  | PGone, (CNone | CFin) => True
  | _, _ => False
  end.

Definition rt_inv (w : ReactorThread) : Prop := child_data w /\ rt_shape w.

Ltac rt_cases :=
  repeat match goal with
  | H : _ /\ _ |- _ => destruct H
  | H : exists _, _ |- _ => destruct H
  | H : False |- _ => destruct H
  end; simplify_eq/=.

Ltac rt_done :=
  simpl; repeat match goal with |- _ /\ _ => split | |- exists _, _ => eexists end;
  try done; try (by left); try (by right); try (by rewrite orb_true_r).

Lemma parent_step_inv w : rt_inv w -> returns rt_inv (parent_step true w).
Proof.
  intros [D S]. destruct w as [[h t n st j cnt] mr ex hi p c lp ini early]. unfold rt_inv, child_data, rt_shape, parent_step, latch_open, mark_quit, not_quitting in *.
  destruct p as [| | | | | |o|r| |]; simpl in *; try (by split); destruct c; rt_cases; rewrite ?Z.eqb_refl; rt_done.
Qed.

Lemma child_step_inv tid b addr w : tid <> 0 -> rt_inv w -> returns rt_inv (child_step tid b addr w).
Proof.
  intros Ht [D S]. destruct w as [[h t n st j cnt] mr ex hi p c lp ini early]. unfold rt_inv, child_data, rt_shape, child_step, countdown, not_quitting in *.
  destruct c; simpl in *; rt_cases; try (by split); destruct p as [| | | | | |o|r'| |]; simpl in *; rt_cases;
    try match goal with S : ?q = true \/ _ |- _ => destruct q end; rt_done.
Qed.

Lemma rt_step_inv ev w : is_quit ev = false -> rt_event_ok ev w -> rt_inv w -> returns rt_inv (rt_step ev w).
Proof.
  intros Hq Hok I. destruct ev as [| | |tid b addr| |r]; simpl in *; [| |by apply parent_step_inv|by apply child_step_inv| |done].
  all: destruct I as [D S]; destruct w as [[h t n st j cnt] mr ex hi p c lp ini early]; unfold rt_inv, child_data, rt_shape, start_reactor, not_quitting in *;
    destruct p as [| | | | | |o|r| |]; simpl in *; try done; destruct c; rt_cases; rt_done.
Qed.

Lemma rt_quiet_inv w w' : rt_quiet w w' -> rt_inv w -> rt_inv w'.
Proof. intros [ev w1 w2 Hq Hok E] I. pose proof (rt_step_inv ev w1 Hq Hok I) as R. by rewrite E in R. Qed.

Lemma rt_quiet_reachable holder b hi w : rtc rt_quiet (new_ReactorThread holder b hi) w -> rt_inv w.
Proof.
  intros R. assert (forall x y, rtc rt_quiet x y -> rt_inv x -> rt_inv y) as S by (induction 1; eauto using rt_quiet_inv).
  eapply S; [exact R|]. done.
Qed.

(** ** When others make the reactor quit *)

Definition child_any (w : ReactorThread) : Prop :=
  match rt_child w with
  | CNone | CRun | CLatch => m_count (m_thread w) = 1 /\ m_reactor w = None /\ rt_loop w = None
  | CInit => m_count (m_thread w) = 0 /\ m_reactor w = None /\ rt_loop w = None
  | CPublish | CDestroy => m_count (m_thread w) = 0 /\ m_reactor w = None /\ exists r q, rt_loop w = Some (r, q)
  | CEnter | CLoop | CEnd => m_count (m_thread w) = 0 /\ exists r q, m_reactor w = Some r /\ rt_loop w = Some (r, q)
  | CFin => m_count (m_thread w) = 0 /\ m_reactor w = None /\ rt_loop w = None
  end.

(** The reactor at [r] is the one of the child, as long as that is alive. *)
Definition same_loop (r : Z) (w : ReactorThread) : Prop := forall r' q, rt_loop w = Some (r', q) -> r' = r.

Definition shape_any (w : ReactorThread) : Prop :=
  match rt_parent w, rt_child w with
  | PIdle, CNone => m_started (m_thread w) = false
  | PCreate, CNone => m_started (m_thread w) = true
  | (PLatch | PLatchAsleep), (CRun | CLatch) => m_started (m_thread w) = true
  | (PLatch | PCond | PCondAsleep), (CInit | CPublish | CEnter | CLoop | CEnd | CDestroy | CFin) => m_started (m_thread w) = true
  | PDone o, (CEnter | CLoop | CEnd | CDestroy | CFin) =>
      m_started (m_thread w) = true /\ match o with Some r => same_loop r w | None => True end
  | PQuit r, (CEnter | CLoop | CEnd | CDestroy | CFin) => same_loop r w
  | PJoin, (CEnter | CLoop | CEnd | CDestroy | CFin) => True
  | PGone, (CNone | CDestroy | CFin) => True
  | _, _ => False
  end.

Definition any_inv (w : ReactorThread) : Prop := child_any w /\ shape_any w.

(** The destructor is about to call [mark_quit] of a reactor that is gone. *)
Definition quits_dead (ev : rt_event) (w : ReactorThread) : Prop :=
  ev = TvParent /\ rt_child w = CFin /\ exists r, rt_parent w = PQuit r.

Ltac any_open w :=
  destruct w as [[h t n st j cnt] mr ex hi p c lp ini early];
  unfold any_inv, child_any, shape_any, same_loop, quits_dead in *; simpl in *.
Ltac any_done := first [by left; eexists; split_and!; eauto; naive_solver | by right; split_and!; eauto].

Lemma any_step ev w :
  rt_event_ok ev w -> any_inv w -> (exists w', rt_step ev w = Ok w' /\ any_inv w') \/ quits_dead ev w.
Proof.
  intros Hok [D S]. destruct ev as [| | |tid b addr| |r]; any_open w.
  - destruct p as [| | | | | |o|r| |]; try done; destruct c; rt_cases; unfold start_reactor; simpl; rt_cases; any_done.
  - destruct p as [| | | | | |o|r| |]; try done; destruct c; rt_cases; any_done.
  - unfold parent_step, latch_open, mark_quit. simpl.
    destruct p as [| | | | | |o|r| |]; simpl; try any_done; destruct c; rt_cases; try any_done.
    all: try (rewrite (S _ _ eq_refl), Z.eqb_refl; simpl; any_done).
    left. eexists. split; [done|]. unfold join. by destruct st, j.
  - unfold child_step, countdown. destruct c; simpl in *; rt_cases; simpl; try any_done;
      destruct p as [| | | | | |o|r'| |]; simpl in *; rt_cases; try any_done.
    all: repeat match goal with o : option Z |- _ => destruct o | |- context [if ?q then _ else _] => destruct q end; any_done.
  - destruct p as [| | | | | |o|r| |], c; rt_cases; any_done.
  - destruct Hok as [q ->]. unfold mark_quit. simpl. rewrite Z.eqb_refl. simpl.
    left. eexists. split; [done|]. destruct c; rt_cases; destruct p as [| | | | | |[o|]|r'| |]; simpl in *; rt_cases;
      split_and!; eauto; naive_solver.
Qed.

Lemma rt_reachable holder b hi w : rtc rt_next (new_ReactorThread holder b hi) w -> any_inv w.
Proof.
  assert (forall x y, rtc rt_next x y -> any_inv x -> any_inv y) as S.
  { induction 1 as [|x y z [ev w1 w2 Hok E] _ IH]; [done|]. intros I. apply IH.
    destruct (any_step ev w1 Hok I) as [(w' & E' & I')|(-> & Hc & r & Hp)]; [congruence|].
    destruct I as [D _]. unfold child_any in D. rewrite Hc in D. destruct D as (_ & _ & Hl).
    cbn [rt_step] in E. unfold parent_step, mark_quit in E. by rewrite Hp, Hl in E. }
  intros R. eapply S; [exact R|]. done.
Qed.

(** * Theorems *)

(** How far the two threads are from the end. *)
Definition child_rank (c : child_pc) : nat :=
  match c with CNone => 9 | CRun => 8 | CLatch => 7 | CInit => 6 | CPublish => 5 | CEnter => 4 | CLoop => 3 | CEnd => 2 | CDestroy => 1 | CFin => 0 end.
Definition parent_rank (p : parent_pc) : nat :=
  match p with
  | PIdle => 0 | PCreate => 6 | PLatch => 5 | PLatchAsleep => 4 | PCond => 3 | PCondAsleep => 2 | PDone _ => 0 | PQuit _ => 2 | PJoin => 1 | PGone => 0
  end.
Definition rank (w : ReactorThread) : nat := 3 * child_rank (rt_child w) + parent_rank (rt_parent w).

Lemma parent_rank_step w w' : rt_inv w -> parent_ready w = true -> parent_step true w = Ok w' -> (rank w' < rank w)%nat.
Proof.
  intros [D S] Hr E. destruct w as [[h t n st j cnt] mr ex hi p c lp ini early].
  unfold rt_inv, child_data, rt_shape, parent_step, parent_ready, latch_open, mark_quit, not_quitting, rank in *.
  destruct p as [| | | | | |o|r| |]; simpl in *; try done; destruct c; rt_cases; rewrite ?Z.eqb_refl in *; simplify_eq/=; lia.
Qed.

Lemma child_rank_step tid b addr w w' : rt_inv w -> child_ready w = true -> child_step tid b addr w = Ok w' -> (rank w' < rank w)%nat.
Proof.
  intros [D S] Hr E. destruct w as [[h t n st j cnt] mr ex hi p c lp ini early].
  unfold rt_inv, child_data, rt_shape, child_step, child_ready, countdown, not_quitting, rank in *.
  destruct c; simpl in *; rt_cases; try done; destruct p as [| | | | | |o|r'| |]; simpl in *; rt_cases;
    try match goal with S : ?q = true \/ _ |- _ => destruct q end; simplify_eq/=; lia.
Qed.


(** * Runs *)

Definition demo_thread : ReactorThread := new_ReactorThread 1 (Some (lit "io")) true.
Definition demo_child : rt_event := TvChild 42 (Some (lit "io")) 1000.

(** The thread is started, runs its loop, and is joined. *)
Definition demo_life : list rt_event :=
  [TvStart; TvParent; TvParent; demo_child; demo_child; TvParent; TvParent; demo_child; demo_child; TvParent; demo_child;
   TvDestroy; TvParent; demo_child; demo_child; demo_child; TvParent].

(** Events that are allowed. *)
Definition rt_event_okb (ev : rt_event) (w : ReactorThread) : bool :=
  match ev with TvStart | TvDestroy => at_rest (rt_parent w) | TvChild tid _ _ => negb (tid =? 0) | TvParent | TvSpurious => true | TvQuit _ => false end.
Fixpoint rt_all_ok (l : list rt_event) (w : ReactorThread) : bool :=
  match l with [] => true | ev :: l => rt_event_okb ev w && match rt_step ev w with Ok w' => rt_all_ok l w' | Fail _ => false end end.

Lemma rt_all_ok_run l : forall w, rt_all_ok l w = true -> exists w', rt_run l w = Ok w' /\ rtc rt_quiet w w'.
Proof.
  induction l as [|ev l IH]; intros w Hl; [exists w; split; [done|apply rtc_refl]|]. cbn [rt_all_ok] in Hl. apply andb_true_iff in Hl as [Hok Hl].
  cbn [rt_run]. destruct (rt_step ev w) as [w1|] eqn:E; [|done]. rewrite bind_ok. destruct (IH _ Hl) as (w' & Rn & T).
  exists w'. split; [done|]. eapply rtc_l; [|exact T]. apply (rt_quiet_ev ev); [by destruct ev| |done].
  destruct ev; simpl in *; try done. by apply Z.eqb_neq, negb_true_iff.
Qed.


(** The object is destroyed right after [start_reactor] returned: the request
    to quit is cleared by [loop], and [join] never returns. *)
Example early_destruction_hangs :
  exists w, rt_run [TvStart; TvParent; demo_child; demo_child; TvParent; demo_child; demo_child; TvParent; TvDestroy; TvParent; demo_child] demo_thread = Ok w /\
    rt_parent w = PJoin /\ parent_ready w = false /\ child_ready w = false /\
    parent_step true w = Ok w /\ child_step 42 None 1000 w = Ok w.
Proof. eexists. split; [vm_compute; reflexivity|]. done. Qed.

(** The reactor quits by itself while the destructor is about to tell it to. *)
Example quit_race_dangles :
  rt_run [TvStart; TvParent; demo_child; demo_child; TvParent; demo_child; demo_child; TvParent; demo_child; TvDestroy; TvQuit 1000;
          demo_child; demo_child; demo_child; TvParent] demo_thread = Fail FBounds.
Proof. by vm_compute. Qed.
