(* ===== verification/TaskDeque.v ===== *)
(** [flute/common/TaskDeque.{h,cc}]: a pool of worker threads with a queue of
    tasks.

    The member functions are critical sections under [m_deque_mutex], cut where
    [Condition::wait] releases the lock.  A [pool] is the object with its
    worker threads and the threads that push tasks; an event says which thread
    gets the lock and which sleeper a signal wakes. *)

From S2P Require Import Prelude.

Definition kMaxTaskDequeSize : Z := 10.

Section pool.
Context {Task : Type}.

(** A [Task] that is a default-constructed [std::function] is [None]. *)
Record TaskDeque : Type := mkTaskDeque {
  m_task_deque : list (option Task);
  m_max_queue_size : Z;            (* a size_t *)
  m_is_running : bool
}.

(** The constructor gives the deque its size, not its capacity, and leaves
    [m_max_queue_size] as the memory is. *)
Definition new_TaskDeque (garbage : Z) : TaskDeque := mkTaskDeque (replicate (Z.to_nat kMaxTaskDequeSize) None) garbage false.
Definition set_max_deque_size (maxsize : Z) (d : TaskDeque) : TaskDeque := mkTaskDeque (m_task_deque d) (u64 maxsize) (m_is_running d).
Definition max_deque_size (d : TaskDeque) : Z := m_max_queue_size d.
Definition task_deque_size (d : TaskDeque) : Z := len (m_task_deque d).
Definition is_full (d : TaskDeque) : bool := (0 <? m_max_queue_size d) && (m_max_queue_size d <=? len (m_task_deque d)).

(** [take_one] with the lock held: [None] when it has to wait; otherwise the
    task, whether [m_cond_not_full] is signalled, and the deque. *)
Definition take_one (d : TaskDeque) : option (option Task * bool * TaskDeque) :=
  match m_task_deque d with
  | [] => if m_is_running d then None else Some (None, false, d)
  | task :: rest => Some (task, 0 <? m_max_queue_size d, mkTaskDeque rest (m_max_queue_size d) (m_is_running d))
  end.

(** [push_task] with the lock held. *)
Definition push_task (task : Task) (push_back : bool) (d : TaskDeque) : outcome (option TaskDeque) :=
  if is_full d then Ok None
  else
    assert_ (negb (is_full d));;
    Ok (Some (mkTaskDeque (if push_back then m_task_deque d ++ [Some task] else Some task :: m_task_deque d) (m_max_queue_size d) (m_is_running d))).

(** * The threads *)

(** Where a worker is: at [while (m_is_running)]; about to take the lock in
    [take_one]; asleep there; about to call its task; finished. *)
Inductive worker : Type := WTest | WTake | WAsleep | WRun (task : Task) | WEnded.

Record pool : Type := mkPool {
  p_deque : TaskDeque;
  p_workers : list worker;               (* m_threads *)
  p_ready : list (Task * bool);          (* pushers about to take the lock *)
  p_blocked : list (Task * bool);        (* pushers asleep on m_cond_not_full *)
  p_pushed : list Task;                  (* accepted, in order *)
  p_taken : list Task                    (* given to a worker, in order *)
}.

Definition is_asleep (w : worker) : bool := match w with WAsleep => true | _ => false end.
Definition is_taking (w : worker) : bool := match w with WTake => true | _ => false end.

(** A signal of [m_cond_not_empty]: the worker [i] if it sleeps, or else any. *)
Fixpoint wake_first (ws : list worker) : list worker :=
  match ws with [] => [] | w :: ws => if is_asleep w then WTake :: ws else w :: wake_first ws end.
Definition notify_worker (i : nat) (ws : list worker) : list worker :=
  match ws !! i with Some WAsleep => <[i := WTake]> ws | _ => wake_first ws end.
Definition wake_all (ws : list worker) : list worker := (fun w => if is_asleep w then WTake else w) <$> ws.

(** A signal of [m_cond_not_full]. *)
Definition notify_pusher (i : nat) (blocked ready : list (Task * bool)) : list (Task * bool) * list (Task * bool) :=
  let i := (i mod length blocked)%nat in
  match blocked !! i with Some t => (delete i blocked, ready ++ [t]) | None => (blocked, ready) end.

(** [start]: the workers begin. *)
Definition start (num_threads : nat) (p : pool) : outcome pool :=
  assert_ (bool_decide (p_workers p = []));;
  Ok (mkPool (mkTaskDeque (m_task_deque (p_deque p)) (m_max_queue_size (p_deque p)) true) (replicate num_threads WTest) (p_ready p) (p_blocked p)
        (p_pushed p) (p_taken p)).

(** [stop], up to the joins. *)
Definition stop (p : pool) : pool :=
  mkPool (mkTaskDeque (m_task_deque (p_deque p)) (m_max_queue_size (p_deque p)) false) (wake_all (p_workers p)) (p_ready p) (p_blocked p)
    (p_pushed p) (p_taken p).

(** A call of [push_task_back] or [push_task_front]: without threads the task
    is called at once. *)
Definition call_push (task : Task) (back : bool) (p : pool) : pool :=
  match p_workers p with
  | [] => mkPool (p_deque p) (p_workers p) (p_ready p) (p_blocked p) (p_pushed p ++ [task]) (p_taken p ++ [task])
  | _ :: _ => mkPool (p_deque p) (p_workers p) (p_ready p ++ [(task, back)]) (p_blocked p) (p_pushed p) (p_taken p)
  end.

(** The [i]-th ready pusher gets the lock; [w] is the worker it wakes. *)
Definition pusher_step (i w : nat) (p : pool) : outcome pool :=
  match p_ready p !! i with
  | None => Ok p
  | Some (task, back) =>
      let ready := delete i (p_ready p) in
      r ← push_task task back (p_deque p);
      Ok (match r with
          | None => mkPool (p_deque p) (p_workers p) ready (p_blocked p ++ [(task, back)]) (p_pushed p) (p_taken p)
          | Some d => mkPool d (notify_worker w (p_workers p)) ready (p_blocked p) (p_pushed p ++ [task]) (p_taken p)
          end)
  end.

(** The next step of worker [i]; [j] is the pusher it wakes. *)
Definition worker_step (i j : nat) (p : pool) : pool :=
  let move (w : worker) (p : pool) := mkPool (p_deque p) (<[i := w]> (p_workers p)) (p_ready p) (p_blocked p) (p_pushed p) (p_taken p) in
  match p_workers p !! i with
  | Some WTest => move (if m_is_running (p_deque p) then WTake else WEnded) p
  | Some WTake =>
      match take_one (p_deque p) with
      | None => move WAsleep p
      | Some (task, signal, d) =>
          let '(blocked, ready) := if signal : bool then notify_pusher j (p_blocked p) (p_ready p) else (p_blocked p, p_ready p) in
          mkPool d (<[i := match task with Some t => WRun t | None => WTest end]> (p_workers p)) ready blocked (p_pushed p)
            (p_taken p ++ match task with Some t => [t] | None => [] end)
      end
  | Some (WRun _) => move WTest p
  | Some WAsleep | Some WEnded | None => p
  end.

Inductive pool_event : Type :=
| VPush (task : Task) (back : bool)
| VPusher (i w : nat)
| VWorker (i j : nat)
| VSpuriousWorker (i : nat)
| VSpuriousPusher (i : nat)
| VStop.

Definition pool_step (ev : pool_event) (p : pool) : outcome pool :=
  match ev with
  | VPush t back => Ok (call_push t back p)
  | VPusher i w => pusher_step i w p
  | VWorker i j => Ok (worker_step i j p)
  | VSpuriousWorker i =>
      Ok (match p_workers p !! i with
          | Some WAsleep => mkPool (p_deque p) (<[i := WTake]> (p_workers p)) (p_ready p) (p_blocked p) (p_pushed p) (p_taken p)
          | _ => p
          end)
  | VSpuriousPusher i =>
      Ok (match p_blocked p !! i with
          | Some t => mkPool (p_deque p) (p_workers p) (p_ready p ++ [t]) (delete i (p_blocked p)) (p_pushed p) (p_taken p)
          | None => p
          end)
  | VStop => Ok (stop p)
  end.

Fixpoint pool_run (l : list pool_event) (p : pool) : outcome pool :=
  match l with [] => Ok p | ev :: l => p ← pool_step ev p; pool_run l p end.

(** A new pool with [num_threads] workers. *)
Definition new_pool (d : TaskDeque) (num_threads : nat) : outcome pool := start num_threads (mkPool d [] [] [] [] []).

(** * The invariant *)

Fixpoint count (f : worker -> bool) (ws : list worker) : Z :=
  match ws with [] => 0 | w :: ws => (if f w then 1 else 0) + count f ws end.

Lemma count_nonneg f ws : 0 <= count f ws.
Proof. induction ws as [|w ws IH]; simpl; [lia|]. destruct (f w); lia. Qed.

Lemma count_insert f ws i w w' : ws !! i = Some w ->
  count f (<[i := w']> ws) = count f ws - (if f w then 1 else 0) + (if f w' then 1 else 0).
Proof.
  revert i. induction ws as [|x ws IH]; intros [|i] E; simplify_eq/=; [lia|]. rewrite (IH i E). lia.
Qed.

Lemma count_elem f ws : 0 < count f ws -> exists i w, ws !! i = Some w /\ f w = true.
Proof.
  induction ws as [|x ws IH]; simpl; [lia|]. destruct (f x) eqn:Hx; [intros _; by exists 0%nat, x|].
  intros Hc. destruct IH as (i & w & E & Hw); [lia|]. by exists (S i), w.
Qed.

Lemma lookup_count f ws i w : ws !! i = Some w -> f w = true -> 0 < count f ws.
Proof.
  revert i. induction ws as [|x ws IH]; intros [|i] E Hw; simplify_eq/=; [rewrite Hw; pose proof (count_nonneg f ws); lia|].
  specialize (IH i E Hw). destruct (f x); lia.
Qed.

(** A signal wakes one worker, if one sleeps. *)
Lemma notify_worker_count i ws :
  let ws' := notify_worker i ws in
  (0 < count is_asleep ws /\ count is_asleep ws' = count is_asleep ws - 1 /\ count is_taking ws' = count is_taking ws + 1) \/
  (count is_asleep ws = 0 /\ ws' = ws).
Proof.
  assert (let ws' := wake_first ws in (0 < count is_asleep ws /\ count is_asleep ws' = count is_asleep ws - 1 /\ count is_taking ws' = count is_taking ws + 1) \/
    (count is_asleep ws = 0 /\ ws' = ws)) as W.
  { induction ws as [|w ws IH]; simpl; [by right|]. destruct w; simpl in *;
      try (destruct IH as [(? & -> & ->)|(-> & ->)]; [left; lia|by right]).
    left. pose proof (count_nonneg is_asleep ws). lia. }
  unfold notify_worker. destruct (ws !! i) as [[]|] eqn:E; try exact W. left. pose proof (lookup_count is_asleep ws i _ E eq_refl).
  rewrite !(count_insert _ _ _ _ _ E). simpl. lia.
Qed.

Lemma wake_all_count ws : count is_asleep (wake_all ws) = 0.
Proof. induction ws as [|w ws IH]; [done|]. unfold wake_all in *. rewrite fmap_cons. cbn [count]. rewrite IH. by destruct w. Qed.

(** The real tasks of the deque. *)
Definition tasks (d : TaskDeque) : list Task := omap id (m_task_deque d).

Record pool_inv (max : Z) (p : pool) : Prop := {
  pi_max : m_max_queue_size (p_deque p) = max;
  pi_ledger : p_taken p ++ tasks (p_deque p) ≡ₚ p_pushed p;
  pi_workers : m_is_running (p_deque p) = true -> 0 < count is_asleep (p_workers p) ->
    len (m_task_deque (p_deque p)) <= count is_taking (p_workers p);
  pi_stopped : m_is_running (p_deque p) = false -> count is_asleep (p_workers p) = 0;
  pi_blocked : p_blocked p <> [] -> 0 < max /\ max <= len (m_task_deque (p_deque p)) + len (p_ready p)
}.

Lemma notify_pusher_spec j blocked ready :
  let '(b', r') := notify_pusher j blocked ready in
  (blocked = [] /\ b' = [] /\ r' = ready) \/ (blocked <> [] /\ len r' = len ready + 1).
Proof.
  unfold notify_pusher. destruct blocked as [|b blocked]; [by left|].
  destruct (lookup_lt_is_Some_2 (b :: blocked) (j mod length (b :: blocked))) as [t E]; [apply Nat.mod_upper_bound; done|].
  rewrite E. right. split; [done|]. len_lia.
Qed.

Lemma len_delete {A} i (l : list A) x : l !! i = Some x -> len (delete i l) = len l - 1.
Proof. intros E. unfold len. rewrite length_delete by eauto. apply lookup_lt_Some in E. lia. Qed.

Lemma push_ledger taken pushed (l : list (option Task)) task (back : bool) :
  taken ++ omap id l ≡ₚ pushed -> taken ++ omap id (if back then l ++ [Some task] else Some task :: l) ≡ₚ pushed ++ [task].
Proof.
  intros E. rewrite <- E. destruct back; [rewrite omap_app; simpl; by rewrite app_assoc|].
  simpl. rewrite (Permutation_app_comm (taken ++ _) [task]). simpl. by rewrite <- Permutation_middle.
Qed.

Lemma pusher_step_inv max i w p : pool_inv max p -> returns (pool_inv max) (pusher_step i w p).
Proof.
  intros []. unfold pusher_step. destruct (p_ready p !! i) as [[task back]|] eqn:Er; [|by constructor]. unfold push_task.
  pose proof (len_delete i _ _ Er) as Ld. destruct (is_full (p_deque p)) eqn:Hf.
  - simpl. unfold is_full in Hf. apply andb_true_iff in Hf as [Hp%Z.ltb_lt Hl%Z.leb_le]. constructor; simpl; try done.
    intros _. rewrite <- pi_max0. pose proof (len_nonneg (delete i (p_ready p))). lia.
  - simpl. destruct (notify_worker_count w (p_workers p)) as [(Ha & Ea & Et)|(Ha & ->)].
    + constructor; simpl; try done.
      * by apply push_ledger.
      * intros Hr _. specialize (pi_workers0 Hr Ha). rewrite Et. destruct back; len_lia.
      * intros Hr. rewrite (pi_stopped0 Hr) in Ha. lia.
      * intros Hb. specialize (pi_blocked0 Hb). destruct back; len_lia.
    + constructor; simpl; try done; [|lia|].
      * by apply push_ledger.
      * intros Hb. specialize (pi_blocked0 Hb). destruct back; len_lia.
Qed.

Lemma move_inv max i w w' p : pool_inv max p -> p_workers p !! i = Some w -> is_asleep w = false -> is_asleep w' = false -> is_taking w = false ->
  pool_inv max (mkPool (p_deque p) (<[i := w']> (p_workers p)) (p_ready p) (p_blocked p) (p_pushed p) (p_taken p)).
Proof.
  intros [] E Hs Hs' Ht. constructor; simpl; try done; rewrite !(count_insert _ _ _ _ _ E), Hs, Hs', ?Ht.
  - intros Hr Ha. specialize (pi_workers0 Hr ltac:(lia)). destruct (is_taking w'); lia.
  - intros Hr. specialize (pi_stopped0 Hr). lia.
Qed.

Lemma worker_step_inv max i j p : pool_inv max p -> pool_inv max (worker_step i j p).
Proof.
  intros I. unfold worker_step. destruct (p_workers p !! i) as [[]|] eqn:E; try done.
  - eapply move_inv; try done. by destruct (m_is_running (p_deque p)).
  - unfold take_one. destruct I. destruct (m_task_deque (p_deque p)) as [|task rest] eqn:Ed.
    + destruct (m_is_running (p_deque p)) eqn:Hr.
      * constructor; simpl; rewrite ?Hr, ?Ed; try done. rewrite !(count_insert _ _ _ _ _ E). simpl.
        pose proof (lookup_count is_taking _ _ _ E eq_refl). change (len []) with 0. lia.
      * constructor; simpl; rewrite ?Hr, ?Ed; try done; [by rewrite app_nil_r|]. rewrite !(count_insert _ _ _ _ _ E). simpl. intros _. specialize (pi_stopped0 eq_refl). lia.
    + assert (forall ready blocked, (blocked <> [] -> 0 < max /\ max <= len rest + len ready) ->
        pool_inv max (mkPool (mkTaskDeque rest (m_max_queue_size (p_deque p)) (m_is_running (p_deque p)))
          (<[i := match task with Some t => WRun t | None => WTest end]> (p_workers p)) ready blocked (p_pushed p)
          (p_taken p ++ match task with Some t => [t] | None => [] end))) as Fin.
      { intros ready blocked Hb. constructor; simpl; try done; rewrite ?(count_insert _ _ _ _ _ E).
        - rewrite <- pi_ledger0. unfold tasks. rewrite Ed. simpl. destruct task; simpl; [by rewrite <- app_assoc|by rewrite app_nil_r].
        - intros Hr Ha. specialize (pi_workers0 Hr). rewrite len_cons in pi_workers0. destruct task; simpl in *; lia.
        - intros Hr. specialize (pi_stopped0 Hr). destruct task; simpl in *; lia. }
      rewrite len_cons in pi_blocked0. destruct (Z.ltb_spec 0 (m_max_queue_size (p_deque p))) as [Hm|Hm].
      * pose proof (notify_pusher_spec j (p_blocked p) (p_ready p)) as N. destruct (notify_pusher j (p_blocked p) (p_ready p)) as [b' r'].
        apply Fin. intros Hb'. destruct N as [(_ & -> & _)|(Hb & ->)]; [done|]. specialize (pi_blocked0 Hb). lia.
      * apply Fin. intros Hb. specialize (pi_blocked0 Hb). lia.
  - by eapply move_inv.
Qed.

Lemma pool_step_inv max ev p : pool_inv max p -> returns (pool_inv max) (pool_step ev p).
Proof.
  intros I. destruct ev as [t back|i w|i j|i|i|]; simpl; [|by apply pusher_step_inv|by apply worker_step_inv|..].
  - unfold call_push. destruct I. destruct (p_workers p) eqn:Ew; constructor; simpl; rewrite ?Ew; try done.
    + rewrite <- pi_ledger0, <- !app_assoc. apply Permutation_app_head. apply Permutation_app_comm.
    + intros Hb. specialize (pi_blocked0 Hb). len_lia.
  - destruct (p_workers p !! i) as [[]|] eqn:E; try done. destruct I. constructor; simpl; try done; rewrite !(count_insert _ _ _ _ _ E); simpl.
    + intros Hr Ha. specialize (pi_workers0 Hr ltac:(lia)). lia.
    + intros Hr. specialize (pi_stopped0 Hr). pose proof (lookup_count is_asleep _ _ _ E eq_refl). lia.
  - destruct (p_blocked p !! i) as [t|] eqn:E; [|done]. destruct I. constructor; simpl; try done.
    intros _. destruct (p_blocked p) eqn:Eb; [done|]. specialize (pi_blocked0 ltac:(done)). len_lia.
  - destruct I. constructor; simpl; try done. intros _. apply wake_all_count.
Qed.

Lemma pool_run_inv max l : forall p, pool_inv max p -> returns (pool_inv max) (pool_run l p).
Proof.
  induction l as [|ev l IH]; intros p I; [done|]. cbn [pool_run]. pose proof (pool_step_inv max ev p I) as R.
  destruct (pool_step ev p) as [p'|]; [|done]. rewrite bind_ok. by apply IH.
Qed.

(** ** Order *)

Definition backs (l : list (Task * bool)) : Prop := Forall (fun x => x.2 = true) l.
Definition event_back (ev : pool_event) : Prop := match ev with VPush _ back => back = true | _ => True end.

(** Everything is pushed at the back, by a pool with workers. *)
Record pool_fifo (p : pool) : Prop := {
  pf_ready : backs (p_ready p);
  pf_blocked : backs (p_blocked p);
  pf_workers : p_workers p <> [];
  pf_order : p_taken p ++ tasks (p_deque p) = p_pushed p
}.

Lemma backs_delete i l : backs l -> backs (delete i l).
Proof. intros F. unfold backs in *. rewrite delete_take_drop. apply Forall_app. split; [by apply Forall_take|by apply Forall_drop]. Qed.
Lemma backs_snoc l x : backs l -> x.2 = true -> backs (l ++ [x]).
Proof. intros F Hx. apply Forall_app. split; [done|by constructor]. Qed.
Lemma backs_lookup i l x : backs l -> l !! i = Some x -> x.2 = true.
Proof. intros F E. exact (Forall_lookup_1 _ _ _ _ F E). Qed.

Lemma notify_pusher_back j blocked ready : backs blocked -> backs ready ->
  backs (notify_pusher j blocked ready).1 /\ backs (notify_pusher j blocked ready).2.
Proof.
  intros Fb Fr. unfold notify_pusher. destruct (blocked !! _) as [t|] eqn:E; [|done]. simpl.
  split; [by apply backs_delete|]. apply backs_snoc; [done|]. exact (backs_lookup _ _ _ Fb E).
Qed.

Lemma insert_nonempty {A} i (x : A) l : l <> [] -> <[i := x]> l <> [].
Proof. by destruct l, i. Qed.
Lemma wake_first_nonempty ws : ws <> [] -> wake_first ws <> [].
Proof. destruct ws as [|w ws]; [done|]. simpl. by destruct (is_asleep w). Qed.
Lemma notify_worker_nonempty i ws : ws <> [] -> notify_worker i ws <> [].
Proof. intros Hw. unfold notify_worker. destruct (ws !! i) as [[]|]; auto using insert_nonempty, wake_first_nonempty. Qed.

Lemma pool_step_fifo ev p : pool_fifo p -> event_back ev -> returning pool_fifo (pool_step ev p).
Proof.
  intros [] Hev. destruct ev as [t back|i w|i j|i|i|]; simpl in *.
  - unfold call_push. destruct (p_workers p) eqn:Ew; [done|]. constructor; simpl; rewrite ?Ew; try done. by apply backs_snoc.
  - unfold pusher_step. destruct (p_ready p !! i) as [[task back]|] eqn:Er; [|by constructor].
    pose proof (backs_lookup _ _ _ pf_ready0 Er) as Hb. simpl in Hb. subst back. unfold push_task. destruct (is_full (p_deque p)); simpl.
    + constructor; simpl; try done; [by apply backs_delete|by apply backs_snoc].
    + constructor; simpl; [by apply backs_delete|done|by apply notify_worker_nonempty|].
      unfold tasks in *. simpl. rewrite omap_app. simpl. by rewrite app_assoc, pf_order0.
  - unfold worker_step. destruct (p_workers p !! i) as [[]|] eqn:E; try (constructor; simpl; auto using insert_nonempty; done).
    destruct (take_one (p_deque p)) as [[[task signal] d]|] eqn:Et; [|constructor; simpl; auto using insert_nonempty].
    assert (p_taken p ++ match task with Some t => [t] | None => [] end ++ tasks d = p_pushed p) as Eo.
    { rewrite <- pf_order0. f_equal. unfold take_one in Et. unfold tasks. destruct (m_task_deque (p_deque p)) as [|x rest] eqn:Ed.
      - destruct (m_is_running (p_deque p)); [done|]. injection Et as <- _ <-. by rewrite Ed.
      - injection Et as <- _ <-. simpl. by destruct x. }
    destruct signal.
    + pose proof (notify_pusher_back j _ _ pf_blocked0 pf_ready0) as [Fb Fr]. destruct (notify_pusher j (p_blocked p) (p_ready p)) as [b' r'].
      constructor; simpl in *; auto using insert_nonempty. by rewrite <- app_assoc.
    + constructor; simpl in *; auto using insert_nonempty. by rewrite <- app_assoc.
  - destruct (p_workers p !! i) as [[]|]; constructor; simpl; auto using insert_nonempty.
  - destruct (p_blocked p !! i) as [t|] eqn:E; constructor; simpl; auto using backs_delete. apply backs_snoc; [done|exact (backs_lookup _ _ _ pf_blocked0 E)].
  - constructor; simpl; try done. unfold wake_all. by intros ?%fmap_nil_inv.
Qed.

Lemma pool_run_fifo l : forall p, pool_fifo p -> Forall event_back l -> returning pool_fifo (pool_run l p).
Proof.
  induction l as [|ev l IH]; intros p F Hl; [done|]. inversion Hl; subst. cbn [pool_run].
  pose proof (pool_step_fifo ev p F ltac:(done)) as R. destruct (pool_step ev p) as [p'|]; [|done]. rewrite bind_ok. by apply IH.
Qed.

(** How many steps a worker of a stopped pool has left. *)
Definition steps_left (w : worker) : nat := match w with WEnded => 0 | WTest => 1 | WRun _ => 2 | WAsleep | WTake => 3 end.

Lemma stopped_worker i j p w : m_is_running (p_deque p) = false -> p_workers p !! i = Some w -> w <> WEnded -> w <> WAsleep ->
  exists w', p_workers (worker_step i j p) !! i = Some w' /\ (steps_left w' < steps_left w)%nat.
Proof.
  intros Hr E Hne Hna. assert (i < length (p_workers p))%nat as Hi by (by eapply lookup_lt_Some).
  unfold worker_step. rewrite E. destruct w as [| | |t|]; try done.
  - rewrite Hr. exists WEnded. simpl. rewrite list_lookup_insert_eq by done. split; [done|lia].
  - assert (exists task signal d, take_one (p_deque p) = Some (task, signal, d)) as (task & signal & d & ->).
    { unfold take_one. rewrite Hr. destruct (m_task_deque (p_deque p)); eauto. }
    exists (match task with Some t => WRun t | None => WTest end). destruct (if signal then _ else _) as [b r]. simpl.
    rewrite list_lookup_insert_eq by done. split; [done|]. destruct task; simpl; lia.
  - exists WTest. simpl. rewrite list_lookup_insert_eq by done. split; [done|lia].
Qed.

(** C17: the pool of workers.  For any number of workers and any value of the
    maximum, in every interleaving of pushers, workers, signals and spurious
    wake-ups: no assertion fails; the tasks given to workers and those in the
    deque are exactly the tasks accepted, in order if all are pushed at the
    back; no wake-up is lost: while the pool runs, a worker sleeps next to a
    task only if another is about to take one, and a pusher sleeps next to room
    only if another is about to push; and after [stop] no worker sleeps, and
    each one ends within three more steps of its own, so that the joins of
    [stop] return. *)
Theorem task_pool_correct (garbage : Z) (num_threads : nat) (l : list pool_event) :
  exists p0 p, new_pool (new_TaskDeque garbage) num_threads = Ok p0 /\ pool_run l p0 = Ok p /\
    p_taken p ++ tasks (p_deque p) ≡ₚ p_pushed p /\
    (num_threads <> 0%nat -> Forall event_back l -> p_taken p ++ tasks (p_deque p) = p_pushed p) /\
    (m_is_running (p_deque p) = true -> m_task_deque (p_deque p) <> [] -> (exists i, p_workers p !! i = Some WAsleep) ->
       exists j, p_workers p !! j = Some WTake) /\
    (p_blocked p <> [] -> is_full (p_deque p) = false -> p_ready p <> []) /\
    (m_is_running (p_deque p) = false -> forall i w, p_workers p !! i = Some w -> w <> WEnded ->
       w <> WAsleep /\ forall j, exists w', p_workers (worker_step i j p) !! i = Some w' /\ (steps_left w' < steps_left w)%nat).
Proof.
  set (p0 := mkPool (mkTaskDeque (m_task_deque (new_TaskDeque garbage)) garbage true) (replicate num_threads WTest) [] [] [] []).
  assert (count is_asleep (replicate num_threads WTest) = 0) as C0 by (induction num_threads; [done|]; simpl in *; lia).
  assert (pool_inv garbage p0) as I0 by (constructor; simpl; try done; lia).
  destruct (returns_ok _ _ (pool_run_inv garbage l p0 I0)) as (p & R & I). exists p0, p. split_and!; [done|done|apply I| | | |].
  - intros Hn Hl. assert (pool_fifo p0) as F0 by (constructor; simpl; [constructor|constructor|by destruct num_threads|done]).
    pose proof (pool_run_fifo l p0 F0 Hl) as F. rewrite R in F. apply F.
  - intros Hr Hd [i Hi]. pose proof (lookup_count is_asleep _ _ _ Hi eq_refl) as Ha. pose proof (pi_workers _ _ I Hr Ha) as Hc.
    destruct (count_elem is_taking (p_workers p)) as (j & w & Ej & Hw); [destruct (m_task_deque (p_deque p)); [done|]; len_lia|].
    exists j. by destruct w.
  - intros Hb Hf. pose proof (pi_blocked _ _ I Hb) as [Hm Hl]. unfold is_full in Hf. rewrite (pi_max _ _ I) in Hf.
    destruct (p_ready p); [|done]. change (len []) with 0 in Hl. lia.
  - intros Hr i w Ei Hw. assert (w <> WAsleep) as Ha.
    { intros ->. pose proof (lookup_count is_asleep _ _ _ Ei eq_refl). rewrite (pi_stopped _ _ I Hr) in *. lia. }
    split; [done|]. intros j. by apply stopped_worker.
Qed.
End pool.
Arguments pool : clear implicits.
Arguments pool_event : clear implicits.

(** * Runs *)

(** One worker, a queue of one place: the first task fills it after the ten
    empty tasks were taken, the second pusher waits; then the pool is stopped,
    and the worker ends: the task in the queue is not called, and the pusher
    sleeps for ever. *)
Definition demo_stop : list (pool_event Z) :=
  concat (replicate 10 [VWorker 0 0; VWorker 0 0]) ++
  [VPush 7 true; VPusher 0 0; VPush 8 true; VPusher 0 0; VStop; VWorker 0 0].

Example stop_strands_pusher :
  exists p0 p, new_pool (set_max_deque_size 1 (new_TaskDeque 0)) 1 = Ok p0 /\ pool_run demo_stop p0 = Ok p /\
    p_workers p = [WEnded] /\ p_blocked p = [(8, true)] /\ p_taken p = [] /\ tasks (p_deque p) = [7].
Proof. eexists _, _. split; [reflexivity|]. split; [vm_compute; reflexivity|]. done. Qed.

(** A pool without threads calls the task in the pushing thread, but the ten
    empty tasks of the constructor stay in its queue. *)
Example no_threads_runs_at_once :
  exists p0 p, new_pool (new_TaskDeque 0) 0 = Ok p0 /\ pool_run [VPush 7 true] p0 = Ok p /\ p_taken p = [7] /\ task_deque_size (p_deque p) = 10.
Proof. eexists _, _. split; [reflexivity|]. split; [vm_compute; reflexivity|]. done. Qed.
