(* ===== verification/ConnView.v ===== *)
(** What the owner of a [TcpConnection] sees of it.

    [TcpServer] and [TcpClient] keep of a connection only its state, and learn
    of its end by the close callback.  [sight] is what one event of the
    connection means to them; [connect_destroyed_spec] is what they rely on
    when they destroy it. *)

From S2P Require Import Prelude Channel Poller EPollPoller TcpConnection.

#[global] Instance notice_eq_dec : EqDecision notice.
Proof. solve_decision. Defined.

(** How often the user was told of the connection, and of its end. *)
Definition told (n : notice) (t : list notice) : nat := length (filter (eq n) t).

Lemma told_app n t1 t2 : told n (t1 ++ t2) = (told n t1 + told n t2)%nat.
Proof. unfold told. by rewrite filter_app, length_app. Qed.

Lemma told_cons n m t : told n (m :: t) = ((if bool_decide (n = m) then 1 else 0) + told n t)%nat.
Proof. unfold told. rewrite filter_cons. case_decide; case_bool_decide; done. Qed.

(** Counts the new notices. *)
Ltac count := simpl; rewrite ?told_app, ?told_cons; repeat case_bool_decide; congruence || (unfold told; simpl; lia).

Section view.
Context {P : Type} `{PollerLaws P}.
Context (react : notice -> conn_env P -> list user_call).
Implicit Types (e : conn_env P).

(** The connection is established; or an event changes nothing that the owner
    sees, or starts to shut the connection down; or takes it down and calls the
    close callback once. *)
Inductive sight (ev : conn_event (P := P)) e e' : Prop :=
| sight_up :
    ev = EvEstablished -> m_conn_state (e_conn e) = kConnecting -> is_open (m_conn_state (e_conn e')) ->
    told NClose (e_trace e') = told NClose (e_trace e) ->
    told (NConn true) (e_trace e') = S (told (NConn true) (e_trace e)) -> sight ev e e'
| sight_frame :
    ev <> EvEstablished ->
    m_conn_state (e_conn e') = m_conn_state (e_conn e) \/
      m_conn_state (e_conn e) = kConnected /\ m_conn_state (e_conn e') = kDisconnecting ->
    told NClose (e_trace e') = told NClose (e_trace e) ->
    told (NConn true) (e_trace e') = told (NConn true) (e_trace e) -> sight ev e e'
| sight_down :
    ev <> EvEstablished -> is_open (m_conn_state (e_conn e)) -> m_conn_state (e_conn e') = kDisconnected ->
    told NClose (e_trace e') = S (told NClose (e_trace e)) ->
    told (NConn true) (e_trace e') = told (NConn true) (e_trace e) -> sight ev e e'.

Lemma stepped_sight ev e e' : stepped ev e e' -> sight ev e e'.
Proof.
  intros [[-> (Hs & _ & Ho & T)]|[Hne [[_ [T F]]|[[_ [_ [T F]]]|[Ho (_ & Hs & T)]]]]]%step_effect_cases.
  - apply sight_up; [done..| |]; rewrite T; count.
  - apply sight_frame; [done|done|by rewrite T..].
  - apply sight_frame; [done|done|rewrite T; count..].
  - apply sight_down; [done..| |]; rewrite T; count.
Qed.

Lemma conn_step_sight ev e :
  react_ok react -> reachable react e -> event_ok ev e ->
  fine (fun e' => reachable react e' /\ sight ev e e') (conn_step react ev e).
Proof.
  intros R Hr Hev. pose proof (conn_step_cases react ev e R (proj1 (reachable_inv react e R Hr)) Hev) as S.
  destruct (conn_step react ev e) as [e'|f] eqn:E; [|exact S]. split; [by eapply reachable_step|by apply stepped_sight].
Qed.

(** ** Destruction *)

(** The channel is registered under no descriptor, and the connection may be
    deleted. *)
Definition unregistered e : Prop :=
  poller_inv (e_poller e) (e_chans e) /\ (forall fd, m_channel_map (e_poller e) !! fd <> Some (m_channel (e_conn e))) /\
  destroy_TcpConnection e = Ok tt.

(** User calls leave the connection its channel. *)
Lemma channel_call_channel op e e' : channel_call op e = Ok e' -> e_conn e' = e_conn e.
Proof. unfold channel_call. intros E. apply bind_ok_inv in E as ([p cs] & _ & E). by injection E as <-. Qed.

Lemma do_call_channel l u e e' : do_call l u e = Ok e' -> m_channel (e_conn e') = m_channel (e_conn e).
Proof.
  destruct u; simpl;
    unfold send, TcpConnection.shutdown, shutdown_and_force_close_after, force_close, force_close_with_delay, start_read, stop_read,
      enable_zero_copy, consume, send_bytes_in_reactor, shutdown_in_reactor, shutdown_and_force_close_in_reactor_after,
      start_read_in_reactor, stop_read_in_reactor; intros E;
    repeat (case_match || outcome_inv);
    repeat match goal with H : channel_call _ _ = Ok _ |- _ => apply channel_call_channel in H end; simplify_eq/=;
    repeat match goal with H : e_conn _ = _ |- _ => rewrite H end; done.
Qed.

Lemma do_calls_channel l e e' : do_calls l e = Ok e' -> m_channel (e_conn e') = m_channel (e_conn e).
Proof.
  revert e. induction l as [|u l IH]; intros e; simpl; [by intros [= ->]|]. intros E.
  apply bind_ok_inv in E as (e1 & E1 & E). rewrite (IH _ E). by eapply do_call_channel.
Qed.

Lemma removed_unregistered h cur act e :
  core_inv e -> m_conn_state (e_conn e) = kDisconnected -> may_remove h cur act (m_channel (e_conn e)) = true ->
  fine (fun e' => m_conn_state (e_conn e') = kDisconnected /\ unregistered e') (channel_call (remove_self_from_reactor h cur act) e).
Proof.
  intros (ch & C & B) Hs Hm. destruct (closed_removal h cur act e ch eq_refl C B Hs Hm) as (e' & -> & Hc & _ & I & M). simpl.
  unfold unregistered, destroy_TcpConnection. rewrite Hc, Hs, M. split_and!; [done|done| |done]. intros fd [Hne Hf]%lookup_delete_Some.
  destruct C as (I0 & Hch & _). destruct (registered_channel _ _ _ _ I0 Hf) as (ch' & Hch' & Hfd & _). congruence.
Qed.

Lemma connect_destroyed_spec h cur act e :
  react_ok react -> reachable react e -> m_conn_state (e_conn e) = kConnected \/ m_conn_state (e_conn e) = kDisconnected ->
  may_remove h cur act (m_channel (e_conn e)) = true ->
  fine (fun e' => m_conn_state (e_conn e') = kDisconnected /\ unregistered e')
    (TcpConnection.connect_destroyed react h cur act e).
Proof.
  intros R Hr Hs Hm. destruct (reachable_inv react e R Hr) as [I _]. pose proof I as (ch & C & _).
  unfold TcpConnection.connect_destroyed. rewrite (in_loop_thread_ok e ch C), bind_ok. case_bool_decide as Hc.
  - pose proof (go_down_spec e I (or_introl Hc)) as G.
    destruct (channel_call end_all _) as [e1|] eqn:E1; [|exact G]. rewrite bind_ok. destruct G as (I1 & S1 & _).
    pose proof (callback_spec react (NConn false) e1 R I1 ltac:(by intros [])) as G.
    destruct (callback react (NConn false) e1) as [e2|] eqn:E2; [|exact G]. rewrite bind_ok. destruct G as (I2 & F2).
    apply removed_unregistered; [done|by apply (call_frame_down (notify (NConn false) e1))|].
    apply do_calls_channel in E2. rewrite E2. simpl. by rewrite (channel_call_channel _ _ _ E1).
  - destruct Hs as [Hs|Hs]; [done|]. rewrite bind_ok. by apply removed_unregistered.
Qed.

End view.
