(* ===== verification/ConnServer.v ===== *)
(** A [TcpConnection] of a [TcpServer]: the composition of the two models.

    [TcpServer] keeps of a connection only its name, reactor and state.  Here
    the connection is the one of [TcpConnection], with its channel, buffers,
    timers and user callbacks, and its close callback is the server's
    [remove_conn], as [TcpServer::new_conn_callback] sets it.  The refinement
    says that whatever this connection does, the server sees one of the moves
    that its own model makes, and that [connect_destroyed] as the server calls
    it succeeds. *)

From S2P Require Import Prelude Buffer Channel Poller EPollPoller TcpConnection ConnView ReactorThreadPool TcpServer.

Section joint.
Context {P : Type} `{PollerLaws P}.
Context (react : notice -> conn_env P -> list user_call) (c : conn_id).
Implicit Types (e : conn_env P) (w : world).

(** What the server sees of the connection. *)
Definition mirror e (k : conn) : conn :=
  mkConn (cn_name k) (cn_reactor k) (m_conn_state (e_conn e)) (told (NConn true) (e_trace e)) (cn_destroyed k).

Inductive joint_event : Type :=
| JEvent (ev : conn_event (P := P))
| JDestroyed (handling : bool) (current : option chan_ptr) (active : list chan_ptr).

(** A step of the connection in its reactor, with the close callback. *)
Definition joint_step (ev : joint_event) (j : world * conn_env P) : outcome (world * conn_env P) :=
  let '(w, e) := j in
  k ← of_option FNull (w_conns w !! c);
  match ev with
  | JEvent ev =>
      e' ← conn_step react ev e;
      let w := with_conn c (mirror e' k) w in
      w ← (if bool_decide (told NClose (e_trace e') = told NClose (e_trace e)) then Ok w else remove_conn cur_tid c w);
      Ok (w, e')
  | JDestroyed h cur act =>
      e' ← TcpConnection.connect_destroyed react h cur act e;
      Ok (with_conn c (mkConn (cn_name k) (cn_reactor k) (m_conn_state (e_conn e')) (cn_established k) true) w, e')
  end.

(** The server's record of the connection is up to date. *)
Definition sees e w : Prop :=
  exists k, w_conns w !! c = Some k /\ cn_reactor k = cur_tid /\ cn_destroyed k = false /\ k = mirror e k.

(** The moves of the server's own model. *)
Inductive server_move : joint_event -> world -> world -> Prop :=
| move_established w w1 w' :
    TcpServer.connect_established cur_tid c w = Ok w1 -> w' = w1 \/ server_step (WvShutdown c) w1 = Ok w' ->
    server_move (JEvent EvEstablished) w w'
| move_none ev w : ev <> EvEstablished -> server_move (JEvent ev) w w
| move_shutdown ev w w' : ev <> EvEstablished -> server_step (WvShutdown c) w = Ok w' -> server_move (JEvent ev) w w'
| move_close ev w w' : ev <> EvEstablished -> server_step (WvClose c) w = Ok w' -> server_move (JEvent ev) w w'
| move_destroyed h cur act w w' :
    TcpServer.connect_destroyed cur_tid c w = Ok w' -> server_move (JDestroyed h cur act) w w'.

(** An event that may come: [connect_destroyed] comes when the server's model
    admits it and the reactor permits the removal of the channel. *)
Definition jev_ok (ev : joint_event) w e : Prop :=
  match ev with
  | JEvent ev => event_ok ev e /\ (ev <> EvEstablished -> exists s, server_inv s w)
  | JDestroyed h cur act =>
      (exists w', TcpServer.connect_destroyed cur_tid c w = Ok w') /\ may_remove h cur act (m_channel (e_conn e)) = true
  end.

(** After the step: the views agree again, or the connection is out of the
    poller and may be deleted. *)
Definition joint_after (ev : joint_event) e w : Prop :=
  match ev with JEvent _ => reachable react e /\ sees e w | JDestroyed _ _ _ => unregistered e end.

(** ** The event of a connection *)

Lemma sees_mirror e' w k :
  w_conns w !! c = Some k -> cn_reactor k = cur_tid -> cn_destroyed k = false -> sees e' (with_conn c (mirror e' k) w).
Proof. intros Hk Hr Hd. exists (mirror e' k). simpl. by rewrite lookup_insert_eq. Qed.

Lemma with_conn_same w k : w_conns w !! c = Some k -> with_conn c k w = w.
Proof. intros Hk. unfold with_conn. rewrite insert_id by done. by destruct w. Qed.

Lemma shutdown_move w k :
  w_conns w !! c = Some k -> cn_state k = kConnected -> server_step (WvShutdown c) w = Ok (with_conn c (set_cn_state kDisconnecting k) w).
Proof. intros Hk Hs. unfold server_step. rewrite Hk. cbn. by rewrite Hs. Qed.

(** [remove_conn] leaves the connections as they are. *)
Lemma remove_conn_conns t c' w w' : remove_conn t c' w = Ok w' -> w_conns w' = w_conns w.
Proof.
  unfold remove_conn, run_asap. intros E. apply bind_ok_inv in E as (s & _ & E). destruct (t =? _); [|by injection E as <-].
  simpl in E. unfold remove_connection_in_reactor in E. apply bind_ok_inv in E as (s' & _ & E).
  apply bind_ok_inv in E as (? & _ & E). apply bind_ok_inv in E as (k & _ & E). apply bind_ok_inv in E as (? & _ & E).
  by injection E as <-.
Qed.

(** The close callback is the move that the server's model makes. *)
Lemma joint_closed s w k :
  server_inv s w -> w_conns w !! c = Some k -> cn_reactor k = cur_tid -> is_open (cn_state k) ->
  exists w', remove_conn cur_tid c (with_conn c (set_cn_state kDisconnected k) w) = Ok w' /\ server_step (WvClose c) w = Ok w' /\
    w_conns w' !! c = Some (set_cn_state kDisconnected k).
Proof.
  intros I Hk Hr Ho. destruct (returns_ok _ _ (close_spec s w c I (ex_intro _ k (conj Hk Ho)))) as (w' & E & _). exists w'.
  assert (remove_conn cur_tid c (with_conn c (set_cn_state kDisconnected k) w) = Ok w') as E'.
  { unfold server_step in E. rewrite Hk in E. cbn [of_option] in E. rewrite bind_ok, Hr in E.
    by destruct Ho as [Ho|Ho]; rewrite Ho in E. }
  split_and!; [done..|]. rewrite (remove_conn_conns _ _ _ _ E'). apply lookup_insert_eq.
Qed.

Lemma joint_established w k e e' :
  w_conns w !! c = Some k -> cn_reactor k = cur_tid -> k = mirror e k ->
  m_conn_state (e_conn e) = kConnecting -> is_open (m_conn_state (e_conn e')) ->
  told (NConn true) (e_trace e') = S (told (NConn true) (e_trace e)) ->
  server_move (JEvent EvEstablished) w (with_conn c (mirror e' k) w).
Proof.
  intros Hk Hr Hm Hs Ho T. pose proof (f_equal cn_state Hm) as Hst. pose proof (f_equal cn_established Hm) as He. simpl in Hst, He.
  set (k1 := mkConn (cn_name k) (cn_reactor k) kConnected (S (cn_established k)) (cn_destroyed k)).
  apply (move_established _ (with_conn c k1 w)).
  - unfold TcpServer.connect_established. rewrite Hk. cbn [of_option]. rewrite bind_ok, Hr, in_thread_same, bind_ok.
    by rewrite Hst, Hs, bool_decide_eq_true_2, <- Hr.
  - unfold mirror. rewrite T, <- He. destruct Ho as [-> | ->]; [by left|]. right.
    rewrite (shutdown_move _ k1); [|apply lookup_insert_eq|done]. unfold with_conn. simpl. by rewrite insert_insert_eq.
Qed.

Lemma joint_event_spec ev w e :
  react_ok react -> reachable react e -> sees e w -> jev_ok (JEvent ev) w e ->
  fine (fun '(w', e') => server_move (JEvent ev) w w' /\ reachable react e' /\ sees e' w') (joint_step (JEvent ev) (w, e)).
Proof.
  intros R Hr (k & Hk & Ht & Hd & Hm) [Hev Hs]. unfold joint_step. rewrite Hk. cbn [of_option]. rewrite bind_ok.
  pose proof (f_equal cn_state Hm) as Hst. pose proof (f_equal cn_established Hm) as He. simpl in Hst, He.
  eapply fine_bind; [by apply conn_step_sight|]. intros e' [Hr' [-> Hc Ho Tc Tu|Hne F Tc Tu|Hne Ho Hs' Tc Tu]].
  - rewrite bool_decide_eq_true_2 by done. simpl. split_and!; [by eapply joint_established|done|by apply sees_mirror].
  - rewrite bool_decide_eq_true_2 by done. simpl. split_and!; [|done|by apply sees_mirror]. destruct F as [F|[F1 F2]].
    + replace (mirror e' k) with k by (unfold mirror; by rewrite F, Tu). rewrite with_conn_same by done. by constructor.
    + apply move_shutdown; [done|]. rewrite (shutdown_move _ k) by congruence. unfold mirror, set_cn_state. by rewrite F2, Tu, <- He.
  - rewrite bool_decide_eq_false_2 by lia. destruct (Hs Hne) as [s I].
    destruct (joint_closed s w k I Hk Ht) as (w' & E1 & E2 & Hk'); [by rewrite Hst|].
    assert (mirror e' k = set_cn_state kDisconnected k) as -> by (unfold mirror, set_cn_state; by rewrite Hs', Tu, <- He).
    rewrite E1. simpl. split_and!; [by apply move_close|done|]. exists (set_cn_state kDisconnected k).
    split_and!; [done..|]. unfold mirror, set_cn_state. simpl. by rewrite Hs', Tu, <- He.
Qed.

(** C12: a connection does what the server's model of it does.  Let the
    server's record of a connection be up to date.  Then every event of the
    connection (being established, socket events, tasks, timers, user calls
    from any thread), with all its callbacks and with the server's
    [remove_conn] as its close callback, returns, the server's world makes at
    most one of its own moves (established, shutdown, close), and the record is
    up to date again.  And when the server runs [connect_destroyed] at a moment
    that its model admits, the connection's own [connect_destroyed] returns,
    takes the channel out of the poller, and leaves the connection in the state
    that its destructor asserts.  (Two failures remain: memory is exhausted, or
    the kernel refuses a registration.) *)
Theorem connection_refines_server ev w e :
  react_ok react -> reachable react e -> sees e w -> jev_ok ev w e ->
  fine (fun '(w', e') => server_move ev w w' /\ joint_after ev e' w') (joint_step ev (w, e)).
Proof.
  intros R Hr Hsee Hev. destruct ev as [ev|h cur act].
  - eapply fine_mono; [|by apply joint_event_spec]. by intros [w' e'].
  - destruct Hev as [[w1 E] Hm], Hsee as (k & Hk & Ht & Hd & Hmir). unfold joint_step. rewrite Hk. cbn [of_option]. rewrite bind_ok.
    pose proof (f_equal cn_state Hmir) as Hst. simpl in Hst. 
    assert (cn_state k = kConnected \/ cn_state k = kDisconnected) as Hs.
    { unfold TcpServer.connect_destroyed in E. rewrite Hk in E. cbn [of_option] in E. rewrite bind_ok, Ht, in_thread_same, bind_ok in E.
      apply bind_ok_inv in E as (? & E & _). apply assert_ok_inv, andb_true_iff in E as [E%bool_decide_eq_true _].
      case_bool_decide; auto. }
    eapply fine_bind; [apply connect_destroyed_spec; [done|done|by rewrite <- Hst|done]|]. intros e' [Hs' U]. simpl. split; [|done].
    constructor. unfold TcpServer.connect_destroyed. rewrite Hk, Hs'. cbn [of_option]. rewrite bind_ok, Ht, in_thread_same, bind_ok.
    destruct Hs as [Hs|Hs]; rewrite Hs; simpl; rewrite ?Hs, ?Hd; by rewrite Ht.
Qed.
End joint.

(** * A run *)

#[local] Existing Instance loop_thread.

(** A server with no I/O threads, and the connection that it accepted. *)
Definition one_conn_world : world :=
  match (w ← started_server 1 (lit "0.0.0.0:80") (lit "web") 0 false (fun i => 100 + i); server_run [WvAccept 7] w) with
  | Ok w => w | Fail _ => mkWorld None ∅ []
  end.

Lemma one_conn_inv : exists s, server_inv s one_conn_world.
Proof.
  pose proof (started_inv 1 (lit "0.0.0.0:80") (lit "web") 0 false (fun i => 100 + i) ltac:(lia) ltac:(by vm_compute)) as S.
  destruct (started_server 1 (lit "0.0.0.0:80") (lit "web") 0 false (fun i => 100 + i)) as [w0|] eqn:E; [|done].
  destruct S as (s0 & I0 & _). assert (all_wok [WvAccept 7] w0 = true) as Hok by (vm_compute in E; injection E as <-; by vm_compute).
  destruct (all_wok_run _ _ Hok) as (w & Ew & T). destruct (wsteps_inv _ _ T _ I0) as (s & I & _). exists s.
  unfold one_conn_world. rewrite E, bind_ok, Ew. exact I.
Qed.

(** The peer closes the connection: the server forgets it and queues its
    destruction. *)
Lemma connection_refines_server_witness :
  exists w' e', joint_step quiet 7 (JEvent (EvReadable (fun _ => IoBytes []))) (one_conn_world, after [EvEstablished]) = Ok (w', e') /\
    e_trace e' = [NConn true; NConn false; NClose] /\ w_tasks w' = [(1, TkDestroyed 7)] /\
    server_move 7 (JEvent (P := EPollPoller table_epoll) (EvReadable (fun _ => IoBytes []))) one_conn_world w' /\ sees 7 e' w'.
Proof.
  pose proof (connection_refines_server quiet 7 (JEvent (EvReadable (fun _ => IoBytes []))) one_conn_world (after [EvEstablished])
    quiet_ok (demo_reachable [EvEstablished] ltac:(all_ok))) as T.
  destruct (joint_step _ _ _ _) as [[w' e']|f] eqn:E; [|by vm_compute in E]. exists w', e'. split; [reflexivity|].
  destruct T as (Hm & _ & Hs).
  - exists (mkConn (lit "web:0.0.0.0:80#0") 1 kConnected 1 false). split; [by vm_compute|]. split; [done|]. split; [done|]. by vm_compute.
  - split; [split; [left; by vm_compute|by vm_compute]|]. intros _. exact one_conn_inv.
  - vm_compute in E. injection E as E1 E2. rewrite <- E1, <- E2 in *. split; [reflexivity|]. split; [reflexivity|]. split; [exact Hm|exact Hs].
Defined.
