(* ===== verification/ConnClient.v ===== *)
(** A [TcpConnection] of a [TcpClient]: as [ConnServer] for the client.

    The client establishes a connection in its [new_conn_callback], so its
    record says [kConnected] from the start.  The close callback is
    [TcpClient::remove_conn], or [detail::remove_conn] once the client is gone.
    The poller of the reactor is in the connection's model and in the
    connector's; each admits any change that the other one makes. *)

From S2P Require Import Prelude Buffer Channel Poller EPollPoller TcpConnection ConnView Connector TcpClient.

Section joint.
Context {P : Type} `{PollerLaws P}.
Context (react : notice -> conn_env P -> list user_call) (c : conn_id).
Implicit Types (e : conn_env P) (x : client_env P).

Inductive client_joint_event : Type :=
| CjEvent (ev : conn_event (P := P)) (fd err : Z) (ch : chan_ptr)    (* fd, err, ch: for a restart of the connector *)
| CjDestroyed (handling : bool) (current : option chan_ptr) (active : list chan_ptr).

Definition run_close_callback (cb : close_cb) (fd err : Z) (ch : chan_ptr) x : outcome (client_env P) :=
  match cb with CbClient => remove_conn c fd err ch x | CbDetail => Ok (detail_remove_conn c x) end.

(** A step of the connection in its reactor, with the close callback. *)
Definition client_joint_step (ev : client_joint_event) (j : client_env P * conn_env P) : outcome (client_env P * conn_env P) :=
  let '(x, e) := j in
  k ← the_conn c x;
  match ev with
  | CjEvent ev fd err ch =>
      e' ← conn_step react ev e;
      let x := with_cconn c (set_cc_state (m_conn_state (e_conn e')) k) x in
      x ← (if bool_decide (told NClose (e_trace e') = told NClose (e_trace e)) then Ok x
           else run_close_callback (cc_close k) fd err ch x);
      Ok (x, e')
  | CjDestroyed h cur act =>
      e' ← TcpConnection.connect_destroyed react h cur act e;
      Ok (with_cconn c (mkCConn (cc_name k) (cc_fd k) (m_conn_state (e_conn e')) (cc_close k) true) x, e')
  end.

(** The client's record is up to date. *)
Definition client_sees e x : Prop :=
  exists k, e_conns x !! c = Some k /\ cc_destroyed k = false /\
    cc_state k = (if bool_decide (m_conn_state (e_conn e) = kConnecting) then kConnected else m_conn_state (e_conn e)).

(** The moves of the client's own model. *)
Inductive client_move : client_joint_event -> client_env P -> client_env P -> Prop :=
| cmove_none ev fd err ch x : client_move (CjEvent ev fd err ch) x x
| cmove_shutdown ev fd err ch x x' : client_step (CvShutdown c) x = Ok x' -> client_move (CjEvent ev fd err ch) x x'
| cmove_close ev fd err ch x x' :
    ev <> EvEstablished -> client_step (CvClose c fd err ch) x = Ok x' -> client_move (CjEvent ev fd err ch) x x'
| cmove_destroyed h cur act x x' : TcpClient.connect_destroyed c x = Ok x' -> client_move (CjDestroyed h cur act) x x'.

(** An event that may come; [connect_established] is the first one. *)
Definition cjev_ok (ev : client_joint_event) x e : Prop :=
  match ev with
  | CjEvent ev fd err ch =>
      event_ok ev e /\ (m_conn_state (e_conn e) = kConnecting -> ev = EvEstablished) /\ client_inv x /\ quiet x fd ch
  | CjDestroyed h cur act =>
      (exists x', TcpClient.connect_destroyed c x = Ok x') /\ m_conn_state (e_conn e) <> kConnecting /\
      may_remove h cur act (m_channel (e_conn e)) = true
  end.

Definition client_joint_after (ev : client_joint_event) e x : Prop :=
  match ev with CjEvent _ _ _ _ => reachable react e /\ client_sees e x | CjDestroyed _ _ _ => unregistered e end.

Lemma with_cconn_same x k : e_conns x !! c = Some k -> with_cconn c (set_cc_state (cc_state k) k) x = x.
Proof. intros Hk. unfold with_cconn. rewrite insert_id by (rewrite Hk; by destruct k). by destruct x. Qed.

Lemma cshutdown_move x k :
  e_conns x !! c = Some k -> cc_state k = kConnected -> client_step (CvShutdown c) x = Ok (with_cconn c (set_cc_state kDisconnecting k) x).
Proof. intros Hk Hs. simpl. unfold shutdown. rewrite (the_conn_ok _ _ _ Hk), bind_ok. by rewrite Hs. Qed.

(** The close callback leaves the connections as they are. *)
Lemma close_callback_conns cb fd err ch x x' : run_close_callback cb fd err ch x = Ok x' -> e_conns x' = e_conns x.
Proof.
  destruct cb; simpl; [|by intros [= <-]]. unfold remove_conn. intros E. apply bind_ok_inv in E as (cl & _ & E).
  apply bind_ok_inv in E as (? & _ & E). apply bind_ok_inv in E as (? & _ & E). destruct (_ && _); [|by injection E as <-].
  apply bind_ok_inv in E as (k & _ & E). by injection E as <-.
Qed.

Lemma client_closed x k fd err ch :
  client_inv x -> quiet x fd ch -> e_conns x !! c = Some k -> is_open (cc_state k) ->
  fine (fun x' => client_step (CvClose c fd err ch) x = Ok x' /\ e_conns x' !! c = Some (set_cc_state kDisconnected k))
    (run_close_callback (cc_close k) fd err ch (with_cconn c (set_cc_state kDisconnected k) x)).
Proof.
  intros I Hq Hk Ho. assert (conn_open k = true) as Ho' by (unfold conn_open; by destruct Ho as [-> | ->]).
  pose proof (client_handle_close_spec true c k fd err ch x I Hk Ho' Hq) as F. simpl client_step.
  assert (handle_close c fd err ch x = run_close_callback (cc_close k) fd err ch (with_cconn c (set_cc_state kDisconnected k) x)) as E.
  { unfold handle_close. rewrite (the_conn_ok _ _ _ Hk), bind_ok, Ho'. done. }
  rewrite <- E. destruct (handle_close c fd err ch x) as [x'|f] eqn:E'; [|exact F]. simpl. split; [done|].
  rewrite (close_callback_conns _ _ _ _ _ _ (eq_sym E)). apply lookup_insert_eq.
Qed.

Lemma client_event_spec ev fd err ch x e :
  react_ok react -> reachable react e -> client_sees e x -> cjev_ok (CjEvent ev fd err ch) x e ->
  fine (fun '(x', e') => client_move (CjEvent ev fd err ch) x x' /\ reachable react e' /\ client_sees e' x')
    (client_joint_step (CjEvent ev fd err ch) (x, e)).
Proof.
  intros R Hr (k & Hk & Hd & Hst) (Hev & Hfirst & I & Hq). unfold client_joint_step. rewrite (the_conn_ok _ _ _ Hk), bind_ok.
  assert (forall e', m_conn_state (e_conn e') <> kConnecting ->
    client_sees e' (with_cconn c (set_cc_state (m_conn_state (e_conn e')) k) x)) as Sees.
  { intros e' Hn. eexists. simpl. rewrite lookup_insert_eq. split; [done|]. split; [done|]. by rewrite bool_decide_eq_false_2. }
  eapply fine_bind; [by apply conn_step_sight|]. intros e' [Hr' [-> Hc Ho Tc Tu|Hne F Tc Tu|Hne Ho Hs' Tc Tu]].
  - rewrite bool_decide_eq_true_2 in Hst by done. rewrite bool_decide_eq_true_2 by done. simpl.
    split_and!; [|done|apply Sees; destruct Ho; congruence]. destruct Ho as [Ho|Ho]; rewrite Ho.
    + rewrite <- Hst, with_cconn_same by done. constructor.
    + apply cmove_shutdown. by apply cshutdown_move.
  - assert (m_conn_state (e_conn e) <> kConnecting) as Hn by auto. rewrite bool_decide_eq_false_2 in Hst by done.
    rewrite bool_decide_eq_true_2 by done. simpl. destruct F as [F|[F1 F2]].
    + split_and!; [|done|apply Sees; congruence]. rewrite F, <- Hst, with_cconn_same by done. constructor.
    + split_and!; [|done|apply Sees; congruence]. rewrite F2. apply cmove_shutdown, cshutdown_move; congruence.
  - assert (m_conn_state (e_conn e) <> kConnecting) as Hn by auto. rewrite bool_decide_eq_false_2 in Hst by done.
    rewrite bool_decide_eq_false_2 by lia. rewrite Hs'. rewrite <- Hst in Ho.
    eapply fine_bind; [by apply (client_closed x k fd err ch)|]. intros x' [Ex Hk']. simpl.
    split_and!; [by apply cmove_close|done|]. eexists. split; [exact Hk'|]. split; [done|]. by rewrite Hs'.
Qed.

(** C9: a connection does what the client's model of it does.  Let the
    client's record of its connection be up to date.  Then every event of the
    connection, with all its callbacks and with the client's close callback
    ([remove_conn], which starts the connector again when retry is enabled, or
    [detail::remove_conn] once the client is gone), returns, the client's world
    makes at most one of its own moves (shutdown or close), and the record is
    up to date again.  And when the client's queued [connect_destroyed] runs,
    the connection's own returns, takes the channel out of the poller, and
    leaves the connection in the state that its destructor asserts.  (Two
    failures remain: memory is exhausted, or the kernel refuses a
    registration.) *)
Theorem connection_refines_client ev x e :
  react_ok react -> reachable react e -> client_sees e x -> cjev_ok ev x e ->
  fine (fun '(x', e') => client_move ev x x' /\ client_joint_after ev e' x') (client_joint_step ev (x, e)).
Proof.
  intros R Hr Hsee Hev. destruct ev as [ev fd err ch|h cur act].
  - eapply fine_mono; [|by apply client_event_spec]. by intros [x' e'].
  - destruct Hev as ([x1 E] & Hn & Hm), Hsee as (k & Hk & Hd & Hst). rewrite bool_decide_eq_false_2 in Hst by done.
    unfold client_joint_step. rewrite (the_conn_ok _ _ _ Hk), bind_ok.
    assert (cc_state k = kConnected \/ cc_state k = kDisconnected) as Hs.
    { unfold TcpClient.connect_destroyed in E. rewrite (the_conn_ok _ _ _ Hk), bind_ok in E.
      apply bind_ok_inv in E as (? & E & _). apply assert_ok_inv, andb_true_iff in E as [E%bool_decide_eq_true _].
      case_bool_decide; auto. }
    eapply fine_bind; [apply connect_destroyed_spec; [done|done|by rewrite <- Hst|done]|]. intros e' [Hs' U]. simpl. split; [|done].
    constructor. unfold TcpClient.connect_destroyed. rewrite (the_conn_ok _ _ _ Hk), bind_ok, Hs'.
    destruct Hs as [Hs|Hs]; rewrite Hs; simpl; by rewrite ?Hs, ?Hd.
Qed.
End joint.

(** * A run *)

#[local] Existing Instance TcpConnection.loop_thread.

(** A client with retry and its connection. *)
Definition connecting_events : list client_event :=
  [CvEnableRetry; CvConnect true 5 EINPROGRESS 0; CvConnector (KvWrite [0] 0 false) (lit "10.0.0.1:80") 70; CvConnector (KvTask 6 0 1) [] 71].
Definition connected_client : client_env (EPollPoller table_epoll) :=
  match client_run connecting_events demo_client with Ok x => x | Fail _ => demo_client end.

Lemma connected_client_inv : client_inv connected_client.
Proof.
  assert (all_cok connecting_events demo_client = true) as Hok by (by vm_compute).
  destruct (all_cok_run _ _ Hok) as (x & E & T).
  assert (connected_client = x) as -> by (unfold connected_client; by rewrite E).
  eapply csteps_inv; [exact T|]. apply client_start_inv. exact demo_poller_ok.
Qed.

(** The peer closes the connection: the connector starts again. *)
Lemma connection_refines_client_witness :
  exists x' e', client_joint_step TcpConnection.quiet 70 (CjEvent (EvReadable (fun _ => IoBytes [])) 6 EINPROGRESS 1) (connected_client, after [EvEstablished]) = Ok (x', e') /\
    e_tasks x' = [CtDestroyed 70] /\ connector_state x' = kcConnecting /\
    client_move 70 (CjEvent (P := EPollPoller table_epoll) (EvReadable (fun _ => IoBytes [])) 6 EINPROGRESS 1) connected_client x' /\ client_sees 70 e' x'.
Proof.
  pose proof (connection_refines_client TcpConnection.quiet 70 (CjEvent (EvReadable (fun _ => IoBytes [])) 6 EINPROGRESS 1) connected_client (after [EvEstablished])
    quiet_ok (demo_reachable [EvEstablished] ltac:(all_ok))) as T.
  destruct (client_joint_step _ _ _ _) as [[x' e']|f] eqn:E; [|by vm_compute in E]. exists x', e'. split; [reflexivity|].
  destruct T as (Hm & _ & Hs).
  - exists (mkCConn (lit "cli:10.0.0.1:80#1") 5 kConnected CbClient false). split; [by vm_compute|]. split; [done|]. by vm_compute.
  - split_and!; [split; [left; by vm_compute|by vm_compute]|by vm_compute|exact connected_client_inv|apply quiet_okb_ok; by vm_compute].
  - vm_compute in E. injection E as E1 E2. rewrite <- E1, <- E2 in *. split; [reflexivity|]. split; [reflexivity|]. split; [exact Hm|exact Hs].
Defined.
