(* ===== verification/ProcessInfo.v ===== *)
(** [flute/common/ProcessInfo.{h,cc}]: what a process reports about itself.

    The answers of the system (the files under /proc, the entries of a
    directory, gethostname, getpwuid_r, readlink, getrlimit, times) are
    arguments. *)

From stdpp Require Import sorting.
From S2P Require Import Prelude StringPiece Format HttpRequest Timestamp LogFile.

(** ** Text *)

(** [std::string::find] and [rfind] of a character, and [find] of a string:
    [None] is npos. *)
Definition string_find (c : byte) (l : bytes) : option Z := memchr c l.
Definition string_rfind (c : byte) (l : bytes) : option Z := p ← memchr c (reverse l); Some (len l - 1 - p).
Definition string_search (pat l : bytes) : option Z := let p := std_search pat l in if p =? len l then None else Some p.

Definition isdigit (c : byte) : bool := (48 <=? Z_of_byte c) && (Z_of_byte c <=? 57).

Fixpoint take_digits (l : bytes) : bytes :=
  match l with c :: l => if isdigit c then c :: take_digits l else [] | [] => [] end.

(** [atoi]: undefined when the number is not an int. *)
Definition atoi (l : bytes) : outcome Z :=
  let l := skip_space l in
  let v := match l with
           | c :: l' => if decide (c = "-"%char) then - dec_value (take_digits l')
                        else if decide (c = "+"%char) then dec_value (take_digits l') else dec_value (take_digits l)
           | [] => 0
           end in
  require FOverflow ((- 2 ^ 31 <=? v) && (v <? 2 ^ 31));; Ok v.

(** A [char] array as a C string. *)
Definition c_string (buf : bytes) : outcome bytes := n ← strlen buf; Ok (take (Z.to_nat n) buf).

(** ** Files under /proc *)

(** A file as the system gives it: its text ([None]: it cannot be opened) and
    what the calls of read(2) answer. *)
Record proc_file : Type := mkProcFile { pf_text : option bytes; pf_reads : list Z; pf_errno : Z }.

(** [FileUtil::read_file(name, 65536, &result)] with an empty [result]. *)
Definition read_proc (f : proc_file) : outcome bytes :=
  '(_, s) ← read_to_string (pf_text f) (pf_errno f) None false (pf_reads f) (pf_errno f) 65536 []; Ok s.

Definition procStat (f : proc_file) : outcome bytes := read_proc f.
Definition procStatus (f : proc_file) : outcome bytes := read_proc f.

(** The path that [threadStat] reads. *)
Definition thread_stat_path (tid : Z) : bytes := snprintf 64 (lit "/proc/self/task/" ++ dec tid ++ lit "/stat").
Definition threadStat (tid : Z) (fs : bytes -> proc_file) : outcome bytes := read_proc (fs (thread_stat_path tid)).

(** [procname(const string& stat)]: the piece between the parentheses. *)
Definition procname_of (stat : bytes) : bytes :=
  match string_find "("%char stat, string_rfind ")"%char stat with
  | Some lp, Some rp => if lp <? rp then slice stat (lp + 1) (lp + 1 + (rp - lp - 1)) else []
  | _, _ => []
  end.
Definition procname (f : proc_file) : outcome bytes := s ← procStat f; Ok (procname_of s).

Definition numThreads (f : proc_file) : outcome Z :=
  status ← procStatus f;
  match string_search (lit "Threads:") status with
  | Some pos => atoi (drop (Z.to_nat (pos + 8)) status)
  | None => Ok 0
  end.

(** ** Directories *)

(** [scanDir]: the filter sees every entry in turn and selects none, so that
    [namelist] stays NULL.  [None] is a directory that cannot be read. *)
Definition scanDir {S : Type} (entries : option (list bytes)) (filter : bytes -> S -> outcome S) (s : S) : outcome S :=
  match entries with None => Ok s | Some l => foldl (fun m d => s ← m; filter d s) (Ok s) l end.

(** [d->d_name[0]]: the terminator for an empty name. *)
Definition first_char (name : bytes) : byte := default NUL (head name).

Definition fdDirFilter (d_name : bytes) (t_num_opened_files : Z) : outcome Z :=
  if isdigit (first_char d_name) then require FOverflow (t_num_opened_files + 1 <? 2 ^ 31);; Ok (t_num_opened_files + 1)
  else Ok t_num_opened_files.
Definition taskDirFilter (d_name : bytes) (t_pids : list Z) : outcome (list Z) :=
  if isdigit (first_char d_name) then n ← atoi d_name; Ok (t_pids ++ [n]) else Ok t_pids.

Definition openedFiles (fds : option (list bytes)) : outcome Z := scanDir fds fdDirFilter 0.

(** [rlim]: the limit that getrlimit gives, if it succeeds. *)
Definition maxOpenFiles (rlim : option Z) (fds : option (list bytes)) : outcome Z :=
  match rlim with None => openedFiles fds | Some cur => Ok (s32 cur) end.

Definition threads (tasks : option (list bytes)) : outcome (list Z) :=
  pids ← scanDir tasks taskDirFilter []; Ok (merge_sort Z.le pids).

(** ** The rest *)

Definition pidString (pid : Z) : bytes := snprintf 32 (dec pid).
(** [pw_name]: the name that getpwuid_r found. *)
Definition username (pw_name : option bytes) : bytes := default (lit "unknownuser") pw_name.

(** [answer]: the array that gethostname filled, if it succeeds. *)
Definition hostname (answer : option bytes) : outcome bytes :=
  match answer with Some buf => c_string (<[255%nat := NUL]> buf) | None => Ok (lit "unknownhost") end.

(** [n] bytes that readlink wrote into the array. *)
Definition exePath (n : Z) (buf : bytes) : bytes := if 0 <? n then take (Z.to_nat n) buf else [].

Definition cpuTime (g_clockTicks : Z) (tms : option (Z * Z)) : double * double :=
  match tms with
  | Some (utime, stime) =>
      let hz := double_of_Z g_clockTicks in (double_div (double_of_Z utime) hz, double_div (double_of_Z stime) hz)
  | None => (zero_point_zero, zero_point_zero)
  end.

(** * Lemmas *)

Lemma string_find_head c l k : c ∉ l -> string_find c (l ++ c :: k) = Some (len l).
Proof.
  intros Hc. unfold string_find, memchr. rewrite std_find_head by done.
  rewrite (proj2 (Z.eqb_neq _ _)); [done|]. rewrite len_app, len_cons. len_pose. lia.
Qed.

Lemma string_rfind_last c l k : c ∉ k -> string_rfind c (l ++ c :: k) = Some (len l).
Proof.
  intros Hc. unfold string_rfind. rewrite reverse_app, reverse_cons, <- app_assoc.
  pose proof (string_find_head c (reverse k) (reverse l)) as E. rewrite elem_of_reverse in E. unfold string_find in E.
  simpl. rewrite E by done. simpl. f_equal.
  rewrite len_app, len_cons. unfold len. rewrite length_reverse. lia.
Qed.

Lemma take_digits_all l k : Forall is_digit l -> (forall c, head k = Some c -> ~ is_digit c) -> take_digits (l ++ k) = l.
Proof.
  intros Hl Hk. assert (forall c, isdigit c = true <-> is_digit c) as D.
  { intros c. unfold isdigit, is_digit. rewrite andb_true_iff, !Z.leb_le. done. }
  induction Hl as [|c l Hc _ IH]; simpl.
  - destruct k as [|c k]; simpl; [done|]. specialize (Hk c eq_refl). rewrite <- D in Hk. by destruct (isdigit c).
  - apply D in Hc. by rewrite Hc, IH.
Qed.

Lemma skip_space_app ws l : Forall (fun c => isspace c = true) ws -> (forall c, head l = Some c -> isspace c = false) ->
  skip_space (ws ++ l) = l.
Proof.
  intros Hws Hl. induction Hws as [|c ws Hc _ IH]; simpl; [|by rewrite Hc].
  destruct l as [|c l]; simpl; [done|]. by rewrite (Hl c eq_refl).
Qed.

(** A natural number is printed with at least one digit. *)
Lemma dec_digits n : 0 <= n -> exists c l, dec n = c :: l /\ Forall is_digit (c :: l) /\ dec_value (c :: l) = n.
Proof.
  intros Hn. unfold dec. destruct (Z.ltb_spec n 0); [lia|]. pose proof (dec_abs_digits n Hn) as D.
  pose proof (dec_abs_value n Hn) as V. destruct (dec_abs n) as [|c l] eqn:El; [|by exists c, l].
  change (dec_value []) with 0 in V. subst n. discriminate El.
Qed.

(** A decimal number behind white space, up to something that is no digit. *)
Lemma atoi_dec ws n k :
  Forall (fun c => isspace c = true) ws -> (forall c, head k = Some c -> ~ is_digit c) -> 0 <= n < 2 ^ 31 ->
  atoi (ws ++ dec n ++ k) = Ok n.
Proof.
  intros Hws Hk Hn. destruct (dec_digits n ltac:(lia)) as (c & l & -> & Dd & V). assert (is_digit c) as Dc by (by inversion Dd). unfold is_digit in Dc. unfold atoi.
  rewrite skip_space_app; [|done|intros c' [= <-]; unfold isspace; lia].
  cbn [app]. rewrite decide_False by (intros ->; by destruct Dc). rewrite decide_False by (intros ->; by destruct Dc).
  change (c :: l ++ k) with ((c :: l) ++ k). rewrite take_digits_all by done. rewrite V.
  rewrite require_true by lia. done.
Qed.

(** A file of at most 64 KiB is read in full, however the reads are cut. *)
Lemma read_proc_spec text rs errno :
  len text <= 65536 -> all_positive rs -> read_proc (mkProcFile (Some text) rs errno) = Ok text.
Proof.
  intros Hl Hp. unfold read_proc, read_to_string. cbn [pf_text pf_reads pf_errno]. change (u64 65536) with 65536.
  destruct (read_loop_spec (S (length text)) rs errno text 65536 0 errno) as (e & m & E & _ & _ & Q); [unfold len; lia..|].
  rewrite slice_empty in E by lia. rewrite E. destruct (Q Hp) as [_ ->]. simpl. f_equal.
  replace (Z.max 0 (Z.min (len text) 65536)) with (len text) by (unfold len in *; lia). apply slice_all.
Qed.

(** * Theorems *)

(** The name of the process, whatever characters it has: in the line
    [pid (name) state ...] of /proc/self/stat it may hold blanks and
    parentheses, and what follows it holds none. *)
Theorem procname_exact pid name rest rs errno :
  0 <= pid -> ")"%char ∉ rest -> all_positive rs ->
  let stat := dec pid ++ lit " (" ++ name ++ lit ")" ++ rest in
  len stat <= 65536 -> procname (mkProcFile (Some stat) rs errno) = Ok name.
Proof.
  intros Hp Hr Hrs stat Hl. unfold procname, procStat. rewrite read_proc_spec by done. rewrite bind_ok. f_equal.
  assert (stat = (dec pid ++ lit " ") ++ "("%char :: (name ++ lit ")" ++ rest)) as E1 by (unfold stat; by rewrite <- app_assoc).
  assert (stat = (dec pid ++ lit " (" ++ name) ++ ")"%char :: rest) as E2 by (unfold stat; by rewrite <- !app_assoc).
  assert ("("%char ∉ dec pid ++ lit " ") as Hn.
  { rewrite elem_of_app. intros [Hin|Hin]; [|by apply list_elem_of_singleton in Hin].
    unfold dec in Hin. destruct (Z.ltb_spec pid 0); [lia|]. pose proof (dec_abs_digits pid Hp) as D. rewrite Forall_forall in D.
    specialize (D _ Hin). by destruct D. }
  unfold procname_of. pose proof (string_find_head _ _ (name ++ lit ")" ++ rest) Hn) as F1. rewrite <- E1 in F1.
  pose proof (string_rfind_last _ (dec pid ++ lit " (" ++ name) _ Hr) as F2. rewrite <- E2 in F2. rewrite F1, F2.
  rewrite !len_app. change (len (lit " (")) with 2. change (len (lit " ")) with 1.
  rewrite (proj2 (Z.ltb_lt _ _)) by (unfold len; lia).
  replace stat with ((dec pid ++ lit " (") ++ name ++ lit ")" ++ rest) by (unfold stat; by rewrite <- app_assoc).
  rewrite slice_app_r by (rewrite len_app; change (len (lit " (")) with 2; lia). rewrite len_app. change (len (lit " (")) with 2.
  rewrite slice_app_l by lia.
  match goal with |- slice _ ?i ?j = _ => replace i with 0 by lia; replace j with (len name) by lia end. apply slice_all.
Qed.

(** The number of threads is the one of the first line with that key. *)
Theorem num_threads_exact before n rest rs errno :
  0 <= n < 2 ^ 31 -> all_positive rs ->
  let status := before ++ lit "Threads:" ++ ["009"%char] ++ dec n ++ [LF] ++ rest in
  std_search (lit "Threads:") status = len before -> len status <= 65536 ->
  numThreads (mkProcFile (Some status) rs errno) = Ok n.
Proof.
  intros Hn Hrs status Hs Hl. unfold numThreads, procStatus. rewrite read_proc_spec by done. rewrite bind_ok.
  unfold string_search. rewrite Hs, (proj2 (Z.eqb_neq _ _)).
  - unfold status. replace (Z.to_nat (len before + 8)) with (length (before ++ lit "Threads:")).
    + rewrite (app_assoc before), drop_app_length. apply atoi_dec; [by repeat constructor| |done]. intros c [= <-]. by intros [].
    + rewrite length_app. unfold len. change (length (lit "Threads:")) with 8%nat. lia.
  - unfold status. rewrite !len_app. change (len (lit "Threads:")) with 8. unfold len. lia.
Qed.

(** The entries of /proc/self/task: the ids of the threads, and others. *)
Definition task_entry (x : bytes + Z) : bytes := match x with inl name => name | inr n => dec n end.
Definition task_entry_ok (x : bytes + Z) : Prop :=
  match x with inl name => isdigit (first_char name) = false | inr n => 0 <= n < 2 ^ 31 end.
Definition task_ids (l : list (bytes + Z)) : list Z := omap (fun x => match x with inl _ => None | inr n => Some n end) l.

Lemma dec_first_digit n : 0 <= n -> isdigit (first_char (dec n)) = true.
Proof.
  intros Hn. destruct (dec_digits n Hn) as (c & l & -> & D & _). inversion D as [|? ? Dc]; subst. unfold is_digit in Dc.
  change (first_char (c :: l)) with c. unfold isdigit. lia.
Qed.

Lemma scan_tasks l : Forall task_entry_ok l -> forall acc,
  foldl (fun m d => s ← m; taskDirFilter d s) (Ok acc) (task_entry <$> l) = Ok (acc ++ task_ids l).
Proof.
  induction 1 as [|x l Hx _ IH]; intros acc; simpl; [by rewrite app_nil_r|].
  destruct x as [name|n]; simpl in *; unfold taskDirFilter at 2.
  - rewrite Hx. apply IH.
  - rewrite dec_first_digit by lia. pose proof (atoi_dec [] n []) as E. simpl in E. rewrite app_nil_r in E.
    rewrite E by (done || constructor). simpl. rewrite IH. by rewrite <- app_assoc.
Qed.

(** The thread ids are those of the numeric entries, in ascending order. *)
Theorem threads_sorted l :
  Forall task_entry_ok l ->
  exists pids, threads (Some (task_entry <$> l)) = Ok pids /\ pids ≡ₚ task_ids l /\ Sorted Z.le pids.
Proof.
  intros Hl. unfold threads, scanDir. rewrite scan_tasks by done. rewrite bind_ok. eexists. split; [done|].
  split; [apply merge_sort_Permutation|apply (Sorted_merge_sort Z.le)].
Qed.

Example threads_of_dir : threads (Some [lit "."; lit ".."; lit "31"; lit "7"; lit "19"]) = Ok [7; 19; 31].
Proof. by vm_compute. Qed.

Example opened_of_dir : openedFiles (Some [lit "."; lit ".."; lit "0"; lit "1"; lit "12"]) = Ok 3.
Proof. by vm_compute. Qed.

Example procname_of_parens : procname_of (lit "12 (a) (b) S 1 12") = lit "a) (b".
Proof. by vm_compute. Qed.

(** The search for the key does not stop at the name of the process. *)
Example num_threads_of_name :
  numThreads (mkProcFile (Some (lit "Name:" ++ ["009"%char] ++ lit "Threads:9" ++ [LF] ++ lit "Threads:" ++ ["009"%char] ++ lit "2" ++ [LF])) [] 0) = Ok 9.
Proof. by vm_compute. Qed.
