(* ===== verification/ZlibStream.v ===== *)
(** [flute/net/ZlibStream.h]: [ZlibOutputStream], which compresses into a
    [Buffer].

    zlib is a parameter: [ZlibOps] has the functions that the class calls, as
    functions of the compressor's own state, and [ZlibLaws] what the manual of
    zlib says of them.  [ZlibInputStream] is only declared. *)

From S2P Require Import Prelude StringPiece Buffer.

Definition Z_OK : Z := 0.
Definition Z_STREAM_END : Z := 1.
Definition Z_BUF_ERROR : Z := -5.
Definition Z_NO_FLUSH : Z := 0.
Definition Z_FINISH : Z := 4.

(** [deflate flush st d room]: the return code, the new state, how much of the
    input [d] was taken, and the output, for which there is [room]. *)
Class ZlibOps := {
  z_state : Type;
  deflateInit : Z * z_state;
  deflate : Z -> z_state -> bytes -> Z -> Z * z_state * Z * bytes;
  deflateEnd : z_state -> Z;
  deflateBound : Z -> Z;
  inflated : bytes -> option bytes   (* what a complete stream decompresses to *)
}.

(** [z_ran st inp out fin]: the compressor has taken [inp] and given [out];
    [fin] is the input that was left when Z_FINISH was given last.  From the
    manual: progress is made when there is room and something to do; once
    Z_FINISH was given, the calls go on with the same input; at the end all
    input was taken and the output is a complete stream; and [deflateBound]
    bounds the size of the output. *)
Class ZlibLaws `{ZlibOps} := {
  z_ran : z_state -> bytes -> bytes -> option bytes -> Prop;
  init_law : deflateInit.1 = Z_OK -> z_ran deflateInit.2 [] [] None;
  deflate_law : forall flush st inp out fin d room err st' k o,
    z_ran st inp out fin -> 0 < room ->
    flush = Z_NO_FLUSH /\ fin = None /\ d <> [] \/ flush = Z_FINISH /\ (fin = None \/ fin = Some d) ->
    deflate flush st d room = (err, st', k, o) ->
    0 <= k <= len d /\ len o <= room /\
    z_ran st' (inp ++ take (Z.to_nat k) d) (out ++ o)
      (if flush =? Z_FINISH then Some (drop (Z.to_nat k) d) else None) /\
    (err = Z_OK /\ 0 < k + len o \/
     err = Z_STREAM_END /\ flush = Z_FINISH /\ k = len d /\ inflated (out ++ o) = Some (inp ++ d) /\ deflateEnd st' = Z_OK);
  bound_law : forall st inp out fin, z_ran st inp out fin -> len out <= deflateBound (len inp);
  bound_mono : forall n m, 0 <= n <= m -> deflateBound n <= deflateBound m
}.

Section zlib.
Context `{ZlibOps}.

(** [next_in] is the memory at the pointer, [None] for NULL; [avail_in] of its
    bytes are input. *)
Record ZlibOutputStream : Type := mkZlib {
  output_ : Buffer;
  zstream_ : z_state;
  next_in : option bytes;
  avail_in : Z;
  total_in : Z;
  total_out : Z;
  zerror_ : Z;
  bufferSize_ : Z
}.

Definition new_ZlibOutputStream (output : Buffer) : ZlibOutputStream :=
  mkZlib output deflateInit.2 None 0 0 0 deflateInit.1 1024.

Definition zlibErrorCode (z : ZlibOutputStream) : Z := zerror_ z.
Definition inputBytes (z : ZlibOutputStream) : Z := s64 (total_in z).
Definition outputBytes (z : ZlibOutputStream) : Z := s64 (total_out z).
Definition internalOutputBufferSize (z : ZlibOutputStream) : Z := bufferSize_ z.

Definition set_zerror (e : Z) (z : ZlibOutputStream) : ZlibOutputStream :=
  mkZlib (output_ z) (zstream_ z) (next_in z) (avail_in z) (total_in z) (total_out z) e (bufferSize_ z).
Definition set_next_in (p : option bytes) (n : Z) (z : ZlibOutputStream) : ZlibOutputStream :=
  mkZlib (output_ z) (zstream_ z) p n (total_in z) (total_out z) (zerror_ z) (bufferSize_ z).

(** The input that is left. *)
Definition z_input (z : ZlibOutputStream) : bytes := take (Z.to_nat (avail_in z)) (default [] (next_in z)).

(** [compress]; avail_out is an unsigned 32-bit number. *)
Definition compress (flush : Z) (z : ZlibOutputStream) : outcome (Z * ZlibOutputStream) :=
  out ← ensure_writable_len (output_ z) (bufferSize_ z);
  let room := u32 (writable_bytes_len out) in
  let '(error, st, k, o) := deflate flush (zstream_ z) (z_input z) room in
  out ← store out (write_base out) o;
  let avail_out := u32 (room - len o) in
  out ← mark_written out (u64 (writable_bytes_len out - avail_out));
  let size := if (writable_bytes_len out =? 0) && (bufferSize_ z <? 65536) then bufferSize_ z * 2 else bufferSize_ z in
  Ok (error, mkZlib out st (drop (Z.to_nat k) <$> next_in z) (u32 (avail_in z - k)) (u64 (total_in z + k)) (u64 (total_out z + len o))
        (zerror_ z) size).

(** [zerror_ = compress(flush)]. *)
Definition compress_step (flush : Z) (z : ZlibOutputStream) : outcome ZlibOutputStream :=
  '(error, z) ← compress flush z; Ok (set_zerror error z).

(** Every turn of the loops takes input or gives output, and there is only so
    much of both. *)
Definition z_fuel (z : ZlibOutputStream) : nat :=
  S (Z.to_nat (avail_in z + (deflateBound (total_in z + avail_in z) - total_out z))).

Fixpoint write_loop (fuel : nat) (z : ZlibOutputStream) : outcome ZlibOutputStream :=
  if (0 <? avail_in z) && (zerror_ z =? Z_OK) then
    match fuel with O => Fail FFuel | S fuel => z ← compress_step Z_NO_FLUSH z; write_loop fuel z end
  else Ok z.

(** [write(StringPiece buf)]. *)
Definition write_piece (buf : StringPiece) (z : ZlibOutputStream) : outcome (bool * ZlibOutputStream) :=
  if negb (zerror_ z =? Z_OK) then Ok (false, z)
  else
    assert_ (bool_decide (next_in z = None) && (avail_in z =? 0));;
    let z := set_next_in (Some (data buf)) (u32 (size buf)) z in
    z ← write_loop (z_fuel z) z;
    z ← (if avail_in z =? 0 then
           (* next_in == buf.end() *)
           assert_ (bool_decide (next_in z = Some (drop (Z.to_nat (size buf)) (data buf))));;
           Ok (set_next_in None (avail_in z) z)
         else Ok z);
    Ok (zerror_ z =? Z_OK, z).

(** [write] of a buffer [input]. *)
Definition write_buffer (input : Buffer) (z : ZlibOutputStream) : outcome (bool * Buffer * ZlibOutputStream) :=
  if negb (zerror_ z =? Z_OK) then Ok (false, input, z)
  else
    let z := set_next_in (Some (drop (Z.to_nat (peek_base input)) (m_buffer input))) (u32 (s32 (content_bytes_len input))) z in
    z ← (if (0 <? avail_in z) && (zerror_ z =? Z_OK) then compress_step Z_NO_FLUSH z else Ok z);
    input ← retrieve input (u64 (content_bytes_len input - avail_in z));
    Ok (zerror_ z =? Z_OK, input, z).

Fixpoint finish_loop (fuel : nat) (z : ZlibOutputStream) : outcome ZlibOutputStream :=
  if zerror_ z =? Z_OK then
    match fuel with O => Fail FFuel | S fuel => z ← compress_step Z_FINISH z; finish_loop fuel z end
  else Ok z.

(** [finish], which is also the destructor. *)
Definition finish (z : ZlibOutputStream) : outcome (bool * ZlibOutputStream) :=
  if negb (zerror_ z =? Z_OK) then Ok (false, z)
  else
    z ← finish_loop (S (z_fuel z)) z;
    let ok := deflateEnd (zstream_ z) =? Z_OK in
    Ok (ok, set_zerror Z_STREAM_END z).

(** A client that writes some pieces and finishes. *)
Fixpoint write_pieces (ds : list bytes) (z : ZlibOutputStream) : outcome (bool * ZlibOutputStream) :=
  match ds with
  | [] => finish z
  | d :: ds => '(ok, z) ← write_piece (StringPiece_string d) z; if ok : bool then write_pieces ds z else Ok (false, z)
  end.
End zlib.

(** * The invariant *)

Section laws.
Context `{ZlibLaws}.

(** The output started at [b0]; the input has at most [N] bytes, and the vector
    stays below 4 GiB. *)
Context (b0 : Buffer) (N : Z).
Definition small_enough : Prop :=
  wf b0 /\ len (m_buffer b0) < 2 ^ 32 /\ m_write_idx b0 + deflateBound N + 65536 < 2 ^ 32 /\ N < 2 ^ 32.
Context (Hsmall : small_enough).

Record z_inv (inp out : bytes) (fin : option bytes) (z : ZlibOutputStream) : Prop := {
  zi_wf : wf (output_ z);
  zi_ran : z_ran (zstream_ z) inp out fin;
  zi_content : content (output_ z) = content b0 ++ out;
  zi_in : total_in z = len inp;
  zi_out : total_out z = len out;
  zi_size : exists j, 0 <= j <= 6 /\ bufferSize_ z = 1024 * 2 ^ j;
  zi_write : m_write_idx (output_ z) <= m_write_idx b0 + len out;
  zi_len : len (m_buffer (output_ z)) < 2 ^ 32;
  zi_avail : 0 <= avail_in z <= len (default [] (next_in z));
  zi_total : len inp + avail_in z <= N
}.

Lemma z_input_len inp out fin z : z_inv inp out fin z -> len (z_input z) = avail_in z.
Proof. intros I. pose proof (zi_avail _ _ _ _ I). unfold z_input. rewrite len_take. lia. Qed.

Lemma z_size_range inp out fin z : z_inv inp out fin z -> 1024 <= bufferSize_ z <= 65536.
Proof.
  intros I. destruct (zi_size _ _ _ _ I) as (j & Hj & ->).
  assert (j = 0 \/ j = 1 \/ j = 2 \/ j = 3 \/ j = 4 \/ j = 5 \/ j = 6) as D by lia.
  destruct D as [->|[->|[->|[->|[->|[->| ->]]]]]]; simpl; lia.
Qed.

(** The size of the next request for room. *)
Lemma grown_size (z : ZlibOutputStream) (full : bool) :
  (exists j, 0 <= j <= 6 /\ bufferSize_ z = 1024 * 2 ^ j) ->
  exists j, 0 <= j <= 6 /\ (if full && (bufferSize_ z <? 65536) then bufferSize_ z * 2 else bufferSize_ z) = 1024 * 2 ^ j.
Proof.
  intros (j & Hj & E). destruct full; simpl; [|by exists j]. destruct (Z.ltb_spec (bufferSize_ z) 65536) as [Hlt|]; [|by exists j].
  exists (j + 1). rewrite E, Z.pow_add_r by lia. split; [|lia]. assert (j <> 6) by (intros ->; simpl in *; lia). lia.
Qed.

Definition measure (z : ZlibOutputStream) : Z := avail_in z + (deflateBound (total_in z + avail_in z) - total_out z).

Lemma measure_nonneg inp out fin z : z_inv inp out fin z -> 0 <= measure z.
Proof.
  intros I. unfold measure. pose proof (zi_avail _ _ _ _ I). pose proof (bound_law _ _ _ _ (zi_ran _ _ _ _ I)) as B.
  pose proof (bound_mono (len inp) (len inp + avail_in z)). rewrite (zi_in _ _ _ _ I), (zi_out _ _ _ _ I). len_pose. lia.
Qed.

(** One call of [compress]. *)
Definition compressed (flush : Z) (inp out : bytes) (z z' : ZlibOutputStream) : Prop :=
  exists k o, 0 <= k <= avail_in z /\
    z_inv (inp ++ take (Z.to_nat k) (z_input z)) (out ++ o)
      (if flush =? Z_FINISH then Some (drop (Z.to_nat k) (z_input z)) else None) z' /\
    next_in z' = drop (Z.to_nat k) <$> next_in z /\ avail_in z' = avail_in z - k /\
    (zerror_ z' = Z_OK /\ measure z' < measure z \/
     zerror_ z' = Z_STREAM_END /\ flush = Z_FINISH /\ avail_in z' = 0 /\
     inflated (out ++ o) = Some (inp ++ z_input z) /\ deflateEnd (zstream_ z') = Z_OK).

Lemma compress_spec flush inp out fin z :
  z_inv inp out fin z ->
  flush = Z_NO_FLUSH /\ fin = None /\ 0 < avail_in z \/ flush = Z_FINISH /\ (fin = None \/ fin = Some (z_input z)) ->
  exists z', compress_step flush z = Ok z' /\ compressed flush inp out z z'.
Proof.
  intros I Hf. pose proof Hsmall as (W0 & L0 & B0 & N0). pose proof (wf_read _ W0). pose proof (wf_order _ W0).
  pose proof (z_size_range _ _ _ _ I) as Hsz. pose proof (z_input_len _ _ _ _ I) as Li.
  pose proof (bound_law _ _ _ _ (zi_ran _ _ _ _ I)) as Hb. pose proof (zi_total _ _ _ _ I) as Ht. pose proof (zi_avail _ _ _ _ I) as Hav.
  pose proof (bound_mono (len inp) N ltac:(pose proof (len_nonneg inp); lia)) as Hm. pose proof (zi_write _ _ _ _ I) as Hw.
  pose proof (zi_wf _ _ _ _ I) as W. len_pose.
  change (2 ^ 32) with 4294967296 in *.
  assert (fits (output_ z) (bufferSize_ z)) as F by (apply fits_intro; [done|unfold PTRDIFF_MAX; simpl; lia]).
  unfold compress_step, compress.
  destruct (ensure_writable_len_spec (output_ z) (bufferSize_ z) W) as (b1 & E1 & W1 & C1 & R1 & _ & L1); [lia|done|].
  pose proof (ensure_writable_len_moves _ _ _ W F E1) as M1. rewrite E1, bind_ok. cbv zeta.
  pose proof (zi_len _ _ _ _ I) as Hl. change (2 ^ 32) with 4294967296 in Hl. pose proof (wf_write _ W1).
  pose proof (wf_order _ W1). pose proof (wf_read _ W1).
  rewrite writable_bytes_len_eq by done. set (room := len (m_buffer b1) - m_write_idx b1) in *.
  assert (in_uw 32 room) as Ur by (unfold in_uw; simpl; lia). rewrite (uw_small 32 room) by done.
  destruct (deflate flush (zstream_ z) (z_input z) room) as [[[err st] k] o] eqn:D.
  destruct (deflate_law flush (zstream_ z) inp out fin (z_input z) room err st k o (zi_ran _ _ _ _ I)) as (Hk & Ho & Hr & Herr); [lia| |done|].
  { destruct Hf as [(? & ? & ?)|?]; [left; split_and!; [done..|]|by right]. intros E. rewrite E in Li. change (len []) with 0 in Li. lia. }
  pose proof (len_nonneg o) as Lo. destruct (fill_spec b1 o W1) as (b2 & b3 & -> & E2 & E3 & W3 & C3 & R3 & Wi3 & L3); [lia|].
  rewrite bind_ok, E2, writable_bytes_len_eq by done.
  fold room. rewrite (uw_small 32 (room - len o)) by (unfold in_uw; simpl; lia).
  replace (room - (room - len o)) with (len o) by lia. rewrite (uw_small 64 (len o)) by (unfold in_uw; simpl; lia). rewrite E3, !bind_ok.
  eexists. split; [reflexivity|]. exists k, o. rewrite Li in Hk.
  pose proof (bound_law _ _ _ _ Hr) as Hb'. rewrite !len_app, len_take in Hb'. replace (Z.min _ _) with k in Hb' by lia.
  pose proof (bound_mono (len inp + k) N ltac:(lia)) as Hm'. pose proof (zi_in _ _ _ _ I) as Ti. pose proof (zi_out _ _ _ _ I) as To.
  assert (u64 (total_in z + k) = len inp + k) as -> by (rewrite Ti; apply uw_small; unfold in_uw; simpl; lia).
  assert (u64 (total_out z + len o) = len out + len o) as -> by (rewrite To; apply uw_small; unfold in_uw; simpl; lia).
  assert (u32 (avail_in z - k) = avail_in z - k) as -> by (apply uw_small; unfold in_uw; simpl; lia).
  split_and!; [lia..| |done|done|].
  - constructor; cbn [output_ zstream_ next_in avail_in total_in total_out bufferSize_ set_zerror]; try done.
    + by rewrite C3, C1, (zi_content _ _ _ _ I), app_assoc.
    + rewrite len_app, len_take. lia.
    + by rewrite len_app.
    + apply grown_size. apply I.
    + rewrite len_app. lia.
    + simpl. lia.
    + destruct (next_in z); simpl in *; [rewrite len_drop; lia|change (len []) with 0 in *; lia].
    + rewrite len_app, len_take. lia.
  - cbn [zerror_ set_zerror avail_in zstream_]. destruct Herr as [[-> Hp]|(-> & -> & -> & Hi & He)]; [left|right].
    + split; [done|]. unfold measure. cbn [avail_in total_in total_out set_zerror]. rewrite Ti, To.
      replace (len inp + k + (avail_in z - k)) with (len inp + avail_in z) by lia. lia.
    + split_and!; [done|done|lia|done|done].
Qed.

(** What is left of the input after [k] bytes of it were taken. *)
Lemma z_input_step z k z' :
  0 <= k <= avail_in z -> next_in z' = drop (Z.to_nat k) <$> next_in z -> avail_in z' = avail_in z - k ->
  z_input z' = drop (Z.to_nat k) (z_input z).
Proof.
  intros Hk Hn Ha. unfold z_input. rewrite Hn, Ha, skipn_firstn_comm. destruct (next_in z); simpl; [|by rewrite drop_nil, !take_nil].
  f_equal. lia.
Qed.

(** ** The loops *)

Lemma write_loop_spec fuel : forall inp out z,
  z_inv inp out None z -> zerror_ z = Z_OK -> measure z < Z.of_nat fuel ->
  exists z' out', write_loop fuel z = Ok z' /\ z_inv (inp ++ z_input z) out' None z' /\ zerror_ z' = Z_OK /\ avail_in z' = 0 /\
    next_in z' = drop (Z.to_nat (avail_in z)) <$> next_in z.
Proof.
  induction fuel as [|fuel IH]; intros inp out z I He Hm; [pose proof (measure_nonneg _ _ _ _ I); lia|].
  cbn [write_loop]. rewrite He. pose proof (zi_avail _ _ _ _ I) as Hav. destruct (Z.ltb_spec 0 (avail_in z)) as [Hp|Hn]; simpl.
  - destruct (compress_spec Z_NO_FLUSH inp out None z I) as (z1 & -> & k & o & Hk & I1 & N1 & A1 & R1); [by left|]. rewrite bind_ok.
    destruct R1 as [[E1 M1]|(_ & ? & _)]; [|done]. destruct (IH _ _ z1 I1 E1) as (z' & out' & -> & I' & E' & A' & N'); [lia|].
    exists z', out'. split_and!; try done.
    + replace (inp ++ z_input z) with ((inp ++ take (Z.to_nat k) (z_input z)) ++ z_input z1); [done|].
      by rewrite <- app_assoc, (z_input_step z k z1 Hk N1 A1), take_drop.
    + rewrite N', N1, A1. destruct (next_in z); simpl; [|done]. f_equal. rewrite drop_drop. f_equal. lia.
  - exists z, out. assert (avail_in z = 0) as A0 by lia. unfold z_input. rewrite A0. simpl. rewrite take_0, app_nil_r.
    split_and!; try done. by destruct (next_in z).
Qed.

Lemma finish_loop_spec fuel : forall inp out fin z,
  z_inv inp out fin z -> zerror_ z = Z_OK -> fin = None \/ fin = Some (z_input z) -> measure z < Z.of_nat fuel ->
  exists z' out', finish_loop (S fuel) z = Ok z' /\ zerror_ z' = Z_STREAM_END /\ content (output_ z') = content b0 ++ out' /\
    wf (output_ z') /\ inflated out' = Some (inp ++ z_input z) /\ deflateEnd (zstream_ z') = Z_OK /\
    total_in z' = len (inp ++ z_input z) /\ total_out z' = len out'.
Proof.
  induction fuel as [|fuel IH]; intros inp out fin z I He Hf Hm; [pose proof (measure_nonneg _ _ _ _ I); lia|].
  pose proof (z_input_step z) as Zs. 
  change (finish_loop (S (S fuel)) z) with (if zerror_ z =? Z_OK then z ← compress_step Z_FINISH z; finish_loop (S fuel) z else Ok z).
  rewrite He, Z.eqb_refl.
  destruct (compress_spec Z_FINISH inp out fin z I) as (z1 & -> & k & o & Hk & I1 & N1 & A1 & R1); [by right|]. rewrite bind_ok.
  specialize (Zs k z1 Hk N1 A1). rewrite Z.eqb_refl in I1. destruct R1 as [[E1 M1]|(E1 & _ & A0 & Hi & Hend)].
  - destruct (IH _ _ _ z1 I1 E1) as (z' & out' & -> & E' & C' & W' & Hi & He' & Ti & To); [right; by rewrite Zs|lia|].
    rewrite <- app_assoc, Zs, take_drop in Hi, Ti. by exists z', out'.
  - exists z1, (out ++ o). cbn [finish_loop]. rewrite E1. simpl. rewrite (zi_in _ _ _ _ I1), (zi_out _ _ _ _ I1).
    split_and!; [done|done|apply I1|apply I1|done|done| |done]. rewrite !len_app, len_take, (z_input_len _ _ _ _ I). lia.
Qed.

(** ** The operations *)

Lemma write_piece_spec inp out z d :
  z_inv inp out None z -> zerror_ z = Z_OK -> next_in z = None -> avail_in z = 0 -> len inp + len d <= N -> len d < 2 ^ 31 ->
  exists z' out', write_piece (StringPiece_string d) z = Ok (true, z') /\ z_inv (inp ++ d) out' None z' /\ zerror_ z' = Z_OK /\
    next_in z' = None /\ avail_in z' = 0.
Proof.
  intros I He Hn Ha Ht Hd. len_pose. change (2 ^ 31) with 2147483648 in Hd. unfold write_piece. rewrite He. simpl negb. cbv iota.
  rewrite Hn, Ha, bool_decide_eq_true_2 by done. simpl andb. rewrite assert_true, bind_ok by done. cbv zeta.
  assert (size (StringPiece_string d) = len d) as Es by (unfold size, StringPiece_string; simpl; apply sw_small; unfold in_sw; simpl; lia).
  rewrite Es, (uw_small 32) by (unfold in_uw; simpl; lia). change (data (StringPiece_string d)) with d.
  set (z1 := set_next_in (Some d) (len d) z).
  assert (z_inv inp out None z1) as I1 by (destruct I; constructor; simpl; try done; lia).
  assert (z_input z1 = d) as Ei by (unfold z_input; simpl; apply take_ge; unfold len; lia).
  destruct (write_loop_spec (z_fuel z1) inp out z1 I1 He) as (z' & out' & -> & I' & E' & A' & N').
  { unfold z_fuel. fold (measure z1). pose proof (measure_nonneg _ _ _ _ I1). lia. }
  rewrite Ei in I'. rewrite bind_ok, A'. simpl in N'. rewrite Z.eqb_refl, N', bool_decide_eq_true_2 by done. simpl. rewrite E'.
  eexists _, out'. split_and!; [done| |done..]. destruct I'. constructor; simpl; try done; change (len []) with 0; lia.
Qed.

Lemma finish_spec inp out z :
  z_inv inp out None z -> zerror_ z = Z_OK ->
  exists z' out', finish z = Ok (true, z') /\ zerror_ z' = Z_STREAM_END /\ content (output_ z') = content b0 ++ out' /\
    wf (output_ z') /\ inflated out' = Some (inp ++ z_input z) /\ total_in z' = len (inp ++ z_input z) /\ total_out z' = len out'.
Proof.
  intros I He. unfold finish. rewrite He. simpl negb. cbv iota.
  destruct (finish_loop_spec (z_fuel z) inp out None z I He) as (z' & out' & -> & E' & C' & W' & Hi & Hend & Ti & To);
    [by left|unfold z_fuel; fold (measure z); pose proof (measure_nonneg _ _ _ _ I); lia|].
  rewrite bind_ok, Hend. simpl. by eexists _, out'.
Qed.

Lemma write_pieces_spec ds : forall inp out z,
  z_inv inp out None z -> zerror_ z = Z_OK -> next_in z = None -> avail_in z = 0 ->
  len inp + len (concat ds) <= N -> Forall (fun d => len d < 2 ^ 31) ds ->
  exists z' out', write_pieces ds z = Ok (true, z') /\ zerror_ z' = Z_STREAM_END /\ content (output_ z') = content b0 ++ out' /\
    wf (output_ z') /\ inflated out' = Some (inp ++ concat ds) /\ total_in z' = len (inp ++ concat ds) /\ total_out z' = len out'.
Proof.
  induction ds as [|d ds IH]; intros inp out z I He Hn Ha Ht Hd; cbn [write_pieces].
  - destruct (finish_spec inp out z I He) as (z' & out' & E & R). unfold z_input in R. rewrite Ha in R. simpl in R. rewrite take_0 in R.
    by exists z', out'.
  - apply Forall_cons in Hd as [Hd Hds]. simpl in Ht. rewrite len_app in Ht. pose proof (len_nonneg (concat ds)).
    destruct (write_piece_spec inp out z d) as (z1 & out1 & -> & I1 & E1 & N1 & A1); [done..|lia|done|]. rewrite bind_ok.
    destruct (IH (inp ++ d) out1 z1) as (z' & out' & R); [done..|rewrite len_app; lia|done|].
    exists z', out'. simpl. by rewrite <- app_assoc in R.
Qed.
End laws.

(** * Theorems *)

(** A new stream. *)
Lemma new_zlib_inv `{ZlibLaws} b N : small_enough b N -> 0 <= N -> deflateInit.1 = Z_OK -> z_inv b N [] [] None (new_ZlibOutputStream b).
Proof.
  intros (W & L & _) HN He. constructor; simpl; try done; [by apply init_law|by rewrite app_nil_r|by exists 0|].
  change (len []) with 0. lia.
Qed.

(** When deflateInit failed, nothing is written. *)
Lemma failed_init_inert `{ZlibOps} b ds : deflateInit.1 <> Z_OK -> write_pieces ds (new_ZlibOutputStream b) = Ok (false, new_ZlibOutputStream b).
Proof.
  intros He. assert ((zerror_ (new_ZlibOutputStream b) =? Z_OK) = false) as E by (by apply Z.eqb_neq).
  destruct ds as [|d ds]; cbn [write_pieces]; unfold finish, write_piece; rewrite E; done.
Qed.

(** C29: a compressed stream is complete and exact.  Pieces of any sizes below 2 GiB
    are written to a new stream, which is then finished: no assertion fails,
    the loops end, every call returns true, and behind what the buffer held
    there is a complete zlib stream that decompresses to the concatenation of
    the pieces; the counters are the sizes of both, and the destructor's
    [finish] does nothing more.  When zlib cannot be initialised, every call
    returns false and the buffer is as before. *)
Theorem zlib_stream_roundtrip `{ZlibLaws} b ds :
  small_enough b (len (concat ds)) -> Forall (fun d => len d < 2 ^ 31) ds ->
  if deflateInit.1 =? Z_OK then
    exists z c, write_pieces ds (new_ZlibOutputStream b) = Ok (true, z) /\ wf (output_ z) /\ content (output_ z) = content b ++ c /\
      inflated c = Some (concat ds) /\ total_in z = len (concat ds) /\ total_out z = len c /\ finish z = Ok (false, z)
  else write_pieces ds (new_ZlibOutputStream b) = Ok (false, new_ZlibOutputStream b).
Proof.
  intros Hs Hd. destruct (Z.eqb_spec deflateInit.1 Z_OK) as [He|He]; [|by apply failed_init_inert].
  destruct (write_pieces_spec b (len (concat ds)) Hs ds [] [] (new_ZlibOutputStream b)) as (z & c & E & Ez & C & W & Hi & Ti & To);
    [by apply new_zlib_inv; [|apply len_nonneg|]|done..|].
  exists z, c. split_and!; try done. unfold finish. by rewrite Ez.
Qed.

(** ** Buffers as input *)

Lemma buffer_input b : wf b -> take (Z.to_nat (len (content b))) (drop (Z.to_nat (peek_base b)) (m_buffer b)) = content b.
Proof.
  intros W. rewrite len_content by done. pose proof W as []. unfold content, slice, peek_base. f_equal.
Qed.

(** [write] of a buffer compresses a prefix of the content and takes it out. *)
Lemma write_buffer_takes `{ZlibLaws} b0 N inp out z input :
  small_enough b0 N -> z_inv b0 N inp out None z -> zerror_ z = Z_OK -> wf input -> len (content input) < 2 ^ 31 ->
  len inp + len (content input) <= N ->
  exists k out' input' z', write_buffer input z = Ok (true, input', z') /\ wf input' /\
    content input' = drop (Z.to_nat k) (content input) /\ z_inv b0 N (inp ++ take (Z.to_nat k) (content input)) out' None z' /\
    0 <= k <= len (content input).
Proof.
  intros Hs I He W Hl HN. change (2 ^ 31) with 2147483648 in Hl. pose proof (len_nonneg (content input)) as L0.
  unfold write_buffer. rewrite He, content_bytes_len_content by done. simpl negb. cbv iota zeta.
  assert (s32 (len (content input)) = len (content input)) as -> by (apply sw_small; [lia|split; simpl; lia]).
  rewrite (uw_small 32) by (unfold in_uw; simpl; lia).
  set (z1 := set_next_in _ _ z).
  assert (z_input z1 = content input) as Ei by (by apply buffer_input).
  assert (len (drop (Z.to_nat (peek_base input)) (m_buffer input)) >= len (content input)) as Hd.
  { rewrite len_drop, len_content by done. pose proof W as []. unfold peek_base. lia. }
  assert (z_inv b0 N inp out None z1) as I1 by (destruct I; constructor; simpl; try done; lia).
  assert (avail_in z1 = len (content input)) as Ea by done. assert (zerror_ z1 = Z_OK) as He1 by done. rewrite Ea, He1, Z.eqb_refl, andb_true_r.
  assert (forall k, 0 <= k <= len (content input) ->
    exists input', retrieve input (u64 (len (content input) - (len (content input) - k))) = Ok input' /\ wf input' /\
      content input' = drop (Z.to_nat k) (content input)) as R.
  { intros k Hk. rewrite (uw_small 64) by (unfold in_uw; simpl; lia). replace (_ - (_ - k)) with k by lia.
    destruct (retrieve_spec input k W Hk) as (i' & E & W' & C' & _). by exists i'. }
  destruct (Z.ltb_spec 0 (len (content input))) as [Hp|Hn].
  - destruct (compress_spec b0 N Hs Z_NO_FLUSH inp out None z1 I1) as (z' & -> & k & o & Hk & I' & _ & A' & R'); [left; by rewrite Ea|].
    rewrite bind_ok, A', Ea. rewrite Ea in Hk. destruct (R k Hk) as (i' & -> & Wi & Ci). rewrite bind_ok.
    destruct R' as [[-> _]|(_ & ? & _)]; [|done]. rewrite Ei in I'. exists k, (out ++ o), i', z'. split_and!; try done; lia.
  - rewrite bind_ok, Ea. destruct (R 0 ltac:(lia)) as (i' & E & Wi & Ci). rewrite Z.sub_0_r in E. rewrite E, bind_ok, He1.
    exists 0, out, i', z1. rewrite take_0, app_nil_r. split_and!; try done; lia.
Qed.

(** A stream that was given a buffer takes no piece any more: the pointer into
    the buffer is still set. *)
Theorem piece_after_buffer_aborts `{ZlibOps} input input' buf z z' :
  write_buffer input z = Ok (true, input', z') -> write_piece buf z' = Fail FAssert.
Proof.
  unfold write_buffer. destruct (zerror_ z =? Z_OK) eqn:Hz; simpl; [|intros; discriminate]. intros E.
  apply bind_ok_inv in E as (z1 & E1 & E). apply bind_ok_inv in E as (i & _ & E). injection E as He <- <-.
  assert (next_in z1 <> None) as Hn.
  { destruct (_ && _); [|by injection E1 as <-]. unfold compress_step, compress in E1. apply bind_ok_inv in E1 as ([err z2] & E2 & E1).
    apply bind_ok_inv in E2 as (b1 & _ & E2). destruct (deflate _ _ _ _) as [[[? ?] ?] ?]. apply bind_ok_inv in E2 as (b2 & _ & E2).
    apply bind_ok_inv in E2 as (b3 & _ & E2). injection E2 as _ <-. by injection E1 as <-. }
  unfold write_piece. rewrite He. simpl. by rewrite bool_decide_eq_false_2.
Qed.

(** 4 GiB in a buffer are dropped: the size does not fit avail_in. *)
Theorem huge_buffer_dropped `{ZlibOps} input z :
  wf input -> len (content input) = 2 ^ 32 -> zerror_ z = Z_OK ->
  exists input' z', write_buffer input z = Ok (true, input', z') /\ content input' = [] /\ output_ z' = output_ z /\ zstream_ z' = zstream_ z.
Proof.
  intros W Hl He. unfold write_buffer. rewrite He, content_bytes_len_content, Hl by done. simpl negb. cbv iota zeta.
  change (u32 (s32 (2 ^ 32))) with 0. set (z1 := set_next_in _ 0 z). change (avail_in z1) with 0.
  change ((0 <? 0) && _) with false. cbv iota. rewrite bind_ok. change (avail_in z1) with 0. change (zerror_ z1) with (zerror_ z).
  change (u64 (2 ^ 32 - 0)) with (2 ^ 32). destruct (retrieve_spec input (2 ^ 32) W) as (i' & -> & W' & C' & _).
  { rewrite Hl. split; [by vm_compute|apply Z.le_refl]. }
  rewrite bind_ok, He, Z.eqb_refl. exists i', z1. split; [reflexivity|]. split; [|split; reflexivity]. rewrite C'. apply drop_ge.
  rewrite <- Hl. unfold len. lia.
Qed.

(** * A compressor *)

(** It stores: the stream is the data and a terminator, given out as far as
    there is room. *)
Definition stored_state : Type := bytes * bool.   (* to be given out; whether the terminator was added *)

Definition stored_deflate (flush : Z) (st : stored_state) (d : bytes) (room : Z) : Z * stored_state * Z * bytes :=
  let fin := (flush =? Z_FINISH) || st.2 in
  let pend := st.1 ++ d ++ (if (flush =? Z_FINISH) && negb st.2 then [NUL] else []) in
  let rest := drop (Z.to_nat room) pend in
  (if (flush =? Z_FINISH) && bool_decide (rest = []) then Z_STREAM_END else Z_OK, (rest, fin), len d, take (Z.to_nat room) pend).

Definition stored_inflated (c : bytes) : option bytes :=
  match reverse c with x :: l => if decide (x = NUL) then Some (reverse l) else None | [] => None end.

#[local] Instance stored_ops : ZlibOps := {
  z_state := stored_state; deflateInit := (Z_OK, ([], false)); deflate := stored_deflate;
  deflateEnd := fun st => if bool_decide (st = ([], true)) then Z_OK else -3;
  deflateBound := fun n => n + 1; inflated := stored_inflated
}.

Definition stored_ran (st : stored_state) (inp out : bytes) (fin : option bytes) : Prop :=
  out ++ st.1 = inp ++ (if st.2 then [NUL] else []) /\ fin = (if st.2 then Some [] else None).

Lemma stored_deflate_law flush st inp out fin d room err st' k o :
  stored_ran st inp out fin -> 0 < room ->
  flush = Z_NO_FLUSH /\ fin = None /\ d <> [] \/ flush = Z_FINISH /\ (fin = None \/ fin = Some d) ->
  stored_deflate flush st d room = (err, st', k, o) ->
  0 <= k <= len d /\ len o <= room /\
  stored_ran st' (inp ++ take (Z.to_nat k) d) (out ++ o) (if flush =? Z_FINISH then Some (drop (Z.to_nat k) d) else None) /\
  (err = Z_OK /\ 0 < k + len o \/
   err = Z_STREAM_END /\ flush = Z_FINISH /\ k = len d /\ stored_inflated (out ++ o) = Some (inp ++ d) /\
   (if bool_decide (st' = ([], true)) then Z_OK else -3) = Z_OK).
Proof.
  destruct st as [pend f]. unfold stored_ran, stored_deflate. intros [Hq Hfin] Hroom Hcase E. cbn [fst snd] in *.
  injection E as <- <- <- <-. pose proof (len_nonneg d) as Ld.
  assert (take (Z.to_nat (len d)) d = d /\ drop (Z.to_nat (len d)) d = []) as [-> ->] by (split; [apply take_ge|apply drop_ge]; unfold len; lia).
  assert (f = true -> d = []) as Hfd.
  { intros ->. destruct Hcase as [(_ & -> & _)|[_ [->| ->]]]; congruence. }
  set (all := pend ++ d ++ _).
  assert (out ++ all = (inp ++ d) ++ (if (flush =? Z_FINISH) || f then [NUL] else [])) as Hall.
  { unfold all. destruct f; [rewrite (Hfd eq_refl)|]; rewrite ?andb_false_r, ?orb_true_r, ?orb_false_r, ?andb_true_r; cbn [app negb].
    - by rewrite !app_nil_r.
    - rewrite app_nil_r in Hq. rewrite <- Hq, <- !app_assoc. done. }
  split; [lia|]. split; [rewrite len_take; lia|]. cbn [fst snd].
  replace ((out ++ take (Z.to_nat room) all) ++ drop (Z.to_nat room) all) with (out ++ all) by (by rewrite <- app_assoc, take_drop). split.
  { split; [done|]. destruct Hcase as [(-> & -> & _)|[-> _]]; simpl; [|done]. by destruct f. }
  destruct ((flush =? Z_FINISH) && bool_decide (drop (Z.to_nat room) all = [])) eqn:Hend.
  - right. apply andb_true_iff in Hend as [Hf Hr%bool_decide_eq_true]. rewrite Hf in *. simpl in *. apply Z.eqb_eq in Hf.
    assert (take (Z.to_nat room) all = all) as -> by (rewrite <- (take_drop (Z.to_nat room) all) at 2; by rewrite Hr, app_nil_r).
    rewrite Hr, Hall, bool_decide_eq_true_2 by done. split_and!; try done. unfold stored_inflated. rewrite reverse_snoc, decide_True by done.
    by rewrite reverse_involutive.
  - left. split; [done|]. destruct Hcase as [(_ & _ & Hd)|[-> _]].
    + assert (0 < len d) by (destruct d; [done|rewrite len_cons; pose proof (len_nonneg d); lia]).
      pose proof (len_nonneg (take (Z.to_nat room) all)). lia.
    + simpl in Hend. apply bool_decide_eq_false in Hend. assert (room < len all).
      { apply Z.lt_nge. intros Hle. apply Hend, drop_ge. unfold len in Hle. lia. }
      rewrite len_take. lia.
Qed.

#[local] Program Instance stored_laws : ZlibLaws := {| z_ran := stored_ran |}.
Next Obligation. intros _. by split. Qed.
Next Obligation. intros. eapply stored_deflate_law; eauto. Qed.
Next Obligation.
  intros [pend f] inp out fin [Hq _]. simpl in *. apply (f_equal len) in Hq. rewrite !len_app in Hq. pose proof (len_nonneg pend).
  destruct f; [change (len [NUL]) with 1 in Hq|change (len (@nil byte)) with 0 in Hq]; lia.
Qed.
Next Obligation. intros n m ?. simpl. lia. Qed.

Definition zlib_target : Buffer := mkBuffer (replicate 20 NUL) 8 8.

Lemma zlib_stream_roundtrip_witness :
  exists z c, write_pieces [lit "hello "; []; lit "world"] (new_ZlibOutputStream zlib_target) = Ok (true, z) /\
    content (output_ z) = c /\ c = lit "hello world" ++ [NUL] /\ inflated c = Some (lit "hello world") /\ finish z = Ok (false, z).
Proof.
  pose proof (zlib_stream_roundtrip zlib_target [lit "hello "; []; lit "world"]) as T.
  change (deflateInit.1 =? Z_OK) with true in T. cbv iota in T.
  destruct T as (z & c & E & W & C & Hi & _ & _ & F); [|repeat constructor|].
  - split_and!; [constructor; vm_compute; discriminate|by vm_compute..].
  - exists z, c. change (content zlib_target) with (@nil byte) in C. simpl in C. split; [exact E|]. split; [exact C|].
    split; [|split; [exact Hi|exact F]]. rewrite <- C. clear -E. vm_compute in E. injection E as <-. vm_compute. reflexivity.
Defined.

Example buffer_then_piece :
  (exists i z, write_buffer zlib_target (new_ZlibOutputStream zlib_target) = Ok (true, i, z) /\
     write_piece (StringPiece_string (lit "x")) z = Fail FAssert).
Proof. eexists _, _. split; [by vm_compute|by vm_compute]. Qed.
