(* ===== verification/ThreadState.v ===== *)
(** [flute/common/CurrentThread.{h,cc}], [flute/common/Exception.{h,cc}] and
    what [Thread::run] does around the thread function: the cached id and name
    of a thread, stack traces, and exceptions that leave the function.

    The thread id, the symbols of the frames (backtrace_symbols) and the
    demangler are arguments. *)

From S2P Require Import Prelude StringPiece Format Timestamp.

(** ** The variables of a thread *)

Record thread_vars : Type := mkVars {
  t_cached_tid : Z;
  t_tid_string : bytes;            (* as a C string; the array has 32 bytes *)
  t_tid_string_length : Z;
  t_thread_name : bytes
}.

Definition initial_vars : thread_vars := mkVars 0 [] 6 (lit "unknown").

Definition tid_text (tid : Z) : bytes := lit "tid[" ++ dec_w 5 tid ++ lit "]".

(** [cache_tid]; [gettid] is the id that the kernel gives.  snprintf returns
    the length of the whole text. *)
Definition cache_tid (gettid : Z) (v : thread_vars) : thread_vars :=
  if t_cached_tid v =? 0 then mkVars gettid (snprintf 32 (tid_text gettid)) (len (tid_text gettid)) (t_thread_name v) else v.

Definition cached (gettid : Z) (v : thread_vars) : thread_vars := if t_cached_tid v =? 0 then cache_tid gettid v else v.
Definition tid (gettid : Z) (v : thread_vars) : Z * thread_vars := let v := cached gettid v in (t_cached_tid v, v).
Definition tid_string (gettid : Z) (v : thread_vars) : bytes * thread_vars := let v := cached gettid v in (t_tid_string v, v).
Definition tid_string_length (gettid : Z) (v : thread_vars) : Z * thread_vars := let v := cached gettid v in (t_tid_string_length v, v).
Definition name (v : thread_vars) : bytes := t_thread_name v.
Definition set_name (n : bytes) (v : thread_vars) : thread_vars :=
  mkVars (t_cached_tid v) (t_tid_string v) (t_tid_string_length v) n.
Definition is_main_thread (getpid gettid : Z) (v : thread_vars) : bool * thread_vars :=
  let '(t, v) := tid gettid v in (t =? getpid, v).

(** [sleep_usec]: the time that nanosleep is given. *)
Definition sleep_usec (usec : Z) : Z * Z :=
  (Z.quot usec kMicroSecondsPerSecond, s64 (Z.rem usec kMicroSecondsPerSecond * 1000)).

(** ** Stack traces *)

(** The loop over the characters of a symbol: the last '(' and the last '+'. *)
Fixpoint scan_symbol (i : Z) (s : bytes) (left_par plus : option Z) : option Z * option Z :=
  match s with
  | [] => (left_par, plus)
  | c :: s =>
      if decide (c = "("%char) then scan_symbol (i + 1) s (Some i) plus
      else if decide (c = "+"%char) then scan_symbol (i + 1) s left_par (Some i)
      else scan_symbol (i + 1) s left_par plus
  end.

Section trace.
Context (cxa_demangle : bytes -> option bytes).

(** The text up to the first NUL. *)
Definition c_str (s : bytes) : bytes := take (Z.to_nat (std_find NUL s)) s.

(** One symbol; [demangler] is given the text behind the parenthesis while a
    NUL is at the place of the plus sign. *)
Definition symbol_line (demangle : bool) (s : bytes) : bytes :=
  let mangled := s ++ [LF] in
  if demangle then
    match scan_symbol 0 s None None with
    | (Some lp, Some plus) =>
        match cxa_demangle (c_str (drop (Z.to_nat (lp + 1)) (<[Z.to_nat plus := NUL]> s))) with
        | Some d => take (Z.to_nat (lp + 1)) s ++ d ++ drop (Z.to_nat plus) s ++ [LF]
        | None => mangled
        end
    | _ => mangled
    end
  else mangled.

(** [stacktrace]: [symbols] are the strings of at most 200 frames, [None] when
    they could not be allocated; the frame of this function is left out. *)
Definition stacktrace (demangle : bool) (symbols : option (list bytes)) : bytes :=
  match symbols with
  | Some l => concat (symbol_line demangle <$> tail l)
  | None => []
  end.

(** ** Exceptions *)

Record Exception : Type := mkException { m_message_str : bytes; m_stack_str : bytes }.
Definition new_Exception (msg : bytes) (symbols : option (list bytes)) : Exception := mkException msg (stacktrace false symbols).
Definition what (ex : Exception) : bytes := c_str (m_message_str ex).
Definition stackTrace (ex : Exception) : bytes := c_str (m_stack_str ex).
End trace.

(** How the thread function ends. *)
Inductive func_end : Type := EndReturn | EndException (ex : Exception) | EndStdException (what : bytes) | EndOther.

(** What becomes of the process. *)
Inductive run_end : Type := RunReturned | RunAborted | RunRethrown.

#[global] Instance run_end_eq_dec : EqDecision run_end.
Proof. solve_decision. Defined.

(** [Thread::run] with a thread of name [m_name]: the lines on stderr. *)
Definition run_thread (m_name : bytes) (func : func_end) (v : thread_vars) : run_end * list bytes * thread_vars :=
  let v := set_name (if decide (m_name = []) then lit "DefaultThread" else c_str m_name) v in
  let caught := lit "exception caught in Thread " ++ c_str m_name in
  match func with
  | EndReturn => (RunReturned, [], set_name (lit "FINISHED") v)
  | EndException ex =>
      (RunAborted, [caught; lit "reason: " ++ what ex; lit "stack trace: " ++ stackTrace ex], set_name (lit "CRASHED") v)
  | EndStdException w => (RunAborted, [caught; lit "reason: " ++ w], set_name (lit "CRASHED") v)
  | EndOther => (RunRethrown, [lit "unknown " ++ caught], set_name (lit "CRASHED") v)
  end.

(** * Theorems *)

(** The id is asked for once: after any sequence of queries it is that of the
    thread, its text is complete, and the length is that of the text. *)
Definition vars_ok (gettid : Z) (v : thread_vars) : Prop :=
  t_cached_tid v = gettid /\ t_tid_string v = tid_text gettid /\ t_tid_string_length v = len (tid_text gettid).

Lemma len_tid_text t : 0 <= t < 2 ^ 31 -> 10 <= len (tid_text t) <= 15.
Proof.
  intros Ht. unfold tid_text, dec_w, dec. rewrite (proj2 (Z.ltb_ge _ _)) by lia. rewrite !len_app. unfold pad. rewrite len_app, len_replicate.
  pose proof (len_dec_abs t 10 ltac:(lia) ltac:(simpl in *; lia)). change (len (lit "tid[")) with 4. change (len (lit "]")) with 1. len_pose. lia.
Qed.

Lemma cached_ok gettid v : 0 < gettid < 2 ^ 31 -> t_cached_tid v = 0 \/ vars_ok gettid v -> vars_ok gettid (cached gettid v).
Proof.
  intros Ht [Hv|Hv]; unfold cached, cache_tid.
  - rewrite Hv. simpl. unfold vars_ok. simpl. rewrite snprintf_fits by (pose proof (len_tid_text gettid); lia). done.
  - pose proof Hv as (E & _). rewrite E, (proj2 (Z.eqb_neq _ _)) by lia. done.
Qed.

Theorem tid_cached gettid v :
  0 < gettid < 2 ^ 31 -> t_cached_tid v = 0 \/ vars_ok gettid v ->
  (tid gettid v).1 = gettid /\ (tid_string gettid v).1 = tid_text gettid /\ (tid_string_length gettid v).1 = len (tid_text gettid) /\
  vars_ok gettid (tid gettid v).2.
Proof. intros Ht Hv. pose proof (cached_ok gettid v Ht Hv) as V. by destruct V as (?&?&?). Qed.

Lemma scan_notin i s lp plus : "("%char ∉ s -> "+"%char ∉ s -> scan_symbol i s lp plus = (lp, plus).
Proof.
  revert i. induction s as [|c s IH]; intros i H1 H2; simpl; [done|]. apply not_elem_of_cons in H1 as [? H1], H2 as [? H2].
  rewrite !decide_False by congruence. by apply IH.
Qed.

Lemma scan_app i s t lp plus : scan_symbol i (s ++ t) lp plus = let '(l, p) := scan_symbol i s lp plus in scan_symbol (i + len s) t l p.
Proof.
  revert i lp plus. induction s as [|c s IH]; intros i lp plus; cbn [app scan_symbol].
  - change (len []) with 0. by rewrite Z.add_0_r.
  - rewrite len_cons, Z.add_assoc. destruct (decide (c = "("%char)), (decide (c = "+"%char)); apply IH.
Qed.

Lemma scan_plus_only i s lp plus : "("%char ∉ s -> (scan_symbol i s lp plus).1 = lp.
Proof.
  revert i plus. induction s as [|c s IH]; intros i plus Hs; simpl; [done|]. apply not_elem_of_cons in Hs as [? Hs].
  rewrite decide_False by congruence. case_decide; by apply IH.
Qed.

Lemma c_str_app s t : NUL ∉ s -> c_str (s ++ NUL :: t) = s.
Proof.
  intros Hs. unfold c_str. rewrite std_find_head by done. unfold len. rewrite Nat2Z.id. apply take_app_length.
Qed.

(** The symbols [file(mangled+offset) \[address\]] are demangled in place. *)
Theorem symbol_demangled dm pre m post d :
  "("%char ∉ m -> "("%char ∉ post -> "+"%char ∉ post -> NUL ∉ m -> dm m = Some d ->
  symbol_line dm true (pre ++ "("%char :: m ++ "+"%char :: post) = pre ++ "("%char :: d ++ "+"%char :: post ++ [LF].
Proof.
  intros H1 H2 H3 Hn Hd. unfold symbol_line.
  assert (scan_symbol 0 (pre ++ "("%char :: m ++ "+"%char :: post) None None = (Some (len pre), Some (len pre + 1 + len m))) as ->.
  { rewrite scan_app. destruct (scan_symbol 0 pre None None) as [l p]. cbn [scan_symbol]. rewrite decide_True by done.
    rewrite scan_app. pose proof (scan_plus_only (0 + len pre + 1) m (Some (0 + len pre)) p H1) as E.
    destruct (scan_symbol _ m _ p) as [l' p']. simpl in E. subst l'. cbn [scan_symbol]. rewrite decide_False, decide_True by done.
    rewrite scan_notin by done. do 2 f_equal; lia. }
  assert (Z.to_nat (len pre + 1) = length (pre ++ ["("%char])) as -> by (rewrite length_app; unfold len; simpl; lia).
  assert (Z.to_nat (len pre + 1 + len m) = length (pre ++ "("%char :: m)) as -> by (rewrite length_app; unfold len; simpl; lia).
  replace (pre ++ "("%char :: m ++ "+"%char :: post) with ((pre ++ "("%char :: m) ++ "+"%char :: post) by (by rewrite <- app_assoc).
  rewrite <- (Nat.add_0_r (length (pre ++ "("%char :: m))) at 1. rewrite insert_app_r. cbn [insert list_insert].
  replace ((pre ++ "("%char :: m) ++ NUL :: post) with ((pre ++ ["("%char]) ++ m ++ NUL :: post) by (by rewrite <- !app_assoc).
  rewrite drop_app_length, c_str_app, Hd, drop_app_length by done.
  replace ((pre ++ "("%char :: m) ++ "+"%char :: post) with ((pre ++ ["("%char]) ++ m ++ "+"%char :: post) by (by rewrite <- !app_assoc).
  rewrite take_app_length. by rewrite <- !app_assoc.
Qed.

(** A thread function that throws ends the process; the name of the thread says
    how it ended. *)
Theorem run_thread_ends m_name func v :
  let '(e, lines, v') := run_thread m_name func v in
  (e = RunReturned <-> func = EndReturn) /\ (e <> RunReturned -> lines <> []) /\
  name v' = (if decide (e = RunReturned) then lit "FINISHED" else lit "CRASHED") /\ t_cached_tid v' = t_cached_tid v.
Proof. destruct func; simpl; split_and!; try done. Qed.

Example demangled_trace :
  stacktrace (fun m => if decide (m = lit "_ZN3Bar4testEv") then Some (lit "Bar::test()") else None) true
    (Some [lit "self"; lit "bin/t(_ZN3Bar4testEv+0x79) [0x401909]"; lit "bin/t() [0x4]"]) =
  lit "bin/t(Bar::test()+0x79) [0x401909]" ++ [LF] ++ lit "bin/t() [0x4]" ++ [LF].
Proof. by vm_compute. Qed.
