(* ===== verification/Statics.v ===== *)
(** [flute/common/Singleton.h], [ThreadLocal.h] and [ThreadLocalSingleton.h]:
    objects that are made on first use.

    Objects are addresses of which some are alive.  A singleton is made under
    pthread_once and deleted by a handler of atexit; its threads are cut where
    others can interleave.  The operations on thread-local objects concern one
    thread each, so sequences of them are enough. *)

From S2P Require Import Prelude.

Abbreviation addr := Z.
Abbreviation thread_id := Z.

(** * Singleton *)

Module Singleton.

Inductive once_state : Type := OnceInit | OnceRunning (t : thread_id) | OnceDone.

(** Where a thread is in [instance]. *)
Inductive pc : Type :=
| PcOnce            (* calling pthread_once *)
| PcNew             (* in init, before the allocation *)
| PcAtexit          (* in init, before atexit *)
| PcLeave           (* init has returned *)
| PcRead            (* after pthread_once *)
| PcHas (a : addr). (* it has the reference *)

#[global] Instance pc_eq_dec : EqDecision pc.
Proof. solve_decision. Defined.

Record singleton : Type := mkS {
  ponce_ : once_state;
  value_ : option addr;
  s_alive : gset addr;
  s_made : list addr;               (* every object constructed *)
  s_handlers : nat;                 (* how often destroy is registered *)
  s_threads : gmap thread_id pc
}.

Definition new_singleton : singleton := mkS OnceInit None ∅ [] 0 ∅.

Definition set_pc (t : thread_id) (p : pc) (s : singleton) : singleton :=
  mkS (ponce_ s) (value_ s) (s_alive s) (s_made s) (s_handlers s) (<[t := p]> (s_threads s)).
Definition leave (t : thread_id) (s : singleton) : singleton :=
  mkS (ponce_ s) (value_ s) (s_alive s) (s_made s) (s_handlers s) (delete t (s_threads s)).
Definition set_once (o : once_state) (s : singleton) : singleton :=
  mkS o (value_ s) (s_alive s) (s_made s) (s_handlers s) (s_threads s).

Section steps.
(** [has_no_destroy<T>::value]. *)
Context (no_destroy : bool).

(** [value_ = new T()] of [init]. *)
Definition init_new (a : addr) (s : singleton) : singleton :=
  mkS (ponce_ s) (Some a) ({[a]} ∪ s_alive s) (s_made s ++ [a]) (s_handlers s) (s_threads s).

(** The rest of [init]. *)
Definition init_atexit (s : singleton) : singleton :=
  if negb no_destroy then mkS (ponce_ s) (value_ s) (s_alive s) (s_made s) (S (s_handlers s)) (s_threads s) else s.

(** One step of thread [t], which allocates at [a]. *)
Definition instance_step (t : thread_id) (a : addr) (s : singleton) : outcome singleton :=
  match s_threads s !! t with
  | None => Ok (set_pc t PcOnce s)
  | Some PcOnce =>
      match ponce_ s with
      | OnceInit => Ok (set_pc t PcNew (set_once (OnceRunning t) s))
      | OnceRunning _ => Ok s                            (* it waits *)
      | OnceDone => Ok (set_pc t PcRead s)
      end
  | Some PcNew => Ok (set_pc t PcAtexit (init_new a s))
  | Some PcAtexit => Ok (set_pc t PcLeave (init_atexit s))
  | Some PcLeave => Ok (set_pc t PcRead (set_once OnceDone s))
  | Some PcRead =>
      v ← of_option FAssert (value_ s);                  (* assert(value_ != NULL) *)
      Ok (set_pc t (PcHas v) s)
  | Some (PcHas v) => require FBounds (bool_decide (v ∈ s_alive s));; Ok (leave t s)   (* it uses the object *)
  end.

Definition destroy (s : singleton) : singleton :=
  mkS (ponce_ s) None (match value_ s with Some a => s_alive s ∖ {[a]} | None => s_alive s end) (s_made s) (s_handlers s) (s_threads s).

(** exit(3): the handlers run. *)
Fixpoint run_handlers (n : nat) (s : singleton) : singleton :=
  match n with O => s | S n => run_handlers n (destroy s) end.
Definition exit (s : singleton) : singleton :=
  run_handlers (s_handlers s) (mkS (ponce_ s) (value_ s) (s_alive s) (s_made s) 0 (s_threads s)).

(** ** The invariant, until the process exits *)

Definition kHandlers : nat := if no_destroy then 0 else 1.
Definition empty (s : singleton) : Prop := value_ s = None /\ s_made s = [] /\ s_handlers s = 0%nat.
Definition holds (a : addr) (h : nat) (s : singleton) : Prop :=
  value_ s = Some a /\ s_made s = [a] /\ a ∈ s_alive s /\ s_handlers s = h.

(** What has been done when the initialising thread is at [p]. *)
Definition init_state (p : pc) (s : singleton) : Prop :=
  match p with
  | PcNew => empty s
  | PcAtexit => exists a, holds a 0 s
  | PcLeave => exists a, holds a kHandlers s
  | _ => False
  end.

(** All threads but [t0] satisfy [Q]. *)
Definition others (t0 : option thread_id) (Q : pc -> Prop) (m : gmap thread_id pc) : Prop :=
  forall t p, m !! t = Some p -> Some t <> t0 -> Q p.

Inductive s_inv (s : singleton) : Prop :=
| inv_init : ponce_ s = OnceInit -> empty s -> others None (fun p => p = PcOnce) (s_threads s) -> s_inv s
| inv_running t0 p :
    ponce_ s = OnceRunning t0 -> s_threads s !! t0 = Some p -> init_state p s ->
    others (Some t0) (fun p => p = PcOnce) (s_threads s) -> s_inv s
| inv_done a :
    ponce_ s = OnceDone -> holds a kHandlers s ->
    others None (fun p => p = PcOnce \/ p = PcRead \/ p = PcHas a) (s_threads s) -> s_inv s.

Lemma new_inv : s_inv new_singleton.
Proof. apply inv_init; [done..|]. intros t p Ht. simpl in Ht. by rewrite lookup_empty in Ht. Qed.

Lemma others_insert t0 Q t p m : others t0 Q m -> Some t = t0 \/ Q p -> others t0 Q (<[t := p]> m).
Proof.
  intros Hm Hp t' p'. destruct (decide (t' = t)) as [->|Hn]; [rewrite lookup_insert_eq; intros [= <-]; tauto|].
  rewrite lookup_insert_ne by done. apply Hm.
Qed.

Lemma others_weaken t0 (Q R : pc -> Prop) m : others None Q m -> (forall p, Q p -> R p) -> others t0 R m.
Proof. intros Hm HQ t p L _. apply HQ. by eapply Hm. Qed.

(** The initialising thread moves on. *)
Lemma init_step t a s p :
  ponce_ s = OnceRunning t -> s_threads s !! t = Some p -> init_state p s ->
  others (Some t) (fun p => p = PcOnce) (s_threads s) -> returns s_inv (instance_step t a s).
Proof.
  intros Ho Ht Hi Hoth. unfold instance_step. rewrite Ht.
  assert (forall p', others (Some t) (fun p => p = PcOnce) (<[t := p']> (s_threads s))) as Q by (intros; apply others_insert; auto).
  destruct p; try done; simpl in Hi |- *.
  - destruct Hi as (Hv & Hm & Hh). eapply (inv_running _ t PcAtexit); simpl; [done|apply lookup_insert_eq| |done].
    exists a. unfold holds. simpl. rewrite Hm. split_and!; [done|done|set_solver|done].
  - destruct Hi as (b & Hv & Hm & Hb & Hh). eapply (inv_running _ t PcLeave); unfold init_atexit, init_state, holds, kHandlers;
      destruct no_destroy; simpl; rewrite ?Hh; try done; try apply lookup_insert_eq; by exists b.
  - destruct Hi as (b & Hv). apply (inv_done _ b); simpl; [done|exact Hv|].
    intros t' p' L _. destruct (decide (t' = t)) as [->|Hn]; [rewrite lookup_insert_eq in L; injection L as <-; auto|].
    rewrite lookup_insert_ne in L by done. left. eapply Hoth; [exact L|congruence].
Qed.

Lemma instance_step_inv t a s : s_inv s -> returns s_inv (instance_step t a s).
Proof.
  intros [Ho He Hp|t0 p0 Ho Hp0 Hi Hoth|b Ho Hh Hp].
  - unfold instance_step. destruct (s_threads s !! t) as [p|] eqn:Ht.
    + rewrite (Hp t p Ht ltac:(done)), Ho. eapply (inv_running _ t PcNew); simpl; [done|apply lookup_insert_eq|done|].
      apply others_insert; [|auto]. by eapply others_weaken.
    + apply inv_init; simpl; [done..|]. apply others_insert; auto.
  - destruct (decide (t = t0)) as [->|Hne]; [by eapply init_step|]. unfold instance_step.
    destruct (s_threads s !! t) as [p|] eqn:Ht.
    + rewrite (Hoth t p Ht ltac:(congruence)), Ho. by eapply inv_running.
    + eapply (inv_running _ t0 p0); simpl; [done|by rewrite lookup_insert_ne|done|]. apply others_insert; auto.
  - pose proof Hh as (Hv & _ & Hb & _). unfold instance_step. destruct (s_threads s !! t) as [p|] eqn:Ht.
    + destruct (Hp t p Ht ltac:(done)) as [->|[->| ->]]; rewrite ?Ho.
      * apply (inv_done _ b); simpl; auto using others_insert.
      * rewrite Hv. apply (inv_done _ b); simpl; auto using others_insert.
      * rewrite bool_decide_eq_true_2 by done. apply (inv_done _ b); simpl; [done..|]. intros t' p' [_ L]%lookup_delete_Some _. by eapply Hp.
    + apply (inv_done _ b); simpl; auto using others_insert.
Qed.

(** A run: the thread that takes the step, and the address it would get. *)
Fixpoint once_run (l : list (thread_id * addr)) (s : singleton) : outcome singleton :=
  match l with [] => Ok s | (t, a) :: l => s ← instance_step t a s; once_run l s end.

Lemma once_run_inv l : forall s, s_inv s -> returns s_inv (once_run l s).
Proof.
  induction l as [|[t a] l IH]; intros s I; simpl; [done|]. eapply returns_bind; [by apply instance_step_inv|]. apply IH.
Qed.

(** A singleton is made once.  In every interleaving of the calls of any
    threads, until the process exits: no assertion fails and no call uses a
    dead object; at most one object is made; all threads that have a reference
    have the same, to that object, which is alive; and the exit deletes the
    object exactly if it was made and the type has no [no_destroy]. *)
Theorem singleton_once l :
  exists s, once_run l new_singleton = Ok s /\ (length (s_made s) <= 1)%nat /\
    (forall t a, s_threads s !! t = Some (PcHas a) -> s_made s = [a] /\ a ∈ s_alive s) /\
    (forall a, s_made s = [a] -> ponce_ s = OnceDone ->
       (a ∈ s_alive (exit s) <-> no_destroy = true) /\ (value_ (exit s) = None <-> no_destroy = false)).
Proof.
  destruct (returns_ok _ _ (once_run_inv l new_singleton new_inv)) as (s & -> & I). exists s. split; [done|].
  assert (forall a h, holds a h s -> (length (s_made s) <= 1)%nat) as L1 by (intros a h (_ & -> & _); simpl; lia).
  assert (forall a h, holds a h s -> s_made s = [a] /\ a ∈ s_alive s) as L2 by (intros a h (_ & -> & ? & _); done).
  destruct I as [Ho He Hp|t0 p0 Ho Hp0 Hi Hoth|b Ho Hh Hp].
  - pose proof He as (_ & Hm & _). rewrite Hm. split_and!; [simpl; lia| |done]. intros t a Ht. by specialize (Hp t _ Ht ltac:(done)).
  - split_and!; [|intros t a Ht|intros a _ E; congruence].
    + destruct p0; try done; simpl in Hi; [destruct Hi as (_ & -> & _); simpl; lia|destruct Hi as [? ?]; by eapply L1..].
    + destruct (decide (t = t0)) as [->|Hn]; [rewrite Hp0 in Ht; by injection Ht as ->|]. specialize (Hoth t _ Ht ltac:(congruence)). done.
  - split_and!; [by eapply L1| |].
    + intros t a Ht. specialize (Hp t _ Ht ltac:(done)) as [?|[?|[= ->]]]; [done..|]. by eapply L2.
    + intros a Ha _. destruct Hh as (Hv & Hm & Hb & Hn). unfold exit. rewrite Hn. unfold kHandlers. rewrite Hm in Ha. injection Ha as ->.
      destruct no_destroy; simpl; rewrite Hv; split; split; try done; set_solver.
Qed.
End steps.

(** After the handlers have run, [instance] fails its assertion. *)
Theorem instance_after_exit_aborts l s t :
  once_run false l new_singleton = Ok s -> ponce_ s = OnceDone -> s_threads s = ∅ ->
  once_run false [(t, 0); (t, 0); (t, 0)] (exit s) = Fail FAssert.
Proof.
  intros E Ho Ht. pose proof (once_run_inv false l new_singleton (new_inv false)) as I. rewrite E in I. simpl in I.
  destruct I as [?|?|a _ (Hv & _ & _ & Hh) _]; [congruence..|]. unfold exit. rewrite Hh. simpl.
  set (s1 := destroy _). assert (s_threads s1 = ∅ /\ ponce_ s1 = OnceDone /\ value_ s1 = None) as (T1 & O1 & V1) by done.
  clearbody s1.
  assert (instance_step false t 0 s1 = Ok (set_pc t PcOnce s1)) as -> by (unfold instance_step; by rewrite T1, lookup_empty). simpl.
  assert (instance_step false t 0 (set_pc t PcOnce s1) = Ok (set_pc t PcRead (set_pc t PcOnce s1))) as ->
    by (unfold instance_step; simpl; by rewrite lookup_insert_eq, O1). simpl.
  unfold instance_step. simpl. rewrite lookup_insert_eq. simpl. by rewrite V1.
Qed.
End Singleton.

(** * A pthread key with the objects that its slots point to *)

Module Key.

(** Addresses are numbered in the order of allocation, so a stale one never
    comes back to life. *)
Record key : Type := mkKey {
  k_open : bool;                       (* the key exists *)
  k_specific : gmap thread_id addr;    (* the non-null slots *)
  k_live : gset addr;                  (* the objects that are not deleted *)
  k_next : addr
}.

(** pthread_key_create *)
Definition key_create : key := mkKey true ∅ ∅ 0.

(** pthread_getspecific: null where nothing was set or the key was deleted. *)
Definition getspecific (t : thread_id) (k : key) : option addr :=
  if k_open k then k_specific k !! t else None.

(** pthread_setspecific: false is EINVAL. *)
Definition setspecific (t : thread_id) (a : addr) (k : key) : bool * key :=
  if k_open k then (true, mkKey true (<[t := a]> (k_specific k)) (k_live k) (k_next k)) else (false, k).

(** pthread_key_delete: no destructor is called. *)
Definition key_delete (k : key) : key := mkKey false ∅ (k_live k) (k_next k).

(** [new T()] *)
Definition new_T (k : key) : addr * key :=
  (k_next k, mkKey (k_open k) (k_specific k) ({[k_next k]} ∪ k_live k) (k_next k + 1)).

(** [delete obj]: of an object that is alive. *)
Definition delete_T (a : addr) (k : key) : outcome key :=
  require FBounds (bool_decide (a ∈ k_live k));;
  Ok (mkKey (k_open k) (k_specific k) (k_live k ∖ {[a]}) (k_next k)).

(** The end of a thread: a slot that is not null is cleared, and its old value
    goes to the destructor. *)
Definition thread_exit {S} (get : S -> key) (put : key -> S -> S) (destructor : thread_id -> addr -> S -> outcome S)
    (t : thread_id) (s : S) : outcome S :=
  match getspecific t (get s) with
  | None => Ok s
  | Some a =>
      let k := get s in
      destructor t a (put (mkKey (k_open k) (delete t (k_specific k)) (k_live k) (k_next k)) s)
  end.

(** Every slot has an object of its own, and there are no other objects. *)
Record k_inv (k : key) : Prop := {
  ki_open : k_open k = true;
  ki_inj : forall t t' a, k_specific k !! t = Some a -> k_specific k !! t' = Some a -> t = t';
  ki_live : forall a, a ∈ k_live k <-> exists t, k_specific k !! t = Some a;
  ki_next : forall a, a ∈ k_live k -> a < k_next k
}.

Lemma key_create_inv : k_inv key_create.
Proof.
  split; simpl; [done|intros t t' a Ht; by rewrite lookup_empty in Ht| |set_solver].
  intros a. split; [set_solver|]. intros [t Ht]. by rewrite lookup_empty in Ht.
Qed.

(** A new object in an empty slot. *)
Lemma fill_inv t k :
  k_inv k -> k_specific k !! t = None -> k_inv (snd (setspecific t (k_next k) (snd (new_T k)))).
Proof.
  intros [Ho Hi Hl Hn] Ht. unfold setspecific. simpl. rewrite Ho. simpl.
  assert (forall t', k_specific k !! t' <> Some (k_next k)) as Hf.
  { intros t' E. assert (k_next k < k_next k); [|lia]. apply Hn, Hl. by exists t'. }
  split; simpl; [done| | |].
  - intros t1 t2 a. destruct (decide (t1 = t)) as [->|], (decide (t2 = t)) as [->|];
      rewrite ?lookup_insert_eq, ?lookup_insert_ne by done; [done|..].
    + intros [= <-] E. by destruct (Hf t2).
    + intros E [= <-]. by destruct (Hf t1).
    + apply Hi.
  - intros a. rewrite elem_of_union, elem_of_singleton, Hl. split.
    + intros [->|[t' E]]; [exists t; apply lookup_insert_eq|]. exists t'. by rewrite lookup_insert_ne by congruence.
    + intros [t' E]. destruct (decide (t' = t)) as [->|]; [rewrite lookup_insert_eq in E; injection E; auto|].
      rewrite lookup_insert_ne in E by done. right. by exists t'.
  - intros a. rewrite elem_of_union, elem_of_singleton. intros [->|Ha%Hn]; lia.
Qed.

(** A slot that is emptied, and its object deleted. *)
Lemma drain_inv t a k :
  k_inv k -> k_specific k !! t = Some a ->
  exists k', delete_T a (mkKey (k_open k) (delete t (k_specific k)) (k_live k) (k_next k)) = Ok k' /\ k_inv k' /\
    k_specific k' = delete t (k_specific k).
Proof.
  intros [Ho Hi Hl Hn] Ht. unfold delete_T. simpl. rewrite bool_decide_eq_true_2 by (apply Hl; by exists t).
  eexists. split_and!; [done| |done]. split; simpl; [done| | |].
  - intros t1 t2 b [_ E1]%lookup_delete_Some [_ E2]%lookup_delete_Some. by eapply Hi.
  - intros b. rewrite elem_of_difference, elem_of_singleton, Hl. split.
    + intros [[t' E] Hne]. exists t'. rewrite lookup_delete_ne; [done|]. intros ->. congruence.
    + intros [t' [Hne E]%lookup_delete_Some]. split; [by exists t'|]. intros ->. apply Hne. by eapply Hi.
  - intros b [Hb _]%elem_of_difference. by apply Hn.
Qed.
End Key.
Import Key.

(** * ThreadLocal *)

Module ThreadLocal.

Definition new_ThreadLocal : key := key_create.

(** [~ThreadLocal] *)
Definition destroy_ThreadLocal (k : key) : key := key_delete k.

(** [value] in thread [t]: the reference it returns. *)
Definition value (t : thread_id) (k : key) : outcome (addr * key) :=
  match getspecific t k with
  | Some thread_instance => Ok (thread_instance, k)
  | None =>
      let '(new_obj, k) := new_T k in
      let '(ok, k) := setspecific t new_obj k in
      require FAssert ok;;                       (* MCHECK *)
      Ok (new_obj, k)
  end.

Definition destructor (_ : thread_id) (x : addr) (k : key) : outcome key := delete_T x k.

Definition exit_thread (t : thread_id) (k : key) : outcome key :=
  thread_exit (fun k => k) (fun k _ => k) destructor t k.

(** What threads do with a ThreadLocal object that lives on. *)
Inductive op : Type := Value (t : thread_id) | Exit (t : thread_id).
Definition step (o : op) (k : key) : outcome key :=
  match o with Value t => r ← value t k; Ok (snd r) | Exit t => exit_thread t k end.
Fixpoint run (l : list op) (k : key) : outcome key :=
  match l with [] => Ok k | o :: l => k ← step o k; run l k end.

(** [value] returns what the slot then holds. *)
Lemma value_spec t k :
  k_inv k ->
  exists a k', value t k = Ok (a, k') /\ k_inv k' /\ k_specific k' = <[t := a]> (k_specific k) /\ a ∈ k_live k' /\
    (forall b, k_specific k !! t = Some b -> a = b /\ k' = k).
Proof.
  intros I. pose proof I as [Ho _ Hl _]. unfold value, getspecific. rewrite Ho.
  destruct (k_specific k !! t) as [a|] eqn:Ht.
  - exists a, k. split_and!; [done..| |apply Hl; by exists t|by intros ? [= ->]]. by rewrite insert_id.
  - exists (k_next k), (snd (setspecific t (k_next k) (snd (new_T k)))). pose proof (fill_inv t k I Ht) as I'.
    unfold setspecific in *. simpl in *. rewrite Ho in *. simpl in *. split_and!; [done..|set_solver|done].
Qed.

Lemma exit_thread_spec t k :
  k_inv k -> exists k', exit_thread t k = Ok k' /\ k_inv k' /\ k_specific k' = delete t (k_specific k).
Proof.
  intros I. unfold exit_thread, thread_exit, getspecific. rewrite (ki_open k I).
  destruct (k_specific k !! t) as [a|] eqn:Ht; [|exists k; by rewrite delete_id].
  pose proof (drain_inv t a k I Ht) as D. by rewrite (ki_open k I) in D.
Qed.

Lemma run_inv l : forall k, k_inv k -> returns k_inv (run l k).
Proof.
  induction l as [|[t|t] l IH]; intros k I; simpl; [done| |].
  - destruct (value_spec t k I) as (a & k' & -> & I' & _). by apply IH.
  - destruct (exit_thread_spec t k I) as (k' & -> & I' & _). by apply IH.
Qed.

(** Every thread has an object of its own.  After any calls and exits of any
    threads, none of which faults: [value] returns an object that is alive, the
    same as long as the thread lives, and no other thread has it; a thread that
    exits deletes its object and no other. *)
Theorem thread_local_own l t :
  exists k a k1, run l new_ThreadLocal = Ok k /\ value t k = Ok (a, k1) /\ a ∈ k_live k1 /\
    (forall l', Exit t ∉ l' -> exists k2, run l' k1 = Ok k2 /\ value t k2 = Ok (a, k2)) /\
    (forall t' b k2, t' <> t -> value t' k1 = Ok (b, k2) -> b <> a) /\
    (exists k2, exit_thread t k1 = Ok k2 /\ k_live k2 = k_live k1 ∖ {[a]}).
Proof.
  destruct (returns_ok _ _ (run_inv l new_ThreadLocal key_create_inv)) as (k & E & I).
  destruct (value_spec t k I) as (a & k1 & E1 & I1 & S1 & A1 & _). exists k, a, k1. split_and!; [done..| | |].
  - intros l' Hl'. assert (k_specific k1 !! t = Some a) as Ha by (rewrite S1; apply lookup_insert_eq). clear - I1 Ha Hl'.
    revert k1 I1 Ha Hl'. induction l' as [|[t'|t'] l' IH]; intros k1 I1 Ha Hl'; simpl.
    + exists k1. split; [done|]. destruct (value_spec t k1 I1) as (b & k2 & -> & _ & _ & _ & Hb). by destruct (Hb a Ha) as [-> ->].
    + destruct (value_spec t' k1 I1) as (b & k2 & -> & I2 & S2 & _ & Hb). simpl. apply IH; [done| |set_solver]. rewrite S2.
      destruct (decide (t' = t)) as [->|]; [|by rewrite lookup_insert_ne]. destruct (Hb a Ha) as [-> _]. apply lookup_insert_eq.
    + destruct (exit_thread_spec t' k1 I1) as (k2 & -> & I2 & S2). simpl. apply IH; [done| |set_solver]. rewrite S2.
      rewrite lookup_delete_ne; [done|]. intros ->. set_solver.
  - intros t' b k2 Ht' E2 ->. destruct (value_spec t' k1 I1) as (b & k3 & E3 & I3 & S3 & _). rewrite E3 in E2. injection E2 as -> ->.
    apply Ht'. eapply (ki_inj _ I3 t' t a); rewrite S3; [apply lookup_insert_eq|]. rewrite lookup_insert_ne, S1 by done. apply lookup_insert_eq.
  - unfold exit_thread, thread_exit, getspecific. rewrite (ki_open _ I1), S1, lookup_insert_eq. unfold destructor, delete_T. simpl.
    rewrite bool_decide_eq_true_2 by done. by eexists.
Qed.

(** The destructor of the ThreadLocal deletes no object: those of the threads
    that still run are never deleted. *)
Theorem thread_local_leaks k ts :
  exists k', run (Exit <$> ts) (destroy_ThreadLocal k) = Ok k' /\ k_live k' = k_live k.
Proof.
  assert (forall k1, k_open k1 = false -> run (Exit <$> ts) k1 = Ok k1) as E.
  { clear k. induction ts as [|t ts IH]; intros k1 H1; simpl; [done|]. unfold exit_thread, thread_exit, getspecific. rewrite H1. by apply IH. }
  eexists. split; [by apply E|done].
Qed.
End ThreadLocal.

(** * ThreadLocalSingleton *)

Module ThreadLocalSingleton.

Record tls : Type := mkTls {
  t_instance : gmap thread_id addr;   (* the __thread pointer, where not null *)
  m_deleter : key
}.

Definition new_tls : tls := mkTls ∅ key_create.

(** [Deleter::set] in thread [t]; the result of pthread_setspecific is ignored. *)
Definition deleter_set (t : thread_id) (new_obj : addr) (k : key) : outcome key :=
  require FAssert (bool_decide (getspecific t k = None));;
  Ok (snd (setspecific t new_obj k)).

Definition instance (t : thread_id) (s : tls) : outcome (addr * tls) :=
  match t_instance s !! t with
  | Some a => Ok (a, s)
  | None =>
      let '(a, k) := new_T (m_deleter s) in
      let inst := <[t := a]> (t_instance s) in
      k ← deleter_set t a k;
      Ok (a, mkTls inst k)
  end.

Definition pointer (t : thread_id) (s : tls) : option addr := t_instance s !! t.

Definition tls_destructor (t : thread_id) (obj : addr) (s : tls) : outcome tls :=
  require FAssert (bool_decide (Some obj = t_instance s !! t));;
  k ← delete_T obj (m_deleter s);
  Ok (mkTls (delete t (t_instance s)) k).

Definition tls_exit_thread (t : thread_id) (s : tls) : outcome tls :=
  thread_exit m_deleter (fun k s => mkTls (t_instance s) k) tls_destructor t s.

(** [~Deleter]: when the process exits. *)
Definition destroy_Deleter (s : tls) : tls := mkTls (t_instance s) (key_delete (m_deleter s)).

Definition tls_step (o : ThreadLocal.op) (s : tls) : outcome tls :=
  match o with ThreadLocal.Value t => r ← instance t s; Ok (snd r) | ThreadLocal.Exit t => tls_exit_thread t s end.
Fixpoint tls_run (l : list ThreadLocal.op) (s : tls) : outcome tls :=
  match l with [] => Ok s | o :: l => s ← tls_step o s; tls_run l s end.

(** The pointer of each thread is the slot of the key. *)
Definition synced (s : tls) : Prop := k_inv (m_deleter s) /\ t_instance s = k_specific (m_deleter s).

Lemma instance_simulates t s :
  synced s -> exists a s', instance t s = Ok (a, s') /\ synced s' /\ ThreadLocal.value t (m_deleter s) = Ok (a, m_deleter s').
Proof.
  intros [I E]. destruct (ThreadLocal.value_spec t _ I) as (a & k' & V & I' & _). pose proof (ki_open _ I) as Ho.
  revert V. unfold instance, ThreadLocal.value, deleter_set, getspecific, setspecific. simpl. rewrite E, !Ho.
  destruct (k_specific (m_deleter s) !! t) eqn:Ht; simpl; [by intros [= <- <-]; eexists _, s|].
  rewrite ?bool_decide_eq_true_2 by done. simpl. intros [= <- <-]. by eexists _, (mkTls _ _).
Qed.

Lemma exit_simulates t s :
  synced s -> exists s', tls_exit_thread t s = Ok s' /\ synced s' /\ ThreadLocal.exit_thread t (m_deleter s) = Ok (m_deleter s').
Proof.
  intros [I E]. destruct (ThreadLocal.exit_thread_spec t _ I) as (k' & V & I' & S). pose proof (ki_open _ I) as Ho.
  revert V. unfold tls_exit_thread, ThreadLocal.exit_thread, thread_exit, getspecific. rewrite Ho.
  destruct (k_specific (m_deleter s) !! t) as [a|] eqn:Ht; simpl; [|by intros [= <-]; exists s].
  unfold tls_destructor, ThreadLocal.destructor. simpl. rewrite E, bool_decide_eq_true_2 by done. simpl. intros ->. simpl.
  eexists (mkTls _ _). split_and!; [done| |done]. by split.
Qed.

(** ThreadLocalSingleton refines ThreadLocal: over any calls and exits of any
    threads no assertion fails, [instance] returns what [value] of a
    ThreadLocal returns, and [pointer] is that object or null. *)
Theorem tls_refines_thread_local l t :
  exists s, tls_run l new_tls = Ok s /\ ThreadLocal.run l ThreadLocal.new_ThreadLocal = Ok (m_deleter s) /\
    pointer t s = getspecific t (m_deleter s) /\
    exists a s', instance t s = Ok (a, s') /\ ThreadLocal.value t (m_deleter s) = Ok (a, m_deleter s') /\ pointer t s' = Some a.
Proof.
  assert (forall s, synced s -> exists s', tls_run l s = Ok s' /\ synced s' /\ ThreadLocal.run l (m_deleter s) = Ok (m_deleter s')) as Hsim.
  { induction l as [|[t'|t'] l IH]; intros s I; simpl; [by exists s| |].
    - destruct (instance_simulates t' s I) as (a & s' & -> & I' & ->). by apply IH.
    - destruct (exit_simulates t' s I) as (s' & -> & I' & ->). by apply IH. }
  destruct (Hsim new_tls) as (s & E & I & E'); [by split; [apply key_create_inv|]|]. exists s. split_and!; [done..| |].
  - unfold pointer, getspecific. destruct I as [I ->]. by rewrite (ki_open _ I).
  - destruct (instance_simulates t s I) as (a & s' & E1 & [I1 S1] & E2). exists a, s'. split_and!; [done..|].
    unfold pointer. rewrite S1. destruct I as [I _]. destruct (ThreadLocal.value_spec t _ I) as (b & k & E3 & _ & Sk & _).
    rewrite E3 in E2. injection E2 as -> ->. rewrite Sk. apply lookup_insert_eq.
Qed.

(** Once the key is gone, an object that [instance] makes is not deleted when
    its thread ends. *)
Theorem tls_after_exit_leaks t s :
  synced s -> t_instance s !! t = None ->
  exists a s', instance t (destroy_Deleter s) = Ok (a, s') /\ tls_exit_thread t s' = Ok s' /\ a ∈ k_live (m_deleter s').
Proof.
  intros [I E] Ht. unfold instance, deleter_set, getspecific, setspecific. simpl. rewrite Ht. simpl.
  eexists _, _. split_and!; [done|done|]. simpl. set_solver.
Qed.
End ThreadLocalSingleton.
