(* ===== verification/WeakCallback.v ===== *)
(** [flute/common/WeakCallback.h]: a callback that holds a weak_ptr to the
    object whose member it calls.  TcpConnection gives such callbacks to its
    delayed closes, so that a timer does not keep a connection alive.

    The shared_ptr's of one object are counted by their holders: the owners
    anywhere in the program, and the locals [ptr] of the calls that are running.
    A running function is the sequence of what it and the other threads do with
    the owners' pointers meanwhile; the counts are atomic. *)

From S2P Require Import Prelude.

Record block : Type := mkBlock {
  b_owners : nat;     (* shared_ptr's outside of operator() *)
  b_ptrs : nat;       (* those of operator() *)
  b_deleted : nat     (* how often the destructor ran *)
}.

Definition use_count (b : block) : nat := b_owners b + b_ptrs b.

(** The object is used: it must be alive. *)
Definition use (b : block) : outcome unit := require FBounds (b_deleted b =? 0)%nat.

(** The destructor of a shared_ptr: the last one deletes the object. *)
Definition released (b : block) : block :=
  if (use_count b =? 0)%nat then mkBlock (b_owners b) (b_ptrs b) (S (b_deleted b)) else b.

(** What a function does with the object and the pointers to it. *)
Inductive ptr_op : Type :=
| Access               (* a member is used *)
| Copy                 (* a shared_ptr is made of another *)
| Drop.                (* an owner lets go *)

Definition ptr_step (o : ptr_op) (b : block) : outcome block :=
  match o with
  | Access => use b;; Ok b
  | Copy => require FBounds (0 <? use_count b)%nat;; Ok (mkBlock (S (b_owners b)) (b_ptrs b) (b_deleted b))
  | Drop => require FBounds (0 <? b_owners b)%nat;; Ok (released (mkBlock (b_owners b - 1) (b_ptrs b) (b_deleted b)))
  end.
Fixpoint ptr_steps (l : list ptr_op) (b : block) : outcome block :=
  match l with [] => Ok b | o :: l => b ← ptr_step o b; ptr_steps l b end.

(** [weak_ptr::lock] *)
Definition lock (b : block) : option block :=
  if (use_count b =? 0)%nat then None else Some (mkBlock (b_owners b) (S (b_ptrs b)) (b_deleted b)).
(** The end of the scope of [ptr]. *)
Definition unlock (b : block) : block := released (mkBlock (b_owners b) (b_ptrs b - 1) (b_deleted b)).

Record WeakCallback (ARGS : Type) : Type := mkWeakCallback {
  function_ : ARGS -> list ptr_op         (* [object_] is the block *)
}.
Arguments mkWeakCallback {ARGS} _.
Arguments function_ {ARGS} _ _.

(** [make_weak_callback]: the weak_ptr is not counted. *)
Definition make_weak_callback {ARGS} (function : ARGS -> list ptr_op) : WeakCallback ARGS := mkWeakCallback function.

(** [operator()]: whether it called the function, and the counts. *)
Definition call {ARGS} (w : WeakCallback ARGS) (args : ARGS) (b : block) : outcome (bool * block) :=
  match lock b with
  | Some b =>
      use b;;
      b ← ptr_steps (function_ w args) b;
      Ok (true, unlock b)
  | None => Ok (false, b)
  end.

(** ** The counts are right *)

(** The drops of [l] are of pointers that exist when [n] owners are there. *)
Fixpoint owned (n : nat) (l : list ptr_op) : bool :=
  match l with
  | [] => true
  | Access :: l => owned n l
  | Copy :: l => owned (S n) l
  | Drop :: l => match n with O => false | S n => owned n l end
  end.

Fixpoint owners_after (n : nat) (l : list ptr_op) : nat :=
  match l with
  | [] => n
  | Access :: l => owners_after n l
  | Copy :: l => owners_after (S n) l
  | Drop :: l => owners_after (n - 1) l
  end.

(** The counts of an object with [n] owners and [p] running calls: it is deleted
    once, and when nothing points to it. *)
Definition held (n p : nat) : block := mkBlock n p (if (n + p =? 0)%nat then 1 else 0).

(** Under a running call the object lives, whatever is done to the owners. *)
Lemma ptr_steps_held p : forall l n, owned n l = true -> ptr_steps l (held n (S p)) = Ok (held (owners_after n l) (S p)).
Proof.
  assert (forall n, held n (S p) = mkBlock n (S p) 0) as E by (intros n; unfold held; by rewrite Nat.add_succ_r).
  induction l as [|o l IH]; intros n Ho; simpl; [done|]. rewrite E. destruct o; simpl in *.
  - rewrite <- E. by apply IH.
  - unfold use_count. simpl. rewrite Nat.add_succ_r. simpl. rewrite <- E. by apply IH.
  - destruct n as [|n]; [done|]. simpl. unfold released, use_count. simpl. rewrite Nat.add_succ_r. simpl. rewrite Nat.sub_0_r, <- E. by apply IH.
Qed.

(** A callback on an object that is gone does nothing; on one that is alive it
    calls the function, which finds it alive to its end even if every owner
    lets go meanwhile; after the call the object is deleted exactly if no owner
    is left, and once. *)
Theorem weak_callback_safe {ARGS} (w : WeakCallback ARGS) (args : ARGS) (n p : nat) :
  owned n (function_ w args) = true ->
  call w args (held n p) =
    Ok (if (n + p =? 0)%nat then (false, held n p) else (true, held (owners_after n (function_ w args)) p)).
Proof.
  intros Ho. unfold call, lock, use_count. simpl. destruct (n + p =? 0)%nat eqn:E; [done|].
  assert (mkBlock n (S p) 0 = held n (S p)) as -> by (unfold held; by rewrite Nat.add_succ_r).
  assert (use (held n (S p)) = Ok tt) as -> by (unfold use, held; simpl; by rewrite Nat.add_succ_r). simpl.
  rewrite ptr_steps_held by done. simpl. unfold unlock, released, held, use_count. simpl. rewrite Nat.add_succ_r, Nat.sub_0_r. simpl.
  by destruct (owners_after n (function_ w args) + p =? 0)%nat.
Qed.

(** The delayed close of a connection whose server drops it while it runs. *)
Example last_owner_drops :
  call (make_weak_callback (fun _ : unit => [Access; Drop; Access])) tt (held 1 0) = Ok (true, mkBlock 0 0 1) /\
  call (make_weak_callback (fun _ : unit => [Access])) tt (held 0 0) = Ok (false, mkBlock 0 0 1).
Proof. done. Qed.
