(* ===== verification/ReactorTimers.v ===== *)
(** The timer calls of [flute/net/Reactor.{h,cc}] ([run_at], [run_after],
    [run_every], [remove]) and the parts of [TimerQueue.cc] that meet the
    reactor: [add_timer] and [remove] called in any thread, the channel of the
    timerfd, construction and destruction.

    A reactor and its timer queue together: calls of other threads reach the
    queue as tasks, calls in the loop thread at once.  [clock] is what the clock
    shows when [reset_timer_fd] reads it; [tid] is the caller. *)

From Stdlib Require Import Floats.SpecFloat.
From S2P Require Import Prelude OrdContainers Format Timestamp Channel Poller EPollPoller TimerQueue Reactor.

(** What is queued in the reactor: the two bound functions of TimerQueue, or
    any function of a user, which may itself add and remove timers. *)
Inductive timer_task : Type :=
| TAdd (p : timer_ptr)
| TCancel (id : TimerId)
| TUser (cb : closure).

Section timers.
Context {P : Type} `{PollerLaws P}.
Context (malloc : gmap timer_ptr Timer -> option timer_ptr).
Context (body : closure -> TimerQueue -> list timer_op).

Record timed : Type := mkTimed {
  t_reactor : Reactor P timer_task;
  t_queue : TimerQueue;
  t_batch : list timer_task          (* those that do_queueing_tasks has yet to call *)
}.

Definition run_task (clock : Timestamp) (t : timer_task) (s : timed) : outcome timed :=
  q ← (match t with
       | TAdd p => add_timer_in_reactor (t_queue s) p clock
       | TCancel id => cancel_in_reactor (t_queue s) id
       | TUser cb => run_ops malloc (body cb (t_queue s)) (t_queue s)
       end);
  Ok (mkTimed (t_reactor s) q (t_batch s)).

(** [run_asap_in_reactor], with the call of the task. *)
Definition run_asap (tid : pid_t) (clock : Timestamp) (t : timer_task) (s : timed) : outcome timed :=
  let '(now, r) := run_asap_in_reactor tid t (t_reactor s) in
  let s := mkTimed r (t_queue s) (t_batch s) in
  match now with Some t => run_task clock t s | None => Ok s end.

(** [TimerQueue::add_timer] up to its return statement, which reads the id out
    of the timer. *)
Definition add_timer_call (tid : pid_t) (cb : closure) (time : Timestamp) (interval : double) (clock : Timestamp)
    (s : timed) : outcome (timer_ptr * timed) :=
  '(timer, q) ← alloc_timer malloc (t_queue s) cb time interval;
  s ← run_asap tid clock (TAdd timer) (mkTimed (t_reactor s) q (t_batch s));
  Ok (timer, s).
Definition add_timer_return (timer : timer_ptr) (s : timed) : outcome TimerId :=
  t ← timer_at (t_queue s) timer; Ok (mkTimerId timer (m_global_timer_id t)).
Definition add_timer_any (tid : pid_t) (cb : closure) (time : Timestamp) (interval : double) (clock : Timestamp)
    (s : timed) : outcome (TimerId * timed) :=
  '(timer, s) ← add_timer_call tid cb time interval clock s;
  id ← add_timer_return timer s;
  Ok (id, s).

(** [TimerQueue::remove] *)
Definition remove_timer (tid : pid_t) (timerId : TimerId) (s : timed) : outcome timed := run_asap tid 0 (TCancel timerId) s.

Definition run_at (tid : pid_t) (time : Timestamp) (cb : closure) (clock : Timestamp) (s : timed) : outcome (TimerId * timed) :=
  add_timer_any tid cb time zero_point_zero clock s.
Definition run_after (tid : pid_t) (now : Timestamp) (delay : double) (cb : closure) (clock : Timestamp) (s : timed)
    : outcome (TimerId * timed) :=
  time ← add_second now delay; run_at tid time cb clock s.
Definition run_every (tid : pid_t) (now : Timestamp) (interval : double) (cb : closure) (clock : Timestamp) (s : timed)
    : outcome (TimerId * timed) :=
  time ← add_second now interval; add_timer_any tid cb time interval clock s.
Definition reactor_remove_timer (tid : pid_t) (timerId : TimerId) (s : timed) : outcome timed := remove_timer tid timerId s.

(** * Construction and destruction *)

(** [Reactor::Reactor] with [TimerQueue::TimerQueue] in it: [tc] and [tfd] are
    the channel and the descriptor of the timerfd. *)
Definition new_timed (tid : pid_t) (other : bool) (p : P) (tc : chan_ptr) (tfd : Z) (wc : chan_ptr) (wfd : Z) (cs : chans)
    : outcome (timed * chans) :=
  let cs := <[tc := new_Channel tid tfd]> cs in
  '(p, cs) ← wang_to_read p cs tc;
  '(r, cs) ← new_Reactor tid other p wc wfd cs;
  Ok (mkTimed r (new_TimerQueue tid) [], cs).

(** [for (const Entry& timer : m_timers_set) delete timer.second;] *)
Definition delete_timers (q : TimerQueue) : TimerQueue :=
  with_heap (foldr (fun e h => delete e.2 h) (m_heap q) (m_timers_set q)) (g_global_timer_id q) q.

(** [TimerQueue::~TimerQueue], with the destructor of its channel. *)
Definition destroy_TimerQueue (tc : chan_ptr) (s : timed) (cs : chans) : outcome (timed * chans) :=
  '(r, cs) ← reactor_change (fun _ => kNoneEvent) tc (t_reactor s) cs;
  '(r, cs) ← reactor_remove tc r cs;
  let q := delete_timers (t_queue s) in
  cs ← destroy_Channel (m_poller r) cs tc;
  Ok (mkTimed r q (t_batch s), cs).

(** [Reactor::~Reactor]: its body, and then its members in the reverse order:
    the tasks, the wake-up channel, the timers. *)
Definition destroy_timed (tc : chan_ptr) (s : timed) (cs : chans) : outcome (timed * chans) :=
  '(r, cs) ← destroy_Reactor (t_reactor s) cs;
  cs ← destroy_Channel (m_poller r) cs (m_wakeup_channel r);
  destroy_TimerQueue tc (mkTimed (set_pending [] r) (t_queue s) (t_batch s)) cs.

(** * The loop and the other threads *)

(** The steps that concern timers, one after the other in any order: the calls
    of any thread, and what the loop does.  The return of the id is left out. *)
Inductive timed_event : Type :=
| EvCall (tid : pid_t) (cb : closure) (time : Timestamp) (interval : double) (clock : Timestamp)
| EvRemove (tid : pid_t) (id : TimerId)
| EvQueue (tid : pid_t) (cb : closure)
| EvTimerfd (now clock : Timestamp)      (* the timerfd is dispatched *)
| EvTasks                                (* do_queueing_tasks takes the tasks *)
| EvTask (clock : Timestamp)             (* calls one *)
| EvTasksEnd.

(** A step that the loop cannot take where it is, is none. *)
Definition timed_step (e : timed_event) (s : timed) : outcome timed :=
  let calling := m_is_calling_pending_tasks (t_reactor s) in
  match e with
  | EvCall tid cb time interval clock => '(_, s) ← add_timer_call tid cb time interval clock s; Ok s
  | EvRemove tid id => reactor_remove_timer tid id s
  | EvQueue tid cb => Ok (mkTimed (queue_in_reactor tid (TUser cb) (t_reactor s)) (t_queue s) (t_batch s))
  | EvTimerfd now clock =>
      if calling then Ok s
      else q ← handle_timerfd_read malloc body (t_queue s) now clock; Ok (mkTimed (t_reactor s) q (t_batch s))
  | EvTasks =>
      if calling then Ok s
      else let '(l, r) := tasks_begin (t_reactor s) in Ok (mkTimed r (t_queue s) l)
  | EvTask clock =>
      match t_batch s with
      | t :: l => run_task clock t (mkTimed (t_reactor s) (t_queue s) l)
      | [] => Ok s
      end
  | EvTasksEnd =>
      match t_batch s with
      | [] => Ok (mkTimed (tasks_end (t_reactor s)) (t_queue s) [])
      | _ => Ok s
      end
  end.
Fixpoint timed_run (l : list timed_event) (s : timed) : outcome timed :=
  match l with [] => Ok s | e :: l => s ← timed_step e s; timed_run l s end.

(** Times within the range in which the arithmetic does not overflow, and
    clocks not after [T]. *)
Definition timed_event_ok (T : Timestamp) (e : timed_event) : Prop :=
  match e with
  | EvCall _ _ time interval clock => time_ok time /\ interval_ok interval /\ clock_ok clock /\ clock <= T
  | EvTimerfd now clock => clock_ok now /\ clock_ok clock /\ clock <= T
  | EvTask clock => clock_ok clock /\ clock <= T
  | _ => True
  end.

(** ** The invariant *)

(** The timers that are on their way to the queue. *)
Definition under_way (l : list timer_task) : list Entry :=
  omap (fun t => match t with TAdd p => Some (0, p) | _ => None end) l.
Definition waiting_tasks (s : timed) : list timer_task := t_batch s ++ m_pending_tasks (t_reactor s).

Record timed_inv (T : Timestamp) (s : timed) : Prop := {
  ti_tid : m_tid (t_reactor s) = cur_tid;
  ti_queue : tq_inv (under_way (waiting_tasks s)) (t_queue s);
  ti_armed : armed T true (t_queue s);
  ti_batch : t_batch s <> [] -> m_is_calling_pending_tasks (t_reactor s) = true
}.

Lemma under_way_app l l' : under_way (l ++ l') = under_way l ++ under_way l'.
Proof. apply omap_app. Qed.

Lemma under_way_elem p l : p ∈ (under_way l).*2 <-> TAdd p ∈ l.
Proof.
  rewrite list_elem_of_fmap. split.
  - intros (x & -> & (t & Ht & E)%list_elem_of_omap). destruct t; simplify_eq. done.
  - intros Ht. exists (0, p). split; [done|]. apply list_elem_of_omap. by exists (TAdd p).
Qed.
(** A task leaves the tasks, and has run. *)
Lemma run_task_inv T clock t l s :
  malloc_ok malloc -> body_ok body T -> (forall p, t = TAdd p -> clock_ok clock /\ clock <= T) ->
  m_tid (t_reactor s) = cur_tid -> tq_inv (under_way (t :: l)) (t_queue s) -> armed T true (t_queue s) ->
  safe (fun s' => t_reactor s' = t_reactor s /\ t_batch s' = t_batch s /\ tq_inv (under_way l) (t_queue s') /\ armed T true (t_queue s'))
    (run_task clock t s).
Proof.
  intros Hm Hb Hc Ht I A. unfold run_task. destruct t as [p|id|cb]; simpl in I.
  - destruct (inv_outside _ _ _ I) as (_ & _ & _ & t & Hp & _).
    destruct (Hc p eq_refl) as [Hc1 HcT].
    by destruct (add_timer_in_reactor_spec T true 0 p _ _ t clock I A Hp Hc1 HcT) as (q & -> & I' & A' & _).
  - by destruct (cancel_spec body T true _ _ id I A) as (q & -> & I' & A').
  - eapply safe_bind; [by apply (run_ops_spec malloc body T true (under_way l))|]. by intros q [I' A'].
Qed.

(** A task is queued. *)
Lemma queued_inv T t r s :
  m_tid (t_reactor s) = cur_tid -> (t_batch s <> [] -> m_is_calling_pending_tasks (t_reactor s) = true) ->
  tq_inv (under_way (t :: waiting_tasks s)) (t_queue s) -> armed T true (t_queue s) ->
  (m_tid r, m_is_calling_pending_tasks r, m_pending_tasks r) =
    (m_tid (t_reactor s), m_is_calling_pending_tasks (t_reactor s), m_pending_tasks (t_reactor s) ++ [t]) ->
  timed_inv T (mkTimed r (t_queue s) (t_batch s)).
Proof.
  intros Ht Hb I A [= E1 E2 E3]. split; simpl; rewrite ?E1, ?E2; try done. unfold waiting_tasks. simpl. rewrite E3.
  revert I. apply inv_perm, fmap_Permutation. unfold waiting_tasks. change (t :: ?l) with ([t] ++ l).
  rewrite !under_way_app. solve_Permutation.
Qed.

(** A task that any thread hands over runs at once or waits at the end. *)
Lemma run_asap_inv T tid clock t s :
  malloc_ok malloc -> body_ok body T -> (forall p, t = TAdd p -> clock_ok clock /\ clock <= T) ->
  m_tid (t_reactor s) = cur_tid -> (t_batch s <> [] -> m_is_calling_pending_tasks (t_reactor s) = true) ->
  tq_inv (under_way (t :: waiting_tasks s)) (t_queue s) -> armed T true (t_queue s) ->
  safe (timed_inv T) (run_asap tid clock t s).
Proof.
  intros Hm Hb Hc Ht Hba I A. unfold run_asap, run_asap_in_reactor.
  destruct (is_in_reactor_thread tid (t_reactor s)).
  - pose proof (run_task_inv T clock t (waiting_tasks s) s Hm Hb Hc Ht I A) as S. destruct s as [r q b].
    destruct (run_task _ _ _) as [[r' q' b']|]; [|done]. simpl in *. destruct S as (-> & -> & I' & A'). by split.
  - apply (queued_inv T t); [done..|]. unfold queue_in_reactor, queue_notify. by destruct (_ || _).
Qed.

Lemma add_timer_call_inv T tid cb time interval clock s :
  malloc_ok malloc -> body_ok body T -> time_ok time -> interval_ok interval -> clock_ok clock -> clock <= T -> timed_inv T s ->
  safe (fun r => timed_inv T r.2) (add_timer_call tid cb time interval clock s).
Proof.
  intros Hm Hb Hti Hi Hc HcT [It Iq Ia Ib]. unfold add_timer_call.
  eapply safe_bind; [by eapply (alloc_timer_spec malloc body T true)|]. intros [p q] (I1 & A1 & _). simpl in I1, A1.
  eapply safe_bind; [by apply (run_asap_inv T); try done; eapply inv_perm; [|exact I1]|]. done.
Qed.

Lemma timed_step_inv T e s :
  malloc_ok malloc -> body_ok body T -> timed_event_ok T e -> timed_inv T s -> safe (timed_inv T) (timed_step e s).
Proof.
  intros Hm Hb He I. pose proof I as [It Iq Ia Ib].
  destruct e as [tid cb time interval clock|tid id|tid cb|now clock| |clock|]; cbn [timed_step].
  - destruct He as (H1' & H2' & H3' & H4'). eapply safe_bind; [by eapply add_timer_call_inv|]. by intros [].
  - by apply (run_asap_inv T).
  - apply (queued_inv T (TUser cb)); [done..|]. unfold queue_in_reactor, queue_notify. by destruct (_ || _).
  - destruct (m_is_calling_pending_tasks _) eqn:E; [done|]. destruct He as (H1' & H2' & H3').
    eapply safe_bind; [by apply (handle_timerfd_read_spec malloc body T (under_way (waiting_tasks s)))|].
    intros q [I' A']. split; try done. simpl. by rewrite E.
  - destruct (m_is_calling_pending_tasks (t_reactor s)) eqn:E; [done|]. simpl.
    assert (t_batch s = []) as Eb by (destruct (t_batch s); [done|]; by specialize (Ib ltac:(done))).
    unfold waiting_tasks in Iq. rewrite Eb in Iq. split; simpl; try done. unfold waiting_tasks. simpl. by rewrite app_nil_r.
  - destruct (t_batch s) as [|t l] eqn:Eb; [done|]. destruct He as [Hc HcT].
    pose proof (run_task_inv T clock t (l ++ m_pending_tasks (t_reactor s)) (mkTimed (t_reactor s) (t_queue s) l)) as S.
    unfold waiting_tasks in Iq. rewrite Eb in Iq. specialize (S Hm Hb ltac:(done) It Iq Ia).
    destruct (run_task _ _ _) as [[r' q' b']|]; [|done]. simpl in *. destruct S as (-> & -> & I' & A'). split; simpl; try done. auto.
  - destruct (t_batch s) eqn:Eb; [|done]. unfold waiting_tasks in Iq. rewrite Eb in Iq. by split.
Qed.

(** The start: a reactor of the loop thread that has no tasks yet. *)
Definition timed_start (r : Reactor P timer_task) : timed := mkTimed r (new_TimerQueue cur_tid) [].

Lemma timed_run_inv T l s :
  malloc_ok malloc -> body_ok body T -> Forall (timed_event_ok T) l -> timed_inv T s -> safe (timed_inv T) (timed_run l s).
Proof.
  intros Hm Hb Hl. revert s. induction Hl as [|e l He Hl IH]; intros s I; [done|]. cbn [timed_run].
  eapply safe_bind; [by apply (timed_step_inv T)|]. intros s'. apply IH.
Qed.

(** C14: no timer is lost on its way.  Whatever threads call [run_at],
    [run_after], [run_every] and [remove], whatever the loop does in between,
    with callbacks and tasks that themselves add and cancel timers: no
    assertion fails (only the allocator can fail); every live timer is in both
    sets of the queue, or the task that will put it there waits, and never
    both; a timer whose task waits is alive; and for a timer in the queue the
    timerfd is armed no later than for its time, or 100 microseconds after a
    past clock reading. *)
Theorem reactor_timers_safe (T : Timestamp) (l : list timed_event) (r : Reactor P timer_task) :
  malloc_ok malloc -> body_ok body T -> Forall (timed_event_ok T) l -> m_tid r = cur_tid -> m_pending_tasks r = [] ->
  safe (fun s =>
      (forall p t, m_heap (t_queue s) !! p = Some t ->
         (m_time_expire t, p) ∈ m_timers_set (t_queue s) /\ (p, m_global_timer_id t) ∈ m_active_timers_set (t_queue s) \/
         TAdd p ∈ waiting_tasks s) /\
      (forall p, TAdd p ∈ waiting_tasks s ->
         is_Some (m_heap (t_queue s) !! p) /\ forall e, (e, p) ∉ m_timers_set (t_queue s)) /\
      (forall e p, (e, p) ∈ m_timers_set (t_queue s) ->
         exists w, m_timer_fd (t_queue s) = Some w /\ w <= Z.max e (T + 100)))
    (timed_run l (timed_start r)).
Proof.
  intros Hm Hb Hl Ht Hp.
  assert (timed_inv T (timed_start r)) as I0.
  { split; simpl; try done. unfold waiting_tasks. simpl. rewrite Hp. apply inv_new. }
  pose proof (timed_run_inv T l _ Hm Hb Hl I0) as S. destruct (timed_run l (timed_start r)) as [s|]; [|done].
  destruct S as [It Iq Ia _]. split_and!.
  - intros p t Hpt. destruct (inv_all _ _ Iq p t Hpt) as [Ha|Hw]; [left|right; by apply under_way_elem].
    split; [|done]. destruct (inv_act _ _ Iq _ _ Ha) as (t' & Ht' & _ & Hin). by simplify_eq.
  - intros p Hw%under_way_elem. destruct (inv_ex _ _ Iq p Hw) as (t & Hpt & Hn). split; [by eexists|].
    intros e. by eapply not_active_not_timed.
  - intros e p Hin. destruct (head_time (m_timers_set (t_queue s))) as [e0|] eqn:E0.
    + pose proof (head_time_min _ _ _ _ (inv_ts_sorted _ _ Iq) Hin E0) as Hle.
      destruct (Ia e0 E0 (or_introl eq_refl)) as (w & Hw & Hwl). exists w. split; [done|lia].
    + by destruct (m_timers_set (t_queue s)); [apply elem_of_nil in Hin|].
Qed.

(** In the loop thread the id that [run_at] returns is that of a timer that
    waits in the queue for the given time. *)
Theorem run_at_in_loop (T : Timestamp) (time : Timestamp) (cb : closure) (clock : Timestamp) (s : timed) :
  malloc_ok malloc -> body_ok body T -> time_ok time -> clock_ok clock -> clock <= T -> timed_inv T s ->
  safe (fun r => (time, m_timer_ptr r.1) ∈ m_timers_set (t_queue r.2) /\
      (m_timer_ptr r.1, sequence_ r.1) ∈ m_active_timers_set (t_queue r.2) /\
      exists t, m_heap (t_queue r.2) !! m_timer_ptr r.1 = Some t /\ m_callback t = cb)
    (run_at cur_tid time cb clock s).
Proof.
  intros Hm Hb Hti Hc HcT [It Iq Ia Ib]. unfold run_at, add_timer_any, add_timer_call.
  pose proof (alloc_timer_spec malloc body T true _ _ cb time zero_point_zero Hm Iq Ia Hti ltac:(done)) as S.
  destruct (alloc_timer _ _ _ _ _) as [[p q]|]; [|done]. simpl in S. destruct S as (I1 & A1 & t & Ht & Het & Hcb).
  simpl. unfold run_asap, run_asap_in_reactor, is_in_reactor_thread. simpl. rewrite It, Z.eqb_refl. unfold run_task. simpl.
  destruct (add_timer_in_reactor_spec T true _ p _ q t clock I1 A1 Ht Hc HcT) as (q' & -> & I2 & A2 & Hh). simpl.
  unfold add_timer_return, timer_at. simpl. rewrite Hh, Ht. simpl.
  destruct (inv_all _ _ I2 p t) as [Ha|Hw]; [by rewrite Hh| |by destruct (inv_outside _ _ _ I1) as (_ & Dx & _)].
  destruct (inv_act _ _ I2 _ _ Ha) as (t' & Ht' & _ & Hin). rewrite Hh in Ht'. simplify_eq. rewrite Hh. eauto.
Qed.

(** [run_after] and [run_every] count from the clock. *)
Lemma run_after_is_run_at tid now delay cb clock s d :
  clock_ok now -> delta_of_seconds delay = Ok d -> 0 <= d <= 2 ^ 61 ->
  run_after tid now delay cb clock s = run_at tid (now + d) cb clock s /\
  run_every tid now delay cb clock s = add_timer_any tid cb (now + d) delay clock s.
Proof.
  unfold clock_ok. intros Hn Hd Hr. unfold run_after, run_every, add_second. rewrite Hd. simpl.
  rewrite checked64_ok by (unfold in_sw; lia). done.
Qed.

(** ** The end of a reactor *)

(** A channel of the reactor that is registered and not being handled. *)
Definition in_service (x : chan_ptr) (fd : Z) (p : P) (cs : chans) : Prop :=
  exists ch, cs !! x = Some ch /\ m_fd ch = fd /\ m_channel_map p !! fd = Some x /\ m_reactor ch = cur_tid /\ m_is_handing_event ch = false.

(** [end_all], [remove_self_from_reactor] and the destructor of a channel. *)
Definition retire (x : chan_ptr) (r : Reactor P timer_task) (cs : chans) : outcome (Reactor P timer_task * chans) :=
  '(r, cs) ← reactor_change (fun _ => kNoneEvent) x r cs;
  '(r, cs) ← reactor_remove x r cs;
  cs ← destroy_Channel (m_poller r) cs x;
  Ok (r, cs).

Lemma in_service_owner x y fd p p' cs cs' :
  owner_part <$> cs' !! x = owner_part <$> cs !! x -> m_channel_map p' !! fd = m_channel_map p !! fd ->
  y = x -> in_service y fd p cs -> in_service y fd p' cs'.
Proof.
  intros E Em -> (ch & Hx & Hf & Hm & Hr & Hh). rewrite Hx in E. destruct (cs' !! x) as [ch'|] eqn:Hx'; [|done].
  simpl in E. exists ch'. rewrite Em. unfold owner_part in E. destruct ch, ch'; simpl in *. by simplify_eq.
Qed.

Lemma retire_spec x fd r cs :
  poller_inv (m_poller r) cs -> m_is_handling_event r = false -> in_service x fd (m_poller r) cs ->
  fine (fun y => exists p', y.1 = set_poller p' r /\ poller_inv p' y.2 /\ m_channel_map p' = delete fd (m_channel_map (m_poller r)) /\
      y.2 !! x = None /\ (forall z, z <> x -> owner_part <$> y.2 !! z = owner_part <$> cs !! z))
    (retire x r cs).
Proof.
  intros I Hh (ch & Hx & <- & Hm & Hr & Hhe). unfold retire, reactor_change.
  pose proof (change_events_spec (fun _ => kNoneEvent) _ _ _ _ I Hx) as S.
  specialize (S ltac:(split; [by rewrite Hr, (inv_thread _ _ I)|by left]) ltac:(done)).
  destruct (change_events _ _ _ _) as [[p1 cs1]|f]; [|by left; subst]. rewrite !bind_ok.
  destruct S as (I1 & M1 & idx & -> & R1). set (ch1 := set_index _ _) in *. unfold reactor_remove.
  destruct (remove_self_spec (m_is_handling_event r) (m_current_active_channel r) (m_active_channels r) p1 (<[x := ch1]> cs) x ch1)
    as (p2 & cs2 & E2 & I2 & M2 & O2); try done.
  { apply lookup_insert_eq. }
  { rewrite M1. apply lookup_insert_eq. }
  { simpl. by rewrite Hr, (inv_thread _ _ I1). }
  { by apply R1. }
  { unfold may_remove. by rewrite Hh. }
  cbn [set_poller m_poller m_is_handling_event m_current_active_channel m_active_channels]. rewrite E2, !bind_ok.
  cbn [set_poller m_poller]. pose proof (O2 x) as O2x. rewrite !lookup_insert_eq in O2x.
  destruct (cs2 !! x) as [ch2|] eqn:Hc2; [|done].
  assert (m_fd ch2 = m_fd ch /\ m_is_in_reactor ch2 = false /\ m_is_handing_event ch2 = false) as (Ef & Er & Eh).
  { unfold owner_part in O2x. subst ch1. destruct ch, ch2; simpl in *. by simplify_eq. }
  assert (m_channel_map p2 !! m_fd ch2 = None) as Mn by (rewrite M2, Ef; apply lookup_delete_eq).
  assert (destroy_Channel p2 cs2 x = Ok (delete x cs2)) as E.
  { unfold destroy_Channel, has_channel. rewrite Hc2. cbn [of_option]. rewrite bind_ok, Eh, Er. cbn [negb assert_]. rewrite !bind_ok.
    rewrite (in_thread_ok _ (inv_thread _ _ I2)), bind_ok. cbn [of_option]. rewrite bind_ok, Mn. by destruct (_ =? _). }
  rewrite E, bind_ok. exists p2. simpl. split_and!; [done|exact (poller_step_inv _ _ (step_destroy _ _ _ _ E) I2)| |apply lookup_delete_eq|].
  - rewrite M2, M1, delete_insert_eq. done.
  - intros z Hz. rewrite lookup_delete_ne, (O2 z), !lookup_insert_ne by done. done.
Qed.

Lemma destroy_timed_retire tc s cs :
  destroy_timed tc s cs =
    ('(r, cs) ← retire (m_wakeup_channel (t_reactor s)) (t_reactor s) cs;
     '(r, cs) ← retire tc (set_pending [] r) cs;
     Ok (mkTimed r (delete_timers (t_queue s)) (t_batch s), cs)).
Proof.
  unfold destroy_timed, destroy_Reactor, destroy_TimerQueue, retire.
  destruct (reactor_change _ (m_wakeup_channel _) _ _) as [[r1 cs1]|] eqn:E1; [|done]. simpl.
  assert (m_wakeup_channel r1 = m_wakeup_channel (t_reactor s)) as W1
    by (unfold reactor_change in E1; destruct (change_events _ _ _ _) as [[? ?]|]; [by injection E1 as <- _|done]).
  rewrite W1. destruct (reactor_remove _ _ _) as [[r2 cs2]|] eqn:E2; [|done]. simpl.
  assert (m_wakeup_channel r2 = m_wakeup_channel (t_reactor s)) as ->
    by (rewrite <- W1; unfold reactor_remove in E2; destruct (remove_self_from_reactor _ _ _ _ _ _) as [[? ?]|]; [by injection E2 as <- _|done]).
  destruct (destroy_Channel _ _ _); [|done]. simpl. destruct (reactor_change _ tc _ _) as [[r3 cs3]|]; [|done]. simpl.
  destruct (reactor_remove tc _ _) as [[r4 cs4]|]; [|done]. simpl. by destruct (destroy_Channel _ _ tc).
Qed.

Lemma delete_timers_heap q p :
  m_heap (delete_timers q) !! p = (if decide (p ∈ (m_timers_set q).*2) then None else m_heap q !! p).
Proof.
  unfold delete_timers. simpl. induction (m_timers_set q) as [|e l IH]; [done|]. simpl.
  destruct (decide (p = e.2)) as [->|Hne]; [rewrite lookup_delete_eq, decide_True; [done|apply elem_of_cons; by left]|].
  rewrite lookup_delete_ne, IH by done. apply decide_ext. rewrite elem_of_cons. naive_solver.
Qed.

(** The destructor of a reactor that is not dispatching unregisters and
    destroys its two channels and leaves all others, and frees every timer that
    is in the queue; the timers whose tasks still wait are never freed. *)
Theorem reactor_destroyed (T : Timestamp) (tc : chan_ptr) (tfd wfd : Z) (s : timed) (cs : chans) :
  timed_inv T s -> poller_inv (m_poller (t_reactor s)) cs -> m_is_handling_event (t_reactor s) = false ->
  m_wakeup_channel (t_reactor s) <> tc ->
  in_service (m_wakeup_channel (t_reactor s)) wfd (m_poller (t_reactor s)) cs -> in_service tc tfd (m_poller (t_reactor s)) cs ->
  fine (fun y =>
      m_channel_map (m_poller (t_reactor y.1)) = delete tfd (delete wfd (m_channel_map (m_poller (t_reactor s)))) /\
      y.2 !! tc = None /\ y.2 !! m_wakeup_channel (t_reactor s) = None /\
      (forall z, z <> tc -> z <> m_wakeup_channel (t_reactor s) -> owner_part <$> y.2 !! z = owner_part <$> cs !! z) /\
      (forall p, is_Some (m_heap (t_queue y.1) !! p) <-> TAdd p ∈ waiting_tasks s))
    (destroy_timed tc s cs).
Proof.
  intros [It Iq Ia Ib] I Hh Hne Hw Ht. set (wc := m_wakeup_channel (t_reactor s)) in *. rewrite destroy_timed_retire.
  eapply fine_bind; [by apply (retire_spec wc wfd)|]. intros [r1 cs1] (p1 & E1 & I1 & M1 & N1 & O1). simpl in E1, I1, N1, O1. subst r1.
  assert (tfd <> wfd) as Hfd.
  { destruct Hw as (? & _ & _ & Hmw & _), Ht as (? & _ & _ & Hmt & _). congruence. }
  assert (in_service tc tfd p1 cs1) as Ht1.
  { eapply in_service_owner; [by apply O1| |done|exact Ht]. by rewrite M1, lookup_delete_ne. }
  eapply fine_bind; [by apply (retire_spec tc tfd (set_pending [] (set_poller p1 (t_reactor s))) cs1)|].
  intros [r2 cs2] (p2 & E2 & I2 & M2 & N2 & O2). simpl in E2, I2, M2, N2, O2. subst r2.
  cbn [fst snd mbind outcome_bind fine t_queue t_reactor set_poller m_poller]. rewrite M2, M1. split_and!; [done|done| | |].
  - specialize (O2 wc ltac:(done)). rewrite N1 in O2. by destruct (cs2 !! wc).
  - intros z Hz Hz'. by rewrite O2, O1.
  - intros p. rewrite delete_timers_heap, <- under_way_elem. split.
    + case_decide as Hin; [by intros [? ?]|]. intros [t Hp]. destruct (inv_all _ _ Iq p t Hp) as [Ha|]; [|done].
      destruct (inv_act _ _ Iq _ _ Ha) as (t' & _ & _ & Hi). destruct Hin. apply list_elem_of_fmap. by exists (m_time_expire t', p).
    + intros Hp. destruct (inv_ex _ _ Iq p Hp) as (t & Hpt & Hn). rewrite decide_False; [by eexists|].
      intros ([e p'] & -> & Hi)%list_elem_of_fmap. by eapply not_active_not_timed.
Qed.

(** A new channel that wants to read. *)
Lemma enlist_spec x fd (p : P) cs :
  poller_inv p cs -> cs !! x = None -> m_channel_map p !! fd = None -> 0 <= fd ->
  fine (fun y => poller_inv y.1 y.2 /\ m_channel_map y.1 = <[fd := x]> (m_channel_map p) /\ in_service x fd y.1 y.2 /\
      (forall z, z <> x -> y.2 !! z = cs !! z))
    (change_events (fun e => Z.lor e kReadEvent) p (<[x := new_Channel cur_tid fd]> cs) x).
Proof.
  intros I Hx Hm Hf.
  assert (poller_inv p (<[x := new_Channel cur_tid fd]> cs)) as I0.
  { apply (inv_frame _ cs); [done|]. intros fd' y M. destruct (registered_channel _ _ _ _ I M) as (ch & L & _).
    by rewrite lookup_insert_ne by congruence. }
  pose proof (change_events_spec (fun e => Z.lor e kReadEvent) _ _ _ _ I0 (lookup_insert_eq _ _ _)) as S.
  specialize (S ltac:(split; [by rewrite (inv_thread _ _ I)|by right]) ltac:(done)).
  destruct (change_events _ _ _ _) as [[p1 cs1]|f]; [|by left; subst]. destruct S as (I1 & M1 & idx & -> & _). simpl in M1.
  split_and!; simpl; [done..| |].
  - eexists. rewrite lookup_insert_eq. split_and!; [done|done| |done|done]. rewrite M1. apply lookup_insert_eq.
  - intros z Hz. by rewrite !lookup_insert_ne.
Qed.

(** A reactor is born with two channels in service and no timers. *)
Theorem reactor_constructed (T : Timestamp) (p : P) (tc : chan_ptr) (tfd : Z) (wc : chan_ptr) (wfd : Z) (cs : chans) :
  poller_inv p cs -> cs !! tc = None -> cs !! wc = None -> tc <> wc -> tfd <> wfd -> 0 <= tfd -> 0 <= wfd ->
  m_channel_map p !! tfd = None -> m_channel_map p !! wfd = None ->
  fine (fun y => timed_inv T y.1 /\ poller_inv (m_poller (t_reactor y.1)) y.2 /\ m_is_handling_event (t_reactor y.1) = false /\
      m_wakeup_channel (t_reactor y.1) = wc /\ in_service wc wfd (m_poller (t_reactor y.1)) y.2 /\
      in_service tc tfd (m_poller (t_reactor y.1)) y.2 /\ m_heap (t_queue y.1) = ∅)
    (new_timed cur_tid false p tc tfd wc wfd cs).
Proof.
  intros I Ht Hw Hne Hfd Hf1 Hf2 Hm1 Hm2. unfold new_timed, wang_to_read.
  eapply fine_bind; [by apply enlist_spec|]. intros [p1 cs1] (I1 & M1 & S1 & O1). simpl in I1, M1, S1, O1.
  eapply (fine_bind (fun y => exists p2, y.1 = set_poller p2 (mkReactor false false false false 0 cur_tid p1 0 wc [] None []) /\
    poller_inv p2 y.2 /\ in_service wc wfd p2 y.2 /\ in_service tc tfd p2 y.2)).
  - unfold new_Reactor, reactor_change. cbn [m_poller negb require]. rewrite bind_ok.
    eapply fine_bind; [apply enlist_spec; [done|by rewrite O1|by rewrite M1, lookup_insert_ne|done]|].
    intros [p2 cs2] (I2 & M2 & S2 & O2). simpl in I2, M2, S2, O2. exists p2. split_and!; [done..|].
    eapply in_service_owner; [by rewrite O2| |done|exact S1]. rewrite M2, lookup_insert_ne by done. done.
  - intros [r cs2] (p2 & E & I2 & S2 & S3). simpl in E, I2, S2, S3. subst r. simpl. split_and!; try done. split; simpl; try done. apply inv_new.
Qed.
End timers.
Arguments timed : clear implicits.

(** * Two races *)

#[local] Instance timed_thread : CurrentThread := 1.

Definition demo_reactor : Reactor (EPollPoller table_epoll) timer_task :=
  mkReactor false false false false 0 1 (new_EPollPoller 1 (∅ : table_epoll)) 0 50 [] None [].

(** No callback adds or removes timers. *)
Definition quiet_body (cb : closure) (q : TimerQueue) : list timer_op := [].

(** A timer from another thread, a periodic one from the loop thread, and an
    expiration between their times. *)
Definition demo_timed_events : list timed_event :=
  [EvCall 2 7 500000 zero_point_zero 1; EvCall 1 8 600000 half 1; EvTasks; EvTask 2; EvTasksEnd; EvTimerfd 550000 550001].

Lemma reactor_timers_safe_witness :
  safe (fun s => forall p t, m_heap (t_queue s) !! p = Some t ->
      (m_time_expire t, p) ∈ m_timers_set (t_queue s) /\ (p, m_global_timer_id t) ∈ m_active_timers_set (t_queue s) \/
      TAdd p ∈ waiting_tasks s)
    (timed_run bump_malloc quiet_body demo_timed_events (timed_start demo_reactor)).
Proof.
  assert (Forall (timed_event_ok 1000000) demo_timed_events) as He.
  { repeat constructor; unfold time_ok, clock_ok; try lia; try exact half_ok. intros Hx. vm_compute in Hx. discriminate Hx. }
  pose proof (reactor_timers_safe bump_malloc quiet_body 1000000 demo_timed_events demo_reactor
    bump_malloc_ok ltac:(intros cb q; constructor) He eq_refl eq_refl) as S.
  destruct (timed_run _ _ _ _); [exact (proj1 S) | exact S].
Defined.

(** [add_timer] of another thread reads the id out of the timer after the task
    was queued: a timer that is due at once can have fired, and been freed, by
    then. *)
Theorem add_timer_id_race :
  exists p s s', add_timer_call bump_malloc quiet_body 2 7 500000 zero_point_zero 500000 (timed_start demo_reactor) = Ok (p, s) /\
    timed_run bump_malloc quiet_body [EvTasks; EvTask 500010; EvTasksEnd; EvTimerfd 500200 500201] s = Ok s' /\
    add_timer_return p s' = Fail FNull.
Proof. eexists _, _, _. split; [vm_compute; reflexivity|]. split; vm_compute; reflexivity. Qed.

(** A [remove] in the loop thread runs at once and so overtakes the task of an
    [add_timer] of another thread, whose timer it then does not find: the
    timer that was removed still waits in the queue. *)
Theorem remove_overtakes_add :
  exists id s s', run_at bump_malloc quiet_body 2 500000 7 1 (timed_start demo_reactor) = Ok (id, s) /\
    timed_run bump_malloc quiet_body [EvRemove 1 id; EvTasks; EvTask 2; EvTasksEnd] s = Ok s' /\
    (m_timer_ptr id, sequence_ id) ∈ m_active_timers_set (t_queue s').
Proof. eexists _, _, _. split; [vm_compute; reflexivity|]. split; [vm_compute; reflexivity|]. vm_compute. apply elem_of_cons. by left. Qed.
