(* ===== verification/DefaultPoller.v ===== *)
(** [flute/net/poller/DefaultPoller.cc]: the poller that a reactor gets.

    A [Poller*] is one of the two pollers; a virtual call goes to the one it
    is.  The interface holds for the choice because it holds for both, so all
    that is proved of reactors is true whatever the environment says. *)

From S2P Require Import Prelude Channel Poller EPollPoller PollPoller Reactor.

(** * Virtual calls *)

Section virtual.
Context {P1 P2 : Type} `{PollerLaws P1} `{!PollerOps P2, !PollerLaws P2}.

Definition on_left (m : outcome (P1 * chans)) : outcome ((P1 + P2) * chans) := '(p, cs) ← m; Ok (inl p, cs).
Definition on_right (m : outcome (P2 * chans)) : outcome ((P1 + P2) * chans) := '(p, cs) ← m; Ok (inr p, cs).

(** The system call that a poller makes answers in its own terms. *)
#[global] Instance virtual_ops : PollerOps (P1 + P2) := {
  poll_answer := @poll_answer P1 _ + @poll_answer P2 _;
  update_channel p cs c := match p with inl p => on_left (update_channel p cs c) | inr p => on_right (update_channel p cs c) end;
  remove_channel p cs c := match p with inl p => on_left (remove_channel p cs c) | inr p => on_right (remove_channel p cs c) end;
  poll p cs a :=
    match p, a with
    | inl p, inl a => '(p, cs, l) ← poll p cs a; Ok (inl p, cs, l)
    | inr p, inr a => '(p, cs, l) ← poll p cs a; Ok (inr p, cs, l)
    | _, _ => Fail FBounds
    end;
  m_channel_map p := match p with inl p => m_channel_map p | inr p => m_channel_map p end;
  owner_thread p := match p with inl p => owner_thread p | inr p => owner_thread p end
}.

#[global] Instance virtual_laws : PollerLaws (P1 + P2).
Proof.
  refine {| poller_inv p cs := match p with inl p => poller_inv p cs | inr p => poller_inv p cs end;
            watched p fd := match p with inl p => watched p fd | inr p => watched p fd end;
            removable p ch := match p with inl p => removable p ch | inr p => removable p ch end;
            answer_ok p a := match p, a with inl p, inl a => answer_ok p a | inr p, inr a => answer_ok p a | _, _ => False end |}.
  - intros [p|p] cs; exact (inv_thread p cs).
  - intros [p|p] cs fd c; exact (registered_channel p cs fd c).
  - intros [p|p] cs cs'; exact (inv_frame p cs cs').
  - intros [p|p] cs c ch ch'; exact (inv_owner p cs c ch ch').
  - intros [p|p] cs fd e; exact (watched_sound p cs fd e).
  - intros [p|p] cs fd c ch; exact (watched_complete p cs fd c ch).
  - intros [p|p] cs c ch ch' I Hc Hf Hi Hv Ha; cbn in *; pose proof (update_spec p cs c ch ch' I Hc Hf Hi Hv Ha) as S;
      by destruct (update_channel p _ c) as [[p' cs']|].
  - intros [p|p] cs c ch ch' I Hc Hm Hf Hi He Hn Hr; cbn in *;
      destruct (remove_spec p cs c ch ch' I Hc Hm Hf Hi He Hn Hr) as (p' & cs' & -> & S); cbn; by eexists (_ p'), cs'.
  - intros [p|p] cs [a|a] I Ha; try done; cbn in *;
      destruct (poll_spec p cs a I Ha) as (p' & cs' & l & -> & S); cbn; by eexists (_ p'), cs', l.
Defined.
End virtual.

(** * The choice *)

Section default.
Context {K : Type} `{EPollKernelLaws K} `{CurrentThread}.

(** [use_poll]: the environment has FLUTE_USE_POLL; [k] is the new epoll
    instance. *)
Definition new_default_poller (use_poll : bool) (reactor : pid_t) (k : K) : EPollPoller K + PollPoller :=
  if use_poll then inr (new_PollPoller reactor) else inl (new_EPollPoller reactor k).

(** A reactor whose poller is chosen by the environment starts with a poller
    that is in order and has no channels. *)
Theorem default_poller_ready (use_poll : bool) (k : K) (cs : chans) :
  interest k = ∅ ->
  poller_inv (new_default_poller use_poll cur_tid k) cs /\ m_channel_map (new_default_poller use_poll cur_tid k) = ∅.
Proof.
  intros Hk. unfold new_default_poller. destruct use_poll; cbn; (split; [|done]); constructor; simpl; try done.
  - intros fd e. by rewrite Hk, lookup_empty.
Qed.

(** Whichever poller it gets, a new reactor is one of those that the theorems
    about the loop are proved for. *)
Theorem default_reactor_starts {Task : Type} (use_poll : bool) (k : K) (wc : chan_ptr) (wfd : Z) r (cs : chans) :
  interest k = ∅ -> 0 <= wfd ->
  new_Reactor (Task := Task) cur_tid false (new_default_poller use_poll cur_tid k) wc wfd ∅ = Ok (r, cs) ->
  reactor_reachable (mkConfig r cs PcIdle 0 [] [] 0).
Proof.
  intros Hk Hw E. destruct (default_poller_ready use_poll k ∅ Hk) as [I M]. eexists. split; [|apply rtc_refl].
  exists (new_default_poller use_poll cur_tid k), wc, wfd, ∅, r, cs. rewrite M. by split_and!.
Qed.
End default.
