(* ===== verification/Socket.v ===== *)
(** [flute/net/Socket.{h,cc}]: the owner of a descriptor, with the wrappers of
    [SocketsOps.cc] it calls.

    The descriptor table of the process maps numbers to open sockets.  A system
    call on a number that is not open fails; on one that is open it may still
    fail, which [refuse] says.  Operations return the lines they log. *)

From S2P Require Import Prelude Format Acceptor.

(** * Descriptors *)

Inductive sockopt : Type := TCP_NODELAY | SO_REUSEADDR | SO_REUSEPORT | SO_KEEPALIVE.
#[global] Instance sockopt_eq_dec : EqDecision sockopt.
Proof. solve_decision. Defined.

Record open_socket : Type := mkOpen {
  o_id : Z;                            (* which open file it is *)
  o_opts : sockopt -> bool;
  o_can_write : bool
}.

Abbreviation fd_table := (gmap Z open_socket).

(** setsockopt(2) with an int *)
Definition sys_setsockopt (fd : Z) (o : sockopt) (optval : Z) (refuse : bool) (t : fd_table) : Z * fd_table :=
  match t !! fd with
  | Some s =>
      if refuse then (-1, t)
      else (0, <[fd := mkOpen (o_id s) (fun o' => if decide (o' = o) then negb (optval =? 0) else o_opts s o') (o_can_write s)]> t)
  | None => (-1, t)
  end.

(** close(2): the number is free even if an error is reported. *)
Definition sys_close (fd : Z) (refuse : bool) (t : fd_table) : Z * fd_table :=
  match t !! fd with
  | Some _ => (if refuse then -1 else 0, delete fd t)
  | None => (-1, t)
  end.

(** shutdown(2) of the write half *)
Definition sys_shutdown (fd : Z) (refuse : bool) (t : fd_table) : Z * fd_table :=
  match t !! fd with
  | Some s => if refuse then (-1, t) else (0, <[fd := mkOpen (o_id s) (o_opts s) false]> t)
  | None => (-1, t)
  end.

(** * socket_ops *)

Definition ops_close (sockfd : Z) (refuse : bool) (t : fd_table) : list (list ascii) * fd_table :=
  let '(ret, t) := sys_close sockfd refuse t in
  (if ret <? 0 then [lit "socket_ops::close"] else [], t).

Definition ops_shutdown_write (sockfd : Z) (refuse : bool) (t : fd_table) : list (list ascii) * fd_table :=
  let '(ret, t) := sys_shutdown sockfd refuse t in
  (if ret <? 0 then [lit "socket_ops::shutdown_write"] else [], t).

(** * Socket *)

Record Socket : Type := mkSocket { m_sockfd : Z }.

Definition new_Socket (sockfd : Z) : Socket := mkSocket sockfd.
(** The copy and the move constructor. *)
Definition copy_Socket (socket : Socket) : Socket := mkSocket (m_sockfd socket).
Definition move_Socket (socket : Socket) : Socket := mkSocket (m_sockfd socket).

Definition destroy_Socket (s : Socket) (refuse : bool) (t : fd_table) : list (list ascii) * fd_table :=
  ops_close (m_sockfd s) refuse t.

Definition socket_bind_addr (s : Socket) (ret : Z) : outcome unit := bind_or_abort ret.
Definition socket_listen (s : Socket) (ret : Z) : outcome unit := listen_or_abort ret.

Definition socket_shutdown_write (s : Socket) (refuse : bool) (t : fd_table) : list (list ascii) * fd_table :=
  ops_shutdown_write (m_sockfd s) refuse t.

(** The common part of the setters. *)
Definition set_option (o : sockopt) (failed : list ascii) (s : Socket) (on refuse : bool) (t : fd_table)
    : list (list ascii) * fd_table :=
  let optval := if on then 1 else 0 in
  let '(ret, t) := sys_setsockopt (m_sockfd s) o optval refuse t in
  (if (ret <? 0) && on then [failed] else [], t).

Definition set_tcp_nodelay := set_option TCP_NODELAY (lit "set_reuse_adder failed.").
Definition set_reuse_adder := set_option SO_REUSEADDR (lit "set_reuse_adder failed.").
Definition set_reuse_port := set_option SO_REUSEPORT (lit "SO_REUSEPORT failed.").
Definition set_keep_alive := set_option SO_KEEPALIVE (lit "set_reuse_adder failed.").

(** [TcpConnection::set_tcp_nodelay] *)
Definition conn_set_tcp_nodelay (m_socket : Socket) (on refuse : bool) (t : fd_table) : list (list ascii) * fd_table :=
  set_tcp_nodelay m_socket on refuse t.

(** * What a socket does to the table *)

Inductive socket_op : Type :=
| OpNodelay (on : bool) | OpReuseAddr (on : bool) | OpReusePort (on : bool) | OpKeepAlive (on : bool) | OpShutdownWrite.

Definition socket_step (s : Socket) (x : socket_op * bool) (t : fd_table) : list (list ascii) * fd_table :=
  match x.1 with
  | OpNodelay on => set_tcp_nodelay s on x.2 t
  | OpReuseAddr on => set_reuse_adder s on x.2 t
  | OpReusePort on => set_reuse_port s on x.2 t
  | OpKeepAlive on => set_keep_alive s on x.2 t
  | OpShutdownWrite => socket_shutdown_write s x.2 t
  end.
Fixpoint socket_run (s : Socket) (l : list (socket_op * bool)) (t : fd_table) : fd_table :=
  match l with [] => t | x :: l => socket_run s l (socket_step s x t).2 end.

(** The value that [l] leaves to an option. *)
Definition sets (o : sockopt) (x : socket_op * bool) : option bool :=
  match x with
  | (OpNodelay on, false) => if decide (o = TCP_NODELAY) then Some on else None
  | (OpReuseAddr on, false) => if decide (o = SO_REUSEADDR) then Some on else None
  | (OpReusePort on, false) => if decide (o = SO_REUSEPORT) then Some on else None
  | (OpKeepAlive on, false) => if decide (o = SO_KEEPALIVE) then Some on else None
  | _ => None
  end.
Fixpoint last_set (o : sockopt) (l : list (socket_op * bool)) (b : bool) : bool :=
  match l with [] => b | x :: l => last_set o l (default b (sets o x)) end.
Definition shuts (x : socket_op * bool) : bool := match x with (OpShutdownWrite, false) => true | _ => false end.

(** One operation changes the descriptor of the socket, as asked, and no other;
    it logs exactly a refusal, unless an option was being switched off. *)
Lemma socket_step_spec s x t o :
  t !! m_sockfd s = Some o ->
  exists o', (socket_step s x t).2 = <[m_sockfd s := o']> t /\ o_id o' = o_id o /\
    (forall k, o_opts o' k = default (o_opts o k) (sets k x)) /\ o_can_write o' = o_can_write o && negb (shuts x) /\
    ((socket_step s x t).1 <> [] -> x.2 = true).
Proof.
  intros Ht. destruct x as [[on|on|on|on|] [|]]; destruct o as [i opts w]; simpl;
    unfold socket_step, set_tcp_nodelay, set_reuse_adder, set_reuse_port, set_keep_alive, set_option, socket_shutdown_write,
      ops_shutdown_write, sys_setsockopt, sys_shutdown; simpl; rewrite Ht; simpl;
    try (exists (mkOpen i opts w); rewrite insert_id by done; split_and!; simpl; rewrite ?andb_true_r; by destruct on + done);
    eexists; (split; [reflexivity|]); simpl; rewrite ?andb_true_r, ?andb_false_r; split_and!; try done;
    intros k; case_decide; try done; by destruct on.
Qed.

(** A socket owns its descriptor.  Whatever its operations are and however the
    system answers, until its destructor the descriptor is the same open file
    with every option as it was last set, and no other descriptor changes; the
    destructor then closes it and nothing else. *)
Theorem socket_owns s l t o refuse :
  t !! m_sockfd s = Some o ->
  exists o', socket_run s l t = <[m_sockfd s := o']> t /\ o_id o' = o_id o /\
    (forall k, o_opts o' k = last_set k l (o_opts o k)) /\ o_can_write o' = o_can_write o && forallb (fun x => negb (shuts x)) l /\
    (destroy_Socket s refuse (socket_run s l t)).2 = delete (m_sockfd s) t.
Proof.
  intros Ht. assert (exists o', socket_run s l t = <[m_sockfd s := o']> t /\ o_id o' = o_id o /\
    (forall k, o_opts o' k = last_set k l (o_opts o k)) /\ o_can_write o' = o_can_write o && forallb (fun x => negb (shuts x)) l)
    as (o' & E & H1 & H2 & H3).
  { revert t o Ht. induction l as [|x l IH]; intros t o Ht; simpl.
    - exists o. rewrite insert_id, andb_true_r by done. done.
    - destruct (socket_step_spec s x t o Ht) as (o1 & -> & E1 & E2 & E3 & _).
      destruct (IH (<[m_sockfd s := o1]> t) o1) as (o2 & -> & F1 & F2 & F3); [apply lookup_insert_eq|].
      exists o2. rewrite insert_insert_eq. split_and!; [done|congruence| |].
      + intros k. by rewrite F2, E2.
      + by rewrite F3, E3, andb_assoc. }
  exists o'. split_and!; try done. rewrite E. unfold destroy_Socket, ops_close, sys_close. rewrite lookup_insert_eq.
  simpl. by rewrite delete_insert_eq.
Qed.

(** Both constructors from a Socket keep the number in the old one too, so the
    descriptor is closed twice: whatever the process opened in between under
    the same number is closed. *)
Theorem copied_socket_closes_stranger s t o o' refuse :
  t !! m_sockfd s = Some o ->
  let t1 := (destroy_Socket (copy_Socket s) refuse t).2 in
  t1 !! m_sockfd s = None /\
  (destroy_Socket s refuse (<[m_sockfd s := o']> t1)).2 !! m_sockfd s = None /\
  (destroy_Socket (move_Socket s) refuse t).2 = t1.
Proof.
  intros Ht. unfold destroy_Socket, ops_close, sys_close. simpl. rewrite Ht. simpl. rewrite lookup_insert_eq. simpl.
  split_and!; [apply lookup_delete_eq|apply lookup_delete_eq|done].
Qed.
