(* ===== verification/ThreadLife.v ===== *)
(** The life of a [Thread] object ([flute/common/Thread.{h,cc}]): who may use
    what it points to, and for how long.

    The object keeps a pointer to the characters of its name, which belong to
    the caller, and the new thread runs on the members of the object.  The
    holder's operations and the steps of the new thread interleave; a step that
    cannot be taken (a thread that waits) is none.  The fields and the texts of
    the names are those of [Threads]. *)

From S2P Require Import Prelude Format Threads.

Abbreviation addr := Z.

(** Where the new thread is. *)
Inductive run_pc : Type :=
| RNone                (* not created *)
| RStarter             (* at the start of Thread::starter *)
| RCount               (* about to count down *)
| RCall                (* about to call m_func *)
| RFunc                (* in m_func *)
| RFin.                (* it has ended *)

Record life : Type := mkLife {
  l_alive : bool;                      (* the object is not destroyed *)
  l_thread : Thread;
  l_basename : option addr;            (* m_basename *)
  l_strings : gmap addr bytes;         (* the strings of the program that live *)
  l_waits : bool;                      (* the holder is in m_countdown_latch.wait() *)
  l_run : run_pc;
  l_detached : bool;
  l_calls : nat                        (* how often m_func was called *)
}.

Definition with_run (t : Thread) (p : run_pc) (n : nat) (s : life) : life :=
  mkLife (l_alive s) t (l_basename s) (l_strings s) (l_waits s) p (l_detached s) n.

(** The object is used. *)
Definition use_thread (s : life) : outcome unit := require FBounds (l_alive s).

(** The characters at [m_basename]. *)
Definition basename_at (b : option addr) (strings : gmap addr bytes) : outcome (option bytes) :=
  match b with
  | None => Ok None
  | Some a => s ← of_option FBounds (strings !! a); Ok (Some s)
  end.

(** [Thread::Thread(ThreadFunc, const char* )] *)
Definition construct (holder : Z) (name : option addr) (strings : gmap addr bytes) : outcome life :=
  b ← basename_at name strings;
  Ok (mkLife true (new_Thread holder b) name strings false RNone false 0).

(** [Thread::Thread(ThreadFunc, const string&)]: [str] is where the characters
    of the string are. *)
Definition construct_string (holder : Z) (str : addr) (strings : gmap addr bytes) : outcome life :=
  construct holder (Some str) strings.

(** [Thread::start] up to its wait, when pthread_create(3) answers [ret]. *)
Definition start (ret : Z) (s : life) : outcome life :=
  use_thread s;;
  assert_ (negb (m_started (l_thread s)));;
  if negb (ret =? 0) then Fail FFatal
  else Ok (mkLife true (set_started true (l_thread s)) (l_basename s) (l_strings s) true RStarter (l_detached s) (l_calls s)).

(** The new thread, with id [tid], takes a step: [starter] and [run]. *)
Definition run_step (tid : Z) (s : life) : outcome life :=
  match l_run s with
  | RStarter =>
      use_thread s;;
      b ← basename_at (l_basename s) (l_strings s);
      Ok (with_run (starter tid b (l_thread s)) RCount (l_calls s) s)
  | RCount =>
      use_thread s;;
      '(_, t) ← countdown (l_thread s);
      Ok (with_run t RCall (l_calls s) s)
  | RCall => use_thread s;; Ok (with_run (l_thread s) RFunc (S (l_calls s)) s)      (* m_func() *)
  | RFunc => use_thread s;; Ok (with_run (l_thread s) RFin (l_calls s) s)           (* it returns *)
  | _ => Ok s
  end.

(** [Thread::~Thread] *)
Definition destroy_Thread (s : life) : outcome life :=
  use_thread s;;
  Ok (mkLife false (l_thread s) (l_basename s) (l_strings s) (l_waits s) (l_run s)
        (l_detached s || m_started (l_thread s) && negb (m_joined (l_thread s))) (l_calls s)).

(** What happens: the holder's calls, the end of a string, the new thread. *)
Inductive life_event : Type :=
| LStart (ret : Z) | LWake | LJoin | LDestroy | LFree (a : addr) | LRun (tid : Z).

Definition life_step (e : life_event) (s : life) : outcome life :=
  match e with
  | LRun tid => run_step tid s
  | LWake =>
      if l_waits s && latch_open (l_thread s)
      then Ok (mkLife (l_alive s) (l_thread s) (l_basename s) (l_strings s) false (l_run s) (l_detached s) (l_calls s))
      else Ok s
  | _ =>
      if l_waits s then Ok s else
      match e with
      | LStart ret => start ret s
      | LJoin =>
          use_thread s;;
          (* pthread_join waits for the end *)
          match l_run s with
          | RFin | RNone => Ok (with_run (join 0 (l_thread s)).2 (l_run s) (l_calls s) s)
          | _ => Ok s
          end
      | LDestroy => destroy_Thread s
      | LFree a => Ok (mkLife (l_alive s) (l_thread s) (l_basename s) (delete a (l_strings s)) (l_waits s) (l_run s) (l_detached s) (l_calls s))
      | _ => Ok s
      end
  end.

(** ** What the holder must see to *)

(** It starts the thread once, frees the characters of the name only after
    that, and destroys the object only if the thread was not started or was
    joined. *)
Definition careful (e : life_event) (s : life) : Prop :=
  match e with
  | LStart _ => l_alive s = true /\ m_started (l_thread s) = false
  | LJoin => l_alive s = true
  | LDestroy => l_alive s = true /\ (m_started (l_thread s) = true -> m_joined (l_thread s) = true)
  | LFree a => l_basename s = Some a -> m_started (l_thread s) = true \/ l_alive s = false
  | _ => True
  end.

(** A run all of whose calls are careful when they are made. *)
Inductive careful_run : life -> list life_event -> life -> Prop :=
| careful_nil s : careful_run s [] s
| careful_cons e l s s1 s2 :
    (l_waits s = false -> careful e s) -> life_step e s = Ok s1 -> careful_run s1 l s2 -> careful_run s (e :: l) s2.

Definition name_lives (s : life) : Prop := exists b, basename_at (l_basename s) (l_strings s) = Ok b.

Inductive life_inv (s : life) : Prop :=
| inv_new : l_run s = RNone -> m_started (l_thread s) = false -> m_joined (l_thread s) = false -> l_waits s = false ->
    l_calls s = 0%nat -> m_count (l_thread s) = 1 ->
    (l_alive s = true -> name_lives s) -> life_inv s
| inv_born : l_run s = RStarter \/ l_run s = RCount -> m_started (l_thread s) = true -> m_joined (l_thread s) = false -> l_waits s = true ->
    l_calls s = 0%nat -> m_count (l_thread s) = 1 -> l_alive s = true -> name_lives s -> life_inv s
| inv_runs : l_run s = RCall /\ l_calls s = 0%nat \/ l_run s = RFunc /\ l_calls s = 1%nat -> m_started (l_thread s) = true ->
    m_joined (l_thread s) = false -> m_count (l_thread s) = 0 -> l_alive s = true -> life_inv s
| inv_ended : l_run s = RFin -> l_calls s = 1%nat -> m_started (l_thread s) = true -> m_count (l_thread s) = 0 -> life_inv s.

Lemma construct_inv holder name strings s : construct holder name strings = Ok s -> life_inv s.
Proof.
  unfold construct. destruct (basename_at name strings) as [b|] eqn:E; [|done]. intros [= <-]. apply inv_new; try done.
  intros _. by exists b.
Qed.

(** The steps of the new thread. *)
Lemma run_step_inv tid s : life_inv s -> returns life_inv (run_step tid s).
Proof.
  intros [Hr|[Hr|Hr] Hs Hj Hw Hc Hn Ha (b & Hb)|[[Hr Hc]|[Hr Hc]] Hs Hj Hn Ha|Hr]; unfold run_step; rewrite Hr; simpl.
  - by apply inv_new.
  - unfold use_thread. rewrite Ha, Hb. simpl. apply inv_born; simpl; try done; [by right|by exists b].
  - unfold use_thread, countdown. rewrite Ha, Hn. simpl. apply inv_runs; simpl; try done. by left.
  - unfold use_thread. rewrite Ha. simpl. apply inv_runs; simpl; try done. right. by rewrite Hc.
  - unfold use_thread. rewrite Ha. simpl. by apply inv_ended.
  - by apply inv_ended.
Qed.

(** The holder goes on, or a string ends. *)
Lemma frame_inv s al strings w d :
  life_inv s -> (l_waits s = true -> w = true \/ m_count (l_thread s) <= 0) -> (w = true -> l_waits s = true) ->
  (al = l_alive s \/ l_run s = RNone \/ l_run s = RFin) ->
  (l_waits s = true \/ l_alive s = true /\ m_started (l_thread s) = false /\ al = true -> name_lives s ->
     exists b, basename_at (l_basename s) strings = Ok b) ->
  (l_alive s = false -> al = false) ->
  life_inv (mkLife al (l_thread s) (l_basename s) strings w (l_run s) d (l_calls s)).
Proof.
  intros [Hr Hs Hj Hw Hc Hn Hb|Hr Hs Hj Hw Hc Hn Ha Hb|Hr Hs Hj Hn Ha|Hr Hc Hs Hn] F1 F2 F3 F4 F5.
  - apply inv_new; simpl; try done.
    + destruct w; [|done]. specialize (F2 eq_refl). congruence.
    + intros ->. destruct (l_alive s) eqn:E; [|by specialize (F5 eq_refl)]. apply F4; [by right|auto].
  - specialize (F1 Hw) as [->|]; [|lia]. apply inv_born; simpl; try done.
    + destruct F3 as [->|[E|E]]; [done|destruct Hr; congruence..].
    + apply F4; [by left|done].
  - apply inv_runs; simpl; try done. destruct F3 as [->|[E|E]]; [done|destruct Hr as [[? _]|[? _]]; congruence..].
  - by apply inv_ended.
Qed.

Lemma name_lives_delete s a : name_lives s -> l_basename s <> Some a -> exists b, basename_at (l_basename s) (delete a (l_strings s)) = Ok b.
Proof.
  unfold name_lives, basename_at. destruct (l_basename s) as [c|]; [|done]. intros Hb Hne. rewrite lookup_delete_ne by congruence. done.
Qed.

Lemma life_step_inv e s :
  life_inv s -> (l_waits s = false -> careful e s) ->
  match life_step e s with Ok s' => life_inv s' | Fail f => f = FFatal end.
Proof.
  intros I C. destruct e as [ret| | | |a|tid]; cbn [life_step].
  - destruct (l_waits s) eqn:Hw; [done|]. destruct (C eq_refl) as [Ha Hs]. unfold start, use_thread. rewrite Ha, Hs. simpl.
    destruct (ret =? 0); [|done]. simpl. destruct I as [Hr _ Hj _ Hc Hn Hb|? ?|? ?|? ? ?]; [|congruence..].
    apply inv_born; simpl; auto.
  - destruct (l_waits s && latch_open (l_thread s)) eqn:E; [|done]. apply andb_true_iff in E as [Hw Ho].
    unfold latch_open in Ho. apply negb_true_iff, Z.ltb_ge in Ho. by apply frame_inv; auto.
  - destruct (l_waits s) eqn:Hw; [done|]. unfold use_thread. rewrite (C eq_refl). simpl.
    destruct (l_run s) eqn:Hr; try done; destruct I as [Hr' Hs Hj _ Hc Hn Hb|[?|?] ?|[[? _]|[? _]] ?|Hr' Hc Hs Hn]; try congruence.
    + unfold join. rewrite Hs. simpl. by apply inv_new.
    + apply inv_ended; simpl; try done; unfold join; rewrite Hs; simpl; by destruct (m_joined (l_thread s)).
  - destruct (l_waits s) eqn:Hw; [done|]. destruct (C eq_refl) as [Ha Hj]. unfold destroy_Thread, use_thread. rewrite Ha. simpl.
    apply frame_inv; rewrite ?Hw, ?Ha; try done.
    destruct I as [Hr|? Hs Hj'|? Hs Hj'|Hr]; [by right; left|rewrite Hj in Hj' by done; done..|by right; right].
  - destruct (l_waits s) eqn:Hw; [done|]. apply frame_inv; rewrite ?Hw; auto.
    intros [|(Ha & Hs & _)] Hb; [done|]. apply name_lives_delete; [done|]. intros E. destruct (C eq_refl E); congruence.
  - pose proof (run_step_inv tid s I) as R. by destruct (run_step tid s).
Qed.

(** A careful holder: for every interleaving with the new thread, the next
    careful call or step faults in no way (only pthread_create can fail, which
    ends the process); the function is called at most once, and has been
    called and has returned when [join] has. *)
Theorem thread_life_safe holder name strings s l s' e :
  construct holder name strings = Ok s -> careful_run s l s' -> (l_waits s' = false -> careful e s') ->
  (match life_step e s' with Ok _ => True | Fail f => f = FFatal end) /\ (l_calls s' <= 1)%nat /\
  (m_joined (l_thread s') = true -> l_run s' = RFin /\ l_calls s' = 1%nat).
Proof.
  intros E R C. assert (life_inv s') as I.
  { apply construct_inv in E. clear C. induction R as [|e' l s s1 s2 C1 E1 R IH]; [done|]. apply IH.
    pose proof (life_step_inv e' s E C1) as S. by rewrite E1 in S. }
  split_and!.
  - pose proof (life_step_inv e s' I C) as S. by destruct (life_step e s').
  - destruct I as [| |[[? ->]|[? ->]]|]; lia.
  - intros Hj. by destruct I as [|? ? Hj'|? ? Hj'|]; [congruence..|].
Qed.

(** ** Names that are temporaries *)

(** [Thread(func, string)] keeps the pointer to the characters of its
    argument.  When the string has ended before the thread is started, as that
    of [new ReactorThread(cb, buf)] and of [new Thread(.., m_name + id)] has, the
    new thread reads freed memory for its name. *)
Theorem temporary_name_dangles holder a text strings s tid :
  construct_string holder a (<[a := text]> strings) = Ok s ->
  exists s1 s2, life_step (LFree a) s = Ok s1 /\ life_step (LStart 0) s1 = Ok s2 /\ life_step (LRun tid) s2 = Fail FBounds.
Proof.
  unfold construct_string, construct, basename_at. rewrite lookup_insert_eq. simpl. intros [= <-].
  eexists _, _. split_and!; [done|done|]. simpl. unfold run_step. simpl. by rewrite lookup_delete_eq.
Qed.

(** A started thread whose object is destroyed without [join] is detached and
    goes on to call the destroyed function. *)
Theorem detached_thread_dangles holder s tid :
  construct holder None ∅ = Ok s ->
  exists s', (s ← life_step (LStart 0) s; s ← life_step (LRun tid) s; s ← life_step (LRun tid) s; s ← life_step LWake s; life_step LDestroy s)
      = Ok s' /\ l_detached s' = true /\ life_step (LRun tid) s' = Fail FBounds.
Proof. intros [= <-]. eexists. split_and!; [vm_compute; reflexivity|done|done]. Qed.
