(* ===== verification/LogPath.v ===== *)
(** The path of a log line to the disk: [LogStream] formats it, [AsyncLogging]
    takes it from any thread and hands buffers to its backend thread, and the
    [LogFile] of that thread writes them.

    The calls that the backend thread makes on its [LogFile] are those that the
    model of [AsyncLogging] records; here they are made.  The clock, fwrite(3)
    and fopen(3) answer the i-th call with [ans i]. *)

From S2P Require Import Prelude StringPiece Format LogStream AsyncLogging Timestamp LogFile.

Section path.
(** [gmtime_r], the name of the host and the id of the process. *)
Context (gmtime_r : Z -> civil_time) (hostname : bytes) (pid : Z).
(** What time(2) says in [append_unlocked] and in [roll_file], how much each
    fwrite(3) takes, and whether fopen(3) succeeds if the call rolls the file. *)
Context (ans : nat -> Z * Z * list Z * bool).

(** * The log file of the backend thread *)

Definition output_call (i : nat) (c : file_call) (l : LogFile) : outcome LogFile :=
  match c with
  | FileAppend d => let '(now, now2, ws, opened) := ans i in log_append gmtime_r hostname pid ws now now2 opened d l
  | FileFlush => log_flush l
  end.

Fixpoint output_calls (i : nat) (calls : list file_call) (l : LogFile) : outcome LogFile :=
  match calls with [] => Ok l | c :: calls => l ← output_call i c l; output_calls (S i) calls l end.

(** [LogFile output(m_basename, m_rollsize, false)] with the default flush
    interval and check period, and the calls on it.  [opened]: the first
    fopen(3) succeeds. *)
Definition run_output (basename : bytes) (rollsize t0 : Z) (opened : bool) (calls : list file_call) : outcome LogFile :=
  l ← new_LogFile gmtime_r hostname pid basename rollsize 3 1024 t0 opened;
  output_calls 0 calls l.

(** * The whole path *)

(** A thread logs the items of a line, the backend thread takes a step, or the
    logging is stopped.  [stream] and [garbage] are the memory of the stream and
    of a new buffer. *)
Inductive path_event : Type :=
| PvLog (items : list log_item) (stream garbage : bytes)
| PvBackend (now : bytes)
| PvStop.

Definition path_step (ev : path_event) (c : config) : outcome config :=
  match ev with
  | PvLog items stream garbage =>
      b ← put_all (new_FixedBuffer stream) items;
      async_step (AvAppend (fb_text b) garbage) c
  | PvBackend now => async_step (AvBackend now) c
  | PvStop => async_step AvStop c
  end.
Fixpoint path_run (l : list path_event) (c : config) : outcome config :=
  match l with [] => Ok c | ev :: l => c ← path_step ev c; path_run l c end.

Definition path_ok (ev : path_event) : Prop :=
  match ev with
  | PvLog items stream garbage => Forall item_ok items /\ len stream = kLogBufferSize /\ len garbage = kLogBufferSize
  | _ => True
  end.

(** The lines that were logged. *)
Definition logged (l : list path_event) : list bytes :=
  omap (fun ev => match ev with PvLog items _ _ => Some (line_text kLogBufferSize [] items) | _ => None end) l.

(** What a round puts into the file. *)
Definition round_disk (r : round) : bytes := default [] (r_notice r) ++ concat (r_written r).
Definition call_text (c : file_call) : bytes := match c with FileAppend d => d | FileFlush => [] end.

(** ** Lines always fit *)

Definition as_async (ev : path_event) : async_event :=
  match ev with
  | PvLog items _ garbage => AvAppend (line_text kLogBufferSize [] items) garbage
  | PvBackend now => AvBackend now
  | PvStop => AvStop
  end.

Lemma line_short items : Forall item_ok items -> len (line_text kLogBufferSize [] items) < kLogBufferSize.
Proof. intros F. by apply line_text_bound. Qed.

Lemma path_run_async l : Forall path_ok l -> forall c, path_run l c = async_run (as_async <$> l) c.
Proof.
  induction 1 as [|ev l Hev Hl IH]; intros c; [done|]. cbn [path_run fmap list_fmap async_run].
  assert (path_step ev c = async_step (as_async ev) c) as ->; [|destruct (async_step (as_async ev) c); [apply IH|done]].
  destruct ev as [items stream garbage| |]; [|done..]. destruct Hev as (Hi & Hs & Hg). unfold path_step, as_async.
  destruct (returns_ok _ _ (put_all_spec items _ (proj1 (proj1 (buf_new _ Hs))) Hi)) as (b & -> & _ & _ & T). rewrite bind_ok, T.
  cbn [fb_data new_FixedBuffer]. by rewrite Hs, fresh_text by (by apply buf_new).
Qed.

Lemma as_async_ok l : Forall path_ok l -> Forall aev_ok (as_async <$> l).
Proof.
  intros F. apply Forall_fmap. eapply Forall_impl; [exact F|]. intros [items stream garbage| |]; [|done..]. intros (Hi & Hs & Hg).
  split; [|done]. pose proof (line_short items Hi). unfold kLogBufferSize in *. lia.
Qed.

Lemma messages_logged l : Forall path_ok l -> messages (as_async <$> l) = logged l.
Proof.
  unfold messages, logged. induction 1 as [|ev l Hev Hl IH]; [done|]. destruct ev as [items stream garbage| |]; [|exact IH..].
  destruct Hev as (Hi & _). cbn [fmap list_fmap omap list_omap as_async]. unfold storable.
  rewrite (proj2 (Z.ltb_lt _ _)) by (by apply line_short). f_equal. exact IH.
Qed.

(** ** The calls and the files *)

(** A failed fopen(3) fails the assertion of [AppendFile]; nothing else changes. *)
Definition same_unless_closed (opened : bool) (m m' : outcome LogFile) : Prop :=
  m = m' \/ (opened = false /\ m = Fail FAssert).

Lemma roll_opened now opened l :
  same_unless_closed opened ('(_, l) ← roll_file gmtime_r hostname pid now opened l; Ok l)
    ('(_, l) ← roll_file gmtime_r hostname pid now true l; Ok l).
Proof.
  unfold same_unless_closed, roll_file. destruct (_ <? _), opened; cbn; first [by left | by right].
Qed.

Lemma log_append_opened ws now now2 opened d l :
  same_unless_closed opened (log_append gmtime_r hostname pid ws now now2 opened d l)
    (log_append gmtime_r hostname pid ws now now2 true d l).
Proof.
  unfold log_append, append_unlocked. destruct (of_option FNull (m_file l)) as [f|]; [|by left]. rewrite !bind_ok.
  destruct (append ws d f) as [f'|]; [|by left]. rewrite !bind_ok. cbv zeta.
  destruct (_ <? m_written_bytes f'); [apply roll_opened|]. destruct (_ <=? _); [|by left].
  destruct (negb _); [apply roll_opened|]. destruct (_ <? _); by left.
Qed.

(** The same calls with every fopen(3) successful. *)
Definition file_op (i : nat) (c : file_call) : log_op :=
  match c with
  | FileAppend d => let '(now, now2, ws, _) := ans i in LAppend now now2 ws d
  | FileFlush => LFlush
  end.
Definition opened_at (i : nat) : bool := (ans i).2.

Lemma output_calls_opened calls i l :
  output_calls i calls l = log_run gmtime_r hostname pid (imap (fun j => file_op (i + j)) calls) l \/
  (output_calls i calls l = Fail FAssert /\ exists j, (i <= j < i + length calls)%nat /\ opened_at j = false).
Proof.
  revert i l. induction calls as [|c calls IH]; intros i l; [by left|]. cbn [output_calls imap log_run].
  assert (imap ((fun j => file_op (i + j)) ∘ S) calls = imap (fun j => file_op (S i + j)) calls) as ->
    by (apply imap_ext; intros; simpl; by rewrite Nat.add_succ_r).
  rewrite Nat.add_0_r.
  assert (output_call i c l = log_step gmtime_r hostname pid (file_op i c) l \/
    (output_call i c l = Fail FAssert /\ opened_at i = false)) as [->|[-> Ho]].
  { destruct c as [d|]; [|by left]. unfold output_call, file_op, opened_at. destruct (ans i) as [[[now now2] ws] opened]. cbn [log_step snd].
    destruct (log_append_opened ws now now2 opened d l) as [->|[-> ->]]; [by left|by right]. }
  - destruct (log_step _ _ _ _ l) as [l1|]; [|by left]. rewrite !bind_ok. destruct (IH (S i) l1) as [->|[-> (j & Hj & Ho)]]; [by left|].
    right. split; [done|]. exists j. split; [simpl; lia|done].
  - right. split; [done|]. exists i. split; [simpl; lia|done].
Qed.

Lemma op_lines_text i calls : concat (concat (op_lines <$> imap (fun j => file_op (i + j)) calls)) = concat (call_text <$> calls).
Proof.
  revert i. induction calls as [|c calls IH]; intros i; [done|]. cbn [imap fmap list_fmap concat]. rewrite concat_app.
  assert (imap ((fun j => file_op (i + j)) ∘ S) calls = imap (fun j => file_op (S i + j)) calls) as ->
    by (apply imap_ext; intros; simpl; by rewrite Nat.add_succ_r).
  rewrite IH. f_equal. destruct c; simpl; [|done]. destruct (ans (i + 0)) as [[[now now2] ws] o]. simpl. by rewrite app_nil_r.
Qed.

Lemma round_calls_text rs : concat (call_text <$> concat (round_calls <$> rs)) = concat (round_disk <$> rs).
Proof.
  induction rs as [|r rs IH]; [done|]. cbn [fmap list_fmap concat]. rewrite fmap_app, concat_app, IH. f_equal.
  unfold round_calls, round_disk. rewrite !fmap_app, !concat_app. simpl. rewrite app_nil_r. f_equal.
  - destruct (r_notice r); simpl; [by rewrite app_nil_r|done].
  - by rewrite <- list_fmap_compose, list_fmap_id.
Qed.

Lemma calls_flushed rs (b : bool) :
  let calls := concat (round_calls <$> rs) ++ (if b then [FileFlush] else []) in calls = [] \/ exists k, calls = k ++ [FileFlush].
Proof.
  destruct b; [right; by eexists|]. rewrite app_nil_r. destruct rs as [|r rs] using rev_ind; [by left|]. right.
  rewrite fmap_app, concat_app. simpl. rewrite app_nil_r. unfold round_calls at 2. rewrite !app_assoc. by eexists.
Qed.

(** The clock is in range and fwrite(3) makes progress. *)
Definition answers_ok : Prop := forall i, let '(_, now2, ws, _) := ans i in time_ok now2 /\ all_positive ws.

Lemma file_ops_ok calls : answers_ok -> Forall op_ok (imap file_op calls).
Proof.
  intros A. apply Forall_lookup_2. intros i o Ho. rewrite list_lookup_imap in Ho. apply fmap_Some in Ho as (c & _ & ->).
  destruct c; [|done]. simpl. specialize (A i). by destruct (ans i) as [[[now now2] ws] o].
Qed.

(** fopen(3) failed at the start or at one of the calls. *)
Definition open_failed (opened : bool) (calls : list file_call) : Prop :=
  opened = false \/ exists j, (j < length calls)%nat /\ opened_at j = false.

Lemma run_output_spec base rollsize t0 opened calls :
  gmtime_ok gmtime_r -> "/"%char ∉ base -> time_ok t0 -> answers_ok -> len (concat (call_text <$> calls)) < 2 ^ 63 ->
  match run_output base rollsize t0 opened calls with
  | Ok l => exists f, m_file l = Some f /\ on_disk l = concat (call_text <$> calls) /\
      Forall (fun f => af_flushed f = len (af_stream f)) (lf_closed l) /\
      (calls = [] \/ (exists k, calls = k ++ [FileFlush]) -> af_flushed f = len (af_stream f))
  | Fail x => x = FAssert /\ open_failed opened calls
  end.
Proof.
  intros G Hb Ht A Hl. unfold run_output. destruct opened.
  2: { unfold new_LogFile. rewrite assert_true by (by apply bool_decide_eq_true). rewrite bind_ok. unfold roll_file.
       rewrite (proj2 (Z.ltb_lt _ _)) by (simpl; apply Ht). split; [done|by left]. }
  destruct (new_log_inv gmtime_r hostname pid base rollsize 3 1024 t0 Hb Ht) as (l0 & f0 & -> & I0 & _ & F0). rewrite bind_ok.
  destruct (output_calls_opened calls 0 l0) as [->|[-> (j & Hj & Ho)]]; [|split; [done|right; exists j; split; [lia|done]]].
  pose proof (op_lines_text 0 calls) as T. change (fun j : nat => file_op (0 + j)) with file_op in *.
  destruct (log_run_spec gmtime_r hostname pid base (imap file_op calls) [] l0 f0 I0 (file_ops_ok calls A)) as (l & f & R & I).
  { simpl. by rewrite T. }
  rewrite R. exists f. split_and!; [apply I| |apply I|].
  - rewrite (log_inv_on_disk _ _ _ _ _ _ _ I). exact T.
  - intros [->|[k ->]].
    + simpl in R. injection R as <-.
      pose proof (li_file _ _ _ _ _ _ _ I) as E. rewrite (li_file _ _ _ _ _ _ _ I0) in E. by injection E as <-.
    + rewrite imap_app in R. simpl in R. destruct (log_run_flushed _ _ _ _ _ _ R) as (f' & E & Hf).
      rewrite (li_file _ _ _ _ _ _ _ I) in E. by injection E as <-.
Qed.

Lemma no_drop_disk rs :
  Forall round_ok rs -> Forall (fun r => r_notice r = None) rs -> concat (round_disk <$> rs) = concat (round_text <$> rs).
Proof.
  induction rs as [|r rs IH]; [done|]. intros [(_ & _ & Hn) Hr]%Forall_cons [Hd1 Hd]%Forall_cons.
  cbn [fmap list_fmap concat]. f_equal; [|by apply IH]. unfold round_disk, round_text. rewrite Hd1 in *. by rewrite Hn, app_nil_r.
Qed.

End path.

(** Two lines and a round of the backend thread. *)
Definition demo_path : list path_event :=
  [PvLog [ICstr (Some (lit "one " ++ [NUL])); IInt 1] zeros zeros; PvBackend []; PvBackend []; PvLog [ICstr (Some (lit " two" ++ [NUL]))] zeros zeros;
   PvBackend []; PvBackend []].

Definition demo_logged : outcome config := c0 ← async_start zeros zeros zeros zeros; path_run demo_path c0.

