(* ===== verification/HttpService.v ===== *)
(** [flute/net/http/HttpServer.{h,cc}] on its [TcpServer]: the construction and
    the start of the server, and the contexts of its connections.

    [HttpServer] models what the server does with one message of one
    connection.  Here it serves all connections of a [TcpServer] at once, in any
    number of I/O threads: [on_connection] allocates an [HttpContext] and leaves
    its address in the connection, [default_on_request] follows that address.
    The contexts live in a heap that all connections share. *)

From S2P Require Import Prelude OrdContainers StringPiece Endian Buffer HttpRequest HttpContext Format ZeroCopier Channel Poller Timestamp TcpConnection HttpResponse HttpServer ReactorThreadPool TcpServer.

Abbreviation response_callback := (HttpRequest -> HttpResponse -> outcome HttpResponse).

(** The state of a connection as the HTTP server sees it: the context behind
    [m_context_ptr], the input buffer, and the calls made on the connection. *)
Abbreviation session := (HttpContext * Buffer * list user_call)%type.

Record http_world : Type := mkHttp {
  h_world : world;                         (* m_tcp_server and its connections *)
  h_callback : response_callback;          (* m_response_callback *)
  h_context : gmap conn_id Z;              (* m_context_ptr; absent until it is set *)
  h_heap : gmap Z HttpContext;             (* the allocated contexts *)
  h_input : gmap conn_id Buffer;           (* m_input_buffer *)
  h_calls : gmap conn_id (list user_call)  (* what was called on the connection *)
}.

Definition with_world (w : world) (h : http_world) : http_world :=
  mkHttp w (h_callback h) (h_context h) (h_heap h) (h_input h) (h_calls h).

(** * The server *)

(** [HttpServer::HttpServer]. *)
Definition new_HttpServer (loop : reactor) (ip_port name : bytes) : http_world :=
  mkHttp (mkWorld (Some (new_TcpServer loop ip_port name)) ∅ []) dummy_404_callback ∅ ∅ ∅ ∅.

Definition set_response_callback (cb : response_callback) (h : http_world) : http_world :=
  mkHttp (h_world h) cb (h_context h) (h_heap h) (h_input h) (h_calls h).

Definition set_thread_num (n : Z) (h : http_world) : outcome http_world :=
  s ← the_server (h_world h);
  s ← set_reactor_pool_size n s;
  Ok (with_world (with_server s (h_world h)) h).

(** [HttpServer::start]; the server has no thread initialisation callback. *)
Definition http_start (t : reactor) (spawn : Z -> reactor) (h : http_world) : outcome http_world :=
  w ← server_start t false spawn (h_world h); Ok (with_world w h).

(** ** Connections *)

(** The connection whose [m_conn_callback] a step of the server runs: when it
    is established (at once, if the acceptor's reactor has to do it), when it is
    closed, and when it is destroyed while it is up. *)
Definition notified (ev : server_event) (w w' : world) : option conn_id :=
  match ev with
  | WvAccept c => k ← w_conns w' !! c; if bool_decide (cn_state k = kConnecting) then None else Some c
  | WvRun r =>
      '(t, _) ← pop r (w_tasks w);
      match t with
      | TkEstablished c => Some c
      | TkDestroyed c => k ← w_conns w !! c; if bool_decide (cn_state k = kConnected) then Some c else None
      | _ => None
      end
  | WvClose c => Some c
  | _ => None
  end.

(** The constructor of the connection makes its input buffer. *)
Definition connection_made (ev : server_event) (h : http_world) : outcome http_world :=
  match ev with
  | WvAccept c =>
      b ← new_Buffer kInitialSize;
      Ok (mkHttp (h_world h) (h_callback h) (delete c (h_context h)) (h_heap h) (<[c := b]> (h_input h)) (<[c := []]> (h_calls h)))
  | _ => Ok h
  end.

(** [HttpServer::on_connection] of connection [c]; [p] is what [new] returns. *)
Definition http_on_connection (p : Z) (c : conn_id) (h : http_world) : outcome http_world :=
  k ← of_option FNull (w_conns (h_world h) !! c);
  match on_connection (bool_decide (cn_state k = kConnected)) None with
  | Some context => Ok (mkHttp (h_world h) (h_callback h) (<[c := p]> (h_context h)) (<[p := context]> (h_heap h)) (h_input h) (h_calls h))
  | None => Ok h
  end.

Definition http_server_step (p : Z) (ev : server_event) (h : http_world) : outcome http_world :=
  w' ← server_step ev (h_world h);
  h' ← connection_made ev (with_world w' h);
  match notified ev (h_world h) w' with Some c => http_on_connection p c h' | None => Ok h' end.

(** ** Messages *)

(** What one message does to a connection on its own: [d] is read at time [t],
    and the message callback runs. *)
Definition session_step (cb : response_callback) (m : Z * bytes) (x : session) : outcome session :=
  let '(context, buf, calls) := x in
  '(_, _, buf) ← read_all_from (fun _ => IoBytes m.2) buf;
  '(context, buf, more) ← default_on_request cb context buf m.1;
  Ok (context, buf, calls ++ more).

(** The session of a connection, found through its context pointer.  (The
    pointer is not initialised by the constructor of the connection.) *)
Definition session_of (c : conn_id) (h : http_world) : outcome session :=
  p ← of_option FNull (h_context h !! c);
  context ← of_option FBounds (h_heap h !! p);
  buf ← of_option FNull (h_input h !! c);
  calls ← of_option FNull (h_calls h !! c);
  Ok (context, buf, calls).

Definition put_session (c : conn_id) (x : session) (h : http_world) : outcome http_world :=
  let '(context, buf, calls) := x in
  p ← of_option FNull (h_context h !! c);
  Ok (mkHttp (h_world h) (h_callback h) (h_context h) (<[p := context]> (h_heap h)) (<[c := buf]> (h_input h)) (<[c := calls]> (h_calls h))).

(** [shutdown] is the call that the server sees. *)
Definition asks_shutdown (l : list user_call) : bool :=
  existsb (fun u => match u with UShutdown => true | _ => false end) l.

Definition http_message (c : conn_id) (m : Z * bytes) (h : http_world) : outcome http_world :=
  x ← session_of c h;
  x' ← session_step (h_callback h) m x;
  h ← put_session c x' h;
  w ← (if asks_shutdown (drop (length x.2) x'.2) then server_step (WvShutdown c) (h_world h) else Ok (h_world h));
  Ok (with_world w h).

(** ** Steps *)

Inductive http_event : Type :=
| HvServer (p : Z) (ev : server_event)
| HvMessage (c : conn_id) (m : Z * bytes).

Definition http_step (ev : http_event) (h : http_world) : outcome http_world :=
  match ev with
  | HvServer p ev => http_server_step p ev h
  | HvMessage c m => http_message c m h
  end.

(** The memory that [new] returns is not in use, and only an open connection
    has messages. *)
Definition hev_ok (ev : http_event) (h : http_world) : Prop :=
  match ev with
  | HvServer p ev => h_heap h !! p = None /\ exists s, w_server (h_world h) = Some s /\ wev_ok ev s (h_world h)
  | HvMessage c _ => exists k, w_conns (h_world h) !! c = Some k /\ is_open_conn k
  end.

(** A server that was constructed, set up and started, and what happened since. *)
Definition http_server (loop : reactor) (ip_port name : bytes) (cb : response_callback) (n : Z) (spawn : Z -> reactor) : outcome http_world :=
  h ← set_thread_num n (set_response_callback cb (new_HttpServer loop ip_port name)); http_start loop spawn h.

Inductive http_run (h0 : http_world) : list http_event -> http_world -> Prop :=
| http_run_nil : http_run h0 [] h0
| http_run_snoc tr ev h h' : http_run h0 tr h -> hev_ok ev h -> http_step ev h = Ok h' -> http_run h0 (tr ++ [ev]) h'.

(** The messages of a connection. *)
Definition messages_of (c : conn_id) (tr : list http_event) : list (Z * bytes) :=
  omap (fun ev => match ev with HvMessage c' m => if c' =? c then Some m else None | _ => None end) tr.

(** ... and what they do to a connection that is alone. *)
Fixpoint session_run (cb : response_callback) (l : list (Z * bytes)) (x : session) : outcome session :=
  match l with [] => Ok x | m :: l => x ← session_step cb m x; session_run cb l x end.

Definition session_alone (cb : response_callback) (l : list (Z * bytes)) : outcome session :=
  b ← new_Buffer kInitialSize; session_run cb l (new_HttpContext, b, []).

(** * What a step of the server does to the connections *)

Definition is_accept (ev : server_event) : bool := match ev with WvAccept _ => true | _ => false end.

Inductive conn_change (ev : server_event) (w w' : world) : Prop :=
| ch_none : w_conns w' = w_conns w -> notified ev w w' = None -> is_accept ev = false -> conn_change ev w w'
| ch_keep c k k' :
    w_conns w !! c = Some k -> w_conns w' = <[c := k']> (w_conns w) -> cn_established k' = cn_established k -> is_accept ev = false ->
    notified ev w w' = None \/ notified ev w w' = Some c /\ cn_state k' <> kConnected -> conn_change ev w w'
| ch_new c k' :
    w_conns w !! c = None -> w_conns w' = <[c := k']> (w_conns w) -> cn_established k' = 0%nat -> ev = WvAccept c ->
    notified ev w w' = None -> conn_change ev w w'
| ch_new_up c k' :
    w_conns w !! c = None -> w_conns w' = <[c := k']> (w_conns w) -> cn_established k' = 1%nat -> cn_state k' = kConnected ->
    ev = WvAccept c -> notified ev w w' = Some c -> conn_change ev w w'
| ch_up c k k' :
    w_conns w !! c = Some k -> cn_established k = 0%nat -> w_conns w' = <[c := k']> (w_conns w) -> cn_established k' = 1%nat ->
    cn_state k' = kConnected -> is_accept ev = false -> notified ev w w' = Some c -> conn_change ev w w'.

Lemma accept_change c w w' : w_conns w !! c = None -> server_step (WvAccept c) w = Ok w' -> conn_change (WvAccept c) w w'.
Proof.
  intros Hc E. unfold server_step, new_conn_callback, run_asap in E. outcome_inv. destruct x2 as [r pool]. outcome_inv. destruct x2 as [v cnt].
  outcome_inv. destruct (_ =? r).
  - cbn [exec_task] in E. unfold connect_established in E. cbn in E. rewrite lookup_insert_eq in E. cbn [of_option] in E. outcome_inv. simplify_eq.
    eapply ch_new_up; [exact Hc|cbn; by rewrite insert_insert_eq|done|done|done|]. cbn. by rewrite lookup_insert_eq.
  - injection E as <-. eapply ch_new; [exact Hc|reflexivity|done|done|]. cbn. by rewrite lookup_insert_eq.
Qed.

Lemma remove_task_conns t c w w' : remove_connection_in_reactor t c w = Ok w' -> w_conns w' = w_conns w.
Proof. unfold remove_connection_in_reactor. intros E. outcome_inv. by subst w'. Qed.

Lemma remove_conn_same t c w w' : remove_conn t c w = Ok w' -> w_conns w' = w_conns w.
Proof.
  unfold remove_conn, run_asap. intros E. outcome_inv. destruct (t =? _); [by eapply remove_task_conns|by injection E as <-].
Qed.

Lemma run_change s r w w' : server_inv s w -> server_step (WvRun r) w = Ok w' -> conn_change (WvRun r) w w'.
Proof.
  intros I E. unfold server_step in E. destruct (pop r (w_tasks w)) as [[t l]|] eqn:Hp.
  2: { injection E as <-. apply ch_none; [done| |done]. simpl. by rewrite Hp. }
  destruct t as [|c|c|c]; cbn [exec_task] in E.
  - outcome_inv. subst w'. apply ch_none; [done| |done]. simpl. by rewrite Hp.
  - unfold connect_established in E. destruct (popped_conn _ _ _ _ _ _ I Hp eq_refl) as (k & Hc & _ & Hst). cbn [w_conns] in E.
    rewrite Hc in E. cbn [of_option] in E. rewrite bind_ok in E. outcome_inv. subst w'.
    match goal with Hb : bool_decide _ = true |- _ => apply bool_decide_eq_true in Hb; unfold stage in Hst; rewrite Hb in Hst end. destruct Hst as (_ & _ & He & _).
    eapply ch_up; [exact Hc|done|reflexivity|by rewrite <- He|done|done|]. simpl. by rewrite Hp.
  - apply remove_task_conns in E. apply ch_none; [done| |done]. simpl. by rewrite Hp.
  - unfold connect_destroyed in E. destruct (popped_conn _ _ _ _ _ _ I Hp eq_refl) as (k & Hc & _ & Hst). cbn [w_conns] in E.
    rewrite Hc in E. cbn [of_option] in E. rewrite bind_ok in E. outcome_inv. subst w'.
    match goal with Hb : _ && _ = true |- _ => apply andb_true_iff in Hb as [Hd%bool_decide_eq_true _] end.
    eapply ch_keep; [exact Hc|reflexivity|by case_bool_decide|done|]. simpl. rewrite Hp. simpl. rewrite Hc. simpl.
    case_bool_decide; [right|by left]. done.
Qed.

Lemma server_step_change s ev w w' : server_inv s w -> wev_ok ev s w -> server_step ev w = Ok w' -> conn_change ev w w'.
Proof.
  intros I Hok E. destruct ev as [c|r|c|c|]; [by apply accept_change; [apply Hok|]|by eapply run_change|..|done].
  - destruct Hok as [k Hc]. unfold server_step in E. rewrite Hc in E. cbn in E. case_bool_decide; injection E as <-; [|by apply ch_none].
    eapply ch_keep; [exact Hc|reflexivity|done|done|by left].
  - destruct Hok as (k & Hc & _). unfold server_step in E. rewrite Hc in E. cbn [of_option] in E. rewrite bind_ok in E. outcome_inv.
    apply remove_conn_same in E. eapply ch_keep; [exact Hc|exact E|done|done|by right].
Qed.

(** * The invariant *)

Section sessions.
Context (cb : response_callback).
Implicit Types (h : http_world) (tr : list http_event).

(** The session of a connection that was established [n] times. *)
Definition tracks tr h (c : conn_id) (n : option nat) : Prop :=
  match n with
  | None => h_context h !! c = None /\ messages_of c tr = []
  | Some O => h_context h !! c = None /\ messages_of c tr = [] /\
      exists b, new_Buffer kInitialSize = Ok b /\ h_input h !! c = Some b /\ h_calls h !! c = Some []
  | Some (S _) => exists x, session_of c h = Ok x /\ session_alone cb (messages_of c tr) = Ok x
  end.

Record http_inv tr h : Prop := {
  hi_server : exists s, server_inv s (h_world h);
  hi_callback : h_callback h = cb;
  hi_tracks : forall c, tracks tr h c (cn_established <$> w_conns (h_world h) !! c);
  hi_own : forall c1 c2 p, h_context h !! c1 = Some p -> h_context h !! c2 = Some p -> c1 = c2;
  hi_heap : forall p, is_Some (h_heap h !! p) <-> exists c, h_context h !! c = Some p
}.

Lemma messages_server c tr p ev : messages_of c (tr ++ [HvServer p ev]) = messages_of c tr.
Proof. unfold messages_of. rewrite omap_app. simpl. by rewrite app_nil_r. Qed.

Lemma messages_snoc c c' tr m : messages_of c (tr ++ [HvMessage c' m]) = messages_of c tr ++ (if c' =? c then [m] else []).
Proof. unfold messages_of. rewrite omap_app. simpl. by destruct (c' =? c). Qed.

(** A session depends on the members of its connection only. *)
Lemma session_frame c h h' :
  h_context h' !! c = h_context h !! c -> h_input h' !! c = h_input h !! c -> h_calls h' !! c = h_calls h !! c ->
  (forall p, h_context h !! c = Some p -> h_heap h' !! p = h_heap h !! p) -> session_of c h' = session_of c h.
Proof.
  intros E1 E2 E3 E4. unfold session_of. rewrite E1, E2, E3. destruct (h_context h !! c) as [p|]; [|done]. cbn. by rewrite (E4 p eq_refl).
Qed.

Lemma tracks_frame tr tr' c h h' n :
  h_context h' !! c = h_context h !! c -> h_input h' !! c = h_input h !! c -> h_calls h' !! c = h_calls h !! c ->
  (forall p, h_context h !! c = Some p -> h_heap h' !! p = h_heap h !! p) -> messages_of c tr' = messages_of c tr ->
  tracks tr h c n -> tracks tr' h' c n.
Proof.
  intros E1 E2 E3 E4 E5. unfold tracks. rewrite (session_frame c h h') by done. by rewrite E1, E2, E3, E5.
Qed.

Lemma session_ptr c h x : session_of c h = Ok x -> exists p, h_context h !! c = Some p /\ h_heap h !! p = Some x.1.1 /\
  h_input h !! c = Some x.1.2 /\ h_calls h !! c = Some x.2.
Proof.
  unfold session_of. intros E. destruct (h_context h !! c) as [p|] eqn:Hp; [|done]. cbn in E. exists p.
  destruct (h_heap h !! p); [|done]. destruct (h_input h !! c); [|done]. destruct (h_calls h !! c); [|done]. cbn in E. by injection E as <-.
Qed.

(** ** Steps of the server *)

(** A connection goes up: its context is new. *)
Lemma up_inv tr h h' c k' p ev :
  http_inv tr h -> (exists s, server_inv s (h_world h')) -> h_callback h' = h_callback h -> h_heap h !! p = None ->
  w_conns (h_world h') = <[c := k']> (w_conns (h_world h)) -> cn_established k' = 1%nat ->
  h_context h !! c = None -> messages_of c tr = [] ->
  h_context h' = <[c := p]> (h_context h) -> h_heap h' = <[p := new_HttpContext]> (h_heap h) ->
  (exists b, new_Buffer kInitialSize = Ok b /\ h_input h' !! c = Some b /\ h_calls h' !! c = Some []) ->
  (forall c', c' <> c -> h_input h' !! c' = h_input h !! c' /\ h_calls h' !! c' = h_calls h !! c') ->
  http_inv (tr ++ [HvServer p ev]) h'.
Proof.
  intros I Hs Hcb Hp Hw Hk Hc Hm Ec Eh (b & Hb & Hin & Hca) Ho.
  assert (forall c', h_context h !! c' <> Some p) as Hnp.
  { intros c' E. assert (is_Some (h_heap h !! p)) as [? ?] by (apply (hi_heap _ _ I); eauto). congruence. }
  constructor; [done|by rewrite Hcb, (hi_callback _ _ I)| | |].
  - intros c'. rewrite Hw. destruct (decide (c' = c)) as [->|Hne].
    + rewrite lookup_insert_eq. simpl. rewrite Hk. exists (new_HttpContext, b, []). rewrite messages_server, Hm. unfold session_of, session_alone.
      rewrite Ec, lookup_insert_eq, Hin, Hca, Hb. cbn [of_option]. rewrite bind_ok, Eh, lookup_insert_eq. split; reflexivity.
    + rewrite lookup_insert_ne by done. destruct (Ho c' Hne) as [Ei Ea].
      apply (tracks_frame tr _ c' h); [by rewrite Ec, lookup_insert_ne|done|done| |apply messages_server|apply (hi_tracks _ _ I)].
      intros p' Hp'. rewrite Eh, lookup_insert_ne; [done|]. intros ->. by destruct (Hnp c').
  - intros c1 c2 p'. rewrite Ec. intros H1 H2. destruct (decide (c1 = c)) as [->|N1], (decide (c2 = c)) as [->|N2]; [done|..].
    + rewrite lookup_insert_eq in H1. rewrite lookup_insert_ne in H2 by done. simplify_eq. by destruct (Hnp c2).
    + rewrite lookup_insert_eq in H2. rewrite lookup_insert_ne in H1 by done. simplify_eq. by destruct (Hnp c1).
    + rewrite lookup_insert_ne in H1, H2 by done. by eapply (hi_own _ _ I).
  - intros p'. rewrite Ec, Eh, lookup_insert_is_Some'. rewrite (hi_heap _ _ I p'). split.
    + intros [<-|[c' E]]; [exists c; by rewrite lookup_insert_eq|]. exists c'. rewrite lookup_insert_ne; congruence.
    + intros [c' E]. destruct (decide (c' = c)) as [->|Hne]; [rewrite lookup_insert_eq in E; left; congruence|].
      rewrite lookup_insert_ne in E by done. eauto.
Qed.

(** A step that concerns no session but, perhaps, adds a connection. *)
Lemma quiet_inv tr h h' p ev :
  http_inv tr h -> (exists s, server_inv s (h_world h')) -> h_callback h' = h_callback h ->
  h_context h' = h_context h -> h_heap h' = h_heap h ->
  (forall c, tracks (tr ++ [HvServer p ev]) h' c (cn_established <$> w_conns (h_world h') !! c)) ->
  http_inv (tr ++ [HvServer p ev]) h'.
Proof.
  intros I Hs Hcb Ec Eh Ht. constructor; [done|by rewrite Hcb, (hi_callback _ _ I)|done|..].
  - rewrite Ec. apply (hi_own _ _ I).
  - rewrite Ec, Eh. apply (hi_heap _ _ I).
Qed.

Lemma initial_buffer_ok : exists b, new_Buffer kInitialSize = Ok b.
Proof. eexists. vm_compute. reflexivity. Qed.

(** The same, when the connections keep their number of establishments. *)
Lemma same_inv tr h w' p ev :
  http_inv tr h -> (exists s, server_inv s w') ->
  (forall c, cn_established <$> w_conns w' !! c = cn_established <$> w_conns (h_world h) !! c) ->
  http_inv (tr ++ [HvServer p ev]) (with_world w' h).
Proof.
  intros I Hs Hc. apply (quiet_inv tr h); try done. intros c. cbn [h_world with_world]. rewrite Hc.
  apply (tracks_frame tr _ c h); try done; [apply messages_server|apply (hi_tracks _ _ I)].
Qed.

Lemma server_event_inv tr p ev h :
  http_inv tr h -> hev_ok (HvServer p ev) h -> returns (http_inv (tr ++ [HvServer p ev])) (http_server_step p ev h).
Proof.
  intros I (Hp & s & Hs & Hok). destruct (hi_server _ _ I) as [s1 I1]. assert (s1 = s) as -> by (pose proof (si_server _ _ I1); congruence).
  destruct (returns_ok _ _ (server_step_spec ev s (h_world h) I1 Hok)) as (w' & E & s' & I' & _).
  assert (exists s, server_inv s w') as Is by eauto. unfold http_server_step. rewrite E, bind_ok.
  destruct initial_buffer_ok as [b Hb].
  destruct (server_step_change s ev _ w' I1 Hok E) as [Hw Hn Ha|c k k' Hc Hw He Ha Hn|c k' Hc Hw He -> Hn|c k' Hc Hw He Hst -> Hn|c k k' Hc Hk Hw He Hst Ha Hn].
  - rewrite Hn. destruct ev; [done|..]; (cbn [connection_made]; rewrite bind_ok; apply same_inv; [done|done|]; intros ?; by rewrite Hw).
  - assert (forall c', cn_established <$> w_conns w' !! c' = cn_established <$> w_conns (h_world h) !! c') as Hsame.
    { intros c'. rewrite Hw. destruct (decide (c' = c)) as [->|Hne]; [|by rewrite lookup_insert_ne]. by rewrite lookup_insert_eq, Hc; simpl; rewrite He. }
    assert (connection_made ev (with_world w' h) = Ok (with_world w' h)) as -> by (by destruct ev). rewrite bind_ok.
    destruct Hn as [-> |[-> Hn]]; [by apply same_inv|]. unfold http_on_connection. cbn [h_world with_world]. rewrite Hw, lookup_insert_eq. cbn [of_option].
    rewrite bind_ok, bool_decide_eq_false_2 by done. cbn [on_connection returns]. by apply same_inv.
  - rewrite Hn. cbn [connection_made]. rewrite Hb, !bind_ok. cbn [returns]. pose proof (hi_tracks _ _ I c) as T. rewrite Hc in T. destruct T as [Tc Tm].
    apply (quiet_inv tr h); cbn; try done; [by apply delete_id|]. intros c'. rewrite Hw. destruct (decide (c' = c)) as [->|Hne].
    + rewrite lookup_insert_eq. simpl. rewrite He. simpl. rewrite lookup_delete_eq, messages_server, Tm, !lookup_insert_eq. split_and!; eauto.
    + rewrite lookup_insert_ne by done. apply (tracks_frame tr _ c' h); cbn; try (by rewrite ?lookup_insert_ne, ?lookup_delete_ne); [apply messages_server|apply (hi_tracks _ _ I)].
  - rewrite Hn. cbn [connection_made]. rewrite Hb, !bind_ok. unfold http_on_connection. cbn. rewrite Hw, lookup_insert_eq. cbn [of_option].
    rewrite bind_ok, bool_decide_eq_true_2 by done. cbn [on_connection returns].
    pose proof (hi_tracks _ _ I c) as T. rewrite Hc in T. destruct T as [Tc Tm].
    eapply (up_inv tr h _ c k' p); try done; cbn; [by rewrite delete_id| |].
    + exists b. by rewrite !lookup_insert_eq.
    + intros c' Hne. by rewrite !lookup_insert_ne.
  - assert (connection_made ev (with_world w' h) = Ok (with_world w' h)) as -> by (by destruct ev). rewrite bind_ok, Hn. unfold http_on_connection.
    cbn [h_world with_world]. rewrite Hw, lookup_insert_eq. cbn [of_option]. rewrite bind_ok, bool_decide_eq_true_2 by done. cbn [on_connection returns].
    pose proof (hi_tracks _ _ I c) as T. rewrite Hc in T. simpl in T. rewrite Hk in T. destruct T as (Tc & Tm & Tb).
    by eapply (up_inv tr h _ c k' p).
Qed.

(** ** Messages *)

Lemma session_run_app l1 l2 x : session_run cb (l1 ++ l2) x = (y ← session_run cb l1 x; session_run cb l2 y).
Proof. revert x. induction l1 as [|m l1 IH]; intros x; simpl; [done|]. destruct (session_step cb m x); [apply IH|done]. Qed.

Lemma session_alone_snoc l m : session_alone cb (l ++ [m]) = (x ← session_alone cb l; session_step cb m x).
Proof.
  unfold session_alone. destruct (new_Buffer kInitialSize) as [b|]; [|done]. rewrite !bind_ok, session_run_app.
  destruct (session_run cb l _) as [x|]; [|done]. rewrite !bind_ok. cbn [session_run]. by destruct (session_step cb m x).
Qed.

(** An open connection was established, so that it has a session. *)
Lemma open_session tr h c k :
  http_inv tr h -> w_conns (h_world h) !! c = Some k -> cn_established k <> 0%nat ->
  exists x, session_of c h = Ok x /\ session_alone cb (messages_of c tr) = Ok x.
Proof. intros I Hc He. pose proof (hi_tracks _ _ I c) as T. rewrite Hc in T. simpl in T. by destruct (cn_established k). Qed.

Lemma open_established s w c k : server_inv s w -> w_conns w !! c = Some k -> is_open_conn k -> cn_established k = 1%nat.
Proof.
  intros I Hc Ho. pose proof (si_stage _ _ I _ _ Hc) as Hst. unfold stage in Hst.
  by destruct Ho as [Ho|Ho]; rewrite Ho in Hst; destruct Hst as (_ & _ & ? & _).
Qed.

(** The message callback leaves the other sessions alone. *)
Lemma put_session_inv tr c m h w' x' p k :
  http_inv tr h -> h_context h !! c = Some p -> w_conns (h_world h) !! c = Some k -> cn_established k <> 0%nat ->
  session_alone cb (messages_of c tr ++ [m]) = Ok x' -> (exists s, server_inv s w') ->
  (forall c', cn_established <$> w_conns w' !! c' = cn_established <$> w_conns (h_world h) !! c') ->
  http_inv (tr ++ [HvMessage c m])
    (mkHttp w' (h_callback h) (h_context h) (<[p := x'.1.1]> (h_heap h)) (<[c := x'.1.2]> (h_input h)) (<[c := x'.2]> (h_calls h))).
Proof.
  intros I Hp Hk He Ha Hs Hw. constructor; cbn; [done|apply I| |apply I|].
  - intros c'. rewrite Hw. destruct (decide (c' = c)) as [->|Hne].
    + rewrite Hk. simpl. destruct (cn_established k) as [|n]; [done|]. exists x'. rewrite messages_snoc, Z.eqb_refl. split; [|done].
      unfold session_of. cbn. rewrite Hp. cbn. rewrite !lookup_insert_eq. cbn. by destruct x' as [[??]?].
    + apply (tracks_frame tr _ c' h); cbn; try (by rewrite ?lookup_insert_ne); [| |apply (hi_tracks _ _ I)].
      * intros p' Hp'. rewrite lookup_insert_ne; [done|]. intros ->. by destruct (Hne (hi_own _ _ I _ _ _ Hp' Hp)).
      * rewrite messages_snoc. destruct (Z.eqb_spec c c'); [congruence|]. by rewrite app_nil_r.
  - intros p'. rewrite lookup_insert_is_Some', (hi_heap _ _ I). split; [intros [<-|?]; eauto|auto].
Qed.

Lemma shutdown_world s w c k :
  server_inv s w -> w_conns w !! c = Some k ->
  exists w', server_step (WvShutdown c) w = Ok w' /\ (exists s, server_inv s w') /\
    forall c', cn_established <$> w_conns w' !! c' = cn_established <$> w_conns w !! c'.
Proof.
  intros I Hc. destruct (returns_ok _ _ (conn_shutdown_spec s w c I (ex_intro _ k Hc))) as (w' & E & s' & I' & _).
  exists w'. split_and!; [done|eauto|]. intros c'. unfold server_step in E. rewrite Hc in E. cbn in E.
  case_bool_decide; injection E as <-; [|done]. cbn. destruct (decide (c' = c)) as [->|Hne]; [by rewrite lookup_insert_eq, Hc|by rewrite lookup_insert_ne].
Qed.

Lemma message_event_inv tr c m h :
  http_inv tr h -> hev_ok (HvMessage c m) h ->
  exists x, session_of c h = Ok x /\
    match session_step cb m x with
    | Ok _ => exists h', http_message c m h = Ok h' /\ http_inv (tr ++ [HvMessage c m]) h'
    | Fail f => http_message c m h = Fail f
    end.
Proof.
  intros I (k & Hk & Ho). destruct (hi_server _ _ I) as [s Is].
  assert (cn_established k <> 0%nat) as He by (rewrite (open_established _ _ _ _ Is Hk Ho); done).
  destruct (open_session _ _ _ _ I Hk He) as (x & Hx & Ha). exists x. split; [done|].
  unfold http_message. rewrite Hx, bind_ok, (hi_callback _ _ I). destruct (session_step cb m x) as [x'|f] eqn:E; [|done].
  assert (session_alone cb (messages_of c tr ++ [m]) = Ok x') as Ha' by (by rewrite session_alone_snoc, Ha, bind_ok).
  destruct (session_ptr _ _ _ Hx) as (p & Hp & _). unfold put_session. rewrite bind_ok, Hp. destruct x' as [[context buf] calls]. cbn [of_option].
  rewrite !bind_ok. cbn [h_world]. destruct (asks_shutdown _).
  - destruct (shutdown_world s (h_world h) c k Is Hk) as (w' & -> & Is' & Hw). rewrite bind_ok. eexists. split; [reflexivity|].
    by apply (put_session_inv tr c m h w' (context, buf, calls) p k).
  - rewrite bind_ok. eexists. split; [reflexivity|]. apply (put_session_inv tr c m h (h_world h) (context, buf, calls) p k); eauto.
Qed.

Lemma http_step_inv tr ev h h' : http_inv tr h -> hev_ok ev h -> http_step ev h = Ok h' -> http_inv (tr ++ [ev]) h'.
Proof.
  intros I Hok E. destruct ev as [p ev|c m]; cbn [http_step] in E.
  - pose proof (server_event_inv tr p ev h I Hok) as S. by rewrite E in S.
  - destruct (message_event_inv tr c m h I Hok) as (x & _ & S). destruct (session_step cb m x); [|congruence].
    destruct S as (h1 & E1 & I1). congruence.
Qed.

Lemma http_start_inv loop ip_port name n spawn h :
  0 <= n < 2 ^ 31 -> len ip_port <= 51 -> http_server loop ip_port name cb n spawn = Ok h -> http_inv [] h.
Proof.
  intros Hn Hip E. pose proof (started_inv loop ip_port name n false spawn Hn Hip) as S.
  unfold http_server, set_thread_num, http_start in E. cbn [the_server h_world set_response_callback new_HttpServer w_server of_option] in E.
  rewrite bind_ok in E. unfold started_server in S. destruct (set_reactor_pool_size n _) as [s|]; [|done]. rewrite !bind_ok in *.
  cbn [h_world with_world] in E. unfold with_server in E. cbn [w_conns w_tasks] in E. 
  destruct (server_start loop false spawn _) as [w|] eqn:Ew; [|done]. rewrite bind_ok in E. injection E as <-. destruct S as (s' & I & _).
  assert (w_conns w = ∅) as Hc.
  { unfold server_start, run_asap, get_and_set in Ew. cbn in Ew. destruct (_ =? 0); [|by outcome_inv; subst w].
    apply bind_ok_inv in Ew as ([u pool] & _ & Ew). outcome_inv. destruct (_ =? _); cbn in Ew; outcome_inv; by subst w. }
  constructor; cbn; [by exists s'|done|..].
  - intros c. by rewrite Hc, lookup_empty.
  - intros c1 c2 p. by rewrite lookup_empty.
  - intros p. rewrite lookup_empty. split; [by intros []|]. intros [c E]. by rewrite lookup_empty in E.
Qed.

Lemma http_run_inv h0 tr h : http_inv [] h0 -> http_run h0 tr h -> http_inv tr h.
Proof. intros I R. induction R as [|tr ev h h' _ IH Hok E]; [done|]. by eapply http_step_inv. Qed.

End sessions.

(** * Theorem *)

(** C2: the connections of an HTTP server do not interfere.  For a started
    server with any number of I/O threads and any response callback, whatever
    connections come and go and however the messages of the clients interleave:
    every connection that was established has a context of its own, which no
    other connection shares; its context, its input buffer and the calls made
    on it are those of a connection that is alone and gets the same messages;
    the next step of the server returns, and a message of an open connection
    fails only if it fails for that lone connection, in the same way (the
    context pointer is never used before it is set).  And there is exactly one
    context for each connection that was ever established, those that are
    destroyed included: none is ever freed. *)
Theorem http_sessions_isolated loop ip_port name cb n spawn h0 tr h :
  0 <= n < 2 ^ 31 -> len ip_port <= 51 -> http_server loop ip_port name cb n spawn = Ok h0 -> http_run h0 tr h ->
  (forall c k, w_conns (h_world h) !! c = Some k -> cn_established k = 1%nat ->
     exists x, session_of c h = Ok x /\ session_alone cb (messages_of c tr) = Ok x) /\
  (forall c1 c2 p, h_context h !! c1 = Some p -> h_context h !! c2 = Some p -> c1 = c2) /\
  (forall ev, hev_ok ev h ->
     match ev with
     | HvServer _ _ => exists h', http_step ev h = Ok h'
     | HvMessage c m => exists x, session_of c h = Ok x /\
         match session_step cb m x with Ok _ => exists h', http_step ev h = Ok h' | Fail f => http_step ev h = Fail f end
     end) /\
  (forall p, is_Some (h_heap h !! p) <->
     exists c k, h_context h !! c = Some p /\ w_conns (h_world h) !! c = Some k /\ cn_established k = 1%nat).
Proof.
  intros Hn Hip E0 R. pose proof (http_run_inv cb h0 tr h (http_start_inv cb _ _ _ _ _ _ Hn Hip E0) R) as I. split_and!.
  - intros c k Hc Hk. eapply open_session; [done|done|by rewrite Hk].
  - apply I.
  - intros [p ev|c m] Hok; cbn [http_step].
    + destruct (returns_ok _ _ (server_event_inv cb tr p ev h I Hok)) as (h' & -> & _). eauto.
    + destruct (message_event_inv cb tr c m h I Hok) as (x & Hx & S). exists x. split; [done|].
      destruct (session_step cb m x); [|done]. destruct S as (h' & -> & _). eauto.
  - intros p. rewrite (hi_heap _ _ _ I). split; [|intros (c & k & Hp & _); eauto]. intros [c Hp]. exists c.
    pose proof (hi_tracks _ _ _ I c) as T. destruct (hi_server _ _ _ I) as [s Is].
    destruct (w_conns (h_world h) !! c) as [k|] eqn:Hk; simpl in T; [|destruct T; congruence]. exists k. split_and!; [done..|].
    pose proof (si_stage _ _ Is _ _ Hk) as Hst. unfold stage in Hst.
    destruct (cn_state k); [by destruct Hst|destruct Hst as (_ & _ & He & _); rewrite He in T; destruct T; congruence|by destruct Hst as (_ & _ & ? & _)..].
Qed.

(** * A run *)

Definition hev_okb (ev : http_event) (h : http_world) : bool :=
  match ev with
  | HvServer p ev => bool_decide (h_heap h !! p = None) && match w_server (h_world h) with Some s => wev_okb ev s (h_world h) | None => false end
  | HvMessage c _ => match w_conns (h_world h) !! c with
                     | Some k => bool_decide (cn_state k = kConnected) || bool_decide (cn_state k = kDisconnecting)
                     | None => false
                     end
  end.

Lemma hev_okb_ok ev h : hev_okb ev h = true -> hev_ok ev h.
Proof.
  destruct ev as [p ev|c m]; simpl.
  - intros [Hp%bool_decide_eq_true Hs]%andb_true_iff. split; [done|]. destruct (w_server (h_world h)) as [s|]; [|done]. exists s. split; [done|by apply wev_okb_ok].
  - destruct (w_conns (h_world h) !! c) as [k|]; [|done]. intros Hk. exists k. split; [done|].
    apply orb_true_iff in Hk as [?%bool_decide_eq_true|?%bool_decide_eq_true]; [by left|by right].
Qed.

Fixpoint http_events (l : list http_event) (h : http_world) : option http_world :=
  match l with
  | [] => Some h
  | ev :: l => if hev_okb ev h then match http_step ev h with Ok h' => http_events l h' | Fail _ => None end else None
  end.

Lemma http_events_run h0 l : forall tr h h', http_run h0 tr h -> http_events l h = Some h' -> http_run h0 (tr ++ l) h'.
Proof.
  induction l as [|ev l IH]; intros tr h h' R E; cbn [http_events] in E; [injection E as <-; by rewrite app_nil_r|].
  destruct (hev_okb ev h) eqn:Hok; [|done]. destruct (http_step ev h) as [h1|] eqn:E1; [|done].
  rewrite (cons_middle ev tr l), app_assoc. eapply IH; [|exact E]. eapply http_run_snoc; [done|by apply hev_okb_ok|done].
Qed.

(** Two clients in two threads, the request of one in two pieces around the
    other's; then one of them is gone. *)
Definition two_clients : list http_event :=
  let l := render sample_request [(lit "Host", lit "h:80")] in
  [HvServer 900 (WvAccept 7); HvServer 900 (WvAccept 8); HvServer 900 (WvRun 100); HvServer 901 (WvRun 101);
   HvMessage 7 (1, take 10 l); HvMessage 8 (2, l); HvMessage 7 (3, drop 10 l);
   HvServer 902 (WvClose 7); HvServer 902 (WvRun 1); HvServer 902 (WvRun 100)].

Definition two_clients_server : outcome http_world := http_server 1 (lit "0.0.0.0:80") (lit "web") hello_callback 2 (fun i => 100 + i).

Lemma http_sessions_isolated_witness :
  exists h0 h x, two_clients_server = Ok h0 /\ http_events two_clients h0 = Some h /\
    session_of 8 h = Ok x /\ session_alone hello_callback (messages_of 8 two_clients) = Ok x /\ length x.2 = 1%nat /\
    is_Some (h_heap h !! 900) /\ is_Some (h_heap h !! 901).
Proof.
  destruct two_clients_server as [h0|f] eqn:E0; [|by vm_compute in E0].
  destruct (http_events two_clients h0) as [h|] eqn:E; [|vm_compute in E0; injection E0 as <-; by vm_compute in E].
  destruct (http_sessions_isolated 1 (lit "0.0.0.0:80") (lit "web") hello_callback 2 (fun i => 100 + i) h0 ([] ++ two_clients) h) as (Q & _ & _ & L);
    [lia|by vm_compute|exact E0|by eapply http_events_run; [apply http_run_nil|]|].
  vm_compute in E0. injection E0 as <-. vm_compute in E. injection E as <-.
  destruct (Q 8 (mkConn (lit "web:0.0.0.0:80#1") 101 kConnected 1 false)) as (x & Hx & Ha); [by vm_compute|done|].
  eexists _, _, x. split; [reflexivity|]. split; [by vm_compute|]. split; [exact Hx|]. split; [exact Ha|].
  split; [vm_compute in Hx; injection Hx as <-; reflexivity|].
  split; apply L; [exists 7|exists 8]; eexists; (split; [by vm_compute|split; [by vm_compute|done]]).
Defined.
