(* ===== verification/EchoServer.v ===== *)
(** [flute/net/tests/echo.{h,cc}]: the echo server (RFC 862), a program that is
    only callbacks on the connections of a [TcpServer].

    [on_message] is the message callback.  [echo_react] gives the calls that it
    makes to the model of the connection, and [on_message_calls] says that they
    are the same.  The theorem follows the bytes through the whole path:
    readv(2), the input buffer, the callback, the output buffer, write(2). *)

From S2P Require Import Prelude OrdContainers StringPiece Endian Buffer Channel Poller EPollPoller Timestamp ZeroCopier TcpConnection ReactorThreadPool TcpServer.

Section echo.
Context {P : Type} `{PollerLaws P}.
Implicit Types (e : conn_env P) (r : bytes).

(** [on_message]: the whole input buffer, sent back. *)
Definition on_message e : outcome (conn_env P) :=
  '(msg, buf) ← readout_all_as_string (m_input_buffer (e_conn e));
  send true msg (on_conn (set_input buf) e).

(** The calls of the two callbacks; [on_conn] only writes to the log. *)
Definition echo_react (n : notice) e : list user_call :=
  match n with
  | NMessage =>
      let buf := m_input_buffer (e_conn e) in
      if len (content buf) <=? PTRDIFF_MAX then [URetrieve (content_bytes_len buf); USend (content buf)] else []
  | NConn _ | NClose => []
  end.

Lemma echo_react_ok : react_ok echo_react.
Proof.
  intros [| |] e; simpl; try constructor. destruct (Z.leb_spec (len (content (m_input_buffer (e_conn e)))) PTRDIFF_MAX); [|constructor].
  repeat constructor. done.
Qed.

Lemma content_fits b : wf b -> len (content b) <= PTRDIFF_MAX.
Proof. intros W. pose proof W as []. rewrite (len_content b W). lia. Qed.

Lemma readout_all b : wf b -> readout_all_as_string b = Ok (content b, retrieve_all b).
Proof.
  intros W. pose proof (content_bytes_len_content b W) as Hl. pose proof W as [].
  unfold readout_all_as_string, readout_as_string, retrieve. rewrite Z.leb_refl, Z.ltb_irrefl. cbn [assert_]. rewrite !bind_ok.
  rewrite read_range_ok by (done || rewrite content_bytes_len_eq by done; unfold peek_base; lia). rewrite !bind_ok.
  unfold content, peek_base. rewrite content_bytes_len_eq by done. do 3 f_equal. lia.
Qed.

Lemma consume_all e : wf (m_input_buffer (e_conn e)) ->
  consume (content_bytes_len (m_input_buffer (e_conn e))) e = Ok (on_conn (set_input (retrieve_all (m_input_buffer (e_conn e)))) e).
Proof.
  intros W. pose proof (content_bytes_len_content _ W) as Hl. len_pose. unfold consume.
  rewrite Z.max_r, Z.min_id by lia. unfold retrieve. rewrite Z.leb_refl, Z.ltb_irrefl. done.
Qed.

(** The calls are the callback. *)
Lemma on_message_calls e : wf (m_input_buffer (e_conn e)) -> do_calls (echo_react NMessage e) e = on_message e.
Proof.
  intros W. unfold echo_react, on_message. rewrite (proj2 (Z.leb_le _ _) (content_fits _ W)). cbn [do_calls do_call].
  rewrite (readout_all _ W), (consume_all e W), !bind_ok. by destruct (send true _ _).
Qed.

(** ** The default callbacks *)

(** [dummy_message_callback] of [net/TcpConnection.cc], which a server without
    callbacks of its own uses ([dummy_conn_callback] only writes to the log), and
    the call that it makes. *)
Definition dummy_message_callback e : outcome (conn_env P) :=
  Ok (on_conn (set_input (retrieve_all (m_input_buffer (e_conn e)))) e).

Definition dummy_react (n : notice) e : list user_call :=
  match n with NMessage => [URetrieve (content_bytes_len (m_input_buffer (e_conn e)))] | _ => [] end.

(** A server that sets no callbacks discards what it receives: the input buffer
    is empty when the callback returns, and nothing is sent. *)
Lemma dummy_discards e :
  wf (m_input_buffer (e_conn e)) ->
  do_calls (dummy_react NMessage e) e = dummy_message_callback e /\
  returns (fun e' => content (m_input_buffer (e_conn e')) = [] /\ e_accepted e' = e_accepted e) (dummy_message_callback e).
Proof.
  intros W. split; [|split; [by apply retrieve_all_wf|done]]. cbn [dummy_react do_calls do_call]. by rewrite (consume_all e W).
Qed.

(** ** The bytes received *)

(** What an event takes from the socket. *)
Definition received (ev : conn_event (P := P)) e : bytes :=
  match ev with
  | EvReadable readv => match readv (read_capacity (m_input_buffer (e_conn e))) with IoBytes d => d | _ => [] end
  | _ => []
  end.

(** The program makes no calls but those of its callbacks, and sets neither the
    write-complete nor the high-water callback. *)
Definition is_call (ev : conn_event (P := P)) : bool := match ev with EvCall _ _ => true | _ => false end.

Inductive echo_run : bytes -> conn_env P -> Prop :=
| echo_new e :
    starts e -> content (m_input_buffer (e_conn e)) = [] ->
    m_has_write_complete (e_conn e) = false -> m_has_high_watermark (e_conn e) = false -> echo_run [] e
| echo_next r ev e e' :
    echo_run r e -> event_ok ev e -> is_call ev = false -> conn_step echo_react ev e = Ok e' -> echo_run (r ++ received ev e) e'.

(** The members that only the callback and the writing change. *)
Record echo_inv r e : Prop := {
  ei_conn : conn_inv e;
  ei_accepted : e_accepted e = r;
  ei_input : content (m_input_buffer (e_conn e)) = [];
  ei_state : m_conn_state (e_conn e) <> kDisconnecting;
  ei_copier : m_zero_copier_ptr (e_conn e) = None;
  ei_flags : m_has_write_complete (e_conn e) = false /\ m_has_high_watermark (e_conn e) = false;
  ei_queues : e_tasks e = [] /\ e_timers e = [] /\ e_shut e = None;
  ei_wire : Forall (fun x : bool * bytes => x.1 = false) (e_wire e)
}.

(** All of them, as they are before and after. *)
Definition idle e e' : Prop :=
  e_accepted e' = e_accepted e /\ m_input_buffer (e_conn e') = m_input_buffer (e_conn e) /\
  m_zero_copier_ptr (e_conn e') = m_zero_copier_ptr (e_conn e) /\
  m_has_write_complete (e_conn e') = m_has_write_complete (e_conn e) /\
  m_has_high_watermark (e_conn e') = m_has_high_watermark (e_conn e) /\
  e_tasks e' = e_tasks e /\ e_timers e' = e_timers e /\ e_shut e' = e_shut e /\
  (Forall (fun x : bool * bytes => x.1 = false) (e_wire e) -> Forall (fun x : bool * bytes => x.1 = false) (e_wire e')).

#[local] Instance idle_preorder : PreOrder idle.
Proof. split; [by intros e; split_and!|]. intros e1 e2 e3 E1 E2. unfold idle in *. intuition congruence. Qed.

Lemma idle_inv r e e' :
  echo_inv r e -> idle e e' -> conn_inv e' -> m_conn_state (e_conn e') <> kDisconnecting -> echo_inv r e'.
Proof.
  intros [? ? ? ? ? [??] (?&?&?) ?] (?&E&?&?&?&?&?&?&?) Hc Hs. constructor; rewrite ?E; try done; try congruence; try (split_and!; congruence).
  auto.
Qed.

Lemma channel_call_idle op e e' : channel_call op e = Ok e' -> idle e e' /\ e_conn e' = e_conn e.
Proof. unfold channel_call. intros E. outcome_inv. destruct x. outcome_inv. subst e'. by split_and!. Qed.

(** The callbacks that make no calls. *)
Lemma callback_idle n e e' : n <> NMessage -> callback echo_react n e = Ok e' -> idle e e' /\ e_conn e' = e_conn e.
Proof. intros Hn. destruct n; [|done|]; intros [= <-]; by split_and!. Qed.

(** Collects what the calls of a run that succeeded leave as it was. *)
Ltac idle_calls :=
  repeat match goal with
  | H : channel_call _ _ = Ok _ |- _ => apply channel_call_idle in H as [? H]
  | H : callback echo_react _ _ = Ok _ |- _ => apply callback_idle in H as [? H]; [|done]
  end.
Ltac conn_eqs := repeat match goal with H : e_conn _ = _ |- _ => rewrite H end.
Ltac idle_trans := repeat (etrans; [|eassumption]); by split_and!.

Lemma handle_close_idle e e' : handle_close echo_react e = Ok e' -> idle e e' /\ m_conn_state (e_conn e') = kDisconnected.
Proof.
  unfold handle_close. intros E. outcome_inv. idle_calls. split; [idle_trans|by conn_eqs].
Qed.

Lemma established_idle e e' : TcpConnection.connect_established echo_react e = Ok e' -> idle e e' /\ m_conn_state (e_conn e') = kConnected.
Proof.
  unfold TcpConnection.connect_established. intros E. outcome_inv. idle_calls. split; [idle_trans|by conn_eqs].
Qed.

(** Writing: what the socket takes goes from the buffer to the wire. *)
Lemma write_socket_idle n e e' : write_socket_from_buffer n e = Ok e' -> idle e e' /\ m_conn_state (e_conn e') = m_conn_state (e_conn e).
Proof.
  unfold write_socket_from_buffer. intros E. repeat case_match; outcome_inv; subst; [done..|].
  split; [|done]. split_and!; try done. simpl. intros Hw. apply Forall_app_2; [done|]. by repeat constructor.
Qed.

Lemma transfer_idle e e' : m_zero_copier_ptr (e_conn e) = None -> transfer e = Ok e' ->
  idle e e' /\ m_conn_state (e_conn e') = m_conn_state (e_conn e).
Proof.
  unfold transfer, transfer_sending_state, copier_finished. intros Hz E. rewrite Hz in E.
  repeat case_match; outcome_inv; subst; by split_and!.
Qed.

Lemma writable_idle n mode chunk a r e e' :
  echo_inv r e -> handle_socket_writable n mode chunk a e = Ok e' -> idle e e' /\ m_conn_state (e_conn e') = m_conn_state (e_conn e).
Proof.
  intros I. unfold handle_socket_writable. intros E. outcome_inv. destruct (is_writing _); [|by injection E as <-]. outcome_inv.
  assert (idle e x1 /\ m_conn_state (e_conn x1) = m_conn_state (e_conn e)) as [I1 S1].
  { unfold writable_buffer in Hx1. destruct (_ || _); [|by injection Hx1 as <-]. outcome_inv.
    apply write_socket_idle in Hx3 as [I3 S3]. apply transfer_idle in Hx1 as [I4 S4]; [|destruct I3 as (_&_&->&_); apply I].
    split; [|by rewrite S4, S3]. etrans; [|exact I4]. etrans; [|exact I3]. by split_and!. }
  unfold writable_file in Hx2. replace (m_zero_copier_ptr (e_conn x1)) with (@None ZeroCopier) in Hx2 by (destruct I1 as (_&_&->&_); by rewrite (ei_copier _ _ I)).
  injection Hx2 as <-. unfold writable_done in E. destruct (is_sending_state _ _); [|by injection E as <-]. outcome_inv. idle_calls.
  rewrite Hx2 in E. replace (m_has_write_complete (e_conn x1)) with false in E by (destruct I1 as (_&_&_&->&_); by rewrite (proj1 (ei_flags _ _ I))).
  rewrite Hx2, S1, bool_decide_eq_false_2 in E by apply I. injection E as <-. split; [by etrans|by rewrite Hx2].
Qed.

(** Receiving: the data is in the output buffer when the callback returns. *)
Lemma send_shape d e e' :
  send true d e = Ok e' -> m_conn_state (e_conn e) = kConnected -> m_has_high_watermark (e_conn e) = false -> 0 < len d ->
  exists p cs out, e' = with_poller p cs (accepted d (on_conn (set_output out) e)).
Proof.
  unfold send, send_bytes_in_reactor, channel_call. intros E Hs Hw Hd.
  rewrite Hs, Hw, andb_false_r, (proj2 (Z.ltb_lt _ _) Hd), bool_decide_eq_true_2, bool_decide_eq_false_2 in E by done.
  outcome_inv. destruct (negb _); outcome_inv; [destruct x2; outcome_inv|]; subst e'; eauto.
Qed.

Lemma is_kConnected r e : echo_inv r e -> is_open (m_conn_state (e_conn e)) -> m_conn_state (e_conn e) = kConnected.
Proof. intros I [Ho|Ho]; [done|]. by destruct (ei_state _ _ I). Qed.

Lemma message_inv r d b e e' :
  echo_inv r e -> is_open (m_conn_state (e_conn e)) -> conn_inv e' -> wf b -> content b = d -> 0 < len d ->
  callback echo_react NMessage (on_conn (set_input b) e) = Ok e' -> echo_inv (r ++ d) e'.
Proof.
  intros I Ho I' W C Hd E. unfold callback in E. rewrite on_message_calls in E by done. unfold on_message in E.
  cbn [e_conn notify on_conn m_input_buffer set_input] in E. rewrite (readout_all b W), bind_ok, C in E.
  pose proof (is_kConnected _ _ I Ho) as Hs.
  apply send_shape in E as (p & cs & out & ->); [|done|apply (ei_flags _ _ I)|done].
  destruct I. constructor; simpl; try done. by rewrite ei_accepted0.
Qed.

Lemma readable_inv r readv e e' :
  echo_inv r e -> event_ok (EvReadable readv) e -> conn_inv e' -> handle_socket_readable echo_react readv e = Ok e' ->
  echo_inv (r ++ received (EvReadable readv) e) e'.
Proof.
  intros I [Ho Hk] I' E. destruct (ei_conn _ _ I) as [(ch & C & B) _]. pose proof (b_in _ B) as W.
  unfold handle_socket_readable in E. rewrite (in_loop_thread_ok e ch C), bind_ok in E. unfold readv_ok in Hk. simpl received.
  destruct (readv (read_capacity (m_input_buffer (e_conn e)))) as [en|d] eqn:Hr.
  { unfold read_all_from in E. unfold read_capacity in Hr. rewrite Hr in E. cbn in E. injection E as <-.
    rewrite app_nil_r. apply (idle_inv r e); [done|by split_and!|done|apply I]. }
  pose proof (read_all_from_safe readv _ d W Hr Hk) as S. destruct (read_all_from _ _) as [[[n err] b']|f]; [|done].
  destruct S as (-> & _ & W' & C'). rewrite (ei_input _ _ I) in C'. rewrite bind_ok in E. cbv zeta in E.
  destruct (Z.ltb_spec 0 (len d)) as [Hd|Hd]; [by eapply message_inv|].
  assert (d = []) as -> by (apply nil_length_inv; unfold len in Hd; lia). cbn in E. rewrite app_nil_r.
  apply handle_close_idle in E as [Hi Hs].
  destruct Hi as (A1 & A2 & A3 & A4 & A5 & A6 & A7 & A8 & A9). simpl in *. destruct I.
  constructor; rewrite ?A2; try done; try congruence; rewrite ?A4, ?A5, ?A6, ?A7, ?A8; auto.
Qed.

Lemma echo_step_inv r ev e e' :
  echo_inv r e -> event_ok ev e -> is_call ev = false -> conn_step echo_react ev e = Ok e' -> echo_inv (r ++ received ev e) e'.
Proof.
  intros I Hev Hc E. pose proof (conn_step_spec echo_react ev e echo_react_ok (ei_conn _ _ I) Hev) as I'. rewrite E in I'. simpl in I'.
  destruct ev as [|readv|n mode chunk a| | |i|in_loop c|p cs]; [|by eapply readable_inv|..]; try done; simpl; rewrite app_nil_r; simpl in E.
  - apply established_idle in E as [Hi Hs]. eapply idle_inv; [done..|]. by rewrite Hs.
  - pose proof E as E1. eapply writable_idle in E1 as [Hi Hs]; [|done]. eapply idle_inv; [done..|]. rewrite Hs. apply I.
  - apply handle_close_idle in E as [Hi Hs]. eapply idle_inv; [done..|]. by rewrite Hs.
  - destruct (ei_queues _ _ I) as (Ht & _). rewrite Ht in E. by injection E as <-.
  - destruct (ei_queues _ _ I) as (_ & Ht & _). rewrite Ht in E. by injection E as <-.
  - injection E as <-. eapply idle_inv; [done|by split_and!|done|apply I].
Qed.

Lemma echo_run_inv r e : echo_run r e -> echo_inv r e /\ reachable echo_react e.
Proof.
  induction 1 as [e Hs Hc Hw Hh|r ev e e' _ [I Hr] Hev Hcall E].
  - assert (reachable echo_react e) as Hr by (exists e; split; [done|apply rtc_refl]). split; [|done].
    pose proof (reachable_inv echo_react e echo_react_ok Hr). destruct Hs as (?&?&?&?&?&?&?&?&?&?&?&?&?&->).
    constructor; try done.
  - split; [by apply echo_step_inv|by eapply reachable_step].
Qed.

Lemma writable_done_output e e' : writable_done e = Ok e' -> m_output_buffer (e_conn e') = m_output_buffer (e_conn e).
Proof.
  unfold writable_done, shutdown_in_reactor. intros E. destruct (is_sending_state _ _); [|by injection E as <-]. outcome_inv.
  idle_calls. rewrite Hx in E. destruct (m_has_write_complete _); case_bool_decide; outcome_inv; subst e';
    try (destruct (negb _)); simpl; by conn_eqs.
Qed.

(** The socket takes all that the output buffer holds. *)
Lemma writable_all mode chunk a r e e' :
  echo_inv r e -> m_conn_state (e_conn e) = kConnected ->
  handle_socket_writable (len (content (m_output_buffer (e_conn e)))) mode chunk a e = Ok e' -> content (m_output_buffer (e_conn e')) = [].
Proof.
  intros I Hs E. destruct (ei_conn _ _ I) as [(ch & C & B) _]. pose proof (b_out _ B) as W. unfold handle_socket_writable in E.
  rewrite (in_loop_thread_ok e ch C), (my_channel_ok e ch C), !bind_ok in E.
  destruct (is_writing ch) eqn:Hw.
  2: { injection E as <-. apply (pending_output e ch B). intros Hp. apply (b_writing _ _ B) in Hp; [congruence|by left]. }
  outcome_inv. unfold writable_buffer, is_sending_state in Hx.
  assert (m_sending_state (e_conn e) = kNotSending \/ m_sending_state (e_conn e) = kSendingBuffer) as Hm.
  { pose proof (b_state _ B). pose proof (b_file _ B). rewrite (ei_copier _ _ I) in *. destruct (m_sending_state (e_conn e)); intuition. }
  replace (bool_decide _ || bool_decide _) with true in Hx by (symmetry; apply orb_true_iff; rewrite !bool_decide_eq_true; exact Hm).
  outcome_inv. unfold write_socket_from_buffer in Hx1. cbn [on_conn e_conn m_output_buffer set_sending] in Hx1.
  assert (content (m_output_buffer (e_conn x1)) = [] /\ m_zero_copier_ptr (e_conn x1) = None) as [C1 Z1].
  { pose proof (empty_content _ W) as Hz. destruct (_ =? 0).
    - injection Hx1 as <-. symmetry in Hz. apply bool_decide_eq_true in Hz. split; [done|apply I].
    - len_pose. rewrite (proj2 (Z.ltb_ge _ _)) in Hx1 by done. outcome_inv. subst x1. split; [|apply I]. simpl.
      destruct (retrieve_spec _ (len (content (m_output_buffer (e_conn e)))) W) as (out & Eo & _ & Co & _); [lia|].
      match goal with Hr : retrieve _ _ = Ok _ |- _ => rewrite Eo in Hr; injection Hr as <- end. rewrite Co. apply drop_ge. unfold len. lia. }
  assert (m_output_buffer (e_conn x) = m_output_buffer (e_conn x1) /\ m_zero_copier_ptr (e_conn x) = None) as [O2 Z2].
  { unfold transfer, transfer_sending_state, copier_finished in Hx. rewrite Z1 in Hx. repeat case_match; outcome_inv; by subst. }
  unfold writable_file in Hx0. rewrite Z2 in Hx0. injection Hx0 as <-. rewrite <- O2 in C1.
  by rewrite (writable_done_output _ _ E).
Qed.

(** What is on the wire when all of it comes from the output buffer. *)
Lemma wire_bytes w : Forall (fun x : bool * bytes => x.1 = false) w -> concat w.*2 = buffer_wire w.
Proof.
  induction 1 as [|[b d] w Hb _ IH]; [done|]. simpl in Hb. subst b. change (d ++ concat w.*2 = d ++ buffer_wire w). by rewrite IH.
Qed.

(** C8: the echo server echoes.  On a connection of the echo server, after any
    history of socket events with whatever the kernel answers: the bytes
    written to the socket, followed by those in the output buffer, are exactly
    the bytes received from it, in order; no received byte is left in the input
    buffer; while the connection is up, the channel waits for writability
    exactly when some of them are not yet written, and once the socket takes
    what it is offered, all of them are; and the next event returns.
    (Two failures remain: memory is exhausted, or the kernel refuses a
    registration.) *)
Theorem echo_exact r e :
  echo_run r e ->
  concat (e_wire e).*2 ++ content (m_output_buffer (e_conn e)) = r /\
  content (m_input_buffer (e_conn e)) = [] /\
  (m_conn_state (e_conn e) = kConnected ->
     (exists ch, my_channel e = Ok ch /\ (is_writing ch = true <-> concat (e_wire e).*2 <> r)) /\
     (forall mode chunk a, fine (fun e' => concat (e_wire e').*2 = r)
        (conn_step echo_react (EvWritable (len (content (m_output_buffer (e_conn e)))) mode chunk a) e))) /\
  (forall ev, event_ok ev e -> is_call ev = false -> fine (echo_run (r ++ received ev e)) (conn_step echo_react ev e)).
Proof.
  intros R. destruct (echo_run_inv r e R) as [I Hr]. destruct (ei_conn _ _ I) as [(ch & C & B) L].
  pose proof (b_wire _ B) as Hw. rewrite <- (wire_bytes _ (ei_wire _ _ I)), (ei_accepted _ _ I) in Hw. split_and!.
  - done.
  - apply I.
  - intros Hs. split.
    2: { intros mode chunk a. set (ev := EvWritable _ _ _ _). assert (event_ok ev e) as Hev by (simpl; lia).
      pose proof (conn_step_spec echo_react ev e echo_react_ok (ei_conn _ _ I) Hev) as S.
      destruct (conn_step echo_react ev e) as [e'|f] eqn:E; [|exact S]. simpl in E |- *.
      pose proof (writable_all _ _ _ _ _ _ I Hs E) as Co.
      pose proof (echo_step_inv r ev e e' I Hev eq_refl E) as I'. rewrite app_nil_r in I'.
      destruct (ei_conn _ _ I') as [(ch' & _ & B') _]. pose proof (b_wire _ B') as Hw'.
      by rewrite <- (wire_bytes _ (ei_wire _ _ I')), (ei_accepted _ _ I'), Co, app_nil_r in Hw'. }
    exists ch. split; [by eapply my_channel_ok|]. rewrite (b_writing _ _ B) by (by left). unfold pending. rewrite (ei_copier _ _ I).
    rewrite <- Hw. split; [intros [Hc|Hc]; [|done]|]; [|intros Hc; left]; intros E; apply Hc.
    + rewrite <- (app_nil_r (concat _)) in E at 1. by apply app_inv_head in E.
    + by rewrite E, app_nil_r.
  - intros ev Hev Hc. pose proof (conn_step_spec echo_react ev e echo_react_ok (ei_conn _ _ I) Hev) as S.
    destruct (conn_step echo_react ev e) as [e'|f] eqn:E; [|exact S]. by eapply echo_next.
Qed.
End echo.

(** * The server *)

(** [EchoServer::EchoServer] and [start]: a [TcpServer] without I/O threads, on
    the reactor of the caller. *)
Definition new_EchoServer (loop : reactor) (listen_addr : bytes) : world :=
  mkWorld (Some (new_TcpServer loop listen_addr (lit "EchoServer"))) ∅ [].

Definition echo_start (t : reactor) (w : world) : outcome world := server_start t false (fun _ => 0) w.

(** * A run *)

#[local] Existing Instance loop_thread.

(** A connection that is established, receives five bytes, writes two of them
    and receives three more. *)
Definition echo_demo : demo_env :=
  new_env 1 100 5 false false small_buffer small_buffer (new_EPollPoller 1 (∅ : table_epoll)) ∅.

Definition echo_talk : list (conn_event (P := EPollPoller table_epoll)) :=
  [EvEstablished; EvReadable (fun _ => IoBytes (lit "hello")); EvWritable 2 kZeroCopy 4096 answer_none;
   EvReadable (fun _ => IoBytes (lit "you"))].

Fixpoint echo_events (l : list (conn_event (P := EPollPoller table_epoll))) (r : bytes) (e : demo_env) : outcome (bytes * demo_env) :=
  match l with [] => Ok (r, e) | ev :: l => e' ← conn_step echo_react ev e; echo_events l (r ++ received ev e) e' end.

Fixpoint echo_ok (l : list (conn_event (P := EPollPoller table_epoll))) (e : demo_env) : Prop :=
  match l with
  | [] => True
  | ev :: l => event_ok ev e /\ is_call ev = false /\ match conn_step echo_react ev e with Ok e' => echo_ok l e' | Fail _ => False end
  end.

Lemma echo_demo_starts : starts echo_demo.
Proof.
  exists 100, 5, false, false, small_buffer, small_buffer, (new_EPollPoller 1 (∅ : table_epoll)), ∅.
  split_and!; [by apply epoll_inv_new|done|done|done| |done].
  split_and!; [constructor; vm_compute; discriminate..|reflexivity].
Qed.

Lemma echo_events_run l : forall r e, echo_run r e -> echo_ok l e -> exists r' e', echo_events l r e = Ok (r', e') /\ echo_run r' e'.
Proof.
  induction l as [|ev l IH]; intros r e R Hl; [by exists r, e|]. destruct Hl as (Hev & Hc & Hl). cbn [echo_events].
  destruct (conn_step echo_react ev e) as [e1|] eqn:E; [|done]. rewrite bind_ok. apply IH; [by eapply echo_next|done].
Qed.

Lemma echo_exact_witness :
  exists e, echo_events echo_talk [] echo_demo = Ok (lit "helloyou", e) /\
    concat (e_wire e).*2 = lit "he" /\ concat (e_wire e).*2 ++ content (m_output_buffer (e_conn e)) = lit "helloyou".
Proof.
  destruct (echo_events_run echo_talk [] echo_demo) as (r & e & E & R).
  - apply echo_new; [apply echo_demo_starts|reflexivity..].
  - all_ok.
  - destruct (echo_exact r e R) as (T & _). exists e. rewrite E. vm_compute in E. injection E as E1 E2.
    rewrite <- E1 in T. split; [|split; [by rewrite <- E2|exact T]]. by rewrite <- E1.
Defined.
