(* ===== verification/FileServer.v ===== *)
(** [flute/net/http/tests/HttpServer_test.cc]: the file server, the program
    that the repository builds on [HttpServer].  [generate_response] is its
    response callback; the file system is what [stat], [std::ifstream] and
    [open] find under a path. *)

From S2P Require Import Prelude OrdContainers StringPiece Endian Buffer HttpRequest HttpContext Format ZeroCopier Channel Poller EPollPoller Timestamp TcpConnection HttpResponse HttpServer HttpConnection.

(** What the system calls find under a path. *)
Record disk : Type := mkDisk {
  d_stat : bytes -> option Z;          (* the size, when stat(2) succeeds *)
  d_read : bytes -> bytes;             (* what an ifstream of it yields *)
  d_open : bytes -> open_result        (* what the copier finds *)
}.

Definition BASE : bytes := lit "/home/frank/code/flute/root/".

(** [s.find(pat) != std::string::npos]. *)
Fixpoint contains (pat s : bytes) : bool :=
  bool_decide (pat `prefix_of` s) || match s with [] => false | _ :: s => contains pat s end.

Section server.
Context (fs : disk) (gmtime_r : Z -> civil_time) (tv_sec tv_usec : Z).

Definition read_flie_as_string (path : bytes) : bytes := d_read fs path.
Definition has_source (path : bytes) : bool := bool_decide (is_Some (d_stat fs path)).

Definition tell_request_type (path : bytes) : HttpResponseBodyType :=
  if contains (lit ".html") path then kHtml
  else if contains (lit ".jpg") path then kJPEG
  else kUnSupported.

(** A [size_t]. *)
Definition filesize_mb (path : bytes) : Z :=
  match d_stat fs path with Some st_size => u64 (Z.quot st_size (1024 * 1024)) | None => u64 (-1) end.

(** [path.substr(path.find('/') + 1)]: everything when there is no slash, as
    [npos + 1] is 0; then the default page. *)
Definition source_of (path : bytes) : bytes :=
  let i := std_find "/"%char path in
  let path := drop (Z.to_nat (if i =? len path then 0 else i + 1)) path in
  BASE ++ (if bool_decide (path = []) then lit "index.html" else path).

Definition ok_headers (content_type : bytes) (resp : HttpResponse) : HttpResponse :=
  add_resp_header (lit "Server") (lit "Flute:Muduo")
    (set_content_type content_type (set_status_message (lit "OK") (set_status_code k200Ok resp))).

Definition generate_response (req : HttpRequest) (resp : HttpResponse) : outcome HttpResponse :=
  let full_path := source_of (m_request_path req) in
  if has_source full_path then
    match tell_request_type full_path with
    | kHtml => Ok (set_body (read_flie_as_string full_path) (ok_headers (lit "text/html") resp))
    | kJPEG => set_zerocopy full_path (d_open fs full_path) (ok_headers (lit "image/jpeg") resp)
    | kUnSupported => assert_ false;; Ok resp
    end
  else if bool_decide (m_request_path req = lit "/time") then
    t ← now tv_sec tv_usec;
    Ok (set_body (lit "<h1>UTC on Flute Server</h1>" ++ LF :: to_formatted_string gmtime_r t true ++ [LF]) (ok_headers (lit "text/html") resp))
  else Ok (set_close_conn true (set_status_message (lit "Not Found") (set_status_code k404NotFound resp))).
End server.

(** * What is served *)

(** A regular file. *)
Definition regular (fs : disk) (path c : bytes) : Prop :=
  d_stat fs path = Some (len c) /\ d_read fs path = c /\ d_open fs path = Opened c.

(** The header of a page or a picture of [n] bytes. *)
Definition file_header (close : bool) (content_type : bytes) (n : Z) : bytes :=
  lit "HTTP/1.1 200 OK" ++ kCRLF ++
  (if close then lit "Connection: close" ++ kCRLF
   else lit "Content-Length: " ++ dec n ++ kCRLF ++ lit "Connection: Keep-Alive" ++ kCRLF) ++
  lit "Content-Type: " ++ content_type ++ kCRLF ++ lit "Server: Flute:Muduo" ++ kCRLF ++ kCRLF.

Section served.
Context {P : Type} `{PollerLaws P}.
Context (fs : disk) (gmtime_r : Z -> civil_time) (tv_sec tv_usec : Z).
Implicit Types (e : conn_env P).

Abbreviation file_callback := (generate_response fs gmtime_r tv_sec tv_usec).

Definition page (close : bool) (c : bytes) : HttpResponse := set_body c (ok_headers (lit "text/html") (new_HttpResponse close)).
Definition picture (close : bool) (path c : bytes) : HttpResponse :=
  mkHttpResponse (resp_headers (ok_headers (lit "image/jpeg") (new_HttpResponse close))) k200Ok (lit "OK")
    (Some (new_ZeroCopier path (Opened c))) close [] kJPEG.

Lemma page_text close c n : render_response (page close c) n = file_header close (lit "text/html") n ++ c.
Proof. unfold render_response, file_header. destruct close; cbn -[lit dec app]; rewrite <- !app_assoc; done. Qed.

Lemma picture_text close path c n : render_response (picture close path c) n = file_header close (lit "image/jpeg") n.
Proof. unfold render_response, file_header. destruct close; cbn -[lit dec app]; rewrite <- ?app_assoc, ?app_nil_r; done. Qed.
Lemma has_regular path c : regular fs path c -> has_source fs path = true.
Proof. intros (Hs & _). unfold has_source. by rewrite Hs. Qed.

(** The response for a file, and its size. *)
Definition file_response (close : bool) (path c : bytes) : HttpResponse :=
  match tell_request_type path with kHtml => page close c | _ => picture close path c end.

Lemma generate_file q c :
  regular fs (source_of (m_request_path q)) c -> tell_request_type (source_of (m_request_path q)) <> kUnSupported ->
  file_callback q (new_HttpResponse (should_close q)) = Ok (file_response (should_close q) (source_of (m_request_path q)) c).
Proof.
  intros Hr Ht. unfold generate_response, file_response, read_flie_as_string. rewrite (has_regular _ _ Hr). destruct Hr as (_ & -> & ->).
  by destruct (tell_request_type _).
Qed.

Lemma file_response_ok close path c : len c < 2 ^ 31 -> response_ok (file_response close path c) (len c).
Proof.
  intros Hc. len_pose. assert (0 <= len c < 10 ^ 13) as Hr by (split; [lia|]; change (2 ^ 31) with 2147483648 in Hc; change (10 ^ 13) with 10000000000000; lia).
  assert (forall t, is_short t -> Forall (fun h : bytes * bytes => is_short h.1 /\ is_short h.2) (resp_headers (ok_headers t (new_HttpResponse close)))) as Hh.
  { intros t Ht. change (resp_headers _) with [(lit "Content-Type", t); (lit "Server", lit "Flute:Muduo")]. repeat constructor; done. }
  unfold file_response. destruct (tell_request_type path); constructor; try done; apply Hh; done.
Qed.

(** A request for a file is answered with the file.  On a connection that is
    up, a request whose target names an existing page or picture, arriving in
    any number of reads, is consumed exactly; for a page the connection has then
    accepted the status line, the headers with the length of the file, and the
    bytes of the file, and nothing else; for a picture the header alone, and the
    copier that sends the bytes of the file behind it has been started.  The
    connection is shut down exactly when the request asks for that. *)
Theorem file_served q hs rest early t d e c :
  let path := source_of (m_request_path q) in
  wire_ok q hs -> m_receive_time q = t -> ends_with_blank_line (render q hs ++ rest) ->
  regular fs path c -> len c < 2 ^ 31 -> tell_request_type path <> kUnSupported ->
  len (render_response (file_response (should_close q) path c) (len c)) <= PTRDIFF_MAX ->
  core_inv e -> m_conn_state (e_conn e) = kConnected -> content (m_input_buffer (e_conn e)) = [] ->
  Forall (fun x : Z * bytes => 0 < len x.2 <= kExtraBuf) (early ++ [(t, d)]) ->
  concat early.*2 ++ d = render q hs ++ rest ->
  (forall k, (0 < k <= length early)%nat -> ~ ends_with_blank_line (concat (take k early).*2)) ->
  fine (fun '(context, e') => context = new_HttpContext /\ content (m_input_buffer (e_conn e')) = rest /\
      e_accepted e' = e_accepted e ++
        (match tell_request_type path with
         | kHtml => file_header (should_close q) (lit "text/html") (len c) ++ c
         | _ => file_header (should_close q) (lit "image/jpeg") (len c)
         end) /\
      (tell_request_type path = kJPEG -> m_zero_copier_ptr (e_conn e') <> None) /\
      m_conn_state (e_conn e') = (if should_close q then kDisconnecting else kConnected))
    (http_reads file_callback (early ++ [(t, d)]) (new_HttpContext, e)).
Proof.
  intros path Hq Ht Hend Hr Hc Hty Hl I Hs Hin Hlen Hcat Hearly.
  eapply fine_mono; [|apply (http_reads_answered file_callback q hs rest (file_response (should_close q) path c) (len c) early t d e); try done].
  - intros [context e'] [-> (_ & A & C & S & Z)]. split_and!; [done|done| | |].
    + rewrite A. f_equal. unfold file_response. destruct (tell_request_type path); [apply page_text|apply picture_text|done].
    + intros E. apply Z. unfold file_response. by rewrite E.
    + rewrite S. unfold file_response. by destruct (tell_request_type path).
  - by apply generate_file.
  - by apply file_response_ok.
  - intros z Hz. unfold file_response in Hz. destruct (tell_request_type path); [done| |done]. injection Hz as <-. exact (new_copier_ok path (Opened c)).
Qed.

(** A request for any other file kills the server.  When the target names
    something that exists and is neither a page nor a picture by its name (the
    directory "." for example), the callback fails its [assert(false)]. *)
Theorem other_file_aborts q hs rest b c :
  let path := source_of (m_request_path q) in
  wire_ok q hs -> wf b -> content b = render q hs ++ rest -> ends_with_blank_line (content b) ->
  d_stat fs path = Some c -> tell_request_type path = kUnSupported ->
  default_on_request file_callback new_HttpContext b (m_receive_time q) = Fail FAssert.
Proof.
  intros path Hq W C Hend Hs Ht. unfold default_on_request. rewrite (last_four b W Hend), bind_ok. cbn -[parse_request generate_response].
  destruct (parse_render q hs rest b Hq W C) as (b' & -> & W' & C'). rewrite !bind_ok. cbn -[generate_response].
  unfold on_good_request, generate_response, has_source. fold path. rewrite Hs, Ht. done.
Qed.

(** The path is not confined to the directory that is served. *)
Lemma path_escapes rest : source_of (lit "/../" ++ rest) = BASE ++ lit "../" ++ rest.
Proof. reflexivity. Qed.
End served.

(** * A run *)

#[local] Existing Instance loop_thread.

Definition demo_disk : disk :=
  let page := lit "/home/frank/code/flute/root/a.html" in
  mkDisk (fun p => if bool_decide (p = page) then Some 5 else if bool_decide (p = BASE ++ lit ".") then Some 4096 else None)
    (fun p => if bool_decide (p = page) then lit "<p>hi" else []) (fun p => if bool_decide (p = page) then Opened (lit "<p>hi") else OpenFailed).

Definition demo_gmtime : Z -> civil_time := fun _ => mk_civil 2020 1 1 0 0 0.

Definition page_request : HttpRequest := mkHttpRequest kGet kHttp11 (lit "/a.html") [] 7 [(lit "Host", lit "h:80")].
Definition dot_request : HttpRequest := mkHttpRequest kGet kHttp11 (lit "/.") [] 7 [(lit "Host", lit "h:80")].

Lemma target_request_ok p : p = lit "/a.html" \/ p = lit "/." -> wire_ok (mkHttpRequest kGet kHttp11 p [] 7 [(lit "Host", lit "h:80")]) [(lit "Host", lit "h:80")].
Proof.
  intros Hp. constructor; [done|done| | | | |done].
  - by destruct Hp as [-> | ->]; split_and!; not_in_lit.
  - split_and!; by not_in_lit.
  - by left.
  - apply Forall_singleton. split_and!; [by not_in_lit..|]; split; by intros c [= <-].
Qed.

Lemma file_served_witness :
  exists context e', http_reads (generate_response demo_disk demo_gmtime 0 0) [(7, render page_request [(lit "Host", lit "h:80")])] (new_HttpContext, after [EvEstablished]) = Ok (context, e') /\
    e_accepted e' = file_header false (lit "text/html") 5 ++ lit "<p>hi".
Proof.
  pose proof (file_served demo_disk demo_gmtime 0 0 page_request [(lit "Host", lit "h:80")] [] [] 7
    (render page_request [(lit "Host", lit "h:80")]) (after [EvEstablished]) (lit "<p>hi")) as T.
  change ([] ++ [_]) with [(7, render page_request [(lit "Host", lit "h:80")])] in T.
  destruct (http_reads _ _ _) as [[context e']|f] eqn:E; [|by vm_compute in E]. exists context, e'. split; [reflexivity|].
  destruct T as (_ & _ & Ha & _).
  - apply target_request_ok. by left.
  - reflexivity.
  - exists (take (length (render page_request [(lit "Host", lit "h:80")]) - 4) (render page_request [(lit "Host", lit "h:80")])).
    vm_compute. reflexivity.
  - split_and!; vm_compute; reflexivity.
  - vm_compute. reflexivity.
  - vm_compute. discriminate.
  - vm_compute. discriminate.
  - apply (reachable_inv quiet), demo_reachable; [exact quiet_ok|all_ok].
  - vm_compute. reflexivity.
  - vm_compute. reflexivity.
  - repeat constructor; vm_compute; congruence.
  - vm_compute. reflexivity.
  - intros k Hk. simpl in Hk. lia.
  - rewrite Ha. vm_compute. reflexivity.
Defined.

Lemma other_file_aborts_witness :
  default_on_request (generate_response demo_disk demo_gmtime 0 0) new_HttpContext
    (buffer_of (render dot_request [(lit "Host", lit "h:80")] ++ [])) 7 = Fail FAssert.
Proof.
  apply (other_file_aborts demo_disk demo_gmtime 0 0 dot_request [(lit "Host", lit "h:80")] [] _ 4096).
  - apply target_request_ok. by right.
  - by apply wf_buffer_of.
  - by rewrite content_buffer_of.
  - rewrite content_buffer_of. exists (take (length (render dot_request [(lit "Host", lit "h:80")]) - 4) (render dot_request [(lit "Host", lit "h:80")])).
    vm_compute. reflexivity.
  - vm_compute. reflexivity.
  - vm_compute. reflexivity.
Defined.
