(* ===== verification/LogOutput.v ===== *)
(** [flute/common/LogLine.{h,cc}]: where the lines go.  [g_output] and
    [g_flush] are function pointers that [set_output] and [set_flush] replace;
    by default they are [fwrite] to and [fflush] of [stdout].

    [LogLine] records the lines that a statement gives to the output function;
    here they are delivered, and a whole program of statements is followed up to
    the first fatal one. *)

From S2P Require Import Prelude StringPiece Format Timestamp Timezone LogStream LogLine.

(** A stdio stream: what is buffered, what was written to the descriptor, and
    how many more bytes it takes before its writes fail. *)
Record FILE : Type := mkFILE { f_written : bytes; f_pending : bytes; f_room : Z }.

(** fwrite(3) with items of one byte: the number of bytes taken. *)
Definition fwrite (d : bytes) (f : FILE) : Z * FILE :=
  let n := Z.min (len d) (Z.max 0 (f_room f)) in
  (n, mkFILE (f_written f) (f_pending f ++ take (Z.to_nat n) d) (f_room f - n)).

Definition fflush (f : FILE) : FILE := mkFILE (f_written f ++ f_pending f) [] (f_room f).

Definition default_output (msg : bytes) (stdout : FILE) : outcome FILE :=
  let '(n_bytes, stdout) := fwrite msg stdout in
  assert_ (0 <? n_bytes);; Ok stdout.

Definition default_flush (stdout : FILE) : outcome FILE := Ok (fflush stdout).

(** The two pointers, and the state that the functions work on. *)
Record log_output (U : Type) : Type := mkOutput {
  g_output : bytes -> U -> outcome U;
  g_flush : U -> outcome U;
  o_state : U
}.
Arguments mkOutput {U}.
Arguments g_output {U}.
Arguments g_flush {U}.
Arguments o_state {U}.

Definition set_output {U} (out : bytes -> U -> outcome U) (o : log_output U) : log_output U := mkOutput out (g_flush o) (o_state o).
Definition set_flush {U} (fl : U -> outcome U) (o : log_output U) : log_output U := mkOutput (g_output o) fl (o_state o).
Definition to_stdout (f : FILE) : log_output FILE := mkOutput default_output default_flush f.

Definition put_line {U} (d : bytes) (o : log_output U) : outcome (log_output U) :=
  u ← g_output o d (o_state o); Ok (mkOutput (g_output o) (g_flush o) u).
Definition do_flush {U} (o : log_output U) : outcome (log_output U) :=
  u ← g_flush o (o_state o); Ok (mkOutput (g_output o) (g_flush o) u).

Fixpoint put_lines {U} (l : list bytes) (o : log_output U) : outcome (log_output U) :=
  match l with [] => Ok o | d :: l => o ← put_line d o; put_lines l o end.

(** A log statement of the program. *)
Record statement : Type := mkStatement {
  st_macro : log_macro;
  st_dir : bytes;            (* __FILE__ is st_dir ++ st_base *)
  st_base : bytes;
  st_line : Z;
  st_func : option bytes;
  st_items : list log_item;
  st_now : Timestamp;
  st_garbage : bytes;
  st_errno0 : Z;
  st_errno : Z
}.

Section output.
Context (gmtime : Z -> tm) (strerror : Z -> bytes).
Context {U : Type}.
Implicit Types (o : log_output U) (g : log_globals) (s : statement).

Definition run_statement s g : outcome log_end :=
  log_statement gmtime strerror (st_macro s) (st_dir s ++ st_base s ++ [NUL]) (st_line s) (st_func s) (st_items s)
    (st_now s) (st_garbage s) (st_errno0 s) (st_errno s) g.

(** The line that a statement produced goes through [g_output]; a fatal one is
    flushed and ends the program. *)
Definition log_to s g o : outcome (bool * log_globals * log_output U) :=
  r ← run_statement s g;
  let g' := match r with Returned g' | Aborted g' => g' end in
  o ← put_lines (drop (length (g_written g)) (g_written g')) o;
  match r with
  | Returned g' => Ok (false, g', o)
  | Aborted g' => o ← do_flush o; Ok (true, g', o)
  end.

(** The statements of a program, up to [abort()]. *)
Fixpoint log_program (l : list statement) g o : outcome (bool * log_globals * log_output U) :=
  match l with
  | [] => Ok (false, g, o)
  | s :: l => '(aborted, g, o) ← log_to s g o; if aborted : bool then Ok (true, g, o) else log_program l g o
  end.

(** * What is printed *)

(** The text of a statement. *)
Definition statement_text s g : bytes :=
  match zone_time gmtime (g_log_timezone g) (Z.quot (st_now s) kMicroSecondsPerSecond) with
  | Ok u => line_text kLogBufferSize []
      (line_items strerror (macro_ctor (st_macro s) (st_func s)) g u (st_now s) (st_items s) (st_errno s) (st_base s) (st_line s))
  | Fail _ => []
  end.

Definition is_fatal s : bool := bool_decide (ctor_level (macro_ctor (st_macro s) (st_func s)) = FATAL).

Record statement_ok g s : Prop := {
  so_dir : in_dir (st_dir s) /\ NUL ∉ st_dir s;
  so_base : NUL ∉ st_base s /\ "/"%char ∉ st_base s /\ len (st_base s) < 2 ^ 31;
  so_line : in_sw 32 (st_line s);
  so_ctor : ctor_ok (macro_ctor (st_macro s) (st_func s));
  so_items : Forall item_ok (st_items s);
  so_garbage : len (st_garbage s) = kLogBufferSize;
  so_errno : in_sw 32 (st_errno s) /\ NUL ∈ strerror (st_errno s) /\ len (strerror (st_errno s)) < 2 ^ 63;
  so_clock : exists u, clock_ok gmtime g (st_now s) u
}.

(** The lines of the enabled statements, up to the first fatal one. *)
Fixpoint program_lines (l : list statement) g : list bytes :=
  match l with
  | [] => []
  | s :: l =>
      if log_enabled (st_macro s) (st_errno0 s) g
      then statement_text s g :: (if is_fatal s then [] else program_lines l g) else program_lines l g
  end.

Fixpoint program_aborts (l : list statement) g : bool :=
  match l with [] => false | s :: l => log_enabled (st_macro s) (st_errno0 s) g && is_fatal s || program_aborts l g end.
End output.

(** * Theorems *)

Section stdout.
Context (gmtime : Z -> tm) (strerror : Z -> bytes).
Implicit Types (g : log_globals) (s : statement) (f : FILE).

(** What a statement does depends on the level and the zone only. *)
Definition same_log g g' : Prop := g_log_level g' = g_log_level g /\ g_log_timezone g' = g_log_timezone g.

Lemma enabled_same m e g g' : same_log g g' -> log_enabled m e g' = log_enabled m e g.
Proof. intros [El _]. unfold log_enabled. by rewrite El. Qed.

Lemma text_same s g g' : same_log g g' -> statement_text gmtime strerror s g' = statement_text gmtime strerror s g.
Proof. intros [_ Ez]. unfold statement_text, line_items. by rewrite Ez. Qed.

Lemma program_same l g g' : same_log g g' ->
  program_lines gmtime strerror l g' = program_lines gmtime strerror l g /\ program_aborts l g' = program_aborts l g.
Proof.
  intros Hs. induction l as [|s l [IH1 IH2]]; [done|]. simpl. by rewrite (enabled_same _ _ _ _ Hs), (text_same _ _ _ Hs), IH1, IH2.
Qed.

Lemma ok_same g g' s : same_log g g' -> statement_ok gmtime strerror g s -> statement_ok gmtime strerror g' s.
Proof.
  intros [_ Ez] []. constructor; try done. destruct so_clock0 as [u Hu]. exists u. unfold clock_ok in *. by rewrite Ez.
Qed.

Lemma line_text_grows size l : forall acc, len acc <= len (line_text size acc l).
Proof.
  induction l as [|i l IH]; intros acc; simpl; [done|]. etrans; [|apply IH]. case_match; [rewrite len_app; len_pose|]; lia.
Qed.

(** Every line starts with its tag. *)
Lemma statement_text_len s g : statement_ok gmtime strerror g s -> log_enabled (st_macro s) (st_errno0 s) g = true ->
  0 < len (statement_text gmtime strerror s g).
Proof.
  intros [] _. destruct so_clock0 as (u & _ & Hu & _). unfold statement_text. rewrite Hu. unfold line_items.
  assert (exists t l, type_items (macro_ctor (st_macro s) (st_func s)) = t :: l /\ fits kLogBufferSize t = true /\ len (item_text t) = 8) as (t & l & -> & Ft & Lt).
  { destruct (st_macro s); eexists _, _; (split; [reflexivity|]); split; vm_compute; reflexivity. }
  cbn [line_text app]. change (len []) with 0. rewrite Z.sub_0_r, Ft. eapply Z.lt_le_trans; [|apply line_text_grows].
  by rewrite Lt.
Qed.

Lemma default_output_ok d f : 0 < len d <= f_room f -> default_output d f = Ok (mkFILE (f_written f) (f_pending f ++ d) (f_room f - len d)).
Proof.
  intros Hd. unfold default_output, fwrite. rewrite Z.max_r, Z.min_l by lia. rewrite (proj2 (Z.ltb_lt _ _)) by lia. cbn.
  unfold len at 1. by rewrite Nat2Z.id, firstn_all.
Qed.

Lemma default_output_broken d f : f_room f <= 0 -> default_output d f = Fail FAssert.
Proof. intros Hf. assert (0 <= len d) by (unfold len; lia). unfold default_output, fwrite. by rewrite Z.max_l, Z.min_r by lia. Qed.

(** A statement is printed. *)
Lemma log_to_stdout s g f :
  statement_ok gmtime strerror g s -> cache_ok gmtime g -> len (concat (program_lines gmtime strerror [s] g)) <= f_room f ->
  exists g' f', log_to gmtime strerror s g (to_stdout f) = Ok (program_aborts [s] g, g', to_stdout f') /\ same_log g g' /\ cache_ok gmtime g' /\
    f_written f' ++ f_pending f' = f_written f ++ f_pending f ++ concat (program_lines gmtime strerror [s] g) /\
    f_room f' = f_room f - len (concat (program_lines gmtime strerror [s] g)) /\ (program_aborts [s] g = true -> f_pending f' = []).
Proof.
  intros Hok Hc. pose proof Hok as [[Hd Hnd] (Hnb & Hsl & Hlb) Hline Hct Hi Hg (He & Hz & Hz') [u Hu]].
  pose proof (statement_text_len s g Hok) as Hpos.
  pose proof (log_statement_spec gmtime strerror (st_macro s) (st_dir s) (st_base s) (st_line s) (st_func s) (st_items s) (st_now s)
    (st_garbage s) (st_errno0 s) (st_errno s) g u Hd Hnd Hnb Hsl Hlb Hline Hct Hi Hg He Hz Hz' Hc Hu) as S.
  unfold log_to, run_statement. simpl program_lines. simpl program_aborts. rewrite orb_false_r.
  destruct (log_enabled (st_macro s) (st_errno0 s) g).
  2: { intros Hr. rewrite S, bind_ok. cbn. rewrite drop_all. exists g, f. cbn. rewrite app_nil_r. split_and!; try done. change (len []) with 0. lia. }
  specialize (Hpos eq_refl). destruct S as (g1 & (t & -> & Hc1) & ->). rewrite bind_ok.
  assert (statement_text gmtime strerror s g = line_text kLogBufferSize [] (line_items strerror (macro_ctor (st_macro s) (st_func s)) g u (st_now s) (st_items s) (st_errno s) (st_base s) (st_line s))) as <-.
  { unfold statement_text. destruct Hu as (_ & -> & _). done. }
  set (text := statement_text gmtime strerror s g) in *.
  assert (concat (text :: (if is_fatal s then [] else [])) = text) as -> by (destruct (is_fatal s); simpl; by rewrite app_nil_r).
  intros Hr. 
  set (f1 := mkFILE (f_written f) (f_pending f ++ text) (f_room f - len text)).
  assert (put_lines [text] (to_stdout f) = Ok (to_stdout f1)) as Hput.
  { cbn [put_lines]. unfold put_line. cbn [g_output o_state g_flush to_stdout]. by rewrite default_output_ok by lia. }
  unfold is_fatal. destruct (bool_decide _); cbn [andb g_written flush output set_cache]; rewrite drop_app_length, Hput, bind_ok.
  - cbn. eexists _, (fflush f1). split; [reflexivity|]. split_and!; try done. cbn. by rewrite app_nil_r.
  - eexists _, f1. split; [reflexivity|]. by split_and!.
Qed.

Lemma program_cons s l g :
  program_lines gmtime strerror (s :: l) g = program_lines gmtime strerror [s] g ++ (if program_aborts [s] g then [] else program_lines gmtime strerror l g) /\
  program_aborts (s :: l) g = program_aborts [s] g || program_aborts l g.
Proof. simpl. by destruct (log_enabled _ _ _), (is_fatal s). Qed.

(** Everything that is logged is printed.  For every sequence of log
    statements, on a [stdout] that takes their text: no assertion fails,
    [stdout] gets exactly the lines of the statements that are enabled, complete
    and in order, up to the first fatal one, with which the program ends; then
    all of them, not only the last, have been written to the descriptor. *)
Theorem program_is_logged l : forall g f,
  Forall (statement_ok gmtime strerror g) l -> cache_ok gmtime g -> len (concat (program_lines gmtime strerror l g)) <= f_room f ->
  exists g' f', log_program gmtime strerror l g (to_stdout f) = Ok (program_aborts l g, g', to_stdout f') /\
    f_written f' ++ f_pending f' = f_written f ++ f_pending f ++ concat (program_lines gmtime strerror l g) /\
    (program_aborts l g = true -> f_pending f' = []).
Proof.
  induction l as [|s l IH]; intros g f Hl Hc Hr; cbn [log_program]; [exists g, f; by rewrite app_nil_r|].
  apply Forall_cons in Hl as [Hs Hl]. destruct (program_cons s l g) as [El Ea]. rewrite El in Hr |- *. rewrite Ea.
  rewrite concat_app, len_app in Hr. len_pose.
  destruct (log_to_stdout s g f Hs Hc) as (g1 & f1 & -> & Hsame & Hc1 & E1 & R1 & A1); [lia|]. rewrite bind_ok.
  destruct (program_aborts [s] g) eqn:Hab; cbn [orb].
  - exists g1, f1. rewrite app_nil_r. split_and!; [done|done|auto].
  - destruct (program_same l g g1 Hsame) as [P1 P2]. destruct (IH g1 f1) as (g' & f' & -> & E2 & A2).
    + eapply Forall_impl; [exact Hl|]. intros s'. by apply ok_same.
    + done.
    + rewrite P1, R1. lia.
    + rewrite P1 in E2. rewrite P2 in *. exists g', f'. split_and!; [done| |done]. rewrite E2, concat_app, !app_assoc. f_equal. by rewrite E1, app_assoc.
Qed.

(** When [stdout] takes nothing more, the next enabled statement, even a
    trace, aborts the program. *)
Theorem broken_stdout_aborts s g f :
  statement_ok gmtime strerror g s -> cache_ok gmtime g -> log_enabled (st_macro s) (st_errno0 s) g = true -> f_room f <= 0 ->
  log_to gmtime strerror s g (to_stdout f) = Fail FAssert.
Proof.
  intros Hok Hc Hen Hr. pose proof Hok as [[Hd Hnd] (Hnb & Hsl & Hlb) Hline Hct Hi Hg (He & Hz & Hz') [u Hu]].
  pose proof (log_statement_spec gmtime strerror (st_macro s) (st_dir s) (st_base s) (st_line s) (st_func s) (st_items s) (st_now s)
    (st_garbage s) (st_errno0 s) (st_errno s) g u Hd Hnd Hnb Hsl Hlb Hline Hct Hi Hg He Hz Hz' Hc Hu) as S.
  rewrite Hen in S. destruct S as (g1 & (t & -> & _) & S). unfold log_to, run_statement. rewrite S, bind_ok.
  destruct (bool_decide _); cbn [g_written flush output set_cache]; rewrite drop_app_length; cbn [put_lines];
    unfold put_line; cbn [g_output o_state to_stdout]; by rewrite default_output_broken.
Qed.
End stdout.

(** * A run *)

Definition demo_statement (m : log_macro) (s : string) : statement :=
  mkStatement m (lit "flute/net/") (lit "a.cc") 42 (literal "f") [ICstr (literal s)] demo_now (replicate 1000 NUL) 0 0.

(** A disabled trace, two lines, and a line that is not reached. *)
Definition demo_program : list statement :=
  [demo_statement LOG_TRACE "t"; demo_statement LOG_INFO "up"; demo_statement LOG_FATAL "bad"; demo_statement LOG_INFO "never"].

Lemma demo_statement_ok m s :
  m = LOG_TRACE \/ m = LOG_INFO \/ m = LOG_FATAL -> len (lit s) < 100 ->
  statement_ok demo_gmtime demo_strerror initial_globals (demo_statement m s).
Proof.
  intros Hm Hl. constructor; cbn.
  - split; [right; by exists (lit "flute/net")|not_in_lit].
  - split_and!; [not_in_lit|not_in_lit|by vm_compute].
  - by vm_compute.
  - destruct Hm as [->|[-> | ->]]; repeat constructor; by vm_compute.
  - constructor; [by apply literal_ok|constructor].
  - by vm_compute.
  - split_and!; [by vm_compute|apply list_elem_of_In; simpl; tauto|by vm_compute].
  - exists (mkTm 56 34 12 5 1 124 0 0 false 28800 (lit "CST")). by vm_compute.
Qed.

Lemma program_is_logged_witness :
  exists g f, log_program demo_gmtime demo_strerror demo_program initial_globals (to_stdout (mkFILE [] [] 4096)) = Ok (true, g, to_stdout f) /\
    f_written f = lit "[INFO]  20240205 12:34:56.123456 up - a.cc:42" ++ LF :: lit "[FATAL] 20240205 12:34:56.123456 bad - a.cc:42" ++ [LF].
Proof.
  destruct (program_is_logged demo_gmtime demo_strerror demo_program initial_globals (mkFILE [] [] 4096)) as (g & f & E & Hw & Hp).
  - repeat apply Forall_cons_2; try apply Forall_nil_2; apply demo_statement_ok; auto; by vm_compute.
  - exact initial_cache_ok.
  - vm_compute. discriminate.
  - exists g, f. split; [exact E|]. rewrite Hp, app_nil_r in Hw by (vm_compute; reflexivity). rewrite Hw. vm_compute. reflexivity.
Defined.
