(* ===== verification/Descriptors.v ===== *)
(** The descriptors that the library opens, and who closes them.

    Sockets ([net/Socket.cc]), the eventfd of a reactor ([net/Reactor.cc]), the
    timerfd of its timer queue ([net/TimerQueue.cc]), the epoll instance
    ([net/poller/EPollPoller.cc]), the reserved descriptor of an acceptor
    ([net/Acceptor.cc]), small files and log files ([common/FileUtil.cc]), zone
    files ([common/Timezone.cc]) and the source of a [ZeroCopier]
    ([common/ZeroCopier.cc]) are each held by one object, whose destructor closes
    them; all constructors but that of [Socket], which takes over a number, open
    them.  The table of the process is the set of open numbers; what the kernel
    answers is an argument. *)

From S2P Require Import Prelude.

(** What a system call that opens something answers; [None]: -1. *)
Abbreviation sys_answer := (option Z).

Abbreviation table := (gset Z).

(** close(2) and fclose(3): the number is free again. *)
Definition sys_close (fd : Z) (t : table) : table := t ∖ {[fd]}.

(** * Constructors and destructors *)

(** [LOG_SYSERR] and [abort()]. *)
Definition create_event_fd (a : sys_answer) : outcome Z := of_option FFatal a.
(** [LOG_SYSFATAL]. *)
Definition create_timer_fd (a : sys_answer) : outcome Z := of_option FFatal a.
Definition epoll_fd (a : sys_answer) : outcome Z := of_option FFatal a.
(** The [assert]s of [Acceptor::Acceptor] and of [AppendFile::AppendFile]. *)
Definition reserved_fd (a : sys_answer) : outcome Z := fd ← Ok (default (-1) a); assert_ (0 <=? fd);; Ok fd.
Definition append_file_fp (a : sys_answer) : outcome Z := assert_ (bool_decide (is_Some a));; of_option FNull a.

Record ReadSmallFile : Type := mkReadSmallFile { rsf_fd : Z; rsf_err : Z }.
Definition new_ReadSmallFile (a : sys_answer) (errno : Z) : ReadSmallFile :=
  match a with Some fd => mkReadSmallFile fd 0 | None => mkReadSmallFile (-1) errno end.
Definition destroy_ReadSmallFile (f : ReadSmallFile) (t : table) : table := if 0 <=? rsf_fd f then sys_close (rsf_fd f) t else t.

(** [detail::File]: a [FILE*] or null. *)
Definition new_File (a : sys_answer) : option Z := a.
Definition file_valid (f : option Z) : bool := bool_decide (is_Some f).
Definition destroy_File (f : option Z) (t : table) : table := match f with Some fd => sys_close fd t | None => t end.

(** [m_source_fd] of a [ZeroCopier]; [None]: not initialised, as the constructor
    leaves it when it returns early.  [stat_ok] is what fstat64 answers. *)
Definition copier_source_fd (a : sys_answer) (stat_ok : bool) : option Z :=
  match a with Some source_fd => if stat_ok then Some source_fd else None | None => None end.
Definition destroy_ZeroCopier (m_source_fd : option Z) (t : table) : outcome table :=
  fd ← of_option FUninit m_source_fd; Ok (sys_close fd t).

(** * The objects of a program *)

(** The classes whose constructor opens a descriptor. *)
Inductive opener : Type := KEventFd | KTimerFd | KEPoll | KReserved | KAppendFile | KSmallFile | KZoneFile | KCopier.
#[global] Instance opener_eq_dec : EqDecision opener.
Proof. solve_decision. Defined.

(** Objects with a descriptor: a [Socket] wraps a number that it is given. *)
Inductive kind : Type := KSocket | KOpens (k : opener).

(** The descriptor member after the constructor: [Some (-1)] when there is
    none, [None] when it was not initialised. *)
Definition construct (k : opener) (a : sys_answer) (stat_ok : bool) : outcome (option Z) :=
  match k with
  | KEventFd => fd ← create_event_fd a; Ok (Some fd)
  | KTimerFd => fd ← create_timer_fd a; Ok (Some fd)
  | KEPoll => fd ← epoll_fd a; Ok (Some fd)
  | KReserved => fd ← reserved_fd a; Ok (Some fd)
  | KAppendFile => fd ← append_file_fp a; Ok (Some fd)
  | KSmallFile => Ok (Some (rsf_fd (new_ReadSmallFile a 0)))
  | KZoneFile => Ok (Some (default (-1) (new_File a)))
  | KCopier => Ok (copier_source_fd a stat_ok)
  end.

Definition destruct_ (k : kind) (m : option Z) (t : table) : outcome table :=
  match k with
  | KOpens KSmallFile => fd ← of_option FUninit m; Ok (destroy_ReadSmallFile (mkReadSmallFile fd 0) t)
  | KOpens KZoneFile => fd ← of_option FUninit m; Ok (destroy_File (if 0 <=? fd then Some fd else None) t)
  | KOpens KCopier => destroy_ZeroCopier m t
  | _ => fd ← of_option FUninit m; Ok (sys_close fd t)
  end.

Record process : Type := mkProcess {
  p_open : table;                            (* all open descriptors *)
  p_objects : gmap Z (kind * option Z);      (* the live objects *)
  p_foreign : table;                         (* descriptors of the rest of the program *)
  p_leaked : table                           (* opened by a constructor that returned early *)
}.

Inductive fd_event : Type :=
| FdConstruct (id : Z) (k : opener) (a : sys_answer) (stat_ok : bool)
| FdWrap (id : Z) (fd : Z)                   (* Socket(int) *)
| FdCopy (id : Z) (from : Z)                 (* Socket(const Socket&), Socket(Socket&&) *)
| FdDestroy (id : Z)
| FdForeignOpen (fd : Z)
| FdForeignClose (fd : Z).

Definition opened (a : sys_answer) (t : table) : table := match a with Some fd => {[fd]} ∪ t | None => t end.

Definition fd_step (ev : fd_event) (p : process) : outcome process :=
  match ev with
  | FdConstruct id k a stat_ok =>
      m ← construct k a stat_ok;
      Ok (mkProcess (opened a (p_open p)) (<[id := (KOpens k, m)]> (p_objects p)) (p_foreign p)
            (match m with Some _ => p_leaked p | None => opened a (p_leaked p) end))
  | FdWrap id fd => Ok (mkProcess (p_open p) (<[id := (KSocket, Some fd)]> (p_objects p)) (p_foreign p ∖ {[fd]}) (p_leaked p))
  | FdCopy id from =>
      o ← of_option FNull (p_objects p !! from);
      Ok (mkProcess (p_open p) (<[id := o]> (p_objects p)) (p_foreign p) (p_leaked p))
  | FdDestroy id =>
      '(k, m) ← of_option FNull (p_objects p !! id);
      t ← destruct_ k m (p_open p);
      Ok (mkProcess t (delete id (p_objects p)) (p_foreign p) (p_leaked p))
  | FdForeignOpen fd => Ok (mkProcess ({[fd]} ∪ p_open p) (p_objects p) ({[fd]} ∪ p_foreign p) (p_leaked p))
  | FdForeignClose fd => Ok (mkProcess (sys_close fd (p_open p)) (p_objects p) (sys_close fd (p_foreign p)) (p_leaked p))
  end.

(** A new number of the kernel is not in use; objects are live when they are
    destroyed; the rest of the program closes its own descriptors only and gives
    only these to a socket; and no socket is copied. *)
Definition fresh_fd (fd : Z) (p : process) : Prop := 0 <= fd /\ fd ∉ p_open p.
Definition fd_ok (ev : fd_event) (p : process) : Prop :=
  match ev with
  | FdConstruct id k a stat_ok => p_objects p !! id = None /\ (forall fd, a = Some fd -> fresh_fd fd p)
  | FdWrap id fd => p_objects p !! id = None /\ fd ∈ p_foreign p /\ 0 <= fd
  | FdCopy _ _ => False
  | FdDestroy id => is_Some (p_objects p !! id)
  | FdForeignOpen fd => fresh_fd fd p
  | FdForeignClose fd => fd ∈ p_foreign p
  end.

(** * The invariant *)

Definition owns (p : process) (id fd : Z) : Prop := exists k, p_objects p !! id = Some (k, Some fd) /\ 0 <= fd.

(** Kinds whose constructor survives a refusal of the kernel. *)
Definition may_be_empty (k : kind) : bool := match k with KOpens KSmallFile | KOpens KZoneFile => true | _ => false end.

(** The descriptor member of an object of kind [k]. *)
Definition member_ok (k : kind) (m : option Z) : Prop :=
  match m with Some fd => 0 <= fd \/ fd = -1 /\ may_be_empty k = true | None => k = KOpens KCopier end.

Record fd_inv (p : process) : Prop := {
  fi_member : forall id k m, p_objects p !! id = Some (k, m) -> member_ok k m;
  fi_open : forall fd, fd ∈ p_open p <-> fd ∈ p_foreign p \/ fd ∈ p_leaked p \/ exists id, owns p id fd;
  fi_foreign : forall fd, fd ∈ p_foreign p -> fd ∉ p_leaked p /\ forall id, ~ owns p id fd;
  fi_leaked : forall fd id, fd ∈ p_leaked p -> ~ owns p id fd;
  fi_unique : forall id1 id2 fd, owns p id1 fd -> owns p id2 fd -> id1 = id2
}.

(** A constructor that returns holds what the kernel gave, or is that of a
    copier that returned early. *)
Lemma construct_spec k a stat_ok :
  (forall fd, a = Some fd -> 0 <= fd) ->
  match construct k a stat_ok with
  | Ok (Some fd) => fd = default (-1) a /\ member_ok (KOpens k) (Some fd)
  | Ok None => k = KCopier /\ (a = None \/ stat_ok = false)
  | Fail f => a = None /\ (f = FFatal \/ f = FAssert)
  end.
Proof.
  intros Ha. destruct a as [fd|].
  - specialize (Ha fd eq_refl). destruct k; cbn; try (by split; [|left]).
    + unfold reserved_fd. cbn. rewrite assert_true by lia. cbn. by split; [|left].
    + destruct stat_ok; auto.
  - destruct k; cbn; auto.
Qed.

(** A destructor closes its descriptor and nothing else. *)
Lemma destruct_spec k fd t : member_ok k (Some fd) -> destruct_ k (Some fd) t = Ok (if 0 <=? fd then sys_close fd t else t).
Proof.
  cbn. intros Hf. assert (may_be_empty k = false -> (0 <=? fd) = true) as Hge.
  { intros E. apply Z.leb_le. destruct Hf as [|[_ Hk]]; [done|congruence]. }
  destruct k as [|[]]; unfold destruct_, destroy_ZeroCopier, destroy_ReadSmallFile, destroy_File; cbn; try (by rewrite Hge).
  - done.
  - by destruct (0 <=? fd).
Qed.

(** Who owns what after an object was made. *)
Lemma owns_insert p id k m t f l id' fd :
  p_objects p !! id = None ->
  owns (mkProcess t (<[id := (k, m)]> (p_objects p)) f l) id' fd <-> owns p id' fd \/ id' = id /\ m = Some fd /\ 0 <= fd.
Proof.
  intros Hid. unfold owns. cbn. destruct (decide (id' = id)) as [->|Hne].
  - rewrite lookup_insert_eq. split.
    + intros (k' & [= -> ->] & Hf). by right.
    + intros [(k' & E & _)|(_ & -> & Hf)]; [congruence|]. by exists k.
  - rewrite lookup_insert_ne by done. split; [by left|]. by intros [?|[? _]].
Qed.

Lemma owns_delete p id t f l id' fd : owns (mkProcess t (delete id (p_objects p)) f l) id' fd <-> owns p id' fd /\ id' <> id.
Proof.
  unfold owns. cbn. destruct (decide (id' = id)) as [->|Hne].
  - rewrite lookup_delete_eq. split; [by intros (? & ? & _)|by intros [_ ?]].
  - rewrite lookup_delete_ne by done. intuition.
Qed.

(** A new object with a member that nobody else owns: the open descriptors are
    those of before, the new one's and the leaked ones. *)
Lemma new_object_inv id k m t f l p :
  fd_inv p -> p_objects p !! id = None -> member_ok k m ->
  (forall fd, fd ∈ t <-> fd ∈ f \/ fd ∈ l \/ (exists id, owns p id fd) \/ m = Some fd /\ 0 <= fd) ->
  (forall fd, fd ∈ f -> fd ∉ l /\ (m = Some fd -> fd < 0) /\ forall id, ~ owns p id fd) ->
  (forall fd, fd ∈ l -> (m = Some fd -> fd < 0) /\ forall id, ~ owns p id fd) ->
  (forall fd id, m = Some fd -> ~ owns p id fd) ->
  fd_inv (mkProcess t (<[id := (k, m)]> (p_objects p)) f l).
Proof.
  intros [] Hid Hm Ho Hf Hl Hn. constructor; cbn [p_open p_objects p_foreign p_leaked].
  - intros id' k' m'. destruct (decide (id' = id)) as [->|Hne]; [rewrite lookup_insert_eq; by intros [= <- <-]|].
    rewrite lookup_insert_ne by done. apply fi_member0.
  - intros fd. rewrite Ho. setoid_rewrite (owns_insert p id k m _ _ _ _ _ Hid). split.
    + intros [?|[?|[[id' ?]|?]]]; [by left|right; by left|right; right; exists id'; by left|right; right; exists id; by right].
    + intros [?|[?|[id' [?|(_ & ? & ?)]]]]; eauto 6.
  - intros fd Hin. destruct (Hf fd Hin) as (N1 & N2 & N3). split; [done|]. intros id' Ho'.
    apply (owns_insert p id k m _ _ _ _ _ Hid) in Ho' as [Ho'|(_ & E & Hge)]; [by eapply N3|]. specialize (N2 E). lia.
  - intros fd id' Hin Ho'. destruct (Hl fd Hin) as [N1 N2].
    apply (owns_insert p id k m _ _ _ _ _ Hid) in Ho' as [Ho'|(_ & E & Hge)]; [by eapply N2|]. specialize (N1 E). lia.
  - intros id1 id2 fd. rewrite !(owns_insert p id k m _ _ _ _ _ Hid). intros [O1|(-> & E1 & _)] [O2|(-> & E2 & _)].
    + by eapply fi_unique0.
    + by destruct (Hn _ _ E2 O1).
    + by destruct (Hn _ _ E1 O2).
    + done.
Qed.

Lemma fresh_unused fd p : fd_inv p -> fresh_fd fd p -> fd ∉ p_foreign p /\ fd ∉ p_leaked p /\ forall id, ~ owns p id fd.
Proof. intros I [_ Hn]. split_and!; [..|intros id Ho]; contradict Hn; apply (fi_open _ I); eauto. Qed.

Lemma constructed_inv id k a stat_ok m p :
  fd_inv p -> fd_ok (FdConstruct id k a stat_ok) p -> construct k a stat_ok = Ok m ->
  fd_inv (mkProcess (opened a (p_open p)) (<[id := (KOpens k, m)]> (p_objects p)) (p_foreign p)
            (match m with Some _ => p_leaked p | None => opened a (p_leaked p) end)).
Proof.
  intros I [Hid Ha] E. pose proof (construct_spec k a stat_ok ltac:(intros fd Ef; by apply (Ha fd))) as S. rewrite E in S.
  assert (forall fd, a = Some fd -> fd ∉ p_foreign p /\ fd ∉ p_leaked p /\ forall id, ~ owns p id fd) as Hu by (intros fd Ef; by apply fresh_unused, Ha).
  assert (forall fd, fd ∈ opened a (p_open p) <-> fd ∈ p_foreign p \/ fd ∈ p_leaked p \/ (exists id, owns p id fd) \/ a = Some fd) as Ho.
  { intros fd. destruct a as [x|]; simpl; rewrite ?elem_of_union, ?elem_of_singleton, (fi_open _ I); naive_solver. }
  assert (forall fd, a = Some fd -> 0 <= fd) as Hpos by (intros fd Ef; by apply (Ha fd)).
  destruct m as [x|].
  - destruct S as [-> Hm]. apply new_object_inv; try done.
    + intros fd. rewrite Ho. destruct a as [y|]; simpl; [naive_solver|]. split; [naive_solver|]. intros [?|[?|[?|[[= <-] ?]]]]; [..|lia]; auto.
    + intros fd Hf. destruct (fi_foreign _ I fd Hf). split_and!; [done| |done]. destruct a as [y|]; simpl; [|intros [= <-]; lia].
      intros [= <-]. by destruct (Hu _ eq_refl).
    + intros fd Hl. split; [|intros id'; by apply (fi_leaked _ I)]. destruct a as [y|]; simpl; [|intros [= <-]; lia].
      intros [= <-]. by destruct (Hu _ eq_refl) as (_ & ? & _).
    + intros fd id'. destruct a as [y|]; simpl; [intros [= <-]; by apply (Hu _ eq_refl)|]. intros [= <-] (k' & _ & ?). lia.
  - destruct S as [-> _]. apply new_object_inv; try done.
    + intros fd. rewrite Ho. destruct a as [y|]; simpl; rewrite ?elem_of_union, ?elem_of_singleton; naive_solver.
    + intros fd Hf. destruct (fi_foreign _ I fd Hf). split_and!; [|done..]. destruct a as [y|]; simpl; [|done].
      rewrite elem_of_union, elem_of_singleton. intros [->|?]; [by destruct (Hu _ eq_refl)|done].
    + intros fd Hl. split; [done|]. intros id' Ho'. destruct a as [y|]; simpl in Hl; [|by eapply (fi_leaked _ I)].
      apply elem_of_union in Hl as [->%elem_of_singleton|Hl]; [by eapply (Hu _ eq_refl)|by eapply (fi_leaked _ I)].
Qed.

Lemma wrap_inv id fd p : fd_inv p -> fd_ok (FdWrap id fd) p ->
  fd_inv (mkProcess (p_open p) (<[id := (KSocket, Some fd)]> (p_objects p)) (p_foreign p ∖ {[fd]}) (p_leaked p)).
Proof.
  intros I (Hid & Hf & Hge). destruct (fi_foreign _ I fd Hf) as [Hnl Hno]. apply new_object_inv; try done.
  - by left.
  - intros x. rewrite (fi_open _ I), elem_of_difference, elem_of_singleton. destruct (decide (x = fd)) as [->|Hne]; naive_solver.
  - intros x [Hx Hne]%elem_of_difference. destruct (fi_foreign _ I x Hx). split_and!; [done| |done]. intros [= ->]. by destruct Hne; apply elem_of_singleton.
  - intros x Hx. split; [|intros id'; by apply (fi_leaked _ I)]. by intros [= ->].
  - by intros x id' [= <-].
Qed.

Lemma destroy_inv id k fd p :
  fd_inv p -> p_objects p !! id = Some (k, Some fd) ->
  fd_inv (mkProcess (if 0 <=? fd then sys_close fd (p_open p) else p_open p) (delete id (p_objects p)) (p_foreign p) (p_leaked p)).
Proof.
  intros I Hid. pose proof I as [].
  assert (forall id' fd', owns p id' fd' -> id' <> id <-> ~ (0 <= fd /\ fd' = fd)) as Hother.
  { intros id' fd' Ho. split; [intros Hne [Hf ->]; apply Hne, (fi_unique0 _ _ fd); [done|by exists k]|].
    intros Hn ->. destruct Ho as (k' & E & Hf). apply Hn. by simplify_eq. }
  assert (0 <= fd -> owns p id fd) as Hown by (by exists k).
  constructor; cbn [p_open p_objects p_foreign p_leaked].
  - intros id' k' m. destruct (decide (id' = id)) as [->|Hne]; [by rewrite lookup_delete_eq|]. rewrite lookup_delete_ne by done. apply fi_member0.
  - intros fd'. setoid_rewrite owns_delete. unfold sys_close.
    assert (fd' ∈ (if 0 <=? fd then p_open p ∖ {[fd]} else p_open p) <-> fd' ∈ p_open p /\ ~ (0 <= fd /\ fd' = fd)) as ->.
    { destruct (Z.leb_spec 0 fd); [rewrite elem_of_difference, elem_of_singleton|]; intuition lia. }
    rewrite fi_open0. split.
    + intros [[Hf|[Hl|[id' Ho]]] Hn]; [by left|right; by left|right; right]. exists id'. split; [done|]. by apply (Hother _ fd').
    + intros [Hf|[Hl|[id' [Ho Hne]]]]; [| |split; [eauto|by apply (Hother _ _ Ho)] ].
      * split; [by left|]. intros [Hge ->]. by apply (fi_foreign0 _ Hf) in Hown.
      * split; [eauto|]. intros [Hge ->]. by apply (fi_leaked0 _ id Hl), Hown.
  - intros fd' Hf. destruct (fi_foreign0 _ Hf) as [N1 N2]. split; [done|]. intros id' [Ho _]%owns_delete. by eapply N2.
  - intros fd' id' Hf [Ho _]%owns_delete. by eapply fi_leaked0.
  - intros id1 id2 fd' [O1 _]%owns_delete [O2 _]%owns_delete. by eapply fi_unique0.
Qed.

(** The events that do not return: the kernel refuses a descriptor that the
    library cannot do without, or a copier is destroyed whose constructor
    returned early. *)
Definition fd_fails (ev : fd_event) (p : process) (f : fault) : Prop :=
  match ev with
  | FdConstruct id k None _ => may_be_empty (KOpens k) = false /\ k <> KCopier /\ (f = FFatal \/ f = FAssert)
  | FdDestroy id => p_objects p !! id = Some (KOpens KCopier, None) /\ f = FUninit
  | _ => False
  end.

Lemma fd_step_inv ev p : fd_inv p -> fd_ok ev p -> match fd_step ev p with Ok p' => fd_inv p' | Fail f => fd_fails ev p f end.
Proof.
  intros I Hok. destruct ev as [id k a stat_ok|id fd|id from|id|fd|fd]; cbn [fd_step]; try done.
  - destruct (construct k a stat_ok) as [m|f] eqn:E; cbn; [by eapply constructed_inv|].
    destruct Hok as [Hid Ha]. pose proof (construct_spec k a stat_ok ltac:(intros fd Ef; by apply (Ha fd))) as S. rewrite E in S.
    destruct S as [-> Hf]. split_and!; [by destruct k|by destruct k|done].
  - by apply wrap_inv.
  - destruct Hok as [[k m] Hid]. rewrite Hid. cbn [of_option]. rewrite bind_ok.
    pose proof (fi_member _ I _ _ _ Hid) as Hm. destruct m as [fd|].
    + rewrite (destruct_spec k fd) by done. cbn. by eapply destroy_inv.
    + simpl in Hm. subst k. cbn. done.
  - destruct (fresh_unused _ _ I Hok) as (Hf & Hl & Ho), I. constructor; cbn; [done| | |done|done].
    + intros fd'. rewrite !elem_of_union, fi_open0. tauto.
    + intros fd'. rewrite elem_of_union, elem_of_singleton. intros [->|Hf']; [done|by apply fi_foreign0].
  - destruct (fi_foreign _ I fd Hok) as [Hl Ho], I. constructor; cbn; [done| | |done|done].
    + intros fd'. unfold sys_close. rewrite !elem_of_difference, elem_of_singleton, fi_open0. split; [tauto|].
      intros [[Hf Hne]|[Hl'|[id Ho']]]; [tauto|split; [auto|by intros ->]|split; [eauto|]]. intros ->. by eapply Ho.
    + intros fd'. unfold sys_close. intros [Hf _]%elem_of_difference. by apply fi_foreign0.
Qed.

Inductive fd_next : process -> process -> Prop :=
| fd_next_event ev p p' : fd_ok ev p -> fd_step ev p = Ok p' -> fd_next p p'.

Lemma fd_rtc_inv p p' : fd_inv p -> rtc fd_next p p' -> fd_inv p'.
Proof.
  intros I R. induction R as [|p1 p2 p3 [ev p p' Hok E] _ IH]; [done|]. apply IH.
  pose proof (fd_step_inv ev p I Hok) as S. by rewrite E in S.
Qed.

(** A process that has not yet made any object of the library. *)
Definition fd_start (t : table) : process := mkProcess t ∅ t ∅.

Lemma no_objects t f l id fd : ~ owns (mkProcess t ∅ f l) id fd.
Proof. intros (k & E & _). cbn in E. by rewrite lookup_empty in E. Qed.

Lemma fd_start_inv t : fd_inv (fd_start t).
Proof.
  constructor; cbn.
  - intros id k m E. by rewrite lookup_empty in E.
  - intros fd. split; [by left|]. intros [|[?%not_elem_of_empty|[id Ho]]]; [done..|]. by destruct (no_objects _ _ _ _ _ Ho).
  - intros fd _. split; [set_solver|]. intros id. apply no_objects.
  - intros fd id. set_solver.
  - intros id1 id2 fd Ho. by destruct (no_objects _ _ _ _ _ Ho).
Qed.

Lemma leaked_grows ev p p' : fd_step ev p = Ok p' -> p_leaked p ⊆ p_leaked p'.
Proof.
  destruct ev as [id k a so|id fd|id from|id|fd|fd]; cbn; intros E; try (by injection E as <-).
  - apply bind_ok_inv in E as (m & _ & E). injection E as <-. cbn. destruct m, a; cbn; set_solver.
  - apply bind_ok_inv in E as (o & _ & E). by injection E as <-.
  - apply bind_ok_inv in E as ([k m] & _ & E). apply bind_ok_inv in E as (t & _ & E). by injection E as <-.
Qed.

(** What an object's destruction closes. *)
Lemma destroy_closes id p p' fd : fd_inv p -> fd_step (FdDestroy id) p = Ok p' -> fd ∈ p_open p -> fd ∉ p_open p' -> owns p id fd.
Proof.
  intros I E Hin Hout. cbn in E. destruct (p_objects p !! id) as [[k m]|] eqn:Hid; [|done]. cbn in E.
  pose proof (fi_member _ I _ _ _ Hid) as Hm. destruct m as [x|]; [|by simpl in Hm; subst k].
  rewrite (destruct_spec k x) in E by done. cbn in E. injection E as <-. cbn in Hout.
  destruct (Z.leb_spec 0 x); [|done]. unfold sys_close in Hout. rewrite elem_of_difference, elem_of_singleton in Hout.
  assert (fd = x) as -> by (destruct (decide (fd = x)); tauto). by exists k.
Qed.

(** A copy of a socket, or one moved from it, closes the descriptor of the
    original; the original then closes whatever was opened under the number. *)
Lemma copied_socket_run id id' fd p :
  p_objects p !! id = Some (KSocket, Some fd) -> p_objects p !! id' = None -> 0 <= fd ->
  exists p1 p2 p3, fd_step (FdCopy id' id) p = Ok p1 /\ fd_step (FdDestroy id') p1 = Ok p2 /\
    fresh_fd fd p2 /\ owns p2 id fd /\
    (p4 ← fd_step (FdForeignOpen fd) p2; fd_step (FdDestroy id) p4) = Ok p3 /\ fd ∈ p_foreign p3 /\ fd ∉ p_open p3.
Proof.
  intros Hid Hid' Hge. assert (id <> id') as Hne by congruence. do 3 eexists. cbn. rewrite Hid. cbn. split; [done|]. cbn.
  rewrite lookup_insert_eq. cbn. split; [done|]. cbn. rewrite delete_insert_id, Hid by done. cbn. unfold sys_close, fresh_fd. cbn.
  split; [split; [done|set_solver]|]. split; [by exists KSocket|]. split; [done|]. cbn. split; set_solver.
Qed.


(** A copier whose file cannot be opened is not safe to destroy: it closes a
    descriptor whose number was never set; and one whose file cannot be
    examined leaves its descriptor open. *)
Theorem failed_copier_descriptor id stat_ok p p' :
  (fd_step (FdConstruct id KCopier None stat_ok) p = Ok p' -> fd_step (FdDestroy id) p' = Fail FUninit) /\
  (forall fd, fd_step (FdConstruct id KCopier (Some fd) false) p = Ok p' -> fd ∈ p_open p' /\ fd ∈ p_leaked p' /\ fd_step (FdDestroy id) p' = Fail FUninit).
Proof.
  split.
  - intros [= <-]. cbn. by rewrite lookup_insert_eq.
  - intros fd [= <-]. cbn. rewrite lookup_insert_eq. split_and!; [set_solver..|done].
Qed.

(** * Flags *)

Definition O_NONBLOCK : Z := 2048.
Definition FD_CLOEXEC : Z := 1.

(** The status flags and the descriptor flags of the open descriptors. *)
Record fd_flags : Type := mkFlags { fl_status : Z; fl_fd : Z }.

(** fcntl(2): -1 when the descriptor is not open. *)
Definition fcntl_getfl (fd : Z) (t : gmap Z fd_flags) : Z := match t !! fd with Some f => fl_status f | None => -1 end.
Definition fcntl_getfd (fd : Z) (t : gmap Z fd_flags) : Z := match t !! fd with Some f => fl_fd f | None => -1 end.
Definition fcntl_setfl (fd flags : Z) (t : gmap Z fd_flags) : gmap Z fd_flags := alter (fun f => mkFlags flags (fl_fd f)) fd t.
Definition fcntl_setfd (fd flags : Z) (t : gmap Z fd_flags) : gmap Z fd_flags := alter (fun f => mkFlags (fl_status f) flags) fd t.

Definition setNonBlockAndCloseOnExec (sockfd : Z) (t : gmap Z fd_flags) : gmap Z fd_flags :=
  let flags := Z.lor (fcntl_getfl sockfd t) O_NONBLOCK in
  let t := fcntl_setfl sockfd flags t in
  let flags := Z.lor (fcntl_getfd sockfd t) FD_CLOEXEC in
  fcntl_setfd sockfd flags t.

(** The two flags are set, the other flags and the other descriptors stay, and
    a descriptor that is not open (a failed accept) is left alone. *)
Theorem set_flags_spec sockfd t :
  setNonBlockAndCloseOnExec sockfd t = alter (fun f => mkFlags (Z.lor (fl_status f) O_NONBLOCK) (Z.lor (fl_fd f) FD_CLOEXEC)) sockfd t.
Proof.
  unfold setNonBlockAndCloseOnExec, fcntl_setfl, fcntl_setfd, fcntl_getfl, fcntl_getfd. apply map_eq. intros fd.
  destruct (decide (sockfd = fd)) as [->|Hne]; [|by rewrite !lookup_alter_ne]. rewrite !lookup_alter_eq. by destruct (t !! fd).
Qed.

(** * The calls of [socket_ops] that only forward *)

(** [sizeof(struct sockaddr_in6)], also for an IPv4 address. *)
Definition kSockaddrLen : Z := 28.

Section forwards.
(** What the kernel answers for an open descriptor. *)
Context (k_connect : Z -> bytes -> Z -> Z) (k_read : Z -> Z -> outcome bytes) (k_write : Z -> bytes -> Z).

Definition ops_connect (sockfd : Z) (addr : bytes) : Z := k_connect sockfd addr kSockaddrLen.
Definition ops_read (sockfd count : Z) : outcome bytes := k_read sockfd count.
(** [readv] fills the vectors one after the other. *)
Fixpoint scatter (lens : list Z) (d : bytes) : list bytes :=
  match lens with [] => [] | n :: lens => take (Z.to_nat n) d :: scatter lens (drop (Z.to_nat n) d) end.
Definition ops_readv (sockfd : Z) (lens : list Z) : outcome (list bytes) :=
  d ← k_read sockfd (foldr Z.add 0 lens); Ok (scatter lens d).
Definition ops_write (sockfd : Z) (buf : bytes) : Z := k_write sockfd buf.

(** Nothing is lost between the vectors: together they hold what was read. *)
Lemma scatter_concat lens d : Forall (fun n => 0 <= n) lens -> len d <= foldr Z.add 0 lens -> concat (scatter lens d) = d.
Proof.
  intros Hl. revert d. induction Hl as [|n lens Hn Hl IH]; intros d Hd; simpl in *.
  - destruct d; [done|]. unfold len in Hd. simpl in Hd. lia.
  - assert (0 <= foldr Z.add 0 lens) by (clear -Hl; induction Hl; simpl; lia).
    rewrite IH; [apply take_drop|]. unfold len in *. rewrite length_drop. lia.
Qed.
End forwards.

(** * A run *)

Definition demo_fds : list fd_event :=
  [FdConstruct 100 KEPoll (Some 3) true; FdConstruct 101 KTimerFd (Some 4) true; FdConstruct 102 KSmallFile None true;
   FdConstruct 103 KCopier (Some 5) true; FdForeignOpen 6; FdForeignOpen 7; FdWrap 104 7; FdDestroy 103; FdDestroy 104;
   FdDestroy 102; FdDestroy 101; FdDestroy 100].

Fixpoint fd_run (l : list fd_event) (p : process) : outcome process :=
  match l with [] => Ok p | ev :: l => p ← fd_step ev p; fd_run l p end.

Fixpoint fd_run_ok (l : list fd_event) (p : process) : Prop :=
  match l with [] => True | ev :: l => fd_ok ev p /\ match fd_step ev p with Ok p' => fd_run_ok l p' | Fail _ => False end end.

Lemma fd_run_rtc l : forall p, fd_run_ok l p -> exists p', fd_run l p = Ok p' /\ rtc fd_next p p'.
Proof.
  induction l as [|ev l IH]; intros p Hl; [exists p; split; [done|apply rtc_refl]|]. destruct Hl as [Hok Hl]. cbn [fd_run].
  destruct (fd_step ev p) as [p1|] eqn:E; [|done]. destruct (IH p1 Hl) as (p' & E' & R). exists p'. rewrite bind_ok. split; [done|].
  eapply rtc_l; [by econstructor|done].
Qed.

